(* ===== verification/_CoqProject ===== *)
-Q . S2P
Prelude.v
Logger.v
Json.v
Msg.v
Web.v
Http.v
Ctl.v
Kv.v
Db.v
Manager.v
Interleave.v
ManagerConfig.v
Context.v
Schedule.v
Config.v
ConfigDiff.v
Job.v
JobLoop.v
Provider.v
Worker.v
Stages.v
Channels.v
Loops.v
Due.v
Shutdown.v
Runner.v
RsyncLog.v
Hooks.v
Lifecycle.v
Cgroup.v
Daemon.v
System.v
Cli.v
