(* ===== verification/Prelude.v ===== *)
(** * tunasync: a verification library

    tunasync mirrors software repositories.  A _manager_ (src/manager) keeps the status of
    every mirror in a key-value store and serves it over HTTP.  _Workers_ (src/worker) run the
    syncs: each mirror is a _job_ with a loop of its own, a provider that knows the command
    to run, and hooks around each attempt; a queue says when the next sync is due.  Workers
    register with the manager, report the progress of their jobs to it and take commands
    from it; the client tunasynctl (src/cmd/tunasynctl) sends those commands and lists what
    the manager knows.  The messages and helpers they share are in src/internal.

    ** How the files follow the code

    - [Prelude]: Go values (an error is its message, a nilable slice an option, a panic the
      constructor [Panic]), the notations [c ⇓ a] (returns) and [c ↯ m] (panics), strings
      ordered by byte, the order of [range] over a map, shared lemmas and automation.
    - Messages.  [Json]: encoding/json over parsed documents.  [Msg]: internal/msg.go,
      status.go.  [Web]: status_web.go.  [Http]: the requests of internal/util.go.
      [Logger]: internal/logger.go.
    - Manager.  [Kv]: the back ends db_bolt.go, db_redis.go, db_leveldb.go, db_badger.go
      (Modules Bolt, Redis, Leveldb, Badger) behind the class [KvAdapter].  [Db]: db.go, Module
      [kvDBAdapter], behind the class [DbAdapter].  [Manager]: the handlers of server.go and
      middleware.go, one request at a time.  [Interleave]: the same handlers as programs whose
      steps interleave under the lock.  [ManagerConfig]: config.go and the start.
    - Worker.  [Config], [ConfigDiff]: config.go, config_diff.go.  [Context], [Schedule]:
      context.go, schedule.go.  [Provider]: provider.go and the constructors of providers
      and hooks.  [Job]: one run of a job ([runJobWrapper] of job.go); [JobLoop]: its loop, its
      goroutines and the semaphore, as a step relation over all jobs.  [Runner]: runner.go and
      the run of a command provider; [RsyncLog]: exit codes and sizes of rsync; [Hooks]: what
      each hook does; [Lifecycle]: [Start], [Wait] and [Run] of the providers with their log
      file; [Cgroup]: [initCgroup] and the hand-over of a process to its control group.
      [Worker]: worker.go, its handlers and loops as functions of its state; [Channels]: its
      goroutines with every place where they block, as a step relation over [JobLoop], each
      run going through the [Stages] of its messages; [Due]: which mirrors the schedule of
      [Channels] still has; [Shutdown]: [Halt] among those goroutines; [Loops]: a job with
      more than one loop.
    - [Ctl]: the commands of cmd/tunasynctl.  [Daemon]: cmd/tunasync, the start of both
      daemons and the signals of the worker.  [System]: client, manager and worker exchanging
      documents.  [Cli]: the command lines of both programs, with the flags of each command,
      what its action reads of them, and the display of listings.

    Definitions keep the names of the code; what a definition translates is a function of that
    name, or the lines its comment names.

    ** What crosses the interfaces

    A component is proved against the promise of the one below it.  [KvLaws] speaks of one
    finite map per bucket, and the four back ends are instances ([backends_refine_maps]);
    [DbLaws] speaks of two maps, workers and statuses, with [kvDBAdapter] an instance on any
    [KvLaws]; handlers, races and the whole system rest on [DbLaws] only.  The queue rests on
    the class [SkipList], the worker on [SkipList], [MirrorSort] and [WorkerProvider], the
    system on a [Router].  Code that is not in the repository is a parameter with what its
    documentation states as laws: the storage libraries, goskiplist, [sort.Sort], gin's
    matching of paths, urfave/cli's reading of a command line ([Cli.parsed]), the TOML decoder,
    mergo, go-shlex, regexp (but for the one fixed expression, which [RsyncLog] gives as a
    language), docker, zfs, btrfs, the cgroup libraries, templates, the text of a date, of a
    document and of a formatted value.

    ** What the theorems show

    - State that stays sound: [semaphore_bound], [one_sync_per_job] in every reachable state of
      all jobs; [worker_stays_sound] whatever the worker handles; [jobs_follow_config] from the
      command line through any events and signals; [run_ends_idle], [hooks_restore_context],
      [context_well_typed] for a run; [requests_never_block] for concurrent handlers of the
      manager, [lock_progress] for the goroutines of the worker; [mirrors_stay_due]: a mirror
      that is neither paused nor disabled is in the schedule or on its way to it, unless one
      of four named steps forgot it.
    - Refinement: [backends_refine_maps], [queue_refines_map], [job_command_effect];
      across programs, [command_line_understood] (command line to handler),
      [command_reaches_job] (client to job) and [report_reaches_store] (job to store); [jobs_refine_loops] and [wrapper_follows_stages] tie
      [Channels] to [JobLoop] and [Job]; [alone_serves], [line_size_is_regexp],
      [requests_are_commands] equate two definitions.
    - What each operation does, on every branch: the theorems named after it.
    - Round trips: [messages_roundtrip], [restart_learns_store], [web_status_roundtrip].
    - Termination and bounds: [stop_ends_with_room], [stop_is_inevitable], [halt_verdict]
      (whether an interrupted worker ends), [initCgroup_ready],
      [killAll_verdict], [recursiveMirrors_leaves], [wrapper_bounded].
    - What goes wrong, as theorems about the code as it is: [handlers_race],
      [disable_can_deadlock], [early_disable_blocks], [halt_can_hang], [ping_forgets],
      [start_can_be_lost], [started_twice], [pidfile_ignored],
      [refused_command_reported_done], [late_message_schedules_disabled],
      [equal_dues_lose_mirror], [fast_success_panics], [stale_log_is_read] and others.

    ** Fuel and bounds

    Recursion is structural wherever the code's is.  [Cgroup.drain] has fuel for a loop of the
    code that ends only when a read finds no process; [initCgroup_ready] shows two rounds are
    enough while nothing forks.  The retries of a job count down the provider's own number;
    [kill_rounds], [docker_polls] and [register_root] count the rounds the code has.  Integers
    are Z; a [time.Duration] is reduced to 64 bits where the code multiplies ([wrap64]).

    ** What is not modelled, and why

    - The HTTP servers beyond the address they listen on; the logging of the manager's
      requests; the opening and closing of the stores.
    - The messages of the logs: [Logger] says what a call of the logger writes, and the other
      files leave the calls out.
    - The bytes of JSON and TOML: documents are syntax trees.
    - In [Worker] handlers are single steps.  [Channels] has the lock and the channels they
      block on, and of the schedule the names without their instants; [Shutdown] ends where
      [Worker.on_exit] begins.  [JobLoop] and [Channels] give a job one loop; [Loops] has the
      job that was started twice, one job apart, with the commands of clients only.
    - In [Interleave] a waiting writer does not hold back new readers as it does in Go; handlers
      never take the lock twice, so this only allows more interleavings. *)

From stdpp Require Export base gmap strings list sorting fin_maps pretty.
From Stdlib Require Export ZArith Lia.

#[export] Set Default Goal Selector "!".

(** ** Go values *)

(** An [error] is its message; a nil error is [None]. *)
Abbreviation error := string (only parsing).

(** A slice or a map that the code may leave nil. *)
Abbreviation nilable A := (option A) (only parsing).

(** A computation that returns a value or panics. *)
Inductive comp (A : Type) : Type :=
| Ret (a : A)
| Panic (msg : string).
Arguments Ret {A} a.
Arguments Panic {A} msg.

#[export] Instance comp_ret : MRet comp := fun A a => Ret a.
#[export] Instance comp_bind : MBind comp := fun A B f c =>
  match c with Ret a => f a | Panic m => Panic m end.

(** The pair [(value, error)] of a Go function, read as a sum when the
    value is only meaningful without an error. *)
Inductive result (A : Type) : Type :=
| Ok (a : A)
| Err (e : error).
Arguments Ok {A} a.
Arguments Err {A} e.

#[export] Instance result_ret : MRet result := fun A a => Ok a.
#[export] Instance result_bind : MBind result := fun A B f c =>
  match c with Ok a => f a | Err e => Err e end.

Definition is_ok {A} (r : result A) : bool :=
  match r with Ok _ => true | Err _ => false end.

Definition get_err {A} (r : result A) : option error :=
  match r with Ok _ => None | Err e => Some e end.

#[export] Instance comp_eq_dec {A} `{EqDecision A} : EqDecision (comp A).
Proof. solve_decision. Defined.
#[export] Instance result_eq_dec {A} `{EqDecision A} : EqDecision (result A).
Proof. solve_decision. Defined.

(** Inversion of a successful sequence of fallible steps. *)
Lemma result_bind_ok {A B} (r : result A) (f : A -> result B) b :
  (r ≫= f) = Ok b <-> exists a, r = Ok a /\ f a = Ok b.
Proof.
  split.
  - destruct r as [a|e]; simpl; [eauto|done].
  - by intros (a & -> & ?).
Qed.

Ltac result_inv :=
  repeat match goal with
  | H : mbind _ _ = Ok _ |- _ => apply result_bind_ok in H as (? & ? & H)
  | H : Ok _ = Ok _ |- _ => injection H as H; subst
  | H : mret _ = Ok _ |- _ => cbv [mret result_ret] in H
  end.

(** [returns c Q]: the computation returns, and its value satisfies [Q]. *)
Definition returns {A} (c : comp A) (Q : A -> Prop) : Prop := exists a, c = Ret a /\ Q a.

Lemma returns_ret {A} (a : A) (Q : A -> Prop) : Q a -> returns (Ret a) Q.
Proof. intros HQ. by exists a. Qed.

Lemma returns_bind {A B} (c : comp A) (f : A -> comp B) (R : A -> Prop) (Q : B -> Prop) :
  returns c R -> (forall a, R a -> returns (f a) Q) -> returns (c ≫= f) Q.
Proof. intros (a & -> & HR) Hf. by apply Hf. Qed.

Lemma returns_mono {A} (c : comp A) (R Q : A -> Prop) :
  returns c R -> (forall a, R a -> Q a) -> returns c Q.
Proof. intros (a & -> & HR) HQ. exists a. eauto. Qed.

(** [c ⇓ a]: the computation returns [a]; [c ↯ m]: it panics with [m]. *)
Declare Scope go_scope.
Delimit Scope go_scope with go.
Notation "c ⇓ a" := (c = Ret a) (at level 70, no associativity) : go_scope.
Notation "c ↯ m" := (c = Panic m) (at level 70, no associativity) : go_scope.
#[global] Open Scope go_scope.

(** What closes the common last steps: a handler's answer, a comparison of a string with
    itself. *)
Create HintDb tunasync.
#[export] Hint Extern 0 (returns (Ret _) _) => by apply returns_ret : tunasync.

(** Case analysis on an integer comparison of the goal. *)
Ltac case_eqb :=
  match goal with
  | |- context [Z.eqb ?a ?b] => destruct (Z.eqb_spec a b)
  | |- context [Z.ltb ?a ?b] => destruct (Z.ltb_spec a b)
  | |- context [Z.leb ?a ?b] => destruct (Z.leb_spec a b)
  end.

(** ** Strings: Go compares them byte by byte *)


Definition str_ltb (s t : string) : bool := String.ltb s t.

Lemma ascii_compare_refl c : Ascii.compare c c = Eq.
Proof. unfold Ascii.compare. apply N.compare_refl. Qed.

Lemma str_compare_refl s : String.compare s s = Eq.
Proof. induction s as [|c s IH]; simpl; [done|]. by rewrite ascii_compare_refl. Qed.

Lemma str_ltb_le s t : str_ltb s t = true <-> String.le s t /\ s <> t.
Proof.
  unfold str_ltb, String.ltb, String.le, String.leb.
  pose proof (String.compare_eq_iff s t) as Heq.
  destruct (String.compare s t) eqn:E; simpl; split; intros H; try done.
  - destruct H as [_ Hne]. by destruct Hne; apply Heq.
  - split; [done|]. intros ->. by rewrite str_compare_refl in E.
  - by destruct H.
Qed.

Lemma str_ltb_irrefl s : str_ltb s s = false.
Proof. apply not_true_is_false. rewrite str_ltb_le. by intros [_ ?]. Qed.

#[export] Hint Resolve str_ltb_irrefl : tunasync.

Lemma str_ltb_trans s t u : str_ltb s t = true -> str_ltb t u = true -> str_ltb s u = true.
Proof.
  rewrite !str_ltb_le. intros [Hst Hn1] [Htu Hn2]. split; [by etrans|].
  intros ->. apply Hn1. by apply (anti_symm String.le).
Qed.

Lemma str_ltb_asymm s t : str_ltb s t = true -> str_ltb t s = false.
Proof.
  intros H. apply not_true_is_false. intros H'.
  pose proof (str_ltb_trans s t s H H') as Hs. by rewrite str_ltb_irrefl in Hs.
Qed.

Lemma str_le_ltb s t : String.le s t <-> str_ltb t s = false.
Proof.
  split.
  - intros H. apply not_true_is_false. rewrite str_ltb_le. intros [H' Hne].
    apply Hne. by apply (anti_symm String.le).
  - intros H. destruct (decide (s = t)) as [->|Hne]; [done|].
    destruct (total String.le s t) as [|Hts]; [done|].
    assert (str_ltb t s = true) by (by apply str_ltb_le). congruence.
Qed.

Lemma str_ltb_trichotomy s t :
  {str_ltb s t = true} + {s = t} + {str_ltb t s = true}.
Proof.
  destruct (str_ltb s t) eqn:E1; [by left; left|].
  destruct (str_ltb t s) eqn:E2; [by right|].
  left; right. apply (anti_symm String.le); by apply str_le_ltb.
Qed.

Lemma str_ltb_cons c1 s1 c2 s2 :
  str_ltb (String c1 s1) (String c2 s2)
  = match Ascii.compare c1 c2 with Lt => true | Gt => false | Eq => str_ltb s1 s2 end.
Proof. unfold str_ltb, String.ltb. simpl. by destruct (Ascii.compare c1 c2). Qed.


(** [strings.HasPrefix] and [strings.HasSuffix]. *)
Definition has_prefix (s pre : string) : bool := String.prefix pre s.

Definition has_suffix (s suf : string) : bool :=
  String.prefix (String.rev suf) (String.rev s).

(** [strings.Split(s, sep)] for a separator of one byte. *)
Fixpoint split_char (c : Ascii.ascii) (s : string) : list string :=
  match s with
  | EmptyString => [EmptyString]
  | String d s' =>
      if decide (d = c) then EmptyString :: split_char c s'
      else match split_char c s' with
           | [] => [String d EmptyString]
           | x :: xs => String d x :: xs
           end
  end.

Definition slash : Ascii.ascii := Ascii.ascii_of_nat 47.

(** [filepath.Base] *)
Definition Base (path : string) : string :=
  if decide (path = EmptyString) then "."%string
  else default "/"%string (last (filter (fun c => c <> EmptyString) (split_char slash path))).

(** [strings.Contains(s, c)] for one byte. *)
Fixpoint contains_char (c : Ascii.ascii) (s : string) : bool :=
  match s with
  | EmptyString => false
  | String d s' => bool_decide (d = c) || contains_char c s'
  end.

Lemma split_char_nonempty c s : split_char c s <> [].
Proof.
  induction s as [|d s IH]; simpl; [done|].
  case_decide; [done|]. by destruct (split_char c s).
Qed.

Lemma split_char_no_sep c s : contains_char c s = false -> split_char c s = [s].
Proof.
  induction s as [|d s IH]; simpl; [done|]. intros H.
  apply orb_false_iff in H as [H1 H2]. apply bool_decide_eq_false in H1.
  rewrite decide_False by done. by rewrite IH.
Qed.

Lemma str_app_cons c s t : String c s +:+ t = String c (s +:+ t).
Proof. done. Qed.

Lemma split_char_app c s t :
  contains_char c s = false ->
  split_char c (s +:+ String c t) = s :: split_char c t.
Proof.
  induction s as [|d s IH]; rewrite ?str_app_cons; simpl; intros H.
  - by rewrite decide_True.
  - apply orb_false_iff in H as [H1 H2]. apply bool_decide_eq_false in H1.
    rewrite decide_False by done. by rewrite IH.
Qed.

Lemma string_app_assoc (s t u : string) : s +:+ (t +:+ u) = (s +:+ t) +:+ u.
Proof. induction s as [|c s IH]; [done|]. by rewrite !str_app_cons, IH. Qed.

Lemma string_app_nil_l (s : string) : EmptyString +:+ s = s.
Proof. done. Qed.

Lemma string_app_nil_r (s : string) : s +:+ EmptyString = s.
Proof. induction s as [|c s IH]; [done|]. by rewrite !str_app_cons, IH. Qed.

Lemma str_length_app (s t : string) : String.length (s +:+ t) = (String.length s + String.length t)%nat.
Proof. induction s as [|c s IH]; [done|]. rewrite str_app_cons. cbn [String.length]. by rewrite IH. Qed.

Lemma split_at_unique c s1 t1 s2 t2 :
  contains_char c s1 = false -> contains_char c s2 = false ->
  s1 +:+ String c t1 = s2 +:+ String c t2 -> s1 = s2 /\ t1 = t2.
Proof.
  revert s2. induction s1 as [|d s1 IH]; intros [|e s2]; rewrite ?str_app_cons;
    cbn [contains_char]; intros H1 H2 Heq; injection Heq; intros; subst.
  - done.
  - by rewrite bool_decide_true in H2.
  - by rewrite bool_decide_true in H1.
  - apply orb_false_iff in H1 as [_ H1]. apply orb_false_iff in H2 as [_ H2].
    destruct (IH s2) as [-> ->]; done.
Qed.

(** [s[n:]] on a string at least [n] bytes long. *)
Fixpoint str_drop (n : nat) (s : string) : string :=
  match n, s with
  | O, _ => s
  | S n', String _ s' => str_drop n' s'
  | S _, EmptyString => EmptyString
  end.

Lemma str_drop_app p s : str_drop (String.length p) (p +:+ s) = s.
Proof. induction p as [|c p IH]; [done|]. by rewrite str_app_cons. Qed.

Lemma prefix_app p s : String.prefix p (p +:+ s) = true.
Proof.
  induction p as [|c p IH]; [by destruct s|]. rewrite str_app_cons. simpl.
  by destruct (Ascii.ascii_dec c c).
Qed.

Lemma prefix_drop p s : String.prefix p s = true -> s = p +:+ str_drop (String.length p) s.
Proof.
  revert s. induction p as [|c p IH]; intros s Hp; [done|].
  destruct s as [|d s]; simpl in Hp; [done|].
  destruct (Ascii.ascii_dec c d) as [->|]; [|done].
  rewrite str_app_cons. simpl. f_equal. by apply IH.
Qed.

Lemma has_prefix_spec s p : has_prefix s p = true <-> exists t, s = p +:+ t.
Proof.
  unfold has_prefix. split.
  - intros H. eexists. by apply prefix_drop.
  - intros [t ->]. apply prefix_app.
Qed.

#[export] Instance str_app_inj p : Inj (=) (=) (String.append p).
Proof. intros s t H. by rewrite <- (str_drop_app p s), H, str_drop_app. Qed.

(** ** Maps *)

(** The order in which [range] visits a Go map is not specified. *)
Class RangeOrder := {
  range_list : forall {V : Type}, gmap string V -> list (string * V);
  range_perm : forall {V : Type} (m : gmap string V), range_list m ≡ₚ map_to_list m
}.

Definition sorted_range : RangeOrder :=
  {| range_list V m := map_to_list m; range_perm V m := reflexivity _ |}.

Lemma elem_of_range `{RangeOrder} {V} (m : gmap string V) k v :
  (k, v) ∈ range_list m <-> m !! k = Some v.
Proof. by rewrite range_perm, elem_of_map_to_list. Qed.

Lemma NoDup_range `{RangeOrder} {V} (m : gmap string V) : NoDup (range_list m).*1.
Proof. rewrite range_perm. apply NoDup_fst_map_to_list. Qed.

Lemma filter_none {A} (P : A -> Prop) `{!forall x, Decision (P x)} (l : list A) :
  (forall x, x ∈ l -> ~ P x) -> filter P l = [].
Proof.
  induction l as [|x l IH]; intros Hl; [done|]. rewrite filter_cons, decide_False by (apply Hl; by left).
  apply IH. intros y Hy. apply Hl. by right.
Qed.

Lemma filter_all {A} (P : A -> Prop) `{!forall x, Decision (P x)} (l : list A) :
  (forall x, x ∈ l -> P x) -> filter P l = l.
Proof.
  induction l as [|x l IH]; intros Hl; [done|]. rewrite filter_cons, decide_True by (apply Hl; by left).
  f_equal. apply IH. intros y Hy. apply Hl. by right.
Qed.

(** The entries of one key, whatever the order. *)
Lemma range_filter_key `{RangeOrder} {V} (m : gmap string V) k :
  filter (fun kv => kv.1 = k) (range_list m) = match m !! k with Some v => [(k, v)] | None => [] end.
Proof.
  pose proof (NoDup_range m) as Hnd.
  assert (Hin : forall v, (k, v) ∈ range_list m <-> m !! k = Some v) by (intros; apply elem_of_range).
  revert Hnd Hin. generalize (m !! k). induction (range_list m) as [|[k' v'] l IH]; intros o Hnd Hin.
  - destruct o as [v|]; [|done]. by destruct (proj1 (elem_of_nil (k, v)) (proj2 (Hin v) eq_refl)).
  - rewrite fmap_cons in Hnd. apply NoDup_cons in Hnd as [Hk Hnd]. rewrite filter_cons. simpl. case_decide as He.
    + subst k'. pose proof (proj1 (Hin v') ltac:(by left)) as ->. f_equal.
      apply filter_none. intros [k0 v0] H0 Hk0. simpl in Hk0. subst.
      apply Hk. by apply (list_elem_of_fmap_2 fst) in H0.
    + apply IH; [done|]. intros v. rewrite <- (Hin v), elem_of_cons. split; [by right|].
      intros [[= -> ->]|?]; done.
Qed.

(** Two elements of a list with the same key, where keys are not repeated. *)
Lemma NoDup_fmap_unique {A B} (f : A -> B) (l : list A) x y :
  NoDup (f <$> l) -> x ∈ l -> y ∈ l -> f x = f y -> x = y.
Proof.
  intros Hnd Hx Hy He. apply list_elem_of_lookup in Hx as [i Hi], Hy as [j Hj].
  assert (i = j) as <-; [|congruence].
  by eapply (NoDup_lookup _ _ _ (f x) Hnd); rewrite list_lookup_fmap, ?Hi, ?Hj; simpl; rewrite ?He.
Qed.

Lemma NoDup_fst_filter {K V} (P : K * V -> Prop) `{!forall x, Decision (P x)} (l : list (K * V)) :
  NoDup l.*1 -> NoDup (filter P l).*1.
Proof.
  induction l as [|[k v] l IH]; intros Hl; [constructor|]. rewrite fmap_cons in Hl.
  apply NoDup_cons in Hl as [Hk Hl]. rewrite filter_cons. case_decide; [|by apply IH].
  rewrite fmap_cons. apply NoDup_cons. split; [|by apply IH].
  intros Hin. apply Hk. apply list_elem_of_fmap in Hin as ([k' v'] & -> & Hin).
  apply list_elem_of_filter in Hin as [_ Hin]. by apply (list_elem_of_fmap_2 fst) in Hin.
Qed.

Lemma map_to_list_omap {A B} (f : A -> option B) (m : gmap string A) :
  map_to_list (omap f m) ≡ₚ omap (fun kv => pair kv.1 <$> f kv.2) (map_to_list m).
Proof.
  apply NoDup_Permutation.
  - apply NoDup_map_to_list.
  - apply (NoDup_fmap_1 fst).
    apply (sublist_NoDup _ (map_to_list m).*1); [apply NoDup_fst_map_to_list|].
    induction (map_to_list m) as [|[k a] l IH]; [constructor|]. simpl.
    destruct (f a) as [b|]; simpl; by constructor.
  - intros [k b]. rewrite elem_of_map_to_list, lookup_omap, list_elem_of_omap. split.
    + intros (a & Ha & Hb)%bind_Some. exists (k, a). rewrite elem_of_map_to_list.
      split; [done|]. simpl. by rewrite Hb.
    + intros ([k' a] & Ha & Hb). rewrite elem_of_map_to_list in Ha. simpl in Hb.
      destruct (f a) eqn:E; simplify_eq/=. by rewrite Ha.
Qed.

Lemma omap_values {A B} (f : A -> option B) (l : list (string * A)) :
  (omap (fun kv => pair kv.1 <$> f kv.2) l).*2 = omap f l.*2.
Proof.
  induction l as [|[k a] l IH]; [done|]. cbn [omap list_omap fmap list_fmap snd fst option_fmap option_map].
  destruct (f a); cbn; [f_equal|]; exact IH.
Qed.

(** A filter on the keys commutes with decoding the values. *)
Lemma filter_omap_keys {A B} (f : A -> option B) (P : string -> Prop) {HP : forall k, Decision (P k)}
    (l : list (string * A)) :
  filter (fun kb => P kb.1) (omap (fun kv => pair kv.1 <$> f kv.2) l)
  = omap (fun kv => pair kv.1 <$> f kv.2) (filter (fun kv => P kv.1) l).
Proof.
  induction l as [|[k a] l IH]; [done|]. rewrite filter_cons. simpl.
  destruct (f a) as [b|] eqn:Hf; simpl.
  - rewrite filter_cons. simpl. case_decide; simpl; [rewrite Hf; simpl; f_equal; exact IH|exact IH].
  - case_decide; simpl; [rewrite Hf; simpl|]; exact IH.
Qed.

(** ** Sorted lists *)

Lemma StronglySorted_sublist {A} (R : relation A) (l1 l2 : list A) :
  sublist l1 l2 -> StronglySorted R l2 -> StronglySorted R l1.
Proof.
  induction 1 as [|x l1 l2 Hl IH|x l1 l2 Hl IH]; intros Hs; [constructor| |].
  - apply StronglySorted_inv in Hs as [Hs Hf]. constructor; [by apply IH|].
    rewrite !Forall_forall in *. intros y Hy. apply Hf. by eapply elem_of_sublist.
  - apply StronglySorted_inv in Hs as [Hs _]. by apply IH.
Qed.

Lemma StronglySorted_lt_NoDup (l : list Z) : StronglySorted Z.lt l -> NoDup l.
Proof.
  induction 1 as [|x l Hl IH Hf]; constructor; [|done].
  intros Hx. rewrite Forall_forall in Hf. specialize (Hf x Hx). lia.
Qed.
