(* ===== verification/Logger.v ===== *)
(** * internal/logger.go: the log of the programs

    Which messages are written and the line each becomes.  The formatting of [fmt], the
    texts of a time, of a floating-point number and of a quoted string, and the frame a
    program counter belongs to are the standard library's and stay arguments. *)

From S2P Require Import Prelude.

Local Open Scope string_scope.
Local Open Scope list_scope.
Local Open Scope Z_scope.

(** ** Levels *)

Definition LevelDebug : Z := -4.
Definition LevelInfo : Z := 0.
Definition LevelNotice : Z := 2.
Definition LevelWarn : Z := 4.
Definition LevelError : Z := 8.

Definition levelLabel (level : Z) : string :=
  if level <=? LevelDebug then "DEBUG"
  else if level <? LevelNotice then "INFO"
  else if level <? LevelWarn then "NOTICE"
  else if level <? LevelError then "WARN"
  else "ERROR".

(** ** The handler *)

(** The value of an attribute, resolved, by its kind; [VAny None] is a nil value. *)
Inductive value : Type :=
| VString (s : string)
| VBool (b : bool)
| VInt64 (z : Z)
| VUint64 (z : Z)
| VFloat64 (text : string)
| VDuration (z : Z)
| VTime (t : Z)
| VAny (text : option string)
| VOther (text : string).

#[export] Instance value_eq_dec : EqDecision value.
Proof. solve_decision. Defined.

Record attr : Type := MkAttr { at_Key : string; at_Value : value }.

#[export] Instance attr_eq_dec : EqDecision attr.
Proof. solve_decision. Defined.

(** [slog.Attr{}] *)
Definition attr_empty : attr := MkAttr EmptyString (VAny None).

Record lineHandler : Type := MkHandler {
  lh_level : Z;
  lh_addSource : bool;
  lh_withSystemd : bool;
  lh_attrs : list attr;
  lh_groups : list string
}.

Definition newLineHandler (level : Z) (addSource withSystemd : bool) : lineHandler :=
  MkHandler level addSource withSystemd [] [].

(** The handler [InitLogger] stores. *)
Definition InitLogger (verbose debug withSystemd : bool) : lineHandler :=
  let level := if debug then LevelDebug else if verbose then LevelInfo else LevelNotice in
  newLineHandler level debug withSystemd.

Definition Enabled (h : lineHandler) (level : Z) : bool := h.(lh_level) <=? level.

Definition WithAttrs (attrs : list attr) (h : lineHandler) : lineHandler :=
  MkHandler h.(lh_level) h.(lh_addSource) h.(lh_withSystemd) (h.(lh_attrs) ++ attrs) h.(lh_groups).

Definition WithGroup (name : string) (h : lineHandler) : lineHandler :=
  MkHandler h.(lh_level) h.(lh_addSource) h.(lh_withSystemd) h.(lh_attrs) (h.(lh_groups) ++ [name]).

Definition newline : string := String (Ascii.ascii_of_nat 10) EmptyString.

Section lines.
(** [strconv.Quote], [Duration.String] and [Format(time.RFC3339Nano)]; the texts of numbers
    with a fraction and of other values are those [value] carries. *)
Context (Quote : string -> string) (Duration_String RFC3339Nano : Z -> string).

Definition attrValue (v : value) : string :=
  match v with
  | VString s => Quote s
  | VBool b => if b then "true" else "false"
  | VInt64 z => pretty z
  | VUint64 z => pretty z
  | VFloat64 text => text
  | VDuration z => Duration_String z
  | VTime t => RFC3339Nano t
  | VAny text => default "<nil>" text
  | VOther text => text
  end.

Fixpoint appendAttrs (groups : list string) (attrs : list attr) : string :=
  match attrs with
  | [] => EmptyString
  | a :: attrs =>
      if decide (a = attr_empty) then appendAttrs groups attrs
      else
        let key := match groups with [] => a.(at_Key) | _ => String.concat "." (groups ++ [a.(at_Key)]) end in
        " " +:+ key +:+ "=" +:+ attrValue a.(at_Value) +:+ appendAttrs groups attrs
  end.

(** What comes before the message; [source] is empty when the position is not known. *)
Definition line_head (h : lineHandler) (time source : string) (level : Z) : string :=
  if h.(lh_withSystemd) then "[" +:+ levelLabel level +:+ "] "
  else "[" +:+ time +:+ "][" +:+ levelLabel level +:+ "]"
       +:+ (if h.(lh_addSource) && negb (bool_decide (source = EmptyString)) then "[" +:+ source +:+ "]" else EmptyString)
       +:+ " ".

(** [Handle]: the line written for a record. *)
Definition Handle (h : lineHandler) (time source : string) (level : Z) (msg : string) (attrs : list attr) : string :=
  line_head h time source level +:+ msg +:+ appendAttrs h.(lh_groups) (h.(lh_attrs) ++ attrs) +:+ newline.


(** [log]: what is written, nothing below the level. *)
Definition log (h : lineHandler) (time source : string) (level : Z) (msg : string) : option string :=
  if Enabled h level then Some (Handle h time source level msg []) else None.
End lines.

(** [defaultHandler]; the handler before any was stored. *)
Definition currentHandler (defaultHandler : option lineHandler) : lineHandler :=
  match defaultHandler with
  | Some h => h
  | None => newLineHandler LevelNotice false false
  end.

(** [frame] is the file and the line of the frame of a program counter. *)
Definition shortSource (frame : Z -> string * Z) (pc : Z) : string :=
  if decide (pc = 0) then EmptyString
  else
    let '(file, line) := frame pc in
    if decide (file = EmptyString) then EmptyString else Base file +:+ ":" +:+ pretty line.

(** ** Messages *)

(** An argument of a logging call. *)
Inductive any (T : Type) : Type :=
| AString (s : string)
| AOther (v : T).
Arguments AString {T} s.
Arguments AOther {T} v.

Definition percent : Ascii.ascii := Ascii.ascii_of_nat 37.

Section messages.
Context {T : Type} (Sprintf : string -> list (any T) -> string) (Sprint : list (any T) -> string).

Definition normalizeArgs (args : list (any T)) : string :=
  match args with
  | [] => EmptyString
  | AString format :: (_ :: _) as rest =>
      if contains_char percent format then Sprintf format (tail rest) else Sprint rest
  | _ => Sprint args
  end.

Definition formatMessage (format : string) (args : list (any T)) : string :=
  match args with
  | [] => format
  | _ => if contains_char percent format then Sprintf format args else Sprint (AString format :: args)
  end.

(** A method of [Logger]: [time] and [source] are those of the call. *)
Context (Quote : string -> string) (Duration_String RFC3339Nano : Z -> string).
Context (defaultHandler : option lineHandler) (time source : string).

Definition say (level : Z) (msg : string) : option string :=
  log Quote Duration_String RFC3339Nano (currentHandler defaultHandler) time source level msg.

Definition Debug (args : list (any T)) : option string := say LevelDebug (normalizeArgs args).
Definition Debugf (format : string) (args : list (any T)) : option string := say LevelDebug (formatMessage format args).
Definition Info (args : list (any T)) : option string := say LevelInfo (normalizeArgs args).
Definition Infof (format : string) (args : list (any T)) : option string := say LevelInfo (formatMessage format args).
Definition Notice (args : list (any T)) : option string := say LevelNotice (normalizeArgs args).
Definition Noticef (format : string) (args : list (any T)) : option string := say LevelNotice (formatMessage format args).
Definition Warning (args : list (any T)) : option string := say LevelWarn (normalizeArgs args).
Definition Warningf (format : string) (args : list (any T)) : option string := say LevelWarn (formatMessage format args).
Definition Error (args : list (any T)) : option string := say LevelError (normalizeArgs args).
Definition Errorf (format : string) (args : list (any T)) : option string := say LevelError (formatMessage format args).

(** [Panic] and [Panicf] write at the level of errors and then panic with the message. *)
Definition Panic_ (args : list (any T)) : option string * comp unit :=
  let msg := normalizeArgs args in (say LevelError msg, Panic msg).

Definition Panicf (format : string) (args : list (any T)) : option string * comp unit :=
  let msg := formatMessage format args in (say LevelError msg, Panic msg).
End messages.

(** ** What is seen *)

Section seen.
Context (Quote : string -> string) (Duration_String RFC3339Nano : Z -> string).
Local Abbreviation log := (log Quote Duration_String RFC3339Nano).

Lemma log_visible h time source level msg :
  is_Some (log h time source level msg) <-> h.(lh_level) <= level.
Proof.
  unfold Logger.log, Enabled. destruct (Z.leb_spec h.(lh_level) level) as [H|H].
  - split; [done|by eexists].
  - split; [by intros []|lia].
Qed.

(** What the flags make visible. Warnings and errors are always written; notices as well;
    informations with either flag, debug messages with the flag debug only; each on one
    line that ends the message, under a label that tells the five levels apart. *)
Theorem flags_choose_levels verbose debug systemd time source msg :
  let h := InitLogger verbose debug systemd in
  (forall level, level ∈ [LevelNotice; LevelWarn; LevelError] -> is_Some (log h time source level msg))
  /\ (is_Some (log h time source LevelInfo msg) <-> verbose = true \/ debug = true)
  /\ (is_Some (log h time source LevelDebug msg) <-> debug = true)
  /\ (forall level line, log h time source level msg = Some line ->
        line = line_head h time source level +:+ msg +:+ newline)
  /\ NoDup (levelLabel <$> [LevelDebug; LevelInfo; LevelNotice; LevelWarn; LevelError]).
Proof.
  intros h. rewrite !log_visible. split_and!.
  - intros level Hl. apply log_visible. unfold h. rewrite !elem_of_cons, elem_of_nil in Hl.
    destruct debug, verbose; destruct_or! Hl; subst; done.
  - unfold h. destruct debug, verbose; simpl; unfold LevelNotice, LevelInfo, LevelDebug; intuition (done || lia).
  - unfold h. destruct debug, verbose; simpl; unfold LevelNotice, LevelInfo, LevelDebug; intuition (done || lia).
  - intros level line. unfold Logger.log. destruct (Enabled h level); [|done]. by intros [= <-].
  - by apply (bool_decide_unpack _).
Qed.

(** The attributes of a handler: they are written in the order they were added, before
    those of the record, each under all the groups of the handler, whenever added; the
    empty attribute is nowhere. *)
Lemma appendAttrs_app groups l1 l2 :
  appendAttrs Quote Duration_String RFC3339Nano groups (l1 ++ l2)
  = appendAttrs Quote Duration_String RFC3339Nano groups l1
    +:+ appendAttrs Quote Duration_String RFC3339Nano groups l2.
Proof.
  induction l1 as [|a l1 IH]; [done|]. cbn [app appendAttrs]. case_decide; [done|].
  by rewrite IH, !string_app_assoc.
Qed.

Lemma WithAttrs_Handle h a time source level msg attrs :
  Handle Quote Duration_String RFC3339Nano (WithAttrs a h) time source level msg attrs
  = Handle Quote Duration_String RFC3339Nano h time source level msg (a ++ attrs).
Proof. unfold Handle. simpl. by rewrite <- app_assoc. Qed.
End seen.
