(* ===== verification/Json.v ===== *)
(** * encoding/json as the manager and the worker use it

    A JSON document is its syntax tree; [JInvalid] stands for bytes that do not
    parse.  [unmarshal_struct] is the part of [json.Unmarshal] that stores the
    members of an object into a Go struct: it walks the members in order, prefers
    an exact field name and falls back to one that differs only in (ASCII) case,
    ignores unknown members, keeps going after a member that does not fit its field
    and reports the first such error.  [wire] is what the text of a document makes of its
    strings: the encoder writes U+FFFD for each byte that is not UTF-8.  The other files
    exchange the documents as they are built, which is what is read on the other side
    as long as the strings are UTF-8 ([wire_utf8]). *)

From S2P Require Import Prelude.

Local Open Scope string_scope.
Local Open Scope list_scope.

Inductive json : Type :=
| JNull
| JBool (b : bool)
| JNum (z : Z)
| JStr (s : string)
| JArr (l : list json)
| JObj (kvs : list (string * json))
| JInvalid.

(** ** Strings on the wire *)

Definition byte_in (lo hi : nat) (c : Ascii.ascii) : bool :=
  let n := Ascii.nat_of_ascii c in (lo <=? n)%nat && (n <=? hi)%nat.

(** A continuation byte. *)
Definition cont : Ascii.ascii -> bool := byte_in 128 191.

(** The first bytes of the encodings of two, three and four bytes, as [utf8.DecodeRune]
    accepts them. *)
Definition lead2 (a b : Ascii.ascii) : bool := byte_in 194 223 a && cont b.
Definition lead3 (a b : Ascii.ascii) : bool :=
  byte_in 224 224 a && byte_in 160 191 b || byte_in 225 236 a && cont b
  || byte_in 237 237 a && byte_in 128 159 b || byte_in 238 239 a && cont b.
Definition lead4 (a b : Ascii.ascii) : bool :=
  byte_in 240 240 a && byte_in 144 191 b || byte_in 241 243 a && cont b
  || byte_in 244 244 a && byte_in 128 143 b.

(** U+FFFD *)
Definition replacement : string :=
  String (Ascii.ascii_of_nat 239) (String (Ascii.ascii_of_nat 191) (String (Ascii.ascii_of_nat 189) EmptyString)).

Fixpoint clean_utf8 (s : string) : string :=
  match s with
  | EmptyString => EmptyString
  | String a s1 =>
      if byte_in 0 127 a then String a (clean_utf8 s1)
      else
        match s1 with
        | EmptyString => replacement
        | String b s2 =>
            if lead2 a b then String a (String b (clean_utf8 s2))
            else
              match s2 with
              | EmptyString => replacement +:+ clean_utf8 s1
              | String c s3 =>
                  if lead3 a b && cont c then String a (String b (String c (clean_utf8 s3)))
                  else
                    match s3 with
                    | EmptyString => replacement +:+ clean_utf8 s1
                    | String d s4 =>
                        if lead4 a b && cont c && cont d
                        then String a (String b (String c (String d (clean_utf8 s4))))
                        else replacement +:+ clean_utf8 s1
                    end
              end
        end
  end.

Definition utf8 (s : string) : Prop := clean_utf8 s = s.

#[export] Instance utf8_dec s : Decision (utf8 s).
Proof. unfold utf8. apply _. Defined.

Example clean_utf8_1 : clean_utf8 "d" = "d" /\ utf8 "é€😀".
Proof. by split. Qed.
Example clean_utf8_2 : clean_utf8 (String (Ascii.ascii_of_nat 195) "x") = replacement +:+ "x".
Proof. done. Qed.

Fixpoint wire (j : json) : json :=
  match j with
  | JStr s => JStr (clean_utf8 s)
  | JArr l => JArr (List.map wire l)
  | JObj kvs => JObj (List.map (fun kv => match kv with (k, v) => (clean_utf8 k, wire v) end) kvs)
  | _ => j
  end.

(** The strings of a document. *)
Fixpoint json_strings (j : json) : list string :=
  match j with
  | JStr s => [s]
  | JArr l => List.concat (List.map json_strings l)
  | JObj kvs => List.concat (List.map (fun kv => match kv with (k, v) => k :: json_strings v end) kvs)
  | _ => []
  end.

Lemma wire_utf8 j : Forall utf8 (json_strings j) -> wire j = j.
Proof.
  revert j. fix IH 1. intros [|b|z|s|l|kvs|]; simpl; try done.
  - intros H. apply Forall_cons in H as [-> _]. done.
  - intros H. f_equal. induction l as [|j l IHl]; [done|]. simpl in *. apply Forall_app in H as [H1 H2].
    f_equal; [by apply IH|by apply IHl].
  - intros H. f_equal. induction kvs as [|[k v] kvs IHl]; [done|]. simpl in *.
    apply Forall_cons in H as [Hk H]. apply Forall_app in H as [H1 H2]. rewrite Hk. f_equal; [|by apply IHl].
    f_equal. by apply IH.
Qed.

(** ** Field names *)

Definition ascii_upper (c : Ascii.ascii) : Ascii.ascii :=
  let n := Ascii.nat_of_ascii c in
  if decide (97 <= n <= 122) then Ascii.ascii_of_nat (n - 32) else c.

Fixpoint fold_name (s : string) : string :=
  match s with
  | EmptyString => EmptyString
  | String c s' => String (ascii_upper c) (fold_name s')
  end.

Definition find_field (fields : list string) (k : string) : option string :=
  if decide (k ∈ fields) then Some k
  else List.find (fun f => bool_decide (fold_name f = fold_name k)) fields.

(** ** Struct decoding *)

(** [first_err] is [d.saveError]: only the first error is kept. *)
Definition first_err (e1 e2 : option error) : option error :=
  match e1 with Some _ => e1 | None => e2 end.

Definition type_error : error := "json: cannot unmarshal value into Go struct field".
Definition syntax_error : error := "invalid character in JSON text".

Section decode.
Context {A : Type} (fields : list string) (set_field : string -> json -> A -> A * option error).

Fixpoint decode_members (kvs : list (string * json)) (a : A) : A * option error :=
  match kvs with
  | [] => (a, None)
  | (k, v) :: rest =>
      match find_field fields k with
      | None => decode_members rest a
      | Some f =>
          let '(a1, e1) := set_field f v a in
          let '(a2, e2) := decode_members rest a1 in
          (a2, first_err e1 e2)
      end
  end.

Definition unmarshal_struct (doc : json) (a : A) : A * option error :=
  match doc with
  | JObj kvs => decode_members kvs a
  | JNull => (a, None)
  | JInvalid => (a, Some syntax_error)
  | _ => (a, Some type_error)
  end.

Lemma unmarshal_invalid a : unmarshal_struct JInvalid a = (a, Some syntax_error).
Proof. done. Qed.

Lemma decode_members_cons k v kvs a a' :
  k ∈ fields -> set_field k v a = (a', None) ->
  decode_members ((k, v) :: kvs) a = decode_members kvs a'.
Proof.
  intros Hk Hs. simpl. unfold find_field. rewrite decide_True by done.
  rewrite Hs. by destruct (decode_members kvs a').
Qed.
End decode.

(** ** Leaves *)

Definition decode_string (v : json) (old : string) : string * option error :=
  match v with
  | JStr s => (s, None)
  | JNull => (old, None)
  | _ => (old, Some type_error)
  end.

Definition decode_bool (v : json) (old : bool) : bool * option error :=
  match v with
  | JBool b => (b, None)
  | JNull => (old, None)
  | _ => (old, Some type_error)
  end.

(** ** Timestamps

    A [time.Time] is its instant, in nanoseconds since the Unix epoch.  Its JSON
    text is RFC 3339 with the offset of the local zone, which the environment of
    the process chooses; what the code relies on is that the text of an instant
    parses back to it. *)

Definition second : Z := 1000000000.
Definition minute : Z := 60 * second.
Definition hour : Z := 60 * minute.

(** The zero [time.Time], 1 January of year 1, UTC. *)
Definition time_zero : Z := -62135596800 * second.

(** [Time.MarshalJSON] refuses a year outside [0,9999]. *)
Definition time_min : Z := -62167219200 * second.
Definition time_max : Z := 253402300800 * second.
Definition time_in_range (t : Z) : bool := bool_decide (time_min <= t < time_max)%Z.

Class TimeText := {
  fmt_time : Z -> string;
  parse_time : string -> option Z;
  parse_fmt_time : forall t, time_in_range t = true -> parse_time (fmt_time t) = Some t;
  fmt_time_utf8 : forall t, utf8 (fmt_time t)
}.

Definition encode_time `{TimeText} (t : Z) : result json :=
  if time_in_range t then Ok (JStr (fmt_time t))
  else Err "Time.MarshalJSON: year outside of range [0,9999]".

Definition decode_time `{TimeText} (v : json) (old : Z) : Z * option error :=
  match v with
  | JNull => (old, None)
  | JStr s =>
      match parse_time s with
      | Some t => (t, None)
      | None => (time_zero, Some "parsing time")
      end
  | _ => (old, Some "Time.UnmarshalJSON: input is not a JSON string")
  end.

Lemma decode_encode_time `{TimeText} t j old :
  encode_time t = Ok j -> decode_time j old = (t, None).
Proof.
  unfold encode_time. destruct (time_in_range t) eqn:E; [|done].
  intros [= <-]. simpl. by rewrite parse_fmt_time.
Qed.

(** A concrete text: the decimal digits of the instant. *)
From Stdlib Require Import DecimalString DecimalZ.

Definition decimal_fmt (t : Z) : string := NilEmpty.string_of_int (Z.to_int t).
Definition decimal_parse (s : string) : option Z :=
  Z.of_int <$> NilEmpty.int_of_string s.

Lemma decimal_parse_fmt t : decimal_parse (decimal_fmt t) = Some t.
Proof.
  unfold decimal_parse, decimal_fmt. rewrite NilEmpty.isi. simpl.
  by rewrite DecimalZ.of_to.
Qed.

Lemma decimal_uint_utf8 d : utf8 (NilEmpty.string_of_uint d).
Proof. induction d as [|d IH|d IH|d IH|d IH|d IH|d IH|d IH|d IH|d IH|d IH]; [done|..]; unfold utf8 in *; simpl; by rewrite IH. Qed.

Lemma decimal_utf8 t : utf8 (decimal_fmt t).
Proof.
  unfold decimal_fmt. destruct (Z.to_int t) as [d|d]; simpl; [apply decimal_uint_utf8|].
  pose proof (decimal_uint_utf8 d) as H. unfold utf8 in *. simpl. by rewrite H.
Qed.

Definition decimal_time_text : TimeText :=
  {| fmt_time := decimal_fmt; parse_time := decimal_parse;
     parse_fmt_time t _ := decimal_parse_fmt t; fmt_time_utf8 := decimal_utf8 |}.
