(* ===== verification/Msg.v ===== *)
(** * internal: the statuses, verbs and messages the two programs exchange

    [internal/status.go], [internal/msg.go] and the record part of
    [internal/status_web.go].  [SyncStatus] and [CmdVerb] are uint8 in the code and
    stay integers here, so that the default branches are part of the model. *)

From S2P Require Import Prelude Json.

Local Open Scope string_scope.
Local Open Scope list_scope.
Local Open Scope Z_scope.

(** A JSON string literal without characters to escape. *)
Definition dquote : string := String (Ascii.ascii_of_nat 34) EmptyString.
Definition quote (s : string) : string := dquote +:+ s +:+ dquote.

Lemma quote_inj s t : quote s = quote t -> s = t.
Proof.
  unfold quote, dquote. rewrite !str_app_cons. intros [= H].
  revert t H. induction s as [|c s IH]; intros [|d t] H; rewrite ?str_app_cons in H.
  - done.
  - exfalso. injection H as _ H. by destruct t.
  - exfalso. injection H as _ H. by destruct s.
  - injection H as -> H. f_equal. by apply IH.
Qed.

(** ** SyncStatus *)

Definition SyncStatus : Type := Z.
#[export] Instance SyncStatus_eq_dec : EqDecision SyncStatus := Z.eq_dec.

Module Status.
Definition None : SyncStatus := 0.
Definition Failed : SyncStatus := 1.
Definition Success : SyncStatus := 2.
Definition Syncing : SyncStatus := 3.
Definition PreSyncing : SyncStatus := 4.
Definition Paused : SyncStatus := 5.
Definition Disabled : SyncStatus := 6.
End Status.

Definition SyncStatus_String (s : SyncStatus) : string :=
  if s =? Status.None then "none"
  else if s =? Status.Failed then "failed"
  else if s =? Status.Success then "success"
  else if s =? Status.Syncing then "syncing"
  else if s =? Status.PreSyncing then "pre-syncing"
  else if s =? Status.Paused then "paused"
  else if s =? Status.Disabled then "disabled"
  else EmptyString.

Definition SyncStatus_MarshalJSON (s : SyncStatus) : result string :=
  let strStatus := SyncStatus_String s in
  if decide (strStatus = EmptyString) then Err "Invalid status value"
  else Ok (quote strStatus).

(** The new value of [*s] and the error. *)
Definition SyncStatus_UnmarshalJSON (v : string) (s : SyncStatus) : SyncStatus * option error :=
  if decide (v = quote "none") then (Status.None, None)
  else if decide (v = quote "failed") then (Status.Failed, None)
  else if decide (v = quote "success") then (Status.Success, None)
  else if decide (v = quote "syncing") then (Status.Syncing, None)
  else if decide (v = quote "pre-syncing") then (Status.PreSyncing, None)
  else if decide (v = quote "paused") then (Status.Paused, None)
  else if decide (v = quote "disabled") then (Status.Disabled, None)
  else (s, Some ("Invalid status value: " +:+ v)).

Definition status_names : list (SyncStatus * string) :=
  [(Status.None, "none"); (Status.Failed, "failed"); (Status.Success, "success");
   (Status.Syncing, "syncing"); (Status.PreSyncing, "pre-syncing");
   (Status.Paused, "paused"); (Status.Disabled, "disabled")].

Lemma SyncStatus_cases (s : SyncStatus) :
  (s, SyncStatus_String s) ∈ status_names \/ (SyncStatus_String s = EmptyString /\ ~ 0 <= s <= 6).
Proof.
  unfold SyncStatus_String, Status.None, Status.Failed, Status.Success, Status.Syncing,
    Status.PreSyncing, Status.Paused, Status.Disabled.
  repeat (case_eqb; [subst; left; apply (bool_decide_unpack _); vm_compute; exact I|]).
  right. split; [done|]. lia.
Qed.

Lemma SyncStatus_marshal_ok s v :
  SyncStatus_MarshalJSON s = Ok v <->
  exists n, v = quote n /\ (s, n) ∈ status_names.
Proof.
  unfold SyncStatus_MarshalJSON. split.
  - case_decide; [done|]. intros [= <-]. eexists; split; [done|].
    by destruct (SyncStatus_cases s) as [|[]].
  - intros (n & -> & Hn). unfold status_names in Hn.
    rewrite !elem_of_cons, elem_of_nil in Hn. by destruct_or! Hn; simplify_eq.
Qed.

Lemma SyncStatus_unmarshal_ok v s0 s :
  SyncStatus_UnmarshalJSON v s0 = (s, None) <->
  exists n, v = quote n /\ (s, n) ∈ status_names.
Proof.
  unfold SyncStatus_UnmarshalJSON. split.
  - repeat case_decide; intros [= <-]; eexists; (split; [done|]); unfold status_names; set_solver.
  - intros (n & -> & Hn). unfold status_names in Hn.
    rewrite !elem_of_cons, elem_of_nil in Hn. by destruct_or! Hn; simplify_eq.
Qed.

(** ** CmdVerb *)

Definition CmdVerb : Type := Z.
#[export] Instance CmdVerb_eq_dec : EqDecision CmdVerb := Z.eq_dec.

Definition CmdStart : CmdVerb := 0.
Definition CmdStop : CmdVerb := 1.
Definition CmdDisable : CmdVerb := 2.
Definition CmdRestart : CmdVerb := 3.
Definition CmdPing : CmdVerb := 4.
Definition CmdReload : CmdVerb := 5.

(** Reading a missing key of a Go map gives the zero value. *)
Definition CmdVerb_String (c : CmdVerb) : string :=
  let mapping : gmap Z string :=
    list_to_map [(CmdStart, "start"); (CmdStop, "stop"); (CmdDisable, "disable");
                 (CmdRestart, "restart"); (CmdPing, "ping"); (CmdReload, "reload")] in
  default EmptyString (mapping !! c).

Definition NewCmdVerbFromString (s : string) : CmdVerb :=
  let mapping : gmap string CmdVerb :=
    list_to_map [("start", CmdStart); ("stop", CmdStop); ("disable", CmdDisable);
                 ("restart", CmdRestart); ("ping", CmdPing); ("reload", CmdReload)] in
  default 0 (mapping !! s).

Definition CmdVerb_MarshalJSON (c : CmdVerb) : string := quote (CmdVerb_String c).

(** [json.Unmarshal(b, &j)] into a fresh string, then the lookup. *)
Definition CmdVerb_UnmarshalJSON (b : json) (c : CmdVerb) : CmdVerb * option error :=
  match decode_string b EmptyString with
  | (_, Some err) => (c, Some err)
  | (j, None) => (NewCmdVerbFromString j, None)
  end.

Definition verb_names : list (string * CmdVerb) :=
  [("start", CmdStart); ("stop", CmdStop); ("disable", CmdDisable);
   ("restart", CmdRestart); ("ping", CmdPing); ("reload", CmdReload)].

Lemma NewCmdVerbFromString_spec s c :
  (s, c) ∈ verb_names -> NewCmdVerbFromString s = c /\ CmdVerb_String c = s.
Proof.
  unfold verb_names. rewrite !elem_of_cons, elem_of_nil.
  intros Hn. by destruct_or! Hn; simplify_eq.
Qed.

(** A verb with a name is one of the six. *)
Lemma CmdVerb_names c : CmdVerb_String c <> EmptyString -> NewCmdVerbFromString (CmdVerb_String c) = c /\ 0 <= c <= 5.
Proof.
  intros Hne. destruct (decide (0 <= c <= 5)) as [Hr|Hr].
  - assert (c = 0 \/ c = 1 \/ c = 2 \/ c = 3 \/ c = 4 \/ c = 5) as H by lia.
    by destruct_or! H; subst.
  - destruct Hne. unfold CmdVerb_String. cbv zeta.
    rewrite (not_elem_of_list_to_map_1 (M := gmap Z)); [done|].
    unfold CmdStart, CmdStop, CmdDisable, CmdRestart, CmdPing, CmdReload. cbn.
    rewrite !elem_of_cons, elem_of_nil. lia.
Qed.

Lemma NewCmdVerbFromString_unknown s :
  s ∉ verb_names.*1 -> NewCmdVerbFromString s = CmdStart.
Proof.
  intros Hs. unfold NewCmdVerbFromString. cbv zeta.
  rewrite (not_elem_of_list_to_map_1 (M := gmap string)); done.
Qed.

(** ** Messages *)

(** A job as the manager stores it and the worker reports it. *)
Record MirrorStatus : Type := MkMirrorStatus {
  ms_Name : string;
  ms_Worker : string;
  ms_IsMaster : bool;
  ms_Status : SyncStatus;
  ms_LastUpdate : Z;
  ms_LastStarted : Z;
  ms_LastEnded : Z;
  ms_Scheduled : Z;
  ms_Upstream : string;
  ms_Size : string;
  ms_ErrorMsg : string
}.

Definition set_ms_Name (x : string) (m : MirrorStatus) : MirrorStatus :=
  MkMirrorStatus x m.(ms_Worker) m.(ms_IsMaster) m.(ms_Status) m.(ms_LastUpdate) m.(ms_LastStarted) m.(ms_LastEnded) m.(ms_Scheduled) m.(ms_Upstream) m.(ms_Size) m.(ms_ErrorMsg).
Definition set_ms_Worker (x : string) (m : MirrorStatus) : MirrorStatus :=
  MkMirrorStatus m.(ms_Name) x m.(ms_IsMaster) m.(ms_Status) m.(ms_LastUpdate) m.(ms_LastStarted) m.(ms_LastEnded) m.(ms_Scheduled) m.(ms_Upstream) m.(ms_Size) m.(ms_ErrorMsg).
Definition set_ms_IsMaster (x : bool) (m : MirrorStatus) : MirrorStatus :=
  MkMirrorStatus m.(ms_Name) m.(ms_Worker) x m.(ms_Status) m.(ms_LastUpdate) m.(ms_LastStarted) m.(ms_LastEnded) m.(ms_Scheduled) m.(ms_Upstream) m.(ms_Size) m.(ms_ErrorMsg).
Definition set_ms_Status (x : SyncStatus) (m : MirrorStatus) : MirrorStatus :=
  MkMirrorStatus m.(ms_Name) m.(ms_Worker) m.(ms_IsMaster) x m.(ms_LastUpdate) m.(ms_LastStarted) m.(ms_LastEnded) m.(ms_Scheduled) m.(ms_Upstream) m.(ms_Size) m.(ms_ErrorMsg).
Definition set_ms_LastUpdate (x : Z) (m : MirrorStatus) : MirrorStatus :=
  MkMirrorStatus m.(ms_Name) m.(ms_Worker) m.(ms_IsMaster) m.(ms_Status) x m.(ms_LastStarted) m.(ms_LastEnded) m.(ms_Scheduled) m.(ms_Upstream) m.(ms_Size) m.(ms_ErrorMsg).
Definition set_ms_LastStarted (x : Z) (m : MirrorStatus) : MirrorStatus :=
  MkMirrorStatus m.(ms_Name) m.(ms_Worker) m.(ms_IsMaster) m.(ms_Status) m.(ms_LastUpdate) x m.(ms_LastEnded) m.(ms_Scheduled) m.(ms_Upstream) m.(ms_Size) m.(ms_ErrorMsg).
Definition set_ms_LastEnded (x : Z) (m : MirrorStatus) : MirrorStatus :=
  MkMirrorStatus m.(ms_Name) m.(ms_Worker) m.(ms_IsMaster) m.(ms_Status) m.(ms_LastUpdate) m.(ms_LastStarted) x m.(ms_Scheduled) m.(ms_Upstream) m.(ms_Size) m.(ms_ErrorMsg).
Definition set_ms_Scheduled (x : Z) (m : MirrorStatus) : MirrorStatus :=
  MkMirrorStatus m.(ms_Name) m.(ms_Worker) m.(ms_IsMaster) m.(ms_Status) m.(ms_LastUpdate) m.(ms_LastStarted) m.(ms_LastEnded) x m.(ms_Upstream) m.(ms_Size) m.(ms_ErrorMsg).
Definition set_ms_Upstream (x : string) (m : MirrorStatus) : MirrorStatus :=
  MkMirrorStatus m.(ms_Name) m.(ms_Worker) m.(ms_IsMaster) m.(ms_Status) m.(ms_LastUpdate) m.(ms_LastStarted) m.(ms_LastEnded) m.(ms_Scheduled) x m.(ms_Size) m.(ms_ErrorMsg).
Definition set_ms_Size (x : string) (m : MirrorStatus) : MirrorStatus :=
  MkMirrorStatus m.(ms_Name) m.(ms_Worker) m.(ms_IsMaster) m.(ms_Status) m.(ms_LastUpdate) m.(ms_LastStarted) m.(ms_LastEnded) m.(ms_Scheduled) m.(ms_Upstream) x m.(ms_ErrorMsg).
Definition set_ms_ErrorMsg (x : string) (m : MirrorStatus) : MirrorStatus :=
  MkMirrorStatus m.(ms_Name) m.(ms_Worker) m.(ms_IsMaster) m.(ms_Status) m.(ms_LastUpdate) m.(ms_LastStarted) m.(ms_LastEnded) m.(ms_Scheduled) m.(ms_Upstream) m.(ms_Size) x.

(** The zero value of the struct. *)
Definition MirrorStatus_zero : MirrorStatus :=
  MkMirrorStatus EmptyString EmptyString false Status.None time_zero time_zero time_zero time_zero
    EmptyString EmptyString EmptyString.

(** A registered worker. *)
Record WorkerStatus : Type := MkWorkerStatus {
  ws_ID : string;
  ws_URL : string;
  ws_Token : string;
  ws_LastOnline : Z;
  ws_LastRegister : Z
}.

Definition set_ws_ID (x : string) (m : WorkerStatus) : WorkerStatus :=
  MkWorkerStatus x m.(ws_URL) m.(ws_Token) m.(ws_LastOnline) m.(ws_LastRegister).
Definition set_ws_URL (x : string) (m : WorkerStatus) : WorkerStatus :=
  MkWorkerStatus m.(ws_ID) x m.(ws_Token) m.(ws_LastOnline) m.(ws_LastRegister).
Definition set_ws_Token (x : string) (m : WorkerStatus) : WorkerStatus :=
  MkWorkerStatus m.(ws_ID) m.(ws_URL) x m.(ws_LastOnline) m.(ws_LastRegister).
Definition set_ws_LastOnline (x : Z) (m : WorkerStatus) : WorkerStatus :=
  MkWorkerStatus m.(ws_ID) m.(ws_URL) m.(ws_Token) x m.(ws_LastRegister).
Definition set_ws_LastRegister (x : Z) (m : WorkerStatus) : WorkerStatus :=
  MkWorkerStatus m.(ws_ID) m.(ws_URL) m.(ws_Token) m.(ws_LastOnline) x.

Definition WorkerStatus_zero : WorkerStatus :=
  MkWorkerStatus EmptyString EmptyString EmptyString time_zero time_zero.

(** The next scheduled run of one mirror. *)
Record MirrorSchedule : Type := MkMirrorSchedule {
  sc_MirrorName : string;
  sc_NextSchedule : Z
}.

Definition set_sc_MirrorName (x : string) (m : MirrorSchedule) : MirrorSchedule :=
  MkMirrorSchedule x m.(sc_NextSchedule).
Definition set_sc_NextSchedule (x : Z) (m : MirrorSchedule) : MirrorSchedule :=
  MkMirrorSchedule m.(sc_MirrorName) x.

Definition MirrorSchedule_zero : MirrorSchedule := MkMirrorSchedule EmptyString time_zero.

Record MirrorSchedules : Type := MkMirrorSchedules { Schedules : nilable (list MirrorSchedule) }.

(** The local type of [updateMirrorSize]. *)
Record SizeMsg : Type := MkSizeMsg {
  sz_Name : string;
  sz_Size : string
}.

Definition set_sz_Name (x : string) (m : SizeMsg) : SizeMsg :=
  MkSizeMsg x m.(sz_Size).
Definition set_sz_Size (x : string) (m : SizeMsg) : SizeMsg :=
  MkSizeMsg m.(sz_Name) x.

Definition SizeMsg_zero : SizeMsg := MkSizeMsg EmptyString EmptyString.

(** A command the manager sends to a worker. *)
Record WorkerCmd : Type := MkWorkerCmd {
  wc_Cmd : CmdVerb;
  wc_MirrorID : string;
  wc_Args : nilable (list string);
  wc_Options : nilable (gmap string bool)
}.

Definition set_wc_Cmd (x : CmdVerb) (m : WorkerCmd) : WorkerCmd :=
  MkWorkerCmd x m.(wc_MirrorID) m.(wc_Args) m.(wc_Options).
Definition set_wc_MirrorID (x : string) (m : WorkerCmd) : WorkerCmd :=
  MkWorkerCmd m.(wc_Cmd) x m.(wc_Args) m.(wc_Options).
Definition set_wc_Args (x : nilable (list string)) (m : WorkerCmd) : WorkerCmd :=
  MkWorkerCmd m.(wc_Cmd) m.(wc_MirrorID) x m.(wc_Options).
Definition set_wc_Options (x : nilable (gmap string bool)) (m : WorkerCmd) : WorkerCmd :=
  MkWorkerCmd m.(wc_Cmd) m.(wc_MirrorID) m.(wc_Args) x.

Definition WorkerCmd_zero : WorkerCmd := MkWorkerCmd CmdStart EmptyString None None.

(** A command a client sends to the manager. *)
Record ClientCmd : Type := MkClientCmd {
  cc_Cmd : CmdVerb;
  cc_MirrorID : string;
  cc_WorkerID : string;
  cc_Args : nilable (list string);
  cc_Options : nilable (gmap string bool)
}.

Definition set_cc_Cmd (x : CmdVerb) (m : ClientCmd) : ClientCmd :=
  MkClientCmd x m.(cc_MirrorID) m.(cc_WorkerID) m.(cc_Args) m.(cc_Options).
Definition set_cc_MirrorID (x : string) (m : ClientCmd) : ClientCmd :=
  MkClientCmd m.(cc_Cmd) x m.(cc_WorkerID) m.(cc_Args) m.(cc_Options).
Definition set_cc_WorkerID (x : string) (m : ClientCmd) : ClientCmd :=
  MkClientCmd m.(cc_Cmd) m.(cc_MirrorID) x m.(cc_Args) m.(cc_Options).
Definition set_cc_Args (x : nilable (list string)) (m : ClientCmd) : ClientCmd :=
  MkClientCmd m.(cc_Cmd) m.(cc_MirrorID) m.(cc_WorkerID) x m.(cc_Options).
Definition set_cc_Options (x : nilable (gmap string bool)) (m : ClientCmd) : ClientCmd :=
  MkClientCmd m.(cc_Cmd) m.(cc_MirrorID) m.(cc_WorkerID) m.(cc_Args) x.

Definition ClientCmd_zero : ClientCmd := MkClientCmd CmdStart EmptyString EmptyString None None.

(** [WorkerCmd.String] as [fmt] prints it. *)
Definition WorkerCmd_String (c : WorkerCmd) : string :=
  match c.(wc_Args) with
  | Some (a :: args) =>
      CmdVerb_String c.(wc_Cmd) +:+ " (" +:+ c.(wc_MirrorID) +:+ ", [" +:+
      String.concat " " (a :: args) +:+ "])"
  | _ => CmdVerb_String c.(wc_Cmd) +:+ " (" +:+ c.(wc_MirrorID) +:+ ")"
  end.

(** ** The status shown on the web page

    [textTime] and [stampTime] both wrap an instant; they differ in their JSON form. *)

Record WebMirrorStatus : Type := MkWebMirrorStatus {
  web_Name : string;
  web_IsMaster : bool;
  web_Status : SyncStatus;
  web_LastUpdate : Z;
  web_LastUpdateTs : Z;
  web_LastStarted : Z;
  web_LastStartedTs : Z;
  web_LastEnded : Z;
  web_LastEndedTs : Z;
  web_Scheduled : Z;
  web_ScheduledTs : Z;
  web_Upstream : string;
  web_Size : string
}.

Definition BuildWebMirrorStatus (m : MirrorStatus) : WebMirrorStatus := {|
  web_Name := m.(ms_Name);
  web_IsMaster := m.(ms_IsMaster);
  web_Status := m.(ms_Status);
  web_LastUpdate := m.(ms_LastUpdate);
  web_LastUpdateTs := m.(ms_LastUpdate);
  web_LastStarted := m.(ms_LastStarted);
  web_LastStartedTs := m.(ms_LastStarted);
  web_LastEnded := m.(ms_LastEnded);
  web_LastEndedTs := m.(ms_LastEnded);
  web_Scheduled := m.(ms_Scheduled);
  web_ScheduledTs := m.(ms_Scheduled);
  web_Upstream := m.(ms_Upstream);
  web_Size := m.(ms_Size) |}.

(** ** Their JSON form *)

Section codec.
Context `{TT : TimeText}.

(** The text of a document that is a string literal, for the [UnmarshalJSON] methods
    that look at the bytes. *)
Definition raw_text (v : json) : string :=
  match v with JStr s => quote s | JNull => "null" | _ => "value" end.

Definition decode_status (v : json) (old : SyncStatus) : SyncStatus * option error :=
  SyncStatus_UnmarshalJSON (raw_text v) old.

Definition encode_status (s : SyncStatus) : result json :=
  match SyncStatus_MarshalJSON s with
  | Ok _ => Ok (JStr (SyncStatus_String s))
  | Err e => Err e
  end.

Lemma decode_encode_status s j old : encode_status s = Ok j -> decode_status j old = (s, None).
Proof.
  unfold encode_status. destruct (SyncStatus_MarshalJSON s) as [v|] eqn:E; [|done].
  intros [= <-]. unfold decode_status. simpl. apply SyncStatus_unmarshal_ok.
  apply SyncStatus_marshal_ok in E as (n & _ & Hn). exists (SyncStatus_String s). split; [done|].
  destruct (SyncStatus_cases s) as [|[Hs Hr]]; [done|].
  destruct Hr. unfold status_names in Hn. rewrite !elem_of_cons, elem_of_nil in Hn.
  by destruct_or! Hn; simplify_eq.
Qed.

(** Elements of a JSON array stored into a fresh slice. *)
Fixpoint decode_elems {A} (dec : json -> A -> A * option error) (zero : A) (l : list json)
    : list A * option error :=
  match l with
  | [] => ([], None)
  | v :: l' =>
      let '(a, e1) := dec v zero in
      let '(r, e2) := decode_elems dec zero l' in
      (a :: r, first_err e1 e2)
  end.

Definition decode_slice {A} (dec : json -> A -> A * option error) (zero : A) (v : json)
    (old : nilable (list A)) : nilable (list A) * option error :=
  match v with
  | JNull => (None, None)
  | JArr l => let '(r, e) := decode_elems dec zero l in (Some r, e)
  | _ => (old, Some type_error)
  end.

Definition decode_strings : json -> nilable (list string) -> nilable (list string) * option error :=
  decode_slice decode_string EmptyString.

Fixpoint decode_bool_entries (kvs : list (string * json)) (m : gmap string bool)
    : gmap string bool * option error :=
  match kvs with
  | [] => (m, None)
  | (k, v) :: rest =>
      let '(b, e1) := decode_bool v false in
      let '(m', e2) := decode_bool_entries rest (<[k := b]> m) in
      (m', first_err e1 e2)
  end.

Definition decode_bool_map (v : json) (old : nilable (gmap string bool))
    : nilable (gmap string bool) * option error :=
  match v with
  | JNull => (None, None)
  | JObj kvs => let '(m, e) := decode_bool_entries kvs (default ∅ old) in (Some m, e)
  | _ => (old, Some type_error)
  end.

Definition MirrorStatus_fields : list string :=
  ["name"; "worker"; "is_master"; "status"; "last_update"; "last_started"; "last_ended"; "next_schedule"; "upstream"; "size"; "error_msg"].

Definition MirrorStatus_set_field (f : string) (v : json) (m : MirrorStatus) : MirrorStatus * option error :=
  match f with
  | "name" => let '(x, e) := decode_string v m.(ms_Name) in (set_ms_Name x m, e)
  | "worker" => let '(x, e) := decode_string v m.(ms_Worker) in (set_ms_Worker x m, e)
  | "is_master" => let '(x, e) := decode_bool v m.(ms_IsMaster) in (set_ms_IsMaster x m, e)
  | "status" => let '(x, e) := decode_status v m.(ms_Status) in (set_ms_Status x m, e)
  | "last_update" => let '(x, e) := decode_time v m.(ms_LastUpdate) in (set_ms_LastUpdate x m, e)
  | "last_started" => let '(x, e) := decode_time v m.(ms_LastStarted) in (set_ms_LastStarted x m, e)
  | "last_ended" => let '(x, e) := decode_time v m.(ms_LastEnded) in (set_ms_LastEnded x m, e)
  | "next_schedule" => let '(x, e) := decode_time v m.(ms_Scheduled) in (set_ms_Scheduled x m, e)
  | "upstream" => let '(x, e) := decode_string v m.(ms_Upstream) in (set_ms_Upstream x m, e)
  | "size" => let '(x, e) := decode_string v m.(ms_Size) in (set_ms_Size x m, e)
  | _ => let '(x, e) := decode_string v m.(ms_ErrorMsg) in (set_ms_ErrorMsg x m, e)
  end.

Definition unmarshal_MirrorStatus : json -> MirrorStatus -> MirrorStatus * option error :=
  unmarshal_struct MirrorStatus_fields MirrorStatus_set_field.

Definition marshal_MirrorStatus (m : MirrorStatus) : result json :=
  x3 ← encode_status m.(ms_Status);
  x4 ← encode_time m.(ms_LastUpdate);
  x5 ← encode_time m.(ms_LastStarted);
  x6 ← encode_time m.(ms_LastEnded);
  x7 ← encode_time m.(ms_Scheduled);
  Ok (JObj [("name", JStr m.(ms_Name));
    ("worker", JStr m.(ms_Worker));
    ("is_master", JBool m.(ms_IsMaster));
    ("status", x3);
    ("last_update", x4);
    ("last_started", x5);
    ("last_ended", x6);
    ("next_schedule", x7);
    ("upstream", JStr m.(ms_Upstream));
    ("size", JStr m.(ms_Size));
    ("error_msg", JStr m.(ms_ErrorMsg))]).

Definition WorkerStatus_fields : list string :=
  ["id"; "url"; "token"; "last_online"; "last_register"].

Definition WorkerStatus_set_field (f : string) (v : json) (m : WorkerStatus) : WorkerStatus * option error :=
  match f with
  | "id" => let '(x, e) := decode_string v m.(ws_ID) in (set_ws_ID x m, e)
  | "url" => let '(x, e) := decode_string v m.(ws_URL) in (set_ws_URL x m, e)
  | "token" => let '(x, e) := decode_string v m.(ws_Token) in (set_ws_Token x m, e)
  | "last_online" => let '(x, e) := decode_time v m.(ws_LastOnline) in (set_ws_LastOnline x m, e)
  | _ => let '(x, e) := decode_time v m.(ws_LastRegister) in (set_ws_LastRegister x m, e)
  end.

Definition unmarshal_WorkerStatus : json -> WorkerStatus -> WorkerStatus * option error :=
  unmarshal_struct WorkerStatus_fields WorkerStatus_set_field.

Definition marshal_WorkerStatus (m : WorkerStatus) : result json :=
  x3 ← encode_time m.(ws_LastOnline);
  x4 ← encode_time m.(ws_LastRegister);
  Ok (JObj [("id", JStr m.(ws_ID));
    ("url", JStr m.(ws_URL));
    ("token", JStr m.(ws_Token));
    ("last_online", x3);
    ("last_register", x4)]).

Definition MirrorSchedule_fields : list string :=
  ["name"; "next_schedule"].

Definition MirrorSchedule_set_field (f : string) (v : json) (m : MirrorSchedule) : MirrorSchedule * option error :=
  match f with
  | "name" => let '(x, e) := decode_string v m.(sc_MirrorName) in (set_sc_MirrorName x m, e)
  | _ => let '(x, e) := decode_time v m.(sc_NextSchedule) in (set_sc_NextSchedule x m, e)
  end.

Definition unmarshal_MirrorSchedule : json -> MirrorSchedule -> MirrorSchedule * option error :=
  unmarshal_struct MirrorSchedule_fields MirrorSchedule_set_field.

Definition marshal_MirrorSchedule (m : MirrorSchedule) : result json :=
  x1 ← encode_time m.(sc_NextSchedule);
  Ok (JObj [("name", JStr m.(sc_MirrorName));
    ("next_schedule", x1)]).

Definition MirrorSchedules_set_field (f : string) (v : json) (m : MirrorSchedules)
    : MirrorSchedules * option error :=
  let '(x, e) := decode_slice unmarshal_MirrorSchedule MirrorSchedule_zero v m.(Schedules) in
  (MkMirrorSchedules x, e).

Definition unmarshal_MirrorSchedules : json -> MirrorSchedules -> MirrorSchedules * option error :=
  unmarshal_struct ["schedules"] MirrorSchedules_set_field.

Definition SizeMsg_fields : list string :=
  ["name"; "size"].

Definition SizeMsg_set_field (f : string) (v : json) (m : SizeMsg) : SizeMsg * option error :=
  match f with
  | "name" => let '(x, e) := decode_string v m.(sz_Name) in (set_sz_Name x m, e)
  | _ => let '(x, e) := decode_string v m.(sz_Size) in (set_sz_Size x m, e)
  end.

Definition unmarshal_SizeMsg : json -> SizeMsg -> SizeMsg * option error :=
  unmarshal_struct SizeMsg_fields SizeMsg_set_field.

Definition WorkerCmd_fields : list string :=
  ["cmd"; "mirror_id"; "args"; "options"].

Definition WorkerCmd_set_field (f : string) (v : json) (m : WorkerCmd) : WorkerCmd * option error :=
  match f with
  | "cmd" => let '(x, e) := CmdVerb_UnmarshalJSON v m.(wc_Cmd) in (set_wc_Cmd x m, e)
  | "mirror_id" => let '(x, e) := decode_string v m.(wc_MirrorID) in (set_wc_MirrorID x m, e)
  | "args" => let '(x, e) := decode_strings v m.(wc_Args) in (set_wc_Args x m, e)
  | _ => let '(x, e) := decode_bool_map v m.(wc_Options) in (set_wc_Options x m, e)
  end.

Definition unmarshal_WorkerCmd : json -> WorkerCmd -> WorkerCmd * option error :=
  unmarshal_struct WorkerCmd_fields WorkerCmd_set_field.

Definition ClientCmd_fields : list string :=
  ["cmd"; "mirror_id"; "worker_id"; "args"; "options"].

Definition ClientCmd_set_field (f : string) (v : json) (m : ClientCmd) : ClientCmd * option error :=
  match f with
  | "cmd" => let '(x, e) := CmdVerb_UnmarshalJSON v m.(cc_Cmd) in (set_cc_Cmd x m, e)
  | "mirror_id" => let '(x, e) := decode_string v m.(cc_MirrorID) in (set_cc_MirrorID x m, e)
  | "worker_id" => let '(x, e) := decode_string v m.(cc_WorkerID) in (set_cc_WorkerID x m, e)
  | "args" => let '(x, e) := decode_strings v m.(cc_Args) in (set_cc_Args x m, e)
  | _ => let '(x, e) := decode_bool_map v m.(cc_Options) in (set_cc_Options x m, e)
  end.

Definition unmarshal_ClientCmd : json -> ClientCmd -> ClientCmd * option error :=
  unmarshal_struct ClientCmd_fields ClientCmd_set_field.

(** ** Decoding what was encoded

    Every exported field is written, so a stored document decodes to the stored
    value whatever the struct held before. *)

#[local] Ltac decode_one :=
  erewrite decode_members_cons;
    [| by apply (bool_decide_unpack _)
     | cbn; first [done
         | erewrite decode_encode_time by eassumption; done
         | erewrite decode_encode_status by eassumption; done]].

Lemma unmarshal_marshal_MirrorStatus m j old :
  marshal_MirrorStatus m = Ok j -> unmarshal_MirrorStatus j old = (m, None).
Proof.
  unfold marshal_MirrorStatus. intros H. result_inv.
  unfold unmarshal_MirrorStatus. cbn [unmarshal_struct]. repeat decode_one.
  by destruct m.
Qed.

Lemma unmarshal_marshal_WorkerStatus w j old :
  marshal_WorkerStatus w = Ok j -> unmarshal_WorkerStatus j old = (w, None).
Proof.
  unfold marshal_WorkerStatus. intros H. result_inv.
  unfold unmarshal_WorkerStatus. cbn [unmarshal_struct]. repeat decode_one.
  by destruct w.
Qed.

(** A command as [PostJSON] writes it: nil slices and maps are null, the keys of a map
    sorted. *)
Definition encode_slice (l : nilable (list string)) : json :=
  match l with None => JNull | Some l => JArr (JStr <$> l) end.

Definition encode_bool_map (m : nilable (gmap string bool)) : json :=
  match m with
  | None => JNull
  | Some m => JObj (prod_map id JBool <$> merge_sort (fun a b => String.le a.1 b.1) (map_to_list m))
  end.

Definition marshal_WorkerCmd (c : WorkerCmd) : json :=
  JObj [("cmd", JStr (CmdVerb_String c.(wc_Cmd)));
    ("mirror_id", JStr c.(wc_MirrorID));
    ("args", encode_slice c.(wc_Args));
    ("options", encode_bool_map c.(wc_Options))].

Lemma decode_encode_slice l old : decode_strings (encode_slice l) old = (l, None).
Proof.
  destruct l as [l|]; [|done]. unfold decode_strings. cbn [decode_slice encode_slice].
  assert (decode_elems decode_string EmptyString (JStr <$> l) = (l, None)) as ->; [|done].
  induction l as [|x l IH]; [done|]. rewrite fmap_cons. cbn [decode_elems decode_string].
  by rewrite IH.
Qed.

Lemma decode_bool_entries_spec l m :
  decode_bool_entries (prod_map id JBool <$> l) m = (foldl (fun m kb => <[kb.1 := kb.2]> m) m l, None).
Proof. revert m. induction l as [|[k b] l IH]; intros m; [done|]. simpl. unfold fmap in IH. by rewrite IH. Qed.

Lemma foldl_insert_lookup {A} (l : list (string * A)) (m : gmap string A) k :
  NoDup l.*1 ->
  foldl (fun m kb => <[kb.1 := kb.2]> m) m l !! k
  = match list_to_map (M := gmap string A) l !! k with Some b => Some b | None => m !! k end.
Proof.
  revert m. induction l as [|[k' b] l IH]; intros m Hnd; simpl; [by rewrite lookup_empty|].
  rewrite fmap_cons in Hnd. apply NoDup_cons in Hnd as [Hk Hnd]. rewrite IH by done.
  destruct (decide (k = k')) as [->|Hne].
  - rewrite (not_elem_of_list_to_map_1 l k' Hk). by rewrite !lookup_insert_eq.
  - by rewrite !(lookup_insert_ne _ k') by done.
Qed.

Lemma decode_encode_bool_map m old :
  old = None -> decode_bool_map (encode_bool_map m) old = (m, None).
Proof.
  intros ->. destruct m as [m|]; [|done]. cbn [encode_bool_map decode_bool_map].
  rewrite decode_bool_entries_spec. do 2 f_equal. apply map_eq. intros k.
  set (l := merge_sort _ _). assert (Hp : l ≡ₚ map_to_list m) by apply merge_sort_Permutation.
  assert (Hnd : NoDup l.*1) by (rewrite Hp; apply NoDup_fst_map_to_list).
  rewrite foldl_insert_lookup by done. cbn [default]. rewrite lookup_empty.
  rewrite (list_to_map_proper (M := gmap string) l (map_to_list m)) by done.
  rewrite list_to_map_to_list. by destruct (m !! k).
Qed.
Lemma unmarshal_marshal_WorkerCmd c : CmdVerb_String c.(wc_Cmd) <> EmptyString ->
  unmarshal_WorkerCmd (marshal_WorkerCmd c) WorkerCmd_zero = (c, None).
Proof.
  intros Hv. unfold unmarshal_WorkerCmd, marshal_WorkerCmd. cbn [unmarshal_struct].
  erewrite decode_members_cons; [|by apply (bool_decide_unpack _)|].
  2: { cbn. rewrite (proj1 (CmdVerb_names (wc_Cmd c) Hv)). done. }
  erewrite decode_members_cons; [|by apply (bool_decide_unpack _)|done].
  erewrite decode_members_cons; [|by apply (bool_decide_unpack _)|].
  2: { cbn. by rewrite decode_encode_slice. }
  erewrite decode_members_cons; [|by apply (bool_decide_unpack _)|].
  2: { cbn. by rewrite decode_encode_bool_map. }
  by destruct c.
Qed.

(** The elements of a slice, each encoded: they decode one by one into fresh variables. *)
Lemma decode_elems_encoded {A} (dec : json -> A -> A * option error) (enc : A -> result json) zero l js :
  (forall a j, enc a = Ok j -> dec j zero = (a, None)) ->
  mapM enc l = Ok js -> decode_elems dec zero js = (l, None).
Proof.
  intros Hd. revert js. induction l as [|a l IH]; simpl; intros js Hjs; result_inv; [done|].
  simpl. erewrite Hd by done. by erewrite IH by done.
Qed.

Definition marshal_MirrorSchedules (s : MirrorSchedules) : result json :=
  match s.(Schedules) with
  | None => Ok (JObj [("schedules", JNull)])
  | Some l => js ← mapM marshal_MirrorSchedule l; Ok (JObj [("schedules", JArr js)])
  end.

Lemma unmarshal_marshal_MirrorSchedules s j :
  marshal_MirrorSchedules s = Ok j -> unmarshal_MirrorSchedules j (MkMirrorSchedules None) = (s, None).
Proof.
  destruct s as [[l|]]; unfold marshal_MirrorSchedules; simpl; intros Hj; result_inv; [|done].
  unfold unmarshal_MirrorSchedules. cbn [unmarshal_struct].
  erewrite decode_members_cons; [done|by apply (bool_decide_unpack _)|].
  unfold MirrorSchedules_set_field. cbn [decode_slice].
  erewrite decode_elems_encoded; [done| |done].
  intros a ja Ha. unfold marshal_MirrorSchedule in Ha. result_inv.
  unfold unmarshal_MirrorSchedule. cbn [unmarshal_struct]. repeat decode_one. by destruct a.
Qed.

(** Which statuses can be encoded. *)
Lemma marshal_MirrorStatus_ok m :
  is_ok (marshal_MirrorStatus m) = true <->
  0 <= m.(ms_Status) <= 6
  /\ Forall (fun t => time_in_range t = true)
       [m.(ms_LastUpdate); m.(ms_LastStarted); m.(ms_LastEnded); m.(ms_Scheduled)].
Proof.
  rewrite !Forall_cons, Forall_nil. unfold marshal_MirrorStatus, encode_status, encode_time.
  assert (He : is_ok (SyncStatus_MarshalJSON m.(ms_Status)) = true <-> 0 <= m.(ms_Status) <= 6).
  { unfold SyncStatus_MarshalJSON. destruct (SyncStatus_cases m.(ms_Status)) as [Hn|[-> Hr]]; [|done].
    unfold status_names in Hn. rewrite !elem_of_cons, elem_of_nil in Hn.
    destruct_or! Hn; injection Hn as Hs _; rewrite Hs; done. }
  destruct (SyncStatus_MarshalJSON m.(ms_Status)); simpl in *;
    [|split; [done|intros [? _]; by apply He]].
  destruct (time_in_range m.(ms_LastUpdate)), (time_in_range m.(ms_LastStarted)),
    (time_in_range m.(ms_LastEnded)), (time_in_range m.(ms_Scheduled)); simpl; intuition done.
Qed.
End codec.

(** ** What the texts promise *)

(** [SyncStatus.MarshalJSON] and [UnmarshalJSON]. Exactly the seven statuses have a
    text, distinct statuses have distinct ones and each reads back to its status whatever
    the variable held; any other text is an error that leaves the variable alone. *)
Theorem SyncStatus_text (s old : SyncStatus) (v : string) :
  (is_ok (SyncStatus_MarshalJSON s) = true <-> 0 <= s <= 6)
  /\ (SyncStatus_MarshalJSON s = Ok v <-> SyncStatus_UnmarshalJSON v old = (s, None))
  /\ ((forall s', SyncStatus_MarshalJSON s' <> Ok v) ->
      SyncStatus_UnmarshalJSON v old = (old, Some ("Invalid status value: " +:+ v))).
Proof.
  split; [|split].
  - unfold SyncStatus_MarshalJSON. destruct (SyncStatus_cases s) as [Hn|[-> Hr]]; [|done].
    unfold status_names in Hn. rewrite !elem_of_cons, elem_of_nil in Hn.
    destruct_or! Hn; simplify_eq; done.
  - by rewrite SyncStatus_marshal_ok, SyncStatus_unmarshal_ok.
  - intros Hno. unfold SyncStatus_UnmarshalJSON.
    assert (Hq : forall s' n, (s', n) ∈ status_names -> v <> quote n).
    { intros s' n Hin ->. apply (Hno s'). apply SyncStatus_marshal_ok. eauto. }
    unfold status_names in Hq.
    repeat (rewrite decide_False by (eapply Hq; rewrite !elem_of_cons; tauto)). done.
Qed.

Lemma SyncStatus_text_witness :
  SyncStatus_UnmarshalJSON (quote "deleted") Status.Success
  = (Status.Success, Some ("Invalid status value: " +:+ quote "deleted")).
Proof.
  apply (SyncStatus_text Status.Success Status.Success (quote "deleted")).
  intros s' H. apply SyncStatus_marshal_ok in H as (n & Hq & Hn). apply quote_inj in Hq. subst n.
  unfold status_names in Hn. rewrite !elem_of_cons, elem_of_nil in Hn. by destruct_or! Hn.
Defined.

(** The verbs. Each of the six has a name of its own that reads back to it, and every
    other name reads as "start": a misspelt command is not refused but starts the job. *)
Theorem CmdVerb_text (c old : CmdVerb) (s : string) :
  (0 <= c <= 5 -> CmdVerb_UnmarshalJSON (JStr (CmdVerb_String c)) old = (c, None))
  /\ (0 <= c <= 5 <-> CmdVerb_String c <> EmptyString)
  /\ ((forall c', 0 <= c' <= 5 -> s <> CmdVerb_String c') ->
      CmdVerb_UnmarshalJSON (JStr s) old = (CmdStart, None)).
Proof.
  assert (Hc : forall c, 0 <= c <= 5 -> (CmdVerb_String c, c) ∈ verb_names).
  { intros c0 Hr. assert (c0 = 0 \/ c0 = 1 \/ c0 = 2 \/ c0 = 3 \/ c0 = 4 \/ c0 = 5) as H by lia.
    destruct_or! H; subst; apply (bool_decide_unpack _); vm_compute; exact I. }
  split; [|split].
  - intros Hr. unfold CmdVerb_UnmarshalJSON. simpl.
    by rewrite (proj1 (NewCmdVerbFromString_spec _ _ (Hc c Hr))).
  - split.
    + intros Hr He. specialize (Hc c Hr). rewrite He in Hc. unfold verb_names in Hc.
      rewrite !elem_of_cons, elem_of_nil in Hc. by destruct_or! Hc.
    + intros Hne. destruct (decide (0 <= c <= 5)) as [|Hr]; [done|]. destruct Hne.
      unfold CmdVerb_String. cbv zeta.
      rewrite (not_elem_of_list_to_map_1 (M := gmap Z)); [done|].
      unfold CmdStart, CmdStop, CmdDisable, CmdRestart, CmdPing, CmdReload. cbn.
      rewrite !elem_of_cons, elem_of_nil. lia.
  - intros Hs. unfold CmdVerb_UnmarshalJSON. simpl.
    rewrite NewCmdVerbFromString_unknown; [done|].
    intros ([n c0] & -> & Hin)%list_elem_of_fmap.
    apply (Hs c0); [|symmetry; by apply NewCmdVerbFromString_spec].
    unfold verb_names in Hin. rewrite !elem_of_cons, elem_of_nil in Hin.
    destruct_or! Hin; simplify_eq; done.
Qed.

Lemma CmdVerb_text_witness :
  CmdVerb_UnmarshalJSON (JStr "pause") CmdStop = (CmdStart, None)
  /\ CmdVerb_UnmarshalJSON (JStr "reload") CmdStop = (CmdReload, None).
Proof.
  split.
  - apply (CmdVerb_text CmdStart CmdStop "pause"). intros c Hc.
    assert (c = 0 \/ c = 1 \/ c = 2 \/ c = 3 \/ c = 4 \/ c = 5) as H by lia.
    by destruct_or! H; subst.
  - by apply (CmdVerb_text CmdReload CmdStop EmptyString).
Defined.

(** *** On the wire *)

Section wire.
Context `{TT : TimeText}.

(** The messages with what the encoder makes of their strings. *)
Definition clean_MirrorStatus (m : MirrorStatus) : MirrorStatus :=
  MkMirrorStatus (clean_utf8 m.(ms_Name)) (clean_utf8 m.(ms_Worker)) m.(ms_IsMaster) m.(ms_Status)
    m.(ms_LastUpdate) m.(ms_LastStarted) m.(ms_LastEnded) m.(ms_Scheduled)
    (clean_utf8 m.(ms_Upstream)) (clean_utf8 m.(ms_Size)) (clean_utf8 m.(ms_ErrorMsg)).

Definition clean_WorkerStatus (w : WorkerStatus) : WorkerStatus :=
  MkWorkerStatus (clean_utf8 w.(ws_ID)) (clean_utf8 w.(ws_URL)) (clean_utf8 w.(ws_Token))
    w.(ws_LastOnline) w.(ws_LastRegister).

Definition clean_MirrorSchedule (m : MirrorSchedule) : MirrorSchedule :=
  MkMirrorSchedule (clean_utf8 m.(sc_MirrorName)) m.(sc_NextSchedule).

(** The strings of a command. *)
Definition WorkerCmd_strings (c : WorkerCmd) : list string :=
  c.(wc_MirrorID) :: default [] c.(wc_Args) ++ (map_to_list (default ∅ c.(wc_Options))).*1.

Lemma wire_time t j : encode_time t = Ok j -> wire j = j.
Proof.
  unfold encode_time. destruct (time_in_range t); [|done]. intros [= <-]. simpl. by rewrite fmt_time_utf8.
Qed.

Lemma wire_status st j : encode_status st = Ok j -> wire j = j.
Proof.
  unfold encode_status. destruct (SyncStatus_MarshalJSON st) as [v|] eqn:E; [|done]. intros [= <-].
  unfold SyncStatus_String. by repeat case_match.
Qed.

Lemma wire_MirrorStatus m j : marshal_MirrorStatus m = Ok j -> marshal_MirrorStatus (clean_MirrorStatus m) = Ok (wire j).
Proof.
  unfold marshal_MirrorStatus, clean_MirrorStatus.
  cbn [ms_Name ms_Worker ms_IsMaster ms_Status ms_LastUpdate ms_LastStarted ms_LastEnded ms_Scheduled ms_Upstream ms_Size ms_ErrorMsg].
  destruct (encode_status (ms_Status m)) as [x3|] eqn:E3; [|done]. cbn [mbind result_bind].
  destruct (encode_time (ms_LastUpdate m)) as [x4|] eqn:E4; [|done]. cbn [mbind result_bind].
  destruct (encode_time (ms_LastStarted m)) as [x5|] eqn:E5; [|done]. cbn [mbind result_bind].
  destruct (encode_time (ms_LastEnded m)) as [x6|] eqn:E6; [|done]. cbn [mbind result_bind].
  destruct (encode_time (ms_Scheduled m)) as [x7|] eqn:E7; [|done]. cbn [mbind result_bind].
  intros [= <-]. cbn [wire List.map]. apply wire_status in E3.
  apply wire_time in E4, E5, E6, E7. by rewrite E3, E4, E5, E6, E7.
Qed.

Lemma wire_WorkerStatus w j : marshal_WorkerStatus w = Ok j -> marshal_WorkerStatus (clean_WorkerStatus w) = Ok (wire j).
Proof.
  unfold marshal_WorkerStatus, clean_WorkerStatus. cbn [ws_ID ws_URL ws_Token ws_LastOnline ws_LastRegister].
  destruct (encode_time (ws_LastOnline w)) as [x3|] eqn:E3; [|done]. cbn [mbind result_bind].
  destruct (encode_time (ws_LastRegister w)) as [x4|] eqn:E4; [|done]. cbn [mbind result_bind].
  intros [= <-]. cbn [wire List.map]. apply wire_time in E3, E4. by rewrite E3, E4.
Qed.

Lemma wire_MirrorSchedule m j : marshal_MirrorSchedule m = Ok j ->
  marshal_MirrorSchedule (clean_MirrorSchedule m) = Ok (wire j).
Proof.
  unfold marshal_MirrorSchedule, clean_MirrorSchedule. cbn [sc_MirrorName sc_NextSchedule].
  destruct (encode_time (sc_NextSchedule m)) as [x|] eqn:E; [|done]. cbn [mbind result_bind].
  intros [= <-]. cbn [wire List.map]. apply wire_time in E. by rewrite E.
Qed.

Lemma wire_MirrorSchedules l j : marshal_MirrorSchedules (MkMirrorSchedules (Some l)) = Ok j ->
  marshal_MirrorSchedules (MkMirrorSchedules (Some (clean_MirrorSchedule <$> l))) = Ok (wire j).
Proof.
  unfold marshal_MirrorSchedules. cbn [Schedules].
  destruct (mapM marshal_MirrorSchedule l) as [js|] eqn:E; [|done]. cbn [mbind result_bind]. intros [= <-].
  assert (mapM marshal_MirrorSchedule (clean_MirrorSchedule <$> l) = Ok (List.map wire js)) as ->; [|done].
  revert js E. induction l as [|m l IH]; intros js E; [by injection E as <-|].
  cbn [mapM] in E. destruct (marshal_MirrorSchedule m) as [x|] eqn:Ex; [|done]. cbn [mbind result_bind] in E.
  destruct (mapM marshal_MirrorSchedule l) as [xs|] eqn:Exs; [|done]. injection E as <-.
  cbn [fmap list_fmap mapM]. rewrite (wire_MirrorSchedule _ _ Ex). cbn [mbind result_bind].
  specialize (IH xs eq_refl). cbn [fmap] in IH. by rewrite IH.
Qed.

Lemma wire_WorkerCmd c : Forall utf8 (WorkerCmd_strings c) -> wire (marshal_WorkerCmd c) = marshal_WorkerCmd c.
Proof.
  unfold WorkerCmd_strings. intros H. apply Forall_cons in H as [Hm H]. apply Forall_app in H as [Ha Ho].
  apply wire_utf8. unfold marshal_WorkerCmd. cbn [json_strings List.map List.concat app].
  assert (Hv : utf8 (CmdVerb_String (wc_Cmd c))).
  { destruct (decide (0 <= wc_Cmd c <= 5)) as [Hr|Hr].
    - assert (wc_Cmd c = 0 \/ wc_Cmd c = 1 \/ wc_Cmd c = 2 \/ wc_Cmd c = 3 \/ wc_Cmd c = 4 \/ wc_Cmd c = 5) as Hc by lia.
      by destruct_or! Hc; rewrite Hc.
    - assert (CmdVerb_String (wc_Cmd c) = EmptyString) as ->; [|done]. unfold CmdVerb_String. cbv zeta.
      rewrite (not_elem_of_list_to_map_1 (M := gmap Z)); [done|].
      unfold CmdStart, CmdStop, CmdDisable, CmdRestart, CmdPing, CmdReload. cbn.
      rewrite !elem_of_cons, elem_of_nil. lia. }
  constructor; [done|]. constructor; [done|]. constructor; [done|]. constructor; [done|]. constructor; [done|].
  apply Forall_app. split; [|constructor; [done|]; rewrite List.app_nil_r].
  - destruct (wc_Args c) as [l|]; [|constructor]. simpl in *. clear -Ha.
    induction Ha as [|x l Hx _ IH]; [constructor|]. simpl. by constructor.
  - destruct (wc_Options c) as [o|]; [|constructor]. cbn [encode_bool_map default from_option] in *.
    set (l := merge_sort _ _). assert (Hp : l ≡ₚ map_to_list o) by apply merge_sort_Permutation.
    assert (Hl : Forall utf8 l.*1) by by rewrite Hp. clearbody l. clear Hp Ho.
    induction l as [|[k b] l IH]; [constructor|]. simpl in *. apply Forall_cons in Hl as [Hk Hl].
    constructor; [done|]. by apply IH.
Qed.

(** C24: the messages survive the wire. A status can be encoded exactly when it is one of the
    seven and its instants have a four-digit year; what is then read from the text, into
    any variable, is the status, but for the bytes of its strings that are not UTF-8, each of
    which is read as U+FFFD; and so for the status of a worker and for the schedules. A
    command whose strings are UTF-8 and whose verb is known is read, on the worker's side,
    as the command the manager sent. *)
Theorem messages_roundtrip (m old : MirrorStatus) (w oldw : WorkerStatus) (l : list MirrorSchedule) (c : WorkerCmd) :
  (is_ok (marshal_MirrorStatus m) = true <->
     0 <= m.(ms_Status) <= 6
     /\ Forall (fun t => time_in_range t = true)
          [m.(ms_LastUpdate); m.(ms_LastStarted); m.(ms_LastEnded); m.(ms_Scheduled)])
  /\ (forall j, marshal_MirrorStatus m = Ok j -> unmarshal_MirrorStatus (wire j) old = (clean_MirrorStatus m, None))
  /\ (is_ok (marshal_WorkerStatus w) = true <->
     Forall (fun t => time_in_range t = true) [w.(ws_LastOnline); w.(ws_LastRegister)])
  /\ (forall j, marshal_WorkerStatus w = Ok j -> unmarshal_WorkerStatus (wire j) oldw = (clean_WorkerStatus w, None))
  /\ (forall j, marshal_MirrorSchedules (MkMirrorSchedules (Some l)) = Ok j ->
      unmarshal_MirrorSchedules (wire j) (MkMirrorSchedules None)
      = (MkMirrorSchedules (Some (clean_MirrorSchedule <$> l)), None))
  /\ (CmdVerb_String c.(wc_Cmd) <> EmptyString -> Forall utf8 (WorkerCmd_strings c) ->
      unmarshal_WorkerCmd (wire (marshal_WorkerCmd c)) WorkerCmd_zero = (c, None)).
Proof.
  split_and!.
  - apply marshal_MirrorStatus_ok.
  - intros j Hj. by apply unmarshal_marshal_MirrorStatus, wire_MirrorStatus.
  - rewrite !Forall_cons, Forall_nil. unfold marshal_WorkerStatus, encode_time.
    destruct (time_in_range (ws_LastOnline w)), (time_in_range (ws_LastRegister w)); simpl; intuition done.
  - intros j Hj. by apply unmarshal_marshal_WorkerStatus, wire_WorkerStatus.
  - intros j Hj. by apply unmarshal_marshal_MirrorSchedules, wire_MirrorSchedules.
  - intros Hv Hs. rewrite wire_WorkerCmd by done. by apply unmarshal_marshal_WorkerCmd.
Qed.
End wire.

Lemma messages_roundtrip_witness :
  let c := MkWorkerCmd CmdStart "débian" None (Some {["force" := true]}) in
  let w := MkWorkerStatus "w" (String (Ascii.ascii_of_nat 255) "x") EmptyString 0 0 in
  unmarshal_WorkerCmd (wire (marshal_WorkerCmd c)) WorkerCmd_zero = (c, None)
  /\ exists j, marshal_WorkerStatus (TT := decimal_time_text) w = Ok j
     /\ unmarshal_WorkerStatus (TT := decimal_time_text) (wire j) w
        = (MkWorkerStatus "w" (replacement +:+ "x") EmptyString 0 0, None).
Proof.
  intros c w. destruct (messages_roundtrip (TT := decimal_time_text) MirrorStatus_zero MirrorStatus_zero w w [] c)
    as (_ & _ & _ & Hw & _ & Hc).
  split.
  - apply Hc; [discriminate|]. apply (bool_decide_unpack _). vm_compute. exact I.
  - eexists. split; [reflexivity|]. apply Hw. reflexivity.
Defined.
