(* ===== verification/Web.v ===== *)
(** * internal/status_web.go: the JSON form of the statuses shown to people

    Each instant of a [WebMirrorStatus] is written twice, as a text to the second and as
    the seconds since the epoch; neither keeps the nanoseconds.  The text depends on the
    local zone: what the code relies on is that it parses back to its second. *)

From S2P Require Import Prelude Json Msg.

Local Open Scope string_scope.
Local Open Scope list_scope.
Local Open Scope Z_scope.

(** The start of the second an instant lies in. *)
Definition whole_second (t : Z) : Z := t / second * second.

(** [t.Format(layout)] and [time.Parse(layout, s)] for "2006-01-02 15:04:05 -0700"; a year
    of five digits does not parse. *)
Class StampText := {
  fmt_stamp : Z -> string;
  parse_stamp : string -> option Z;
  parse_fmt_stamp : forall t, time_in_range t = true -> parse_stamp (fmt_stamp t) = Some (whole_second t)
}.

Definition max_int64 : Z := 9223372036854775807.

Section codec.
Context {ST : StampText}.

Definition textTime_MarshalJSON (t : Z) : json := JStr (fmt_stamp t).

(** The variable is set even when the text does not parse. *)
Definition textTime_UnmarshalJSON (v : json) : Z * option error :=
  match v with
  | JStr s => match parse_stamp s with Some t => (t, None) | None => (time_zero, Some "parsing time") end
  | _ => (time_zero, Some "parsing time")
  end.

Definition stampTime_MarshalJSON (t : Z) : json := JNum (t / second).

(** [strconv.Atoi] takes the numbers of 64 bits. *)
Definition stampTime_UnmarshalJSON (v : json) (old : Z) : Z * option error :=
  match v with
  | JNum z => if decide (- max_int64 - 1 <= z <= max_int64) then (z * second, None)
              else (old, Some "strconv.Atoi: value out of range")
  | _ => (old, Some "strconv.Atoi: invalid syntax")
  end.

Definition WebMirrorStatus_fields : list string :=
  ["name"; "is_master"; "status"; "last_update"; "last_update_ts"; "last_started"; "last_started_ts";
   "last_ended"; "last_ended_ts"; "next_schedule"; "next_schedule_ts"; "upstream"; "size"].

Definition WebMirrorStatus_zero : WebMirrorStatus :=
  BuildWebMirrorStatus MirrorStatus_zero.

Definition WebMirrorStatus_set_field (f : string) (v : json) (m : WebMirrorStatus)
    : WebMirrorStatus * option error :=
  let '(MkWebMirrorStatus n im st lu luts ls lsts le lets sc scts up sz) := m in
  match f with
  | "name" => let '(x, e) := decode_string v n in (MkWebMirrorStatus x im st lu luts ls lsts le lets sc scts up sz, e)
  | "is_master" => let '(x, e) := decode_bool v im in (MkWebMirrorStatus n x st lu luts ls lsts le lets sc scts up sz, e)
  | "status" => let '(x, e) := decode_status v st in (MkWebMirrorStatus n im x lu luts ls lsts le lets sc scts up sz, e)
  | "last_update" => let '(x, e) := textTime_UnmarshalJSON v in (MkWebMirrorStatus n im st x luts ls lsts le lets sc scts up sz, e)
  | "last_update_ts" => let '(x, e) := stampTime_UnmarshalJSON v luts in (MkWebMirrorStatus n im st lu x ls lsts le lets sc scts up sz, e)
  | "last_started" => let '(x, e) := textTime_UnmarshalJSON v in (MkWebMirrorStatus n im st lu luts x lsts le lets sc scts up sz, e)
  | "last_started_ts" => let '(x, e) := stampTime_UnmarshalJSON v lsts in (MkWebMirrorStatus n im st lu luts ls x le lets sc scts up sz, e)
  | "last_ended" => let '(x, e) := textTime_UnmarshalJSON v in (MkWebMirrorStatus n im st lu luts ls lsts x lets sc scts up sz, e)
  | "last_ended_ts" => let '(x, e) := stampTime_UnmarshalJSON v lets in (MkWebMirrorStatus n im st lu luts ls lsts le x sc scts up sz, e)
  | "next_schedule" => let '(x, e) := textTime_UnmarshalJSON v in (MkWebMirrorStatus n im st lu luts ls lsts le lets x scts up sz, e)
  | "next_schedule_ts" => let '(x, e) := stampTime_UnmarshalJSON v scts in (MkWebMirrorStatus n im st lu luts ls lsts le lets sc x up sz, e)
  | "upstream" => let '(x, e) := decode_string v up in (MkWebMirrorStatus n im st lu luts ls lsts le lets sc scts x sz, e)
  | _ => let '(x, e) := decode_string v sz in (MkWebMirrorStatus n im st lu luts ls lsts le lets sc scts up x, e)
  end.

Definition unmarshal_WebMirrorStatus : json -> WebMirrorStatus -> WebMirrorStatus * option error :=
  unmarshal_struct WebMirrorStatus_fields WebMirrorStatus_set_field.

Definition marshal_WebMirrorStatus (m : WebMirrorStatus) : result json :=
  st ← encode_status m.(web_Status);
  Ok (JObj [("name", JStr m.(web_Name));
    ("is_master", JBool m.(web_IsMaster));
    ("status", st);
    ("last_update", textTime_MarshalJSON m.(web_LastUpdate));
    ("last_update_ts", stampTime_MarshalJSON m.(web_LastUpdateTs));
    ("last_started", textTime_MarshalJSON m.(web_LastStarted));
    ("last_started_ts", stampTime_MarshalJSON m.(web_LastStartedTs));
    ("last_ended", textTime_MarshalJSON m.(web_LastEnded));
    ("last_ended_ts", stampTime_MarshalJSON m.(web_LastEndedTs));
    ("next_schedule", textTime_MarshalJSON m.(web_Scheduled));
    ("next_schedule_ts", stampTime_MarshalJSON m.(web_ScheduledTs));
    ("upstream", JStr m.(web_Upstream));
    ("size", JStr m.(web_Size))]).

(** ** What the page shows of a status *)

Lemma decode_text_encode t : time_in_range t = true ->
  textTime_UnmarshalJSON (textTime_MarshalJSON t) = (whole_second t, None).
Proof. intros Ht. simpl. by rewrite parse_fmt_stamp. Qed.

Lemma decode_stamp_encode t old : time_in_range t = true ->
  stampTime_UnmarshalJSON (stampTime_MarshalJSON t) old = (whole_second t, None).
Proof.
  intros Ht. unfold time_in_range in Ht. apply bool_decide_eq_true in Ht.
  unfold stampTime_UnmarshalJSON, stampTime_MarshalJSON. rewrite decide_True; [done|].
  unfold time_min, time_max, second, max_int64 in *. split.
  - transitivity (-62167219200); [lia|]. apply Z.div_le_lower_bound; lia.
  - transitivity 253402300800; [|lia]. apply Z.div_le_upper_bound; lia.
Qed.

(** The instants of a status to the second. *)
Definition to_seconds (m : MirrorStatus) : MirrorStatus :=
  set_ms_LastUpdate (whole_second m.(ms_LastUpdate))
  (set_ms_LastStarted (whole_second m.(ms_LastStarted))
  (set_ms_LastEnded (whole_second m.(ms_LastEnded))
  (set_ms_Scheduled (whole_second m.(ms_Scheduled)) m))).

Definition times_in_range (m : MirrorStatus) : Prop :=
  Forall (fun t => time_in_range t = true)
    [m.(ms_LastUpdate); m.(ms_LastStarted); m.(ms_LastEnded); m.(ms_Scheduled)].

#[local] Ltac decode_field :=
  erewrite decode_members_cons;
    [| by apply (bool_decide_unpack _)
     | cbn -[textTime_UnmarshalJSON textTime_MarshalJSON stampTime_UnmarshalJSON stampTime_MarshalJSON whole_second];
       first [done
         | erewrite decode_encode_status by eassumption; done
         | rewrite decode_text_encode by done; done
         | rewrite decode_stamp_encode by done; done]].

(** What a client reads of the statuses the manager lists. A status with a valid state is
    always encoded; when its instants have a four-digit year the client decodes it to the
    same status, both forms of each instant agreeing and cut to the second. *)
Theorem web_status_roundtrip m old :
  (is_ok (marshal_WebMirrorStatus (BuildWebMirrorStatus m)) = true <-> is_ok (encode_status m.(ms_Status)) = true)
  /\ (times_in_range m -> forall j, marshal_WebMirrorStatus (BuildWebMirrorStatus m) = Ok j ->
        unmarshal_WebMirrorStatus j old = (BuildWebMirrorStatus (to_seconds m), None)).
Proof.
  split.
  - unfold marshal_WebMirrorStatus. simpl. by destruct (encode_status _).
  - unfold times_in_range. rewrite !Forall_cons. intros (H1 & H2 & H3 & H4 & _) j Hj.
    unfold marshal_WebMirrorStatus in Hj. result_inv. cbn [BuildWebMirrorStatus web_Status] in *.
    destruct old. unfold unmarshal_WebMirrorStatus.
    cbn -[decode_members textTime_MarshalJSON stampTime_MarshalJSON whole_second].
    repeat decode_field. done.
Qed.
End codec.

(** A concrete text: the decimal digits of the second. *)
Definition decimal_stamp_text : StampText.
Proof.
  refine {| fmt_stamp t := decimal_fmt (t / second);
            parse_stamp s := (fun z => z * second) <$> decimal_parse s |}.
  intros t _. by rewrite decimal_parse_fmt.
Defined.

(** *** Witness *)

Definition ex_web : MirrorStatus :=
  MkMirrorStatus "debian" "w1" true Status.Success (1700000000 * second + 5) (1700000000 * second)
    (1700000000 * second + 5) (1700003600 * second) "rsync://example.org/debian" "2T" EmptyString.

Lemma web_status_roundtrip_witness :
  exists j, marshal_WebMirrorStatus (ST := decimal_stamp_text) (BuildWebMirrorStatus ex_web) = Ok j
    /\ unmarshal_WebMirrorStatus (ST := decimal_stamp_text) j WebMirrorStatus_zero
       = (BuildWebMirrorStatus (set_ms_LastUpdate (1700000000 * second)
           (set_ms_LastEnded (1700000000 * second) ex_web)), None).
Proof.
  eexists. split; [reflexivity|].
  apply (web_status_roundtrip (ST := decimal_stamp_text) ex_web WebMirrorStatus_zero); [|reflexivity].
  unfold times_in_range. repeat (apply Forall_cons; split; [vm_compute; reflexivity|]). apply Forall_nil_2.
Defined.
