(* ===== verification/Http.v ===== *)
(** * internal/util.go: requests and answers between the programs

    A request carries its JSON document; an answer is its status code and its body, an
    error when reading it fails.  The HTTP client is what a request is answered, or the
    error of sending it; its set-up, with the certificates it trusts, comes first. *)

From S2P Require Import Prelude Json Msg.

Local Open Scope string_scope.
Local Open Scope list_scope.
Local Open Scope Z_scope.

Inductive http : Type :=
| GET (url : string)
| DELETE (url : string)
| POST (url : string) (doc : json).

Record answer : Type := MkAnswer { a_StatusCode : Z; a_Body : result json }.

(** ** The client *)

(** What [CreateHTTPClient] sets: the contents of the file of trusted certificates, those of
    the system when there is none; the idle connections kept; the timeout in nanoseconds. *)
Record http_client : Type := MkHttpClient {
  hc_RootCAs : option string;
  hc_MaxIdleConnsPerHost : Z;
  hc_Timeout : Z
}.

Section setup.
(** [os.ReadFile], and whether [AppendCertsFromPEM] finds a certificate in the text. *)
Context (ReadFile : string -> result string) (AppendCertsFromPEM : string -> bool).

Definition GetTLSConfig (CAFile : string) : result string :=
  caCert ← ReadFile CAFile;
  if AppendCertsFromPEM caCert then Ok caCert else Err "failed to add CA to pool".

Definition CreateHTTPClient (CAFile : string) : result http_client :=
  tlsConfig ← (if decide (CAFile <> EmptyString) then c ← GetTLSConfig CAFile; Ok (Some c) else Ok None);
  Ok (MkHttpClient tlsConfig 20 (5 * 1000000000)).

(** There is a client exactly when there is no file to trust or it holds a certificate;
    what a client trusts is then that file alone. *)
Lemma CreateHTTPClient_trusts CAFile c : CreateHTTPClient CAFile = Ok c <->
  c.(hc_MaxIdleConnsPerHost) = 20 /\ c.(hc_Timeout) = 5 * 1000000000
  /\ match c.(hc_RootCAs) with
     | None => CAFile = EmptyString
     | Some pem => CAFile <> EmptyString /\ ReadFile CAFile = Ok pem /\ AppendCertsFromPEM pem = true
     end.
Proof.
  unfold CreateHTTPClient, GetTLSConfig. destruct c as [roots idle timeout]. cbn.
  case_decide as Hf; cbn [mbind result_bind].
  - destruct (ReadFile CAFile) as [pem|e]; cbn [mbind result_bind].
    + destruct (AppendCertsFromPEM pem) eqn:Hp; cbn [mbind result_bind]; split.
      * by intros [= <- <- <-].
      * intros (-> & -> & H). destruct roots as [pem'|]; [|done]. by destruct H as (_ & [= <-] & _).
      * done.
      * intros (_ & _ & H). destruct roots as [pem'|]; [|done]. destruct H as (_ & [= <-] & H). congruence.
    + split; [done|]. intros (_ & _ & H). destruct roots; [|done]. by destruct H as (_ & ? & _).
  - split; [by intros [= <- <- <-]|].
    intros (-> & -> & H). destruct roots; [|done]. by destruct H.
Qed.
End setup.

(** What a client's requests are answered. *)
Abbreviation transport := (http -> result answer).

Section client.
Context (client : transport).

(** [PostJSON(url, obj, client)]; [doc] is the encoding of [obj]. *)
Definition PostJSON (url : string) (doc : result json) : result answer :=
  match doc with
  | Err e => Err e
  | Ok b => client (POST url b)
  end.

(** [GetJSON(url, &obj, client)]: the value of [obj] and the error; [zero] is its value
    before. *)
Definition GetJSON {A} (unmarshal : json -> A -> A * option error) (url : string) (zero : A)
    : A * option error :=
  match client (GET url) with
  | Err e => (zero, Some e)
  | Ok resp =>
      if decide (resp.(a_StatusCode) <> 200) then (zero, Some "HTTP status code is not 200")
      else
        match resp.(a_Body) with
        | Err e => (zero, Some e)
        | Ok body => unmarshal body zero
        end
  end.

(** [fetchJobStatus] of worker.go: what a starting worker knows of its mirrors. *)
Definition fetchJobStatus `{TimeText} (worker_name : string) (roots : list string)
    : comp (nilable (list MirrorStatus)) :=
  match roots with
  | [] => Panic "runtime error: index out of range [0] with length 0"
  | apiBase :: _ =>
      Ret (GetJSON (decode_slice unmarshal_MirrorStatus MirrorStatus_zero)
             (apiBase +:+ "/workers/" +:+ worker_name +:+ "/jobs") None).1
  end.

(** Nothing but a 200 with a document reaches the decoder. *)
Lemma GetJSON_ok {A} (unmarshal : json -> A -> A * option error) url zero body :
  client (GET url) = Ok (MkAnswer 200 (Ok body)) -> GetJSON unmarshal url zero = unmarshal body zero.
Proof. intros H. unfold GetJSON. by rewrite H. Qed.

Lemma GetJSON_untouched {A} (unmarshal : json -> A -> A * option error) url zero :
  (forall body, client (GET url) <> Ok (MkAnswer 200 (Ok body))) ->
  exists e, GetJSON unmarshal url zero = (zero, Some e).
Proof.
  intros H. unfold GetJSON. destruct (client (GET url)) as [[code [body|e]]|e]; [|case_decide; by eexists|by eexists].
  simpl. case_decide as Hc; [by eexists|]. destruct (H body). do 2 f_equal. by destruct (decide (code = 200)).
Qed.
End client.
