(* ===== verification/Ctl.v ===== *)
(** * cmd/tunasynctl/tunasynctl.go: the control client

    Each command of the client as a function of its arguments, of its flags and of how its
    requests are answered.  It returns the requests it sent, in order, and what it prints
    or the message it exits with.  The display of the listings (JSON or a template) and
    the command-line library are left out. *)

From S2P Require Import Prelude Json Msg Web Http.

Local Open Scope string_scope.
Local Open Scope list_scope.
Local Open Scope Z_scope.

(** ** Configuration *)

Record config : Type := MkConfig {
  ManagerAddr : string;
  ManagerPort : Z;
  CACert : string
}.

(** The keys a configuration file holds: the decoder leaves the fields of the others. *)
Record config_file : Type := MkConfigFile {
  cf_manager_addr : option string;
  cf_manager_port : option Z;
  cf_ca_cert : option string
}.

Definition decoded (f : config_file) (cfg : config) : config :=
  MkConfig (default cfg.(ManagerAddr) f.(cf_manager_addr)) (default cfg.(ManagerPort) f.(cf_manager_port))
    (default cfg.(CACert) f.(cf_ca_cert)).

Definition systemCfgFile : string := "/etc/tunasync/ctl.conf".

Section initialize.
(** The files: [stat] is whether a path exists, [read] what its contents decode to. *)
Context (stat : string -> bool) (read : string -> result config_file).
(** [os.ExpandEnv(userCfgFile)] *)
Context (userCfgFile : string).

Definition loadConfig (cfgFile : string) (cfg : config) : result config :=
  if decide (cfgFile <> EmptyString) then f ← read cfgFile; Ok (decoded f cfg) else Ok cfg.

(** The flags of the command line, empty or 0 when not given. *)
Record flags : Type := MkFlags {
  fl_config : string;
  fl_manager : string;
  fl_port : Z;
  fl_ca_cert : string
}.

(** [initialize] up to the client: the configuration and [baseURL]. *)
Definition initialize (c : flags) : result (config * string) :=
  let cfg := MkConfig "localhost" 14242 EmptyString in
  cfg ← (if stat systemCfgFile then loadConfig systemCfgFile cfg else Ok cfg);
  cfg ← (if stat userCfgFile then loadConfig userCfgFile cfg else Ok cfg);
  cfg ← (if decide (c.(fl_config) <> EmptyString) then loadConfig c.(fl_config) cfg else Ok cfg);
  let cfg := if decide (c.(fl_manager) <> EmptyString)
             then MkConfig c.(fl_manager) cfg.(ManagerPort) cfg.(CACert) else cfg in
  let cfg := if decide (0 < c.(fl_port))
             then MkConfig cfg.(ManagerAddr) c.(fl_port) cfg.(CACert) else cfg in
  let cfg := if decide (c.(fl_ca_cert) <> EmptyString)
             then MkConfig cfg.(ManagerAddr) cfg.(ManagerPort) c.(fl_ca_cert) else cfg in
  let baseURL :=
    (if decide (cfg.(CACert) <> EmptyString) then "https://" else "http://")
    +:+ cfg.(ManagerAddr) +:+ ":" +:+ pretty cfg.(ManagerPort) in
  Ok (cfg, baseURL).
End initialize.

(** ** Commands *)

Definition cmdPath : string := "/cmd".
Definition listJobsPath : string := "/jobs".
Definition listWorkersPath : string := "/workers".
Definition flushDisabledPath : string := "/jobs/disabled".

(** ASCII white space. *)
Definition is_space (c : Ascii.ascii) : bool :=
  let n := Ascii.nat_of_ascii c in existsb (Nat.eqb n) [9; 10; 11; 12; 13; 32]%nat.

Fixpoint trim_left (s : string) : string :=
  match s with
  | String c s' => if is_space c then trim_left s' else s
  | EmptyString => EmptyString
  end.

(** [strings.TrimSpace] on ASCII text. *)
Definition TrimSpace (s : string) : string := String.rev (trim_left (String.rev (trim_left s))).

Definition comma : Ascii.ascii := Ascii.ascii_of_nat 44.

(** [strings.Split(s, ",")], each part trimmed. *)
Definition split_args (s : string) : list string := TrimSpace <$> split_char comma s.

(** The JSON the client writes for a command. *)
Definition marshal_ClientCmd (c : ClientCmd) : json :=
  JObj [("cmd", JStr (CmdVerb_String c.(cc_Cmd)));
    ("mirror_id", JStr c.(cc_MirrorID));
    ("worker_id", JStr c.(cc_WorkerID));
    ("args", encode_slice c.(cc_Args));
    ("options", encode_bool_map c.(cc_Options))].

Definition marshal_SizeMsg (m : SizeMsg) : json :=
  JObj [("name", JStr m.(sz_Name)); ("size", JStr m.(sz_Size))].

(** What a command prints, or the message it exits with. *)
Abbreviation outcome A := (list http * result A)%type.

Section commands.
Context {TT : TimeText} {ST : StampText} (client : transport) (baseURL : string).
(** The text of a body. *)
Context (show : json -> string).

Definition not_200 (body : result json) : error :=
  match body with
  | Err e => "Failed to parse response: " +:+ e
  | Ok body => "Failed to correctly send command: HTTP status code is not 200: " +:+ show body
  end.

(** The end [cmdJob], [cmdWorker] and [flushDisabledJobs] share. *)
Definition plain_answer (failed : error) (printed : string) (resp : result answer) : result string :=
  match resp with
  | Err e => Err (failed +:+ e)
  | Ok resp =>
      if decide (resp.(a_StatusCode) <> 200) then Err (not_200 resp.(a_Body)) else Ok printed
  end.

Definition post_cmd (cmd : ClientCmd) : outcome string :=
  let req := POST (baseURL +:+ cmdPath) (marshal_ClientCmd cmd) in
  ([req], plain_answer "Failed to correctly send command: " "Successfully send the command"
            (PostJSON client (baseURL +:+ cmdPath) (Ok (marshal_ClientCmd cmd)))).

(** [cmdJob(verb)] on its arguments, the flags worker and force. *)
Definition cmdJob (verb : CmdVerb) (worker : string) (force : bool) (args : list string) : outcome string :=
  let send mirrorID argsList :=
    let options : gmap string bool := if force then {["force" := true]} else ∅ in
    post_cmd (MkClientCmd verb mirrorID worker argsList (Some options)) in
  match args with
  | [mirrorID] => send mirrorID None
  | [mirrorID; l] => send mirrorID (Some (split_args l))
  | _ => ([], Err "Usage Error: cmd command receive just 1 required positional argument MIRROR and 1 optional argument WORKER")
  end.

Definition cmdWorker (verb : CmdVerb) (worker : string) : outcome string :=
  if decide (worker = EmptyString) then ([], Err "Please specify the worker with -w <worker-id>")
  else post_cmd (MkClientCmd verb EmptyString worker None None).

Definition flushDisabledJobs : outcome string :=
  let req := DELETE (baseURL +:+ flushDisabledPath) in
  ([req], plain_answer "Failed to send request to manager: " "Successfully flushed disabled jobs" (client req)).

(** The member "message" of a map of strings: the last one counts, and a value that is
    not a string decodes as the empty one. *)
Definition message_of (body : json) : string :=
  match body with
  | JObj kvs =>
      foldl (fun m kv => if decide (kv.1 = "message")
                         then match kv.2 with JStr s => s | _ => EmptyString end else m)
        EmptyString kvs
  | _ => EmptyString
  end.

Definition removeWorker (workerID : string) (args : list string) : outcome string :=
  if decide (args <> []) then ([], Err "Usage: tunasynctl -w <worker-id>")
  else if decide (workerID = EmptyString) then ([], Err "Please specify the <worker-id>")
  else
    let req := DELETE (baseURL +:+ "/workers/" +:+ workerID) in
    ([req],
     match client req with
     | Err e => Err ("Failed to send request to manager: " +:+ e)
     | Ok resp =>
         if decide (resp.(a_StatusCode) <> 200) then Err (not_200 resp.(a_Body))
         else
           let res := match resp.(a_Body) with Ok body => message_of body | Err _ => EmptyString end in
           if decide (res = "deleted") then Ok "Successfully removed the worker"
           else Err "Failed to remove the worker"
     end).

Definition size_url (workerID mirrorID : string) : string :=
  baseURL +:+ "/workers/" +:+ workerID +:+ "/jobs/" +:+ mirrorID +:+ "/size".

(** A body that cannot be read is empty: it does not decode. *)
Definition updateMirrorSize (workerID : string) (args : list string) : outcome string :=
  match args with
  | [mirrorID; mirrorSize] =>
      let msg := marshal_SizeMsg (MkSizeMsg mirrorID mirrorSize) in
      let url := size_url workerID mirrorID in
      ([POST url msg],
       match PostJSON client url (Ok msg) with
       | Err e => Err ("Failed to send request to manager: " +:+ e)
       | Ok resp =>
           let body := match resp.(a_Body) with Ok body => body | Err _ => JInvalid end in
           if decide (resp.(a_StatusCode) <> 200)
           then Err ("Manager failed to update mirror size: " +:+ show body)
           else
             let '(status, _) := unmarshal_MirrorStatus body MirrorStatus_zero in
             if decide (status.(ms_Size) <> mirrorSize)
             then Err ("Mirror size error, expecting " +:+ mirrorSize +:+ ", manager returned " +:+ status.(ms_Size))
             else Ok ("Successfully updated mirror size to " +:+ mirrorSize)
       end)
  | _ => ([], Err "Usage: tunasynctl set-size -w <worker-id> <mirror> <size>")
  end.

Definition listWorkers : outcome (nilable (list WorkerStatus)) :=
  let url := baseURL +:+ listWorkersPath in
  ([GET url],
   match GetJSON client (decode_slice unmarshal_WorkerStatus WorkerStatus_zero) url None with
   | (_, Some e) => Err ("Filed to correctly get informations frommanager server: " +:+ e)
   | (workers, None) => Ok workers
   end).

(** The statuses named by the flag. *)
Fixpoint parse_statuses (names : list string) : result (list SyncStatus) :=
  match names with
  | [] => Ok []
  | s :: names =>
      match SyncStatus_UnmarshalJSON (quote (TrimSpace s)) Status.None with
      | (_, Some e) => Err ("Error parsing status: " +:+ e)
      | (st, None) => l ← parse_statuses names; Ok (st :: l)
      end
  end.

(** [list --all]; [status] is the flag.  The filtered slice is made, not nil. *)
Definition listJobs_all (status : string) : outcome (nilable (list WebMirrorStatus)) :=
  let url := baseURL +:+ listJobsPath in
  ([GET url],
   match GetJSON client (decode_slice unmarshal_WebMirrorStatus WebMirrorStatus_zero) url None with
   | (_, Some e) => Err ("Failed to correctly get information of all jobs from manager server: " +:+ e)
   | (jobs, None) =>
       if decide (status <> EmptyString) then
         statuses ← parse_statuses (split_char comma status);
         Ok (Some (filter (fun job => job.(web_Status) ∈ statuses) (default [] jobs)))
       else Ok jobs
   end).

(** [append(jobs, l...)]: a nil slice stays nil when nothing is added. *)
Definition append_to {A} (jobs : nilable (list A)) (l : list A) : nilable (list A) :=
  match jobs, l with
  | None, [] => None
  | _, _ => Some (default [] jobs ++ l)
  end.

(** The answers of the goroutines in the order they arrive: a nil slice ends the command. *)
Fixpoint collect {A} (answers : list (nilable (list A))) (jobs : nilable (list A)) : result (nilable (list A)) :=
  match answers with
  | [] => Ok jobs
  | None :: _ => Err "Failed to correctly get information of jobs from at least one manager"
  | Some l :: answers => collect answers (append_to jobs l)
  end.

Definition jobs_url (workerID : string) : string := baseURL +:+ "/workers/" +:+ workerID +:+ "/jobs".

Definition jobs_of (workerID : string) : nilable (list MirrorStatus) :=
  (GetJSON client (decode_slice unmarshal_MirrorStatus MirrorStatus_zero) (jobs_url workerID) None).1.

(** [list] with the names of workers; [arrived] is the order in which their goroutines
    answer. *)
Definition listJobs (arrived : list string) : outcome (nilable (list MirrorStatus)) :=
  if decide (arrived = [])
  then ([], Err ("Usage Error: jobs command need at least one arguments or " +:+ quote "--all" +:+ " flag."))
  else (GET ∘ jobs_url <$> arrived, collect (jobs_of <$> arrived) None).
End commands.

(** ** Which setting counts *)

Section precedence.
Context (stat : string -> bool) (read : string -> result config_file) (userCfgFile : string).

(** The files read, in order. *)
Definition sources (c : flags) : list string :=
  (if stat systemCfgFile then [systemCfgFile] else [])
  ++ (if stat userCfgFile then [userCfgFile] else [])
  ++ (if decide (c.(fl_config) <> EmptyString) then [c.(fl_config)] else []).

(** The last file that has the key. *)
Definition last_set {A} (key : config_file -> option A) (files : list config_file) : option A :=
  last (omap key files).

Definition resolved (files : list config_file) : config :=
  MkConfig (default "localhost" (last_set cf_manager_addr files))
    (default 14242 (last_set cf_manager_port files)) (default EmptyString (last_set cf_ca_cert files)).

Lemma last_set_snoc {A} (key : config_file -> option A) files f :
  last_set key (files ++ [f]) = match key f with Some x => Some x | None => last_set key files end.
Proof.
  unfold last_set. rewrite omap_app. cbn [omap list_omap].
  destruct (key f); [by rewrite last_snoc|by rewrite app_nil_r].
Qed.

Lemma decoded_resolved files f : decoded f (resolved files) = resolved (files ++ [f]).
Proof. unfold decoded, resolved. rewrite !last_set_snoc. by destruct f as [[] [] []]. Qed.

(** One file of the sequence, loaded or passed over. *)
Lemma load_step (b : bool) (path : string) files {B} (k : config -> result B) :
  path <> EmptyString ->
  (cfg ← (if b then loadConfig read path (resolved files) else Ok (resolved files)); k cfg)
  = (fs ← mapM read (if b then [path] else []); k (resolved (files ++ fs))).
Proof.
  intros Hp. destruct b; simpl; [|by rewrite app_nil_r]. unfold loadConfig.
  rewrite decide_True by done. destruct (read path) as [f|e]; simpl; [|done].
  by rewrite decoded_resolved.
Qed.

Lemma mapM_app_result (l1 l2 : list string) :
  mapM read (l1 ++ l2) = (a ← mapM read l1; b ← mapM read l2; Ok (a ++ b)).
Proof.
  induction l1 as [|x l1 IH]; simpl; [by destruct (mapM read l2)|].
  destruct (read x); simpl; [|done]. rewrite IH. destruct (mapM read l1); simpl; [|done].
  by destruct (mapM read l2).
Qed.

(** The settings of the client. It reads the system's file, then the user's, then the one
    named on the command line, each when there is one, and fails when one of them does; of
    each setting the flag counts when it is given, else the last file that has it, else
    the default; and it speaks TLS exactly when there is a certificate to trust. *)
Theorem initialize_precedence c :
  userCfgFile <> EmptyString ->
  initialize stat read userCfgFile c
  = (files ← mapM read (sources c);
     let cfg := resolved files in
     let addr := if decide (c.(fl_manager) = EmptyString) then cfg.(ManagerAddr) else c.(fl_manager) in
     let port := if decide (c.(fl_port) <= 0) then cfg.(ManagerPort) else c.(fl_port) in
     let ca := if decide (c.(fl_ca_cert) = EmptyString) then cfg.(CACert) else c.(fl_ca_cert) in
     Ok (MkConfig addr port ca,
         (if decide (ca = EmptyString) then "http" else "https") +:+ "://" +:+ addr +:+ ":" +:+ pretty port)).
Proof.
  intros Hu. unfold initialize, sources. change (MkConfig "localhost" 14242 EmptyString) with (resolved []).
  rewrite load_step by done. rewrite mapM_app_result.
  destruct (mapM read (if stat systemCfgFile then _ else _)) as [f1|]; simpl; [|done].
  rewrite load_step by done. rewrite mapM_app_result.
  destruct (mapM read (if stat userCfgFile then _ else _)) as [f2|]; simpl; [|done].
  assert (Hc : forall {B} (k : config -> result B) files,
    (cfg ← (if decide (fl_config c <> EmptyString) then loadConfig read (fl_config c) (resolved files)
            else Ok (resolved files)); k cfg)
    = (fs ← mapM read (if decide (fl_config c <> EmptyString) then [fl_config c] else []);
       k (resolved (files ++ fs)))).
  { intros B k files. case_decide as Hne; [by apply (load_step true)|]. simpl. by rewrite app_nil_r. }
  rewrite Hc. destruct (mapM read (if decide (fl_config c <> EmptyString) then _ else _)) as [f3|]; simpl; [|done].
  rewrite <- app_assoc. do 2 f_equal; repeat case_decide; simpl; try done; try lia.
Qed.
End precedence.

(** ** What is sent and what is listed *)

Section listing.
Context {TT : TimeText} {ST : StampText} (client : transport) (baseURL : string) (show : json -> string).

(** The manager decodes the command the client encoded. *)
Lemma unmarshal_marshal_ClientCmd c : CmdVerb_String c.(cc_Cmd) <> EmptyString ->
  unmarshal_ClientCmd (marshal_ClientCmd c) ClientCmd_zero = (c, None).
Proof.
  intros Hv. unfold unmarshal_ClientCmd, marshal_ClientCmd. cbn [unmarshal_struct].
  erewrite decode_members_cons; [|by apply (bool_decide_unpack _)|].
  2: { cbn. rewrite (proj1 (CmdVerb_names (cc_Cmd c) Hv)). done. }
  do 2 (erewrite decode_members_cons; [|by apply (bool_decide_unpack _)|done]).
  erewrite decode_members_cons; [|by apply (bool_decide_unpack _)|].
  2: { cbn. by rewrite decode_encode_slice. }
  erewrite decode_members_cons; [|by apply (bool_decide_unpack _)|].
  2: { cbn. by rewrite decode_encode_bool_map. }
  by destruct c.
Qed.

Lemma unmarshal_marshal_SizeMsg m : unmarshal_SizeMsg (marshal_SizeMsg m) SizeMsg_zero = (m, None).
Proof.
  unfold unmarshal_SizeMsg, marshal_SizeMsg. cbn [unmarshal_struct].
  do 2 (erewrite decode_members_cons; [|by apply (bool_decide_unpack _)|done]). by destruct m.
Qed.

(** A name on the command line and its status. *)
Definition names_status (s : string) (st : SyncStatus) : Prop := (st, TrimSpace s) ∈ status_names.

Lemma parse_statuses_spec names : match parse_statuses names with
  | Ok sts => Forall2 names_status names sts
  | Err _ => exists s, s ∈ names /\ forall st, ~ names_status s st
  end.
Proof.
  induction names as [|s names IH]; simpl; [constructor|].
  destruct (SyncStatus_UnmarshalJSON _ _) as [st [e|]] eqn:E.
  - exists s. split; [by left|]. intros st' Hst.
    assert (SyncStatus_UnmarshalJSON (quote (TrimSpace s)) Status.None = (st', None)); [|congruence].
    apply SyncStatus_unmarshal_ok. by eexists.
  - destruct (parse_statuses names) as [sts|]; simpl.
    + constructor; [|done]. apply SyncStatus_unmarshal_ok in E as (n & Hq & Hn).
      apply quote_inj in Hq. by subst.
    + destruct IH as (s' & ? & ?). exists s'. split; [by right|done].
Qed.

(** The listing of all jobs. Without the flag it is what the manager answers; with it,
    the jobs, in the manager's order, whose status one of the comma-separated names names,
    and a name that is not a status makes the command fail. *)
Theorem list_by_status status jobs err :
  GetJSON client (decode_slice unmarshal_WebMirrorStatus WebMirrorStatus_zero)
    (baseURL +:+ listJobsPath) None = (jobs, err) ->
  match (listJobs_all client baseURL status).2 with
  | Ok l => err = None /\
      if decide (status = EmptyString) then l = jobs
      else exists sts, Forall2 names_status (split_char comma status) sts
           /\ l = Some (filter (fun job => job.(web_Status) ∈ sts) (default [] jobs))
  | Err _ => is_Some err \/ (status <> EmptyString /\ exists s, s ∈ split_char comma status /\ forall st, ~ names_status s st)
  end.
Proof.
  intros Hg. unfold listJobs_all. rewrite Hg. simpl. destruct err as [e|]; [by left; eexists|].
  case_decide as Hs; [|by destruct (decide (status = EmptyString))].
  pose proof (parse_statuses_spec (split_char comma status)) as Hp.
  destruct (parse_statuses _) as [sts|]; simpl; [|by right].
  split; [done|]. rewrite decide_False by done. eauto.
Qed.

Lemma append_to_app {A} (jobs : nilable (list A)) l1 l2 :
  append_to (append_to jobs l1) l2 = append_to jobs (l1 ++ l2).
Proof. destruct jobs, l1; simpl; try done; by rewrite <- ?app_assoc. Qed.

Lemma append_to_nil {A} (jobs : nilable (list A)) : append_to jobs [] = jobs.
Proof. destruct jobs; simpl; [by rewrite app_nil_r|done]. Qed.

Lemma collect_spec {A} (answers : list (nilable (list A))) jobs :
  collect answers jobs
  = if decide (Forall is_Some answers) then Ok (append_to jobs (concat (default [] <$> answers)))
    else Err "Failed to correctly get information of jobs from at least one manager".
Proof.
  revert jobs. induction answers as [|[l|] answers IH]; intros jobs.
  - cbn [collect]. rewrite decide_True by constructor. simpl. by rewrite append_to_nil.
  - cbn [collect]. rewrite IH, fmap_cons, append_to_app. destruct (decide (Forall is_Some answers)) as [H|H].
    + rewrite decide_True; [done|]. by constructor.
    + rewrite decide_False; [done|]. rewrite Forall_cons. naive_solver.
  - cbn [collect]. rewrite decide_False; [done|]. rewrite Forall_cons. by intros [[? ?] _].
Qed.

(** The listing of some workers. It succeeds exactly when at least one worker is named
    and each named worker's list was answered with something else than null; it is then the
    lists of all of them, whatever the order in which the answers arrived, and nil when they
    are all empty. *)
Theorem list_of_workers args arrived : arrived ≡ₚ args ->
  let '(reqs, out) := listJobs client baseURL arrived in
  reqs ≡ₚ GET ∘ jobs_url baseURL <$> args
  /\ match out with
     | Ok l => args <> [] /\ Forall (fun w => is_Some (jobs_of client baseURL w)) args
               /\ default [] l ≡ₚ concat ((fun w => default [] (jobs_of client baseURL w)) <$> args)
               /\ l <> Some []
     | Err _ => args = [] \/ exists w, w ∈ args /\ jobs_of client baseURL w = None
     end.
Proof.
  intros Hp. unfold listJobs. case_decide as Hn.
  { subst. apply Permutation_nil_l in Hp as <-. split; [constructor|by left]. }
  split; [by rewrite Hp|]. rewrite collect_spec. case_decide as Hf.
  - split; [by intros ->; apply Permutation_nil_r in Hp|]. rewrite Forall_fmap in Hf.
    split; [by rewrite <- Hp|]. cbn [default]. rewrite <- list_fmap_compose.
    split; [|by destruct (concat _)]. rewrite <- Hp. by destruct (concat _).
  - right. apply not_Forall_Exists in Hf; [|apply _]. rewrite Exists_fmap, Exists_exists in Hf.
    destruct Hf as (w & Hw & Hnone). exists w. split; [by rewrite <- Hp|]. simpl in Hnone.
    by apply eq_None_not_Some.
Qed.
End listing.

(** *** Witnesses *)

Definition ex_read (path : string) : result config_file :=
  if decide (path = systemCfgFile) then Ok (MkConfigFile (Some "mirrors.example.org") None (Some "/etc/ca.pem"))
  else Ok (MkConfigFile None (Some 12345) None).

Lemma initialize_precedence_witness :
  initialize (fun _ => true) ex_read "/root/.config/tunasync/ctl.conf" (MkFlags EmptyString EmptyString 8443 EmptyString)
  = Ok (MkConfig "mirrors.example.org" 8443 "/etc/ca.pem", "https://mirrors.example.org:8443").
Proof.
  rewrite (initialize_precedence (fun _ => true) ex_read "/root/.config/tunasync/ctl.conf"
    (MkFlags EmptyString EmptyString 8443 EmptyString)) by discriminate.
  reflexivity.
Defined.

(** A manager with one failed and one successful job. *)
Definition ex_web_doc (name status : string) : json := JObj [("name", JStr name); ("status", JStr status)].

Definition ex_client : transport := fun req =>
  match req with
  | GET url =>
      if decide (url = "http://m:14242/jobs")
      then Ok (MkAnswer 200 (Ok (JArr [ex_web_doc "debian" "failed"; ex_web_doc "ubuntu" "success"])))
      else Ok (MkAnswer 200 (Ok (JArr [])))
  | _ => Err "not expected"
  end.

Definition ex_web_status (name : string) (st : SyncStatus) : WebMirrorStatus :=
  BuildWebMirrorStatus (set_ms_Status st (set_ms_Name name MirrorStatus_zero)).

Lemma list_by_status_witness :
  exists l sts, (listJobs_all (ST := decimal_stamp_text) ex_client "http://m:14242" "failed, syncing").2 = Ok l
  /\ Forall2 names_status ["failed"; " syncing"] sts
  /\ l = Some (filter (fun job => job.(web_Status) ∈ sts)
           [ex_web_status "debian" Status.Failed; ex_web_status "ubuntu" Status.Success]).
Proof.
  pose proof (list_by_status (ST := decimal_stamp_text) ex_client "http://m:14242" "failed, syncing" (Some
    [ex_web_status "debian" Status.Failed; ex_web_status "ubuntu" Status.Success]) None
    ltac:(vm_compute; reflexivity)) as H.
  destruct (listJobs_all _ _ _) as [reqs [l|e]] eqn:E; cbn [snd] in *.
  - destruct H as [_ (sts & Hs & Hl)]. exists l, sts. split; [reflexivity|]. split; [exact Hs|exact Hl].
  - vm_compute in E. discriminate.
Defined.

Lemma list_of_workers_witness :
  exists l, (listJobs (TT := decimal_time_text) ex_client "http://m:14242" ["w2"; "w1"]).2 = Ok l /\ default [] l ≡ₚ [].
Proof.
  pose proof (list_of_workers (TT := decimal_time_text) ex_client "http://m:14242" ["w1"; "w2"] ["w2"; "w1"]
    (Permutation_swap _ _ _)) as H.
  destruct (listJobs ex_client _ _) as [reqs [l|e]] eqn:E.
  - exists l. split; [reflexivity|]. destruct H as (_ & _ & _ & Hl & _). exact Hl.
  - vm_compute in E. discriminate.
Defined.
