(* ===== verification/Kv.v ===== *)
(** * manager/db_*.go: four key-value back ends behind one interface

    [kvAdapter] is the interface the manager's store is written against; the class
    [KvAdapter] has its operations and [KvLaws] what every back end promises of them,
    in terms of a view of the store as one finite map per bucket.  The storage
    libraries (bbolt, go-redis, goleveldb, badger) are not part of the repository:
    each is a record of the calls the adapter makes with the behaviour its
    documentation states.  Bolt keeps real buckets, redis one hash per bucket;
    leveldb and badger have one flat key space, in which the adapter writes the
    bucket name in front of the key. *)

From S2P Require Import Prelude.

Local Open Scope string_scope.
Local Open Scope list_scope.

Definition _workerBucketKey : string := "workers".
Definition _statusBucketKey : string := "mirror_status".
Definition buckets : list string := [_workerBucketKey; _statusBucketKey].

(** ** The interface *)

(** Reads return [(value, error)] with a nil value for a missing key; a write
    returns the new store. *)
Class KvAdapter (V S : Type) := {
  kv_InitBucket : string -> S -> comp (S * option error);
  kv_Get : string -> string -> S -> comp (nilable V * option error);
  kv_GetAll : string -> S -> comp (nilable (gmap string V) * option error);
  kv_Put : string -> string -> V -> S -> comp (S * option error);
  kv_Delete : string -> string -> S -> comp (S * option error)
}.

(** A write either fails and leaves every bucket as it was, or changes the view of
    its own bucket by [f] and no other. *)
Definition write_spec {V S} (view : S -> string -> gmap string V) (b : string)
    (f : gmap string V -> gmap string V) (s s' : S) (e : option error) : Prop :=
  match e with
  | None => view s' b = f (view s b) /\ forall b', b' ∈ buckets -> b' <> b -> view s' b' = view s b'
  | Some _ => forall b', b' ∈ buckets -> view s' b' = view s b'
  end.

Class KvLaws (V S : Type) `{KvAdapter V S} := {
  kv_view : S -> string -> gmap string V;
  kv_ready : string -> S -> Prop;
  kv_init_spec b s : b ∈ buckets ->
    exists s' e, kv_InitBucket b s = Ret (s', e)
      /\ (e = None -> kv_ready b s')
      /\ (forall b', kv_ready b' s -> kv_ready b' s')
      /\ (forall b', b' ∈ buckets -> kv_view s' b' = kv_view s b');
  kv_get_spec b k s : b ∈ buckets -> kv_ready b s ->
    exists v e, kv_Get b k s = Ret (v, e)
      /\ (v = kv_view s b !! k \/ (v = None /\ is_Some e));
  kv_getall_spec b s : b ∈ buckets -> kv_ready b s ->
    exists m e, kv_GetAll b s = Ret (m, e)
      /\ (e = None -> default ∅ m = kv_view s b);
  kv_put_spec b k v s : b ∈ buckets -> kv_ready b s ->
    exists s' e, kv_Put b k v s = Ret (s', e)
      /\ write_spec kv_view b <[k := v]> s s' e
      /\ (forall b', kv_ready b' s -> kv_ready b' s');
  kv_delete_spec b k s : b ∈ buckets -> kv_ready b s ->
    exists s' e, kv_Delete b k s = Ret (s', e)
      /\ write_spec kv_view b (delete k) s s' e
      /\ (forall b', kv_ready b' s -> kv_ready b' s')
}.

(** ** Bolt *)

(** [bolt_bucket] is [tx.Bucket], nil for a bucket that was never created. *)
Class BoltLib (V D : Type) := {
  bolt_bucket : D -> string -> nilable (gmap string V);
  bolt_create : string -> D -> D * option error;
  bolt_put : string -> string -> V -> D -> D * option error;
  bolt_delete : string -> string -> D -> D * option error;
  bolt_create_ok b d d' : bolt_create b d = (d', None) ->
    bolt_bucket d' b = Some (default ∅ (bolt_bucket d b))
    /\ forall b', b' <> b -> bolt_bucket d' b' = bolt_bucket d b';
  bolt_create_err b d d' e : bolt_create b d = (d', Some e) -> bolt_bucket d' = bolt_bucket d;
  bolt_put_ok b k v d d' m : bolt_bucket d b = Some m -> bolt_put b k v d = (d', None) ->
    bolt_bucket d' b = Some (<[k := v]> m)
    /\ forall b', b' <> b -> bolt_bucket d' b' = bolt_bucket d b';
  bolt_put_err b k v d d' e : bolt_put b k v d = (d', Some e) -> bolt_bucket d' = bolt_bucket d;
  bolt_delete_ok b k d d' m : bolt_bucket d b = Some m -> bolt_delete b k d = (d', None) ->
    bolt_bucket d' b = Some (delete k m)
    /\ forall b', b' <> b -> bolt_bucket d' b' = bolt_bucket d b';
  bolt_delete_err b k d d' e : bolt_delete b k d = (d', Some e) -> bolt_bucket d' = bolt_bucket d
}.

Definition nil_deref : string := "runtime error: invalid memory address or nil pointer dereference".

Module Bolt.
Section adapter.
Context {V D : Type} `{BoltLib V D}.

Definition InitBucket (bucket : string) (d : D) : comp (D * option error) :=
  match bolt_create bucket d with
  | (d', Some e) => Ret (d', Some ("create bucket " +:+ _workerBucketKey +:+ " error: " +:+ e))
  | (d', None) => Ret (d', None)
  end.

(** The slice bbolt hands out is returned uncopied after the transaction has ended; a value
    of the model is what it holds when it is read. *)
Definition Get (bucket key : string) (d : D) : comp (nilable V * option error) :=
  match bolt_bucket d bucket with
  | None => Panic nil_deref
  | Some m => Ret (m !! key, None)
  end.

Definition GetAll (bucket : string) (d : D) : comp (nilable (gmap string V) * option error) :=
  match bolt_bucket d bucket with
  | None => Panic nil_deref
  | Some m => Ret (Some m, None)
  end.

Definition Put (bucket key : string) (value : V) (d : D) : comp (D * option error) :=
  match bolt_bucket d bucket with
  | None => Panic nil_deref
  | Some _ => Ret (bolt_put bucket key value d)
  end.

Definition Delete (bucket key : string) (d : D) : comp (D * option error) :=
  match bolt_bucket d bucket with
  | None => Panic nil_deref
  | Some _ => Ret (bolt_delete bucket key d)
  end.

#[export] Instance boltAdapter : KvAdapter V D := {|
  kv_InitBucket := InitBucket; kv_Get := Get; kv_GetAll := GetAll;
  kv_Put := Put; kv_Delete := Delete |}.

Definition view (d : D) (b : string) : gmap string V := default ∅ (bolt_bucket d b).
Definition ready (b : string) (d : D) : Prop := is_Some (bolt_bucket d b).

Lemma ready_other b d d' :
  is_Some (bolt_bucket d' b) -> (forall b', b' <> b -> bolt_bucket d' b' = bolt_bucket d b') ->
  forall b', ready b' d -> ready b' d'.
Proof.
  intros Hb Ho b' Hr. unfold ready in *. destruct (decide (b' = b)) as [->|]; [done|].
  by rewrite Ho.
Qed.

Lemma bolt_write_ok (b : string) f (d d' : D) (e : option error) m :
  bolt_bucket d b = Some m ->
  (e = None -> bolt_bucket d' b = Some (f m) /\ forall b', b' <> b -> bolt_bucket d' b' = bolt_bucket d b') ->
  (is_Some e -> bolt_bucket d' = bolt_bucket d) ->
  write_spec view b f d d' e /\ (forall b', ready b' d -> ready b' d').
Proof.
  intros Hm Hok Herr. destruct e as [e|].
  - specialize (Herr ltac:(by eexists)). unfold write_spec, view, ready. rewrite Herr. done.
  - destruct (Hok eq_refl) as [H1 H2]. split.
    + unfold write_spec, view. split; [by rewrite H1, Hm|]. intros b' _ Hb'. by rewrite H2.
    + apply (ready_other b); [by rewrite H1|done].
Qed.

#[export] Program Instance boltLaws : KvLaws V D := {| kv_view := view; kv_ready := ready |}.
Next Obligation.
  intros b d _. simpl. unfold InitBucket. destruct (bolt_create b d) as [d' [e|]] eqn:E.
  - pose proof (bolt_create_err _ _ _ _ E) as Hd.
    exists d', (Some ("create bucket " +:+ _workerBucketKey +:+ " error: " +:+ e)).
    unfold view, ready. by rewrite Hd.
  - destruct (bolt_create_ok _ _ _ E) as [H1 H2]. exists d', None. split; [done|].
    split; [intros _; unfold ready; by rewrite H1|]. split.
    + apply (ready_other b); [by rewrite H1|done].
    + intros b' _. unfold view. destruct (decide (b' = b)) as [->|]; [by rewrite H1|by rewrite H2].
Qed.
Next Obligation.
  intros b k d _ [m Hm]. simpl. unfold Get, view. rewrite Hm. eauto.
Qed.
Next Obligation.
  intros b d _ [m Hm]. simpl. unfold GetAll, view. rewrite Hm. eauto.
Qed.
Next Obligation.
  intros b k v d _ [m Hm]. simpl. unfold Put. rewrite Hm.
  destruct (bolt_put b k v d) as [d' e] eqn:E. exists d', e. split; [done|].
  apply bolt_write_ok with m; [done| |].
  - intros ->. by eapply bolt_put_ok.
  - intros [e' ->]. by eapply bolt_put_err.
Qed.
Next Obligation.
  intros b k d _ [m Hm]. simpl. unfold Delete. rewrite Hm.
  destruct (bolt_delete b k d) as [d' e] eqn:E. exists d', e. split; [done|].
  apply bolt_write_ok with m; [done| |].
  - intros ->. by eapply bolt_delete_ok.
  - intros [e' ->]. by eapply bolt_delete_err.
Qed.
End adapter.
End Bolt.

(** ** Redis: one hash per bucket *)

Class RedisLib (V D : Type) := {
  redis_hash : D -> string -> gmap string V;
  redis_hget : string -> string -> D -> result V;
  redis_hgetall : string -> D -> result (gmap string V);
  redis_hset : string -> string -> V -> D -> D * option error;
  redis_hdel : string -> string -> D -> D * option error;
  redis_hget_ok b k d v : redis_hget b k d = Ok v -> redis_hash d b !! k = Some v;
  redis_hgetall_ok b d m : redis_hgetall b d = Ok m -> m = redis_hash d b;
  redis_hset_ok b k v d d' : redis_hset b k v d = (d', None) ->
    redis_hash d' b = <[k := v]> (redis_hash d b)
    /\ forall b', b' <> b -> redis_hash d' b' = redis_hash d b';
  (** a command is atomic; one that reports an error (a lost connection, say) may have been
      executed all the same *)
  redis_hset_err b k v d d' e : redis_hset b k v d = (d', Some e) ->
    redis_hash d' = redis_hash d
    \/ (redis_hash d' b = <[k := v]> (redis_hash d b)
        /\ forall b', b' <> b -> redis_hash d' b' = redis_hash d b');
  redis_hdel_ok b k d d' : redis_hdel b k d = (d', None) ->
    redis_hash d' b = delete k (redis_hash d b)
    /\ forall b', b' <> b -> redis_hash d' b' = redis_hash d b';
  redis_hdel_err b k d d' e : redis_hdel b k d = (d', Some e) ->
    redis_hash d' = redis_hash d
    \/ (redis_hash d' b = delete k (redis_hash d b)
        /\ forall b', b' <> b -> redis_hash d' b' = redis_hash d b')
}.

Module Redis.
Section adapter.
Context {V D : Type} `{RedisLib V D}.

Definition InitBucket (bucket : string) (d : D) : comp (D * option error) := Ret (d, None).

Definition Get (bucket key : string) (d : D) : comp (nilable V * option error) :=
  match redis_hget bucket key d with
  | Ok val => Ret (Some val, None)
  | Err e => Ret (None, Some e)
  end.

(** The copy of a map entry by entry is the map. *)
Definition GetAll (bucket : string) (d : D) : comp (nilable (gmap string V) * option error) :=
  match redis_hgetall bucket d with
  | Ok val => Ret (Some val, None)
  | Err e => Ret (None, Some e)
  end.

Definition Put (bucket key : string) (value : V) (d : D) : comp (D * option error) :=
  Ret (redis_hset bucket key value d).

Definition Delete (bucket key : string) (d : D) : comp (D * option error) :=
  Ret (redis_hdel bucket key d).

#[export] Instance redisAdapter : KvAdapter V D := {|
  kv_InitBucket := InitBucket; kv_Get := Get; kv_GetAll := GetAll;
  kv_Put := Put; kv_Delete := Delete |}.

Lemma redis_write_ok (b : string) f (d d' : D) (e : option error) :
  (e = None -> redis_hash d' b = f (redis_hash d b)
    /\ forall b', b' <> b -> redis_hash d' b' = redis_hash d b') ->
  (is_Some e -> redis_hash d' = redis_hash d) ->
  write_spec redis_hash b f d d' e.
Proof.
  intros Hok Herr. unfold write_spec. destruct e as [e|].
  - intros b' _. by rewrite Herr.
  - destruct (Hok eq_refl) as [H1 H2]. split; [done|]. intros b' _ Hb'. by apply H2.
Qed.

(** The interface is met as long as a command that reports an error was not executed. *)
Context (hset_refused : forall b k v d d' e, redis_hset b k v d = (d', Some e) -> redis_hash d' = redis_hash d).
Context (hdel_refused : forall b k d d' e, redis_hdel b k d = (d', Some e) -> redis_hash d' = redis_hash d).

Program Definition redisLaws : KvLaws V D :=
  {| kv_view := redis_hash; kv_ready _ _ := True |}.
Next Obligation. intros b d _. by exists d, None. Qed.
Next Obligation.
  intros b k d _ _. simpl. unfold Get. destruct (redis_hget b k d) as [v|e] eqn:E.
  - eexists _, _. split; [done|]. left. by rewrite (redis_hget_ok _ _ _ _ E).
  - eexists _, _. split; [done|]. right. by eauto.
Qed.
Next Obligation.
  intros b d _ _. simpl. unfold GetAll. destruct (redis_hgetall b d) as [m|e] eqn:E.
  - eexists _, _. split; [done|]. intros _. by apply redis_hgetall_ok in E.
  - eexists _, _. by split.
Qed.
Next Obligation.
  intros b k v d _ _. simpl. unfold Put. destruct (redis_hset b k v d) as [d' e] eqn:E.
  exists d', e. split; [done|]. split; [|done]. apply redis_write_ok.
  - intros ->. by eapply redis_hset_ok.
  - intros [e' ->]. by eapply hset_refused.
Qed.
Next Obligation.
  intros b k d _ _. simpl. unfold Delete. destruct (redis_hdel b k d) as [d' e] eqn:E.
  exists d', e. split; [done|]. split; [|done]. apply redis_write_ok.
  - intros ->. by eapply redis_hdel_ok.
  - intros [e' ->]. by eapply hdel_refused.
Qed.
End adapter.
End Redis.

(** ** The flat key space of leveldb and badger *)

Section flat.
Context {V : Type}.

(** The entries of bucket [b] in a flat store: the keys that start with [b], without it. *)
Definition flat_entries (b : string) (l : list (string * V)) : list (string * V) :=
  prod_map (str_drop (String.length b)) id <$> filter (fun kv => String.prefix b kv.1 = true) l.

Definition flat_view (m : gmap string V) (b : string) : gmap string V :=
  list_to_map (flat_entries b (map_to_list m)).

Lemma elem_of_flat_entries b l k v :
  (k, v) ∈ flat_entries b l <-> (b +:+ k, v) ∈ l.
Proof.
  unfold flat_entries. rewrite list_elem_of_fmap. split.
  - intros ([k' v'] & [= -> ->] & Hin). apply list_elem_of_filter in Hin as [Hp Hin]. simpl in *.
    by rewrite <- (prefix_drop b k' Hp).
  - intros Hin. exists (b +:+ k, v). split; [simpl; by rewrite str_drop_app|].
    apply list_elem_of_filter. split; [apply prefix_app|done].
Qed.

Lemma NoDup_flat_entries b (l : list (string * V)) : NoDup l.*1 -> NoDup (flat_entries b l).*1.
Proof.
  intros Hl. unfold flat_entries.
  pose proof (NoDup_fst_filter (fun kv : string * V => String.prefix b kv.1 = true) l Hl) as Hf.
  revert Hf. set (fl := filter _ l). intros Hf.
  assert (Hp : Forall (fun kv : string * V => String.prefix b kv.1 = true) fl).
  { apply Forall_forall. intros kv Hin. by apply list_elem_of_filter in Hin as [? _]. }
  clearbody fl. induction Hp as [|[k v] fl Hk Hp IH]; [constructor|].
  rewrite !fmap_cons in *. simpl in *. apply NoDup_cons in Hf as [Hnin Hf].
  apply NoDup_cons. split; [|by apply IH].
  intros Hin. apply Hnin. rewrite <- list_fmap_compose in Hin.
  apply list_elem_of_fmap in Hin as ([k' v'] & Heq & Hin). simpl in Heq.
  apply list_elem_of_fmap. exists (k', v'). split; [|done]. simpl.
  rewrite Forall_forall in Hp. specialize (Hp _ Hin). simpl in Hp.
  by rewrite (prefix_drop b k Hk), (prefix_drop b k' Hp), Heq.
Qed.

Lemma lookup_flat_view m b k : flat_view m b !! k = m !! (b +:+ k).
Proof.
  unfold flat_view.
  assert (Hnd : NoDup (flat_entries b (map_to_list m)).*1)
    by apply NoDup_flat_entries, NoDup_fst_map_to_list.
  apply option_eq. intros v. rewrite <- elem_of_list_to_map by done.
  by rewrite elem_of_flat_entries, elem_of_map_to_list.
Qed.

(** Neither bucket name is a prefix of the other, so their key ranges are disjoint. *)
Lemma buckets_disjoint b b' k k' :
  b ∈ buckets -> b' ∈ buckets -> b' <> b -> b +:+ k <> b' +:+ k'.
Proof.
  unfold buckets. rewrite !elem_of_cons, !elem_of_nil. intros Hb Hb' Hne.
  unfold _workerBucketKey, _statusBucketKey in *.
  destruct_or! Hb; destruct_or! Hb'; subst; try done;
    rewrite !str_app_cons; discriminate.
Qed.

Lemma flat_view_insert m b k v :
  flat_view (<[b +:+ k := v]> m) b = <[k := v]> (flat_view m b).
Proof.
  apply map_eq. intros k'. rewrite lookup_flat_view. destruct (decide (k = k')) as [->|Hne].
  - by rewrite !lookup_insert_eq.
  - rewrite !lookup_insert_ne, lookup_flat_view; [done|done|].
    by intros ?%(inj (String.append b)).
Qed.

Lemma flat_view_delete m b k :
  flat_view (delete (b +:+ k) m) b = delete k (flat_view m b).
Proof.
  apply map_eq. intros k'. rewrite lookup_flat_view. destruct (decide (k = k')) as [->|Hne].
  - by rewrite !lookup_delete_eq.
  - rewrite !lookup_delete_ne, lookup_flat_view; [done|done|].
    by intros ?%(inj (String.append b)).
Qed.

Lemma flat_view_insert_other m b b' k v :
  b ∈ buckets -> b' ∈ buckets -> b' <> b ->
  flat_view (<[b +:+ k := v]> m) b' = flat_view m b'.
Proof.
  intros Hb Hb' Hne. apply map_eq. intros k'. rewrite !lookup_flat_view.
  apply lookup_insert_ne. by apply buckets_disjoint.
Qed.

Lemma flat_view_delete_other m b b' k :
  b ∈ buckets -> b' ∈ buckets -> b' <> b ->
  flat_view (delete (b +:+ k) m) b' = flat_view m b'.
Proof.
  intros Hb Hb' Hne. apply map_eq. intros k'. rewrite !lookup_flat_view.
  apply lookup_delete_ne. by apply buckets_disjoint.
Qed.

(** The map a scan of the prefix fills, in whatever order the keys come. *)
Lemma scan_view (l : list (string * V)) (m : gmap string V) b :
  (forall k v, (k, v) ∈ l <-> m !! (b +:+ k) = Some v) -> NoDup l.*1 ->
  list_to_map l = flat_view m b.
Proof.
  intros Hl Hnd. apply map_eq. intros k. rewrite lookup_flat_view.
  apply option_eq. intros v. by rewrite <- elem_of_list_to_map, Hl.
Qed.
End flat.

(** A write of a flat store under a bucket's prefix meets the interface. *)
Lemma flat_write_spec {V D} (m_of : D -> gmap string V) b k (f : string -> gmap string V -> gmap string V)
    (d d' : D) (e : option error) :
  b ∈ buckets ->
  (forall m, flat_view (f (b +:+ k) m) b = f k (flat_view m b)) ->
  (forall m b', b' ∈ buckets -> b' <> b -> flat_view (f (b +:+ k) m) b' = flat_view m b') ->
  (e = None -> m_of d' = f (b +:+ k) (m_of d)) ->
  (is_Some e -> m_of d' = m_of d) ->
  write_spec (fun d => flat_view (m_of d)) b (f k) d d' e.
Proof.
  intros Hb Hsame Hother Hok Herr. unfold write_spec. destruct e as [e|].
  - intros b' _. by rewrite Herr.
  - rewrite Hok by done. split; [by apply Hsame|]. intros b' Hb' Hne. by apply Hother.
Qed.

(** ** Leveldb *)

Class LevelLib (V D : Type) := {
  level_map : D -> gmap string V;
  level_get : string -> D -> result V;
  (** the entries an iterator over a prefix yields, and the error it accumulates *)
  level_scan : string -> D -> list (string * V);
  level_iter_error : string -> D -> option error;
  level_put : string -> V -> D -> D * option error;
  level_delete : string -> D -> D * option error;
  level_get_ok k d v : level_get k d = Ok v -> level_map d !! k = Some v;
  level_scan_nodup p d : NoDup (level_scan p d).*1;
  level_scan_prefix p d k v : (k, v) ∈ level_scan p d ->
    String.prefix p k = true /\ level_map d !! k = Some v;
  level_scan_all p d k v : level_iter_error p d = None ->
    String.prefix p k = true -> level_map d !! k = Some v -> (k, v) ∈ level_scan p d;
  level_put_ok k v d d' : level_put k v d = (d', None) -> level_map d' = <[k := v]> (level_map d);
  (** a failing write of one key is in the store or not *)
  level_put_err k v d d' e : level_put k v d = (d', Some e) ->
    level_map d' = level_map d \/ level_map d' = <[k := v]> (level_map d);
  level_delete_ok k d d' : level_delete k d = (d', None) -> level_map d' = delete k (level_map d);
  level_delete_err k d d' e : level_delete k d = (d', Some e) ->
    level_map d' = level_map d \/ level_map d' = delete k (level_map d)
}.

Module Leveldb.
Section adapter.
Context {V D : Type} `{LevelLib V D}.

Definition InitBucket (bucket : string) (d : D) : comp (D * option error) := Ret (d, None).

Definition Get (bucket key : string) (d : D) : comp (nilable V * option error) :=
  match level_get (bucket +:+ key) d with
  | Ok v => Ret (Some v, None)
  | Err e => Ret (None, Some e)
  end.

(** The loop of [GetAll]; the iterator's error is never read. *)
Fixpoint collect (bucket : string) (it : list (string * V)) (m : gmap string V) : gmap string V :=
  match it with
  | [] => m
  | (k, val) :: it' =>
      let actualKey := str_drop (String.length bucket) k in
      collect bucket it' (<[actualKey := val]> m)
  end.

Definition GetAll (bucket : string) (d : D) : comp (nilable (gmap string V) * option error) :=
  Ret (Some (collect bucket (level_scan bucket d) ∅), None).

Definition Put (bucket key : string) (value : V) (d : D) : comp (D * option error) :=
  Ret (level_put (bucket +:+ key) value d).

Definition Delete (bucket key : string) (d : D) : comp (D * option error) :=
  Ret (level_delete (bucket +:+ key) d).

#[export] Instance leveldbAdapter : KvAdapter V D := {|
  kv_InitBucket := InitBucket; kv_Get := Get; kv_GetAll := GetAll;
  kv_Put := Put; kv_Delete := Delete |}.

(** Every key the scan yields is bucket ++ actual key, so the loop inserts distinct keys. *)
Lemma collect_lookup bucket (it : list (string * V)) m k :
  (forall k' v', (k', v') ∈ it -> String.prefix bucket k' = true) -> NoDup it.*1 ->
  collect bucket it m !! k
  = match list_to_map (M := gmap string V) it !! (bucket +:+ k) with
    | Some v => Some v
    | None => m !! k
    end.
Proof.
  revert m. induction it as [|[k' v'] it IH]; intros m Hp Hnd.
  - simpl. by rewrite lookup_empty.
  - rewrite fmap_cons in Hnd. apply NoDup_cons in Hnd as [Hk Hnd]. cbn [collect list_to_map foldr].
    rewrite IH; [|intros k2 v2 Hin; apply (Hp k2 v2); by right|done].
    assert (Hpk : k' = bucket +:+ str_drop (String.length bucket) k')
      by (apply prefix_drop, (Hp k' v'); by left).
    destruct (decide (k = str_drop (String.length bucket) k')) as [->|Hne].
    + rewrite <- Hpk. rewrite (not_elem_of_list_to_map_1 it k' Hk).
      simpl. by rewrite !lookup_insert_eq.
    + rewrite lookup_insert_ne by congruence. simpl.
      rewrite (lookup_insert_ne _ k'); [done|].
      intros Heq. apply Hne. rewrite Heq. by rewrite str_drop_app.
Qed.

(** Whatever the iterator yields is in the bucket; when it ran to the end that is all of it. *)
Lemma level_GetAll_sub bucket (d : D) :
  collect bucket (level_scan bucket d) ∅ ⊆ flat_view (level_map d) bucket.
Proof.
  apply map_subseteq_spec. intros k v. rewrite collect_lookup, lookup_flat_view, lookup_empty.
  - destruct (list_to_map _ !! _) as [v'|] eqn:E; [intros [= <-]|done].
    apply elem_of_list_to_map_2, level_scan_prefix in E. tauto.
  - intros k' v' Hin. by apply level_scan_prefix in Hin as [? _].
  - apply level_scan_nodup.
Qed.

Lemma level_GetAll_map bucket (d : D) :
  level_iter_error bucket d = None ->
  collect bucket (level_scan bucket d) ∅ = flat_view (level_map d) bucket.
Proof.
  intros Hit. apply (anti_symm (⊆)); [apply level_GetAll_sub|].
  apply map_subseteq_spec. intros k v. rewrite collect_lookup, lookup_flat_view.
  - intros E. rewrite (elem_of_list_to_map_1 _ (bucket +:+ k) v); [done|apply level_scan_nodup|].
    apply level_scan_all; [done|apply prefix_app|done].
  - intros k' v' Hin. by apply level_scan_prefix in Hin as [? _].
  - apply level_scan_nodup.
Qed.

(** The interface is met as long as no scan fails and a failing write is not in the store. *)
Context (iter_ok : forall b d, level_iter_error b d = None).
Context (put_refused : forall k v d d' e, level_put k v d = (d', Some e) -> level_map d' = level_map d).
Context (delete_refused : forall k d d' e, level_delete k d = (d', Some e) -> level_map d' = level_map d).

Program Definition leveldbLaws : KvLaws V D :=
  {| kv_view d := flat_view (level_map d); kv_ready _ _ := True |}.
Next Obligation. intros b d _. by exists d, None. Qed.
Next Obligation.
  intros b k d _ _. simpl. unfold Get. destruct (level_get _ d) as [v|e] eqn:E.
  - eexists _, _. split; [done|]. left. rewrite lookup_flat_view. by rewrite (level_get_ok _ _ _ E).
  - eexists _, _. split; [done|]. right. by eauto.
Qed.
Next Obligation.
  intros b d _ _. eexists _, _. split; [done|]. intros _. simpl. by apply level_GetAll_map.
Qed.
Next Obligation.
  intros b k v d Hb _. simpl. unfold Put. destruct (level_put _ v d) as [d' e] eqn:E.
  exists d', e. split; [done|]. split; [|done].
  apply (flat_write_spec level_map b k (fun k => <[k := v]>)); [done| | | |].
  - intros m. apply flat_view_insert.
  - intros m b' Hb' Hne. by apply flat_view_insert_other.
  - intros ->. by apply level_put_ok.
  - intros [e' ->]. by eapply put_refused.
Qed.
Next Obligation.
  intros b k d Hb _. simpl. unfold Delete. destruct (level_delete _ d) as [d' e] eqn:E.
  exists d', e. split; [done|]. split; [|done].
  apply (flat_write_spec level_map b k delete); [done| | | |].
  - intros m. apply flat_view_delete.
  - intros m b' Hb' Hne. by apply flat_view_delete_other.
  - intros ->. by apply level_delete_ok.
  - intros [e' ->]. by eapply delete_refused.
Qed.
End adapter.
End Leveldb.

(** ** Badger

    An item's value is copied separately from finding the item, and the copy may
    fail: [badger_get] and each entry of [badger_scan] carry the result of
    [ValueCopy]. *)

Class BadgerLib (V D : Type) := {
  badger_map : D -> gmap string V;
  badger_get : string -> D -> result (result V);
  badger_scan : string -> D -> list (string * result V);
  badger_set : string -> V -> D -> D * option error;
  badger_delete : string -> D -> D * option error;
  badger_get_ok k d v : badger_get k d = Ok (Ok v) -> badger_map d !! k = Some v;
  badger_scan_nodup p d : NoDup (badger_scan p d).*1;
  badger_scan_prefix p d k r : (k, r) ∈ badger_scan p d ->
    String.prefix p k = true /\ is_Some (badger_map d !! k);
  badger_scan_copy p d k v : (k, Ok v) ∈ badger_scan p d -> badger_map d !! k = Some v;
  badger_scan_all p d k v : String.prefix p k = true -> badger_map d !! k = Some v ->
    exists r, (k, r) ∈ badger_scan p d;
  badger_set_ok k v d d' : badger_set k v d = (d', None) -> badger_map d' = <[k := v]> (badger_map d);
  badger_set_err k v d d' e : badger_set k v d = (d', Some e) ->
    badger_map d' = badger_map d \/ badger_map d' = <[k := v]> (badger_map d);
  badger_delete_ok k d d' : badger_delete k d = (d', None) -> badger_map d' = delete k (badger_map d);
  badger_delete_err k d d' e : badger_delete k d = (d', Some e) ->
    badger_map d' = badger_map d \/ badger_map d' = delete k (badger_map d)
}.

Module Badger.
Section adapter.
(** [nil_bytes] is the nil slice as a value of the map. *)
Context {V D : Type} `{BadgerLib V D} (nil_bytes : V).

Definition InitBucket (bucket : string) (d : D) : comp (D * option error) := Ret (d, None).

Definition Get (bucket key : string) (d : D) : comp (nilable V * option error) :=
  match badger_get (bucket +:+ key) d with
  | Ok (Ok v) => Ret (Some v, None)
  | Ok (Err e) => Ret (None, Some e)
  | Err e => Ret (None, Some e)
  end.

(** Each iteration assigns [err] afresh. *)
Fixpoint collect (bucket : string) (it : list (string * result V)) (m : gmap string V)
    (err : option error) : gmap string V * option error :=
  match it with
  | [] => (m, err)
  | (k, r) :: it' =>
      let actualKey := str_drop (String.length bucket) k in
      match r with
      | Ok v => collect bucket it' (<[actualKey := v]> m) None
      | Err e => collect bucket it' (<[actualKey := nil_bytes]> m) (Some e)
      end
  end.

Definition GetAll (bucket : string) (d : D) : comp (nilable (gmap string V) * option error) :=
  let '(m, err) := collect bucket (badger_scan bucket d) ∅ None in
  Ret (Some m, err).

Definition Put (bucket key : string) (value : V) (d : D) : comp (D * option error) :=
  Ret (badger_set (bucket +:+ key) value d).

Definition Delete (bucket key : string) (d : D) : comp (D * option error) :=
  Ret (badger_delete (bucket +:+ key) d).

#[export] Instance badgerAdapter : KvAdapter V D := {|
  kv_InitBucket := InitBucket; kv_Get := Get; kv_GetAll := GetAll;
  kv_Put := Put; kv_Delete := Delete |}.

(** The entry a result leaves in the map, and the error the loop ends with. *)
Definition copied (r : result V) : V := match r with Ok v => v | Err _ => nil_bytes end.

Definition last_error (it : list (string * result V)) : option error :=
  match last it with Some (_, Err e) => Some e | _ => None end.

Lemma collect_copies bucket (it : list (string * result V)) m err :
  collect bucket it m err
  = (Leveldb.collect bucket (prod_map id copied <$> it) m,
     match it with [] => err | _ :: _ => last_error it end).
Proof.
  revert m err. induction it as [|[k r] it IH]; intros m err; [done|].
  cbn [collect]. destruct r as [v|e]; rewrite IH; f_equal; unfold last_error; by destruct it.
Qed.

(** The answer has exactly the keys of the bucket; an entry is right or nil, and right when
    every copy succeeded; the error is that of the last copy alone. *)
Lemma badger_GetAll_spec bucket (d : D) :
  exists all, GetAll bucket d = Ret (Some all, last_error (badger_scan bucket d))
    /\ (forall k, is_Some (all !! k) <-> is_Some (flat_view (badger_map d) bucket !! k))
    /\ (forall k v, all !! k = Some v -> flat_view (badger_map d) bucket !! k = Some v \/ v = nil_bytes)
    /\ ((forall k r, (k, r) ∈ badger_scan bucket d -> is_ok r = true) -> all = flat_view (badger_map d) bucket).
Proof.
  set (all := Leveldb.collect bucket (prod_map id copied <$> badger_scan bucket d) ∅).
  exists all. split.
  { unfold GetAll. rewrite collect_copies. fold all. by destruct (badger_scan bucket d). }
  assert (Hall : forall k, all !! k = copied <$> (list_to_map (M := gmap string _) (badger_scan bucket d) !! (bucket +:+ k))).
  { intros k. unfold all. rewrite Leveldb.collect_lookup, lookup_empty.
    - rewrite list_to_map_fmap, lookup_fmap. by destruct (_ !! _).
    - intros k' v' ([? r] & [= -> _] & Hin)%list_elem_of_fmap. by apply badger_scan_prefix in Hin as [? _].
    - rewrite <- list_fmap_compose. apply badger_scan_nodup. }
  assert (Hin : forall k r, list_to_map (M := gmap string _) (badger_scan bucket d) !! (bucket +:+ k) = Some r
    <-> (bucket +:+ k, r) ∈ badger_scan bucket d).
  { intros k r. symmetry. apply elem_of_list_to_map, badger_scan_nodup. }
  assert (Hr : forall k r, (bucket +:+ k, r) ∈ badger_scan bucket d ->
    flat_view (badger_map d) bucket !! k = Some (copied r) \/ is_ok r = false).
  { intros k [v|e] H'; [left|by right]. apply badger_scan_copy in H'. by rewrite lookup_flat_view. }
  assert (Hdom : forall k, is_Some (all !! k) <-> is_Some (flat_view (badger_map d) bucket !! k)).
  { intros k. rewrite Hall, fmap_is_Some, lookup_flat_view. split.
    - intros [r H'%Hin]. by apply badger_scan_prefix in H' as [_ ?].
    - intros [v Hv]. destruct (badger_scan_all bucket d _ v (prefix_app bucket k) Hv) as [r H'].
      exists r. by apply Hin. }
  split_and!; [exact Hdom| |].
  - intros k v. rewrite Hall. destruct (_ !! _) as [r|] eqn:E; [|done]. intros [= <-].
    apply Hin in E. destruct (Hr _ _ E) as [?|Hr']; [by left|right]. by destruct r.
  - intros Hok. apply map_eq. intros k. specialize (Hdom k). rewrite Hall in *.
    destruct (_ !! _) as [r|] eqn:E.
    + apply Hin in E. destruct (Hr _ _ E) as [Hv|Hr']; [by rewrite Hv|]. by rewrite (Hok _ _ E) in Hr'.
    + destruct (flat_view _ _ !! k) eqn:Ev; [|done]. destruct (proj2 Hdom ltac:(by eexists)). done.
Qed.

(** The interface is met as long as every copy succeeds and a failing write is not in the
    store. *)
Context (copy_ok : forall p d k r, (k, r) ∈ badger_scan p d -> is_ok r = true).
Context (set_refused : forall k v d d' e, badger_set k v d = (d', Some e) -> badger_map d' = badger_map d).
Context (delete_refused : forall k d d' e, badger_delete k d = (d', Some e) -> badger_map d' = badger_map d).

Program Definition badgerLaws : KvLaws V D :=
  {| kv_view d := flat_view (badger_map d); kv_ready _ _ := True |}.
Next Obligation. intros b d _. by exists d, None. Qed.
Next Obligation.
  intros b k d _ _. simpl. unfold Get. destruct (badger_get _ d) as [[v|e]|e] eqn:E.
  - eexists _, _. split; [done|]. left. rewrite lookup_flat_view. by rewrite (badger_get_ok _ _ _ E).
  - eexists _, _. split; [done|]. right. by eauto.
  - eexists _, _. split; [done|]. right. by eauto.
Qed.
Next Obligation.
  intros b d _ _. simpl. destruct (badger_GetAll_spec b d) as (all & -> & _ & _ & Hall).
  eexists _, _. split; [done|]. intros _. apply Hall. intros k r. apply copy_ok.
Qed.
Next Obligation.
  intros b k v d Hb _. simpl. unfold Put. destruct (badger_set _ v d) as [d' e] eqn:E.
  exists d', e. split; [done|]. split; [|done].
  apply (flat_write_spec badger_map b k (fun k => <[k := v]>)); [done| | | |].
  - intros m. apply flat_view_insert.
  - intros m b' Hb' Hne. by apply flat_view_insert_other.
  - intros ->. by apply badger_set_ok.
  - intros [e' ->]. by eapply set_refused.
Qed.
Next Obligation.
  intros b k d Hb _. simpl. unfold Delete. destruct (badger_delete _ d) as [d' e] eqn:E.
  exists d', e. split; [done|]. split; [|done].
  apply (flat_write_spec badger_map b k delete); [done| | | |].
  - intros m. apply flat_view_delete.
  - intros m b' Hb' Hne. by apply flat_view_delete_other.
  - intros ->. by apply badger_delete_ok.
  - intros [e' ->]. by eapply delete_refused.
Qed.
End adapter.
End Badger.

(** ** Stores in memory

    A flat store that is a finite map and never fails: the libraries' documented
    behaviour can hold. *)

Section memory.
Context {V : Type}.

Definition mem_scan (p : string) (d : gmap string V) : list (string * V) :=
  filter (fun kv => String.prefix p kv.1 = true) (map_to_list d).

Lemma mem_scan_spec p d k v :
  (k, v) ∈ mem_scan p d <-> String.prefix p k = true /\ d !! k = Some v.
Proof. unfold mem_scan. by rewrite list_elem_of_filter, elem_of_map_to_list. Qed.

Lemma mem_scan_nodup p d : NoDup (mem_scan p d).*1.
Proof. apply NoDup_fst_filter, NoDup_fst_map_to_list. Qed.

Definition mem_get (k : string) (d : gmap string V) : result V :=
  match d !! k with Some v => Ok v | None => Err "leveldb: not found" end.

Program Definition mem_level : LevelLib V (gmap string V) := {|
  level_map d := d;
  level_get := mem_get;
  level_scan := mem_scan;
  level_iter_error _ _ := None;
  level_put k v d := (<[k := v]> d, None);
  level_delete k d := (delete k d, None) |}.
Next Obligation. intros k d v. unfold mem_get. by case_match; intros [= ->]. Qed.
Next Obligation. intros p d. apply mem_scan_nodup. Qed.
Next Obligation. intros p d k v. apply mem_scan_spec. Qed.
Next Obligation. intros p d k v _ Hp Hv. by apply mem_scan_spec. Qed.
Next Obligation. by intros k v d d' [= <-]. Qed.
Next Obligation. by intros k v d d' e [=]. Qed.
Next Obligation. by intros k d d' [= <-]. Qed.
Next Obligation. by intros k d d' e [=]. Qed.

Program Definition mem_bolt : BoltLib V (gmap string (gmap string V)) := {|
  bolt_bucket d b := d !! b;
  bolt_create b d := (<[b := default ∅ (d !! b)]> d, None);
  bolt_put b k v d :=
    if decide (k = EmptyString) then (d, Some "key required")
    else (alter <[k := v]> b d, None);
  bolt_delete b k d := (alter (delete k) b d, None) |}.
Next Obligation.
  intros b d d' [= <-]. split; [by rewrite lookup_insert_eq|]. intros. by rewrite lookup_insert_ne.
Qed.
Next Obligation. by intros b d d' e [=]. Qed.
Next Obligation.
  intros b k v d d' m Hm. simpl. case_decide; intros [= <-].
  split; [by rewrite lookup_alter_eq, Hm|]. intros. by rewrite lookup_alter_ne.
Qed.
Next Obligation. intros b k v d d' e. simpl. by case_decide; intros [= <- _]. Qed.
Next Obligation.
  intros b k d d' m Hm [= <-].
  split; [by rewrite lookup_alter_eq, Hm|]. intros. by rewrite lookup_alter_ne.
Qed.
Next Obligation. by intros b k d d' e [=]. Qed.
End memory.

Section memory_others.
Context {V : Type}.

Program Definition mem_redis : RedisLib V (gmap string (gmap string V)) := {|
  redis_hash d b := default ∅ (d !! b);
  redis_hget b k d := match default ∅ (d !! b) !! k with Some v => Ok v | None => Err "redis: nil" end;
  redis_hgetall b d := Ok (default ∅ (d !! b));
  redis_hset b k v d := (<[b := <[k := v]> (default ∅ (d !! b))]> d, None);
  redis_hdel b k d := (<[b := delete k (default ∅ (d !! b))]> d, None) |}.
Next Obligation. intros b k d v. simpl. by case_match; intros [= ->]. Qed.
Next Obligation. by intros b d m [= <-]. Qed.
Next Obligation.
  intros b k v d d' [= <-]. split; [by rewrite lookup_insert_eq|]. intros. by rewrite lookup_insert_ne.
Qed.
Next Obligation. by intros b k v d d' e [=]. Qed.
Next Obligation.
  intros b k d d' [= <-]. split; [by rewrite lookup_insert_eq|]. intros. by rewrite lookup_insert_ne.
Qed.
Next Obligation. by intros b k d d' e [=]. Qed.

Program Definition mem_badger : BadgerLib V (gmap string V) := {|
  badger_map d := d;
  badger_get k d := match d !! k with Some v => Ok (Ok v) | None => Err "Key not found" end;
  badger_scan p d := prod_map id Ok <$> mem_scan p d;
  badger_set k v d := (<[k := v]> d, None);
  badger_delete k d := (delete k d, None) |}.
Next Obligation. intros k d v. simpl. by case_match; intros [= ->]. Qed.
Next Obligation. intros p d. simpl. rewrite <- list_fmap_compose. apply mem_scan_nodup. Qed.
Next Obligation.
  intros p d k r ([k' v] & [= -> ->] & Hin)%list_elem_of_fmap.
  apply mem_scan_spec in Hin as [Hp Hv]. by eauto.
Qed.
Next Obligation.
  intros p d k v ([k' v'] & [= -> ->] & Hin)%list_elem_of_fmap. by apply mem_scan_spec in Hin as [].
Qed.
Next Obligation.
  intros p d k v Hp Hv. exists (Ok v). apply list_elem_of_fmap. exists (k, v).
  by split; [|apply mem_scan_spec].
Qed.
Next Obligation. by intros k v d d' [= <-]. Qed.
Next Obligation. by intros k v d d' e [=]. Qed.
Next Obligation. by intros k d d' [= <-]. Qed.
Next Obligation. by intros k d d' e [=]. Qed.

End memory_others.

(** ** Runs of operations against the reference *)

Inductive kv_op (V : Type) : Type :=
| KGet (b k : string)
| KGetAll (b : string)
| KPut (b k : string) (v : V)
| KDelete (b k : string).
Arguments KGet {V} b k.
Arguments KGetAll {V} b.
Arguments KPut {V} b k v.
Arguments KDelete {V} b k.

Inductive kv_answer (V : Type) : Type :=
| AValue (v : nilable V)
| AMap (m : gmap string V)
| ADone.
Arguments AValue {V} v.
Arguments AMap {V} m.
Arguments ADone {V}.

Section runs.
Context {V : Type}.

Definition op_bucket (o : kv_op V) : string :=
  match o with KGet b _ | KGetAll b | KPut b _ _ | KDelete b _ => b end.

(** The reference: one finite map per bucket. *)
Definition ref_answer (m : string -> gmap string V) (o : kv_op V) : kv_answer V :=
  match o with
  | KGet b k => AValue (m b !! k)
  | KGetAll b => AMap (m b)
  | _ => ADone
  end.

Definition ref_write (m : string -> gmap string V) (o : kv_op V) : string -> gmap string V :=
  match o with
  | KPut b k v => fun b' => if decide (b' = b) then <[k := v]> (m b) else m b'
  | KDelete b k => fun b' => if decide (b' = b) then delete k (m b) else m b'
  | _ => m
  end.

(** What an operation may answer and make of the buckets. A read changes nothing and answers
    what its bucket holds, or no value and an error; what a listing answers depends on the
    back end ([scans], of the store it ran on). A write that reports no error has been
    executed; one that reports an error has been executed or has changed nothing. *)
Definition step_ok {D} (scans : D -> string -> gmap string V -> gmap string V -> option error -> Prop)
    (d : D) (m : string -> gmap string V) (o : kv_op V) (a : kv_answer V) (e : option error)
    (m' : string -> gmap string V) : Prop :=
  let same := forall b, b ∈ buckets -> m' b = m b in
  match o with
  | KGet b k => same /\ (a = AValue (m b !! k) \/ (a = AValue None /\ is_Some e))
  | KGetAll b => same /\ exists all, a = AMap all /\ scans d b (m b) all e
  | _ => a = ADone /\ ((forall b, b ∈ buckets -> m' b = ref_write m o b) \/ (is_Some e /\ same))
  end.

Fixpoint explained {D} (scans : D -> string -> gmap string V -> gmap string V -> option error -> Prop)
    (m : string -> gmap string V) (ops : list (kv_op V))
    (outs : list (D * (kv_answer V * option error))) (m' : string -> gmap string V) : Prop :=
  match ops, outs with
  | [], [] => forall b, b ∈ buckets -> m' b = m b
  | o :: ops, (d, (a, e)) :: outs =>
      exists m1, step_ok scans d m o a e m1 /\ explained scans m1 ops outs m'
  | _, _ => False
  end.

Context {D : Type} `{KvAdapter V D}.

Definition kv_step (o : kv_op V) (d : D) : comp (D * (kv_answer V * option error)) :=
  match o with
  | KGet b k => '(v, e) ← kv_Get b k d; Ret (d, (AValue v, e))
  | KGetAll b => '(m, e) ← kv_GetAll b d; Ret (d, (AMap (default ∅ m), e))
  | KPut b k v => '(d, e) ← kv_Put b k v d; Ret (d, (ADone, e))
  | KDelete b k => '(d, e) ← kv_Delete b k d; Ret (d, (ADone, e))
  end.

(** A sequence of operations, each with the store it ran on. *)
Fixpoint kv_run (ops : list (kv_op V)) (d : D)
    : comp (D * list (D * (kv_answer V * option error))) :=
  match ops with
  | [] => Ret (d, [])
  | o :: ops => '(d1, a) ← kv_step o d; '(d2, outs) ← kv_run ops d1; Ret (d2, (d, a) :: outs)
  end.

(** Operation by operation is enough. *)
Lemma kv_run_explained scans (view : D -> string -> gmap string V) (ready : D -> Prop) :
  (forall o d, op_bucket o ∈ buckets -> ready d ->
     returns (kv_step o d) (fun '(d', (a, e)) => ready d' /\ step_ok scans d (view d) o a e (view d'))) ->
  forall ops d, Forall (fun o => op_bucket o ∈ buckets) ops -> ready d ->
  returns (kv_run ops d) (fun '(d', outs) => explained scans (view d) ops outs (view d')).
Proof.
  intros Hstep ops d Hops. revert d. induction Hops as [|o ops Ho Hops IH]; intros d Hr; cbn [kv_run].
  { by auto with tunasync. }
  eapply returns_bind; [by apply Hstep|]. intros [d1 [a e]] [Hr1 Ha].
  eapply returns_bind; [by apply IH|]. intros [d2 outs] Hout. apply returns_ret. by exists (view d1).
Qed.

(** The clause of a write. *)
Lemma write_ok scans d (view : D -> string -> gmap string V) (d' : D) o e f :
  (exists b k v, o = KPut b k v /\ f = <[k := v]>) \/ (exists b k, o = KDelete b k /\ f = delete k) ->
  let applied := view d' (op_bucket o) = f (view d (op_bucket o))
    /\ (forall b', b' ∈ buckets -> b' <> op_bucket o -> view d' b' = view d b') in
  (e = None -> applied) -> (is_Some e -> (forall b, b ∈ buckets -> view d' b = view d b) \/ applied) ->
  step_ok scans d (view d) o ADone e (view d').
Proof.
  intros Ho applied Hok Herr.
  assert (Ha : applied -> forall b, b ∈ buckets -> view d' b = ref_write (view d) o b).
  { intros [Hs Hother] b Hb.
    destruct Ho as [(b0 & k & v & -> & ->)|(b0 & k & -> & ->)]; simpl in *; case_decide; subst; auto. }
  assert (Hw : (forall b, b ∈ buckets -> view d' b = ref_write (view d) o b)
               \/ (is_Some e /\ forall b, b ∈ buckets -> view d' b = view d b)).
  { destruct e as [e|]; [|by auto]. destruct Herr as [?|?]; [by eexists|right|left; by auto]. by split; eauto. }
  by destruct Ho as [(b0 & k & v & -> & _)|(b0 & k & -> & _)].
Qed.
End runs.

(** What the listing of each back end answers, of the store [d] whose bucket [b] holds
    [held]: bolt the bucket; redis the bucket, or nothing and an error; leveldb part of it,
    never an error, and all of it when the iterator did not fail; badger its keys, each with
    its value or with nil, the error of the last copy, and the bucket when no copy failed. *)
Section listings.
Context {V : Type}.

Definition bolt_lists {D} (d : D) (b : string) (held all : gmap string V) (e : option error) : Prop :=
  all = held /\ e = None.

Definition redis_lists {D} (d : D) (b : string) (held all : gmap string V) (e : option error) : Prop :=
  (all = held /\ e = None) \/ (all = ∅ /\ is_Some e).

Definition level_lists {D} `{LevelLib V D} (d : D) (b : string) (held all : gmap string V) (e : option error) : Prop :=
  e = None /\ all ⊆ held /\ (level_iter_error b d = None -> all = held).

Definition badger_lists {D} `{BadgerLib V D} (nil_bytes : V) (d : D) (b : string) (held all : gmap string V)
    (e : option error) : Prop :=
  e = Badger.last_error (badger_scan b d)
  /\ (forall k, is_Some (all !! k) <-> is_Some (held !! k))
  /\ (forall k v, all !! k = Some v -> held !! k = Some v \/ v = nil_bytes)
  /\ ((forall k r, (k, r) ∈ badger_scan b d -> is_ok r = true) -> all = held).
End listings.

(** A write under a bucket's prefix of a flat store. *)
Lemma flat_step {V D} scans (m_of : D -> gmap string V) (d d' : D) o e f :
  op_bucket o ∈ buckets ->
  match o with
  | KPut b k v => f = <[b +:+ k := v]>
  | KDelete b k => f = delete (b +:+ k)
  | _ => False
  end ->
  (e = None -> m_of d' = f (m_of d)) -> (is_Some e -> m_of d' = m_of d \/ m_of d' = f (m_of d)) ->
  step_ok scans d (flat_view (m_of d)) o ADone e (flat_view (m_of d')).
Proof.
  intros Hb Hf Hok Herr. destruct o as [| |b k v|b k]; try done; subst f; simpl in Hb.
  - apply (write_ok scans d (fun d => flat_view (m_of d)) d' (KPut b k v) e (<[k := v]>)); [left; by eauto| |]; simpl.
    + intros He. rewrite Hok by done. split; [apply flat_view_insert|]. intros. by apply flat_view_insert_other.
    + intros He. destruct (Herr He) as [->| ->]; [by left|right].
      split; [apply flat_view_insert|]. intros. by apply flat_view_insert_other.
  - apply (write_ok scans d (fun d => flat_view (m_of d)) d' (KDelete b k) e (delete k)); [right; by eauto| |]; simpl.
    + intros He. rewrite Hok by done. split; [apply flat_view_delete|]. intros. by apply flat_view_delete_other.
    + intros He. destruct (Herr He) as [->| ->]; [by left|right].
      split; [apply flat_view_delete|]. intros. by apply flat_view_delete_other.
Qed.

Section steps.
Context {V D : Type}.

Lemma bolt_step `{BoltLib V D} o d :
  op_bucket o ∈ buckets -> (forall b, b ∈ buckets -> is_Some (bolt_bucket d b)) ->
  returns (kv_step (H := Bolt.boltAdapter) o d) (fun '(d', (a, e)) =>
    (forall b, b ∈ buckets -> is_Some (bolt_bucket d' b))
    /\ step_ok bolt_lists d (Bolt.view d) o a e (Bolt.view d')).
Proof.
  intros Hb Hr. destruct (Hr _ Hb) as [m Hm].
  destruct o as [b k|b|b k v|b k]; simpl in *;
    unfold Bolt.Get, Bolt.GetAll, Bolt.Put, Bolt.Delete; rewrite Hm; simpl.
  - apply returns_ret. split_and!; try done. left. unfold Bolt.view. by rewrite Hm.
  - apply returns_ret. split_and!; try done. exists m. unfold Bolt.view. by rewrite Hm.
  - destruct (bolt_put b k v d) as [d' e] eqn:E. apply returns_ret.
    destruct (Bolt.bolt_write_ok b (<[k := v]>) d d' e m Hm) as [Hw Hr'];
      [intros ->; by eapply bolt_put_ok|intros [e' ->]; by eapply bolt_put_err|].
    split; [intros; by apply Hr', Hr|].
    apply (write_ok bolt_lists d Bolt.view d' (KPut b k v) e (<[k := v]>)); [left; by eauto| |].
    + intros ->. exact Hw.
    + intros [e' ->]. by left.
  - destruct (bolt_delete b k d) as [d' e] eqn:E. apply returns_ret.
    destruct (Bolt.bolt_write_ok b (delete k) d d' e m Hm) as [Hw Hr'];
      [intros ->; by eapply bolt_delete_ok|intros [e' ->]; by eapply bolt_delete_err|].
    split; [intros; by apply Hr', Hr|].
    apply (write_ok bolt_lists d Bolt.view d' (KDelete b k) e (delete k)); [right; by eauto| |].
    + intros ->. exact Hw.
    + intros [e' ->]. by left.
Qed.

Lemma redis_step `{RedisLib V D} o d : op_bucket o ∈ buckets ->
  returns (kv_step (H := Redis.redisAdapter) o d) (fun '(d', (a, e)) =>
    True /\ step_ok redis_lists d (redis_hash d) o a e (redis_hash d')).
Proof.
  intros Hb. destruct o as [b k|b|b k v|b k]; simpl in *.
  - unfold Redis.Get. destruct (redis_hget b k d) as [v|e] eqn:E; apply returns_ret; split_and!; try done.
    + left. by rewrite (redis_hget_ok _ _ _ _ E).
    + right. by eauto.
  - unfold Redis.GetAll. destruct (redis_hgetall b d) as [m|e] eqn:E; apply returns_ret; split_and!; try done.
    + exists m. split; [done|]. left. by apply redis_hgetall_ok in E.
    + exists ∅. split; [done|]. right. by eauto.
  - unfold Redis.Put. destruct (redis_hset b k v d) as [d' e] eqn:E. apply returns_ret. split; [done|].
    apply (write_ok redis_lists d redis_hash d' (KPut b k v) e (<[k := v]>)); [left; by eauto| |]; simpl.
    + intros ->. destruct (redis_hset_ok _ _ _ _ _ E). by auto.
    + intros [e' ->]. destruct (redis_hset_err _ _ _ _ _ _ E) as [Hs|[]]; [left|right; by auto].
      intros. by rewrite Hs.
  - unfold Redis.Delete. destruct (redis_hdel b k d) as [d' e] eqn:E. apply returns_ret. split; [done|].
    apply (write_ok redis_lists d redis_hash d' (KDelete b k) e (delete k)); [right; by eauto| |]; simpl.
    + intros ->. destruct (redis_hdel_ok _ _ _ _ E). by auto.
    + intros [e' ->]. destruct (redis_hdel_err _ _ _ _ _ E) as [Hs|[]]; [left|right; by auto].
      intros. by rewrite Hs.
Qed.

Lemma level_step `{LevelLib V D} o d : op_bucket o ∈ buckets ->
  returns (kv_step (H := Leveldb.leveldbAdapter) o d) (fun '(d', (a, e)) =>
    True /\ step_ok level_lists d (flat_view (level_map d)) o a e (flat_view (level_map d'))).
Proof.
  intros Hb. destruct o as [b k|b|b k v|b k]; simpl in *.
  - unfold Leveldb.Get. destruct (level_get _ d) as [v|e] eqn:E; apply returns_ret; split_and!; try done.
    + left. rewrite lookup_flat_view. by rewrite (level_get_ok _ _ _ E).
    + right. by eauto.
  - apply returns_ret. split_and!; try done. eexists. split; [done|]. split_and!; [done| |].
    + apply Leveldb.level_GetAll_sub.
    + apply Leveldb.level_GetAll_map.
  - unfold Leveldb.Put. destruct (level_put _ v d) as [d' e] eqn:E. apply returns_ret. split; [done|].
    apply (flat_step level_lists level_map d d' (KPut b k v) e (<[b +:+ k := v]>)); [done|done| |].
    + intros ->. by apply level_put_ok.
    + intros [e' ->]. by eapply level_put_err.
  - unfold Leveldb.Delete. destruct (level_delete _ d) as [d' e] eqn:E. apply returns_ret. split; [done|].
    apply (flat_step level_lists level_map d d' (KDelete b k) e (delete (b +:+ k))); [done|done| |].
    + intros ->. by apply level_delete_ok.
    + intros [e' ->]. by eapply level_delete_err.
Qed.

Lemma badger_step `{BadgerLib V D} nil_bytes o d : op_bucket o ∈ buckets ->
  returns (kv_step (H := Badger.badgerAdapter nil_bytes) o d) (fun '(d', (a, e)) =>
    True /\ step_ok (badger_lists nil_bytes) d (flat_view (badger_map d)) o a e (flat_view (badger_map d'))).
Proof.
  intros Hb. destruct o as [b k|b|b k v|b k]; simpl in *.
  - unfold Badger.Get. destruct (badger_get _ d) as [[v|e]|e] eqn:E; apply returns_ret; split_and!; try done.
    + left. rewrite lookup_flat_view. by rewrite (badger_get_ok _ _ _ E).
    + right. by eauto.
    + right. by eauto.
  - destruct (Badger.badger_GetAll_spec nil_bytes b d) as (all & -> & Hdom & Hv & Hall). simpl.
    apply returns_ret. split_and!; try done. exists all. by split_and!.
  - unfold Badger.Put. destruct (badger_set _ v d) as [d' e] eqn:E. apply returns_ret. split; [done|].
    apply (flat_step (badger_lists nil_bytes) badger_map d d' (KPut b k v) e (<[b +:+ k := v]>)); [done|done| |].
    + intros ->. by apply badger_set_ok.
    + intros [e' ->]. by eapply badger_set_err.
  - unfold Badger.Delete. destruct (badger_delete _ d) as [d' e] eqn:E. apply returns_ret. split; [done|].
    apply (flat_step (badger_lists nil_bytes) badger_map d d' (KDelete b k) e (delete (b +:+ k))); [done|done| |].
    + intros ->. by apply badger_delete_ok.
    + intros [e' ->]. by eapply badger_delete_err.
Qed.
End steps.

(** C4: the four back ends of [makeDBAdapter] behave as one finite map per bucket. Whatever
    the sequence of reads and writes, none of them panics once bolt's buckets exist; a read of
    one key answers what its bucket holds, or nothing and an error; a write that reports no
    error has changed the bucket it names as asked and no other, although leveldb and badger
    keep both buckets in one key space, and one that reports an error has done that or
    nothing. A listing answers the bucket; but leveldb answers part of it, with no error,
    when its iterator fails, and badger answers nil values where copies fail, with the error
    of the last copy only. *)
Theorem backends_refine_maps {V D1 D2 D3 D4 : Type} (bolt : BoltLib V D1) (redis : RedisLib V D2)
    (level : LevelLib V D3) (badger : BadgerLib V D4) (nil_bytes : V) (ops : list (kv_op V)) :
  Forall (fun o => op_bucket o ∈ buckets) ops ->
  (forall d, (forall b, b ∈ buckets -> is_Some (bolt_bucket d b)) ->
     returns (kv_run (H := Bolt.boltAdapter) ops d) (fun '(d', outs) =>
       explained bolt_lists (Bolt.view d) ops outs (Bolt.view d')))
  /\ (forall d, returns (kv_run (H := Redis.redisAdapter) ops d) (fun '(d', outs) =>
       explained redis_lists (redis_hash d) ops outs (redis_hash d')))
  /\ (forall d, returns (kv_run (H := Leveldb.leveldbAdapter) ops d) (fun '(d', outs) =>
       explained level_lists (flat_view (level_map d)) ops outs (flat_view (level_map d'))))
  /\ (forall d, returns (kv_run (H := Badger.badgerAdapter nil_bytes) ops d) (fun '(d', outs) =>
       explained (badger_lists nil_bytes) (flat_view (badger_map d)) ops outs (flat_view (badger_map d')))).
Proof.
  intros Hops. split_and!; intros d.
  - intros Hd. apply (kv_run_explained bolt_lists Bolt.view (fun d => forall b, b ∈ buckets -> is_Some (bolt_bucket d b)));
      [intros; by apply bolt_step|done|done].
  - apply (kv_run_explained redis_lists redis_hash (fun _ => True)); [intros; by apply redis_step|done|done].
  - apply (kv_run_explained level_lists (fun d => flat_view (level_map d)) (fun _ => True));
      [intros; by apply level_step|done|done].
  - apply (kv_run_explained (badger_lists nil_bytes) (fun d => flat_view (badger_map d)) (fun _ => True));
      [intros; by apply badger_step|done|done].
Qed.

(** A key of each bucket whose full names share a prefix, and a missing key at the end. *)
Definition ex_ops : list (kv_op string) :=
  [KPut _statusBucketKey "debian/w" "one"; KPut _workerBucketKey "w" "two";
   KGet _statusBucketKey "debian/w"; KDelete _workerBucketKey "w"; KGetAll _statusBucketKey;
   KGet _workerBucketKey "w"].

Lemma backends_refine_maps_witness :
  exists d outs, kv_run (H := Leveldb.leveldbAdapter (H := mem_level)) ex_ops ∅ = Ret (d, outs)
    /\ outs.*2 !! 2%nat = Some (AValue (Some "one"), None)
    /\ explained (level_lists (H := mem_level)) (flat_view (level_map (LevelLib := mem_level) ∅)) ex_ops outs
         (flat_view (level_map (LevelLib := mem_level) d)).
Proof.
  destruct (backends_refine_maps mem_bolt mem_redis mem_level mem_badger EmptyString
    ex_ops) as (_ & _ & Hl & _).
  - repeat constructor.
  - destruct (Hl ∅) as ([d outs] & He & Hq). exists d, outs. split; [exact He|]. split; [|exact Hq].
    assert (Ho : ('(_, outs) ← kv_run (H := Leveldb.leveldbAdapter (H := mem_level)) ex_ops ∅;
      Ret (outs.*2 !! 2%nat)) = Ret (Some (AValue (Some "one"), None))) by reflexivity.
    rewrite He in Ho. by injection Ho.
Defined.
