(* ===== verification/Db.v ===== *)
(** * manager/db.go: the store of workers and job statuses

    [DbAdapter] is the interface the HTTP handlers are written against and [DbLaws]
    what it promises in terms of two finite maps, the workers by id and the job
    statuses by [status_id].  [kvDBAdapter] implements it on any back end that meets
    [KvLaws], by storing one JSON document per record. *)

From S2P Require Import Prelude Json Msg Kv.

Local Open Scope string_scope.
Local Open Scope list_scope.

(** ** The interface *)

Class DbAdapter (S : Type) := {
  db_Init : S -> comp (S * option error);
  db_ListWorkers : S -> comp (list WorkerStatus * option error);
  db_GetWorker : string -> S -> comp (WorkerStatus * option error);
  db_DeleteWorker : string -> S -> comp (S * option error);
  db_CreateWorker : WorkerStatus -> S -> comp (S * (WorkerStatus * option error));
  (** [time.Now()] is the first argument *)
  db_RefreshWorker : Z -> string -> S -> comp (S * (WorkerStatus * option error));
  db_UpdateMirrorStatus : string -> string -> MirrorStatus -> S -> comp (S * (MirrorStatus * option error));
  db_GetMirrorStatus : string -> string -> S -> comp (MirrorStatus * option error);
  db_ListMirrorStatus : string -> S -> comp (list MirrorStatus * option error);
  db_ListAllMirrorStatus : S -> comp (list MirrorStatus * option error);
  db_FlushDisabledJobs : S -> comp (S * option error)
}.

(** The key of a job: mirror name, slash, worker id. *)
Definition status_id (workerID mirrorID : string) : string := mirrorID +:+ String slash workerID.

(** The worker a key is listed under: [strings.Split(k, "/")[1]]. *)
Definition listed_worker (k : string) : option string := split_char slash k !! 1%nat.

Lemma listed_worker_id wid mid :
  contains_char slash mid = false -> contains_char slash wid = false ->
  listed_worker (status_id wid mid) = Some wid.
Proof.
  intros Hm Hw. unfold listed_worker, status_id. rewrite split_char_app by done.
  by rewrite split_char_no_sep.
Qed.

Lemma listed_worker_some wid mid : is_Some (listed_worker (status_id wid mid)).
Proof.
  unfold listed_worker, status_id. induction mid as [|c mid IH].
  - change (EmptyString +:+ String slash wid) with (String slash wid).
    cbn [split_char]. rewrite decide_True by done. simpl.
    pose proof (split_char_nonempty slash wid). destruct (split_char slash wid); [done|by eexists].
  - rewrite str_app_cons. cbn [split_char]. case_decide as Hc.
    + simpl. pose proof (split_char_nonempty slash (mid +:+ String slash wid)).
      destruct (split_char slash (mid +:+ _)); [done|by eexists].
    + destruct (split_char slash (mid +:+ String slash wid)) as [|x xs]; [by destruct IH|].
      simpl. exact IH.
Qed.

(** A store in which neither mirror names nor worker ids contain a slash. *)
Definition slash_free {A} (statuses : gmap string A) : Prop :=
  forall k m, statuses !! k = Some m -> exists w mid, k = status_id w mid
    /\ contains_char slash w = false /\ contains_char slash mid = false.

(** Then the entries listed for a worker are those stored under it, each once, by the name of
    its mirror. *)
Lemma listed_by_mirror {A} (statuses : gmap string A) wid ms : slash_free statuses ->
  ms ≡ₚ (filter (fun km => listed_worker km.1 = Some wid) (map_to_list statuses)).*2 ->
  exists named : list (string * A), ms = named.*2 /\ NoDup named.*1
    /\ forall mid m, (mid, m) ∈ named <->
         contains_char slash mid = false /\ statuses !! status_id wid mid = Some m.
Proof.
  intros Hk Hp. set (l0 := filter _ _) in Hp. apply Permutation_map_inv in Hp as (l & -> & Hll).
  assert (Hin : forall k m, (k, m) ∈ l <-> exists mid, k = status_id wid mid
    /\ contains_char slash mid = false /\ statuses !! k = Some m).
  { intros k m. rewrite <- Hll. unfold l0. rewrite list_elem_of_filter, elem_of_map_to_list. simpl. split.
    - intros [Hw Hm]. destruct (Hk _ _ Hm) as (w' & mid' & -> & Hw' & Hm').
      rewrite listed_worker_id in Hw by done. injection Hw as ->. by exists mid'.
    - intros (mid & -> & Hmid & Hm). split; [|done].
      destruct (Hk _ _ Hm) as (w' & mid' & Heq & Hw' & Hm').
      apply split_at_unique in Heq as [_ ->]; [|done|done]. by apply listed_worker_id. }
  assert (Hnd : NoDup l.*1) by (rewrite <- Hll; apply NoDup_fst_filter, NoDup_fst_map_to_list).
  set (name := fun k => default EmptyString (head (split_char slash k))).
  assert (Hname : forall mid, contains_char slash mid = false -> name (status_id wid mid) = mid)
    by (intros mid Hmid; unfold name, status_id; by rewrite split_char_app).
  exists (prod_map name Datatypes.id <$> l). split_and!.
  - rewrite <- list_fmap_compose. by apply list_fmap_ext.
  - assert ((prod_map name Datatypes.id <$> l).*1 = name <$> l.*1) as ->
      by (rewrite <- !list_fmap_compose; by apply list_fmap_ext).
    apply (NoDup_fmap_2_strong name l.*1); [|done].
    intros k1 k2 H1 H2 Heq. apply list_elem_of_fmap in H1 as ([? m1] & -> & H1), H2 as ([? m2] & -> & H2).
    apply Hin in H1 as (mid1 & -> & Hm1 & _), H2 as (mid2 & -> & Hm2 & _). simpl in *.
    by rewrite !Hname in Heq by done; subst.
  - intros mid m. rewrite list_elem_of_fmap. split.
    + intros ([k m'] & [= -> ->] & (mid' & -> & Hmid & Hm)%Hin). by rewrite Hname.
    + intros [Hmid Hm]. exists (status_id wid mid, m). simpl. rewrite Hname by done. split; [done|].
      apply Hin. by exists mid.
Qed.

(** What [FlushDisabledJobs] removes. *)
Definition flushed (m : MirrorStatus) : bool :=
  bool_decide (m.(ms_Status) = Status.Disabled) || bool_decide (m.(ms_Name) = EmptyString).

Class DbLaws (S : Type) `{DbAdapter S} := {
  db_inv : S -> Prop;
  db_workers : S -> gmap string WorkerStatus;
  db_statuses : S -> gmap string MirrorStatus;
  db_get_worker_spec s id : db_inv s ->
    exists w e, db_GetWorker id s = Ret (w, e)
      /\ match e with
         | None => db_workers s !! id = Some w
         | Some _ => w = WorkerStatus_zero
         end;
  db_delete_worker_spec s id : db_inv s ->
    exists s' e, db_DeleteWorker id s = Ret (s', e) /\ db_inv s'
      /\ db_statuses s' = db_statuses s
      /\ match e with
         | None => is_Some (db_workers s !! id) /\ db_workers s' = delete id (db_workers s)
         | Some _ => db_workers s' = db_workers s
         end;
  db_create_worker_spec s w : db_inv s ->
    exists s' e, db_CreateWorker w s = Ret (s', (w, e)) /\ db_inv s'
      /\ db_statuses s' = db_statuses s
      /\ db_workers s' = match e with
                         | None => <[w.(ws_ID) := w]> (db_workers s)
                         | Some _ => db_workers s
                         end;
  db_refresh_worker_spec s now id : db_inv s ->
    exists s' w e, db_RefreshWorker now id s = Ret (s', (w, e)) /\ db_inv s'
      /\ db_statuses s' = db_statuses s
      /\ match e with
         | None => exists w0, db_workers s !! id = Some w0 /\ w = set_ws_LastOnline now w0
                     /\ db_workers s' = <[w0.(ws_ID) := w]> (db_workers s)
         | Some _ => db_workers s' = db_workers s
         end;
  db_update_status_spec s wid mid m : db_inv s ->
    exists s' e, db_UpdateMirrorStatus wid mid m s = Ret (s', (m, e)) /\ db_inv s'
      /\ db_workers s' = db_workers s
      /\ db_statuses s' = match e with
                          | None => <[status_id wid mid := m]> (db_statuses s)
                          | Some _ => db_statuses s
                          end;
  db_get_status_spec s wid mid : db_inv s ->
    exists m e, db_GetMirrorStatus wid mid s = Ret (m, e)
      /\ match e with
         | None => db_statuses s !! status_id wid mid = Some m
         | Some _ => m = MirrorStatus_zero
         end;
  db_list_all_spec s : db_inv s ->
    exists ms e, db_ListAllMirrorStatus s = Ret (ms, e)
      /\ (e = None -> ms ≡ₚ (map_to_list (db_statuses s)).*2);
  db_list_spec s wid : db_inv s ->
    exists ms e, db_ListMirrorStatus wid s = Ret (ms, e)
      /\ (e = None -> ms ≡ₚ (filter (fun km => listed_worker km.1 = Some wid)
                               (map_to_list (db_statuses s))).*2);
  db_list_workers_spec s : db_inv s ->
    exists ws e, db_ListWorkers s = Ret (ws, e)
      /\ (e = None -> ws ≡ₚ (map_to_list (db_workers s)).*2);
  db_flush_spec s : db_inv s ->
    exists s' e, db_FlushDisabledJobs s = Ret (s', e) /\ db_inv s'
      /\ db_workers s' = db_workers s
      /\ (forall k m, db_statuses s' !! k = Some m -> db_statuses s !! k = Some m)
      /\ (forall k m, db_statuses s !! k = Some m -> flushed m = false -> db_statuses s' !! k = Some m)
}.

(** ** github.com/pkg/errors *)

Class PkgErrors := {
  Wrap : option error -> string -> option error;
  (** "If err is nil, Wrap returns nil." *)
  Wrap_nil : forall m, Wrap None m = None;
  Wrap_some : forall e m, is_Some (Wrap (Some e) m)
}.

Definition colon_wrap : PkgErrors :=
  {| Wrap e m := match e with Some x => Some (m +:+ ": " +:+ x) | None => None end;
     Wrap_nil m := eq_refl; Wrap_some e m := ltac:(by eexists) |}.

(** ** kvDBAdapter *)

Module kvDBAdapter.
Section adapter.
Context {S : Type} `{KvAdapter json S} {TT : TimeText} {RO : RangeOrder} {PE : PkgErrors}.

Definition Init (s : S) : comp (S * option error) :=
  '(s1, err) ← kv_InitBucket _workerBucketKey s;
  match err with
  | Some e => Ret (s1, Some ("create bucket " +:+ _workerBucketKey +:+ " error: " +:+ e))
  | None =>
      '(s2, err) ← kv_InitBucket _statusBucketKey s1;
      match err with
      | Some e => Ret (s2, Some ("create bucket " +:+ _workerBucketKey +:+ " error: " +:+ e))
      | None => Ret (s2, err)
      end
  end.

(** The variable [w] is declared outside the loop: each document is decoded into what
    the previous one left. *)
Fixpoint ListWorkers_loop (workers : list (string * json)) (w : WorkerStatus)
    (ws : list WorkerStatus) (err : option error) : list WorkerStatus * option error :=
  match workers with
  | [] => (ws, err)
  | (_, v) :: rest =>
      let '(w, jsonErr) := unmarshal_WorkerStatus v w in
      match jsonErr with
      | Some je => ListWorkers_loop rest w ws (Wrap err je)
      | None => ListWorkers_loop rest w (ws ++ [w]) err
      end
  end.

Definition ListWorkers (s : S) : comp (list WorkerStatus * option error) :=
  '(workers, err) ← kv_GetAll _workerBucketKey s;
  Ret (ListWorkers_loop (range_list (default ∅ workers)) WorkerStatus_zero [] err).

Definition GetWorker (workerID : string) (s : S) : comp (WorkerStatus * option error) :=
  '(v, _) ← kv_Get _workerBucketKey workerID s;
  match v with
  | None => Ret (WorkerStatus_zero, Some ("invalid workerID " +:+ workerID))
  | Some v => Ret (unmarshal_WorkerStatus v WorkerStatus_zero)
  end.

Definition DeleteWorker (workerID : string) (s : S) : comp (S * option error) :=
  '(v, _) ← kv_Get _workerBucketKey workerID s;
  match v with
  | None => Ret (s, Some ("invalid workerID " +:+ workerID))
  | Some _ => kv_Delete _workerBucketKey workerID s
  end.

Definition CreateWorker (w : WorkerStatus) (s : S) : comp (S * (WorkerStatus * option error)) :=
  match marshal_WorkerStatus w with
  | Err e => Ret (s, (w, Some e))
  | Ok v =>
      '(s, err) ← kv_Put _workerBucketKey w.(ws_ID) v s;
      Ret (s, (w, err))
  end.

Definition RefreshWorker (now : Z) (workerID : string) (s : S)
    : comp (S * (WorkerStatus * option error)) :=
  '(w, err) ← GetWorker workerID s;
  match err with
  | None => CreateWorker (set_ws_LastOnline now w) s
  | Some _ => Ret (s, (w, err))
  end.

Definition UpdateMirrorStatus (workerID mirrorID : string) (status : MirrorStatus) (s : S)
    : comp (S * (MirrorStatus * option error)) :=
  let id := status_id workerID mirrorID in
  match marshal_MirrorStatus status with
  | Err e => Ret (s, (status, Some e))
  | Ok v =>
      '(s, err) ← kv_Put _statusBucketKey id v s;
      Ret (s, (status, err))
  end.

Definition GetMirrorStatus (workerID mirrorID : string) (s : S) : comp (MirrorStatus * option error) :=
  let id := status_id workerID mirrorID in
  '(v, err) ← kv_Get _statusBucketKey id s;
  match v with
  | None => Ret (MirrorStatus_zero,
      Some ("no mirror '" +:+ mirrorID +:+ "' exists in worker '" +:+ workerID +:+ "'"))
  | Some v =>
      match err with
      | None => Ret (unmarshal_MirrorStatus v MirrorStatus_zero)
      | Some _ => Ret (MirrorStatus_zero, err)
      end
  end.

Definition index_panic : string := "runtime error: index out of range [1] with length 1".

(** The body shared by the two listings: decode into a fresh variable, keep what decodes. *)
Definition list_one (v : json) (ms : list MirrorStatus) (err : option error)
    : list MirrorStatus * option error :=
  let '(m, jsonErr) := unmarshal_MirrorStatus v MirrorStatus_zero in
  match jsonErr with
  | Some je => (ms, Wrap err je)
  | None => (ms ++ [m], err)
  end.

Fixpoint ListMirrorStatus_loop (workerID : string) (vals : list (string * json))
    (ms : list MirrorStatus) (err : option error) : comp (list MirrorStatus * option error) :=
  match vals with
  | [] => Ret (ms, err)
  | (k, v) :: rest =>
      match listed_worker k with
      | None => Panic index_panic
      | Some wID =>
          if decide (wID = workerID)
          then let '(ms, err) := list_one v ms err in ListMirrorStatus_loop workerID rest ms err
          else ListMirrorStatus_loop workerID rest ms err
      end
  end.

Definition ListMirrorStatus (workerID : string) (s : S) : comp (list MirrorStatus * option error) :=
  '(vals, err) ← kv_GetAll _statusBucketKey s;
  match err with
  | Some _ => Ret ([], err)
  | None => ListMirrorStatus_loop workerID (range_list (default ∅ vals)) [] err
  end.

Fixpoint ListAllMirrorStatus_loop (vals : list (string * json)) (ms : list MirrorStatus)
    (err : option error) : list MirrorStatus * option error :=
  match vals with
  | [] => (ms, err)
  | (_, v) :: rest =>
      let '(ms, err) := list_one v ms err in ListAllMirrorStatus_loop rest ms err
  end.

Definition ListAllMirrorStatus (s : S) : comp (list MirrorStatus * option error) :=
  '(vals, err) ← kv_GetAll _statusBucketKey s;
  match err with
  | Some _ => Ret ([], err)
  | None => Ret (ListAllMirrorStatus_loop (range_list (default ∅ vals)) [] err)
  end.

Fixpoint FlushDisabledJobs_loop (vals : list (string * json)) (s : S) (err : option error)
    : comp (S * option error) :=
  match vals with
  | [] => Ret (s, err)
  | (k, v) :: rest =>
      let '(m, jsonErr) := unmarshal_MirrorStatus v MirrorStatus_zero in
      match jsonErr with
      | Some je => FlushDisabledJobs_loop rest s (Wrap err je)
      | None =>
          if flushed m then
            '(s, deleteErr) ← kv_Delete _statusBucketKey k s;
            match deleteErr with
            | Some de => FlushDisabledJobs_loop rest s (Wrap err de)
            | None => FlushDisabledJobs_loop rest s err
            end
          else FlushDisabledJobs_loop rest s err
      end
  end.

Definition FlushDisabledJobs (s : S) : comp (S * option error) :=
  '(vals, err) ← kv_GetAll _statusBucketKey s;
  match err with
  | Some _ => Ret (s, err)
  | None => FlushDisabledJobs_loop (range_list (default ∅ vals)) s err
  end.

#[export] Instance adapter : DbAdapter S := {|
  db_Init := Init; db_ListWorkers := ListWorkers; db_GetWorker := GetWorker;
  db_DeleteWorker := DeleteWorker; db_CreateWorker := CreateWorker;
  db_RefreshWorker := RefreshWorker; db_UpdateMirrorStatus := UpdateMirrorStatus;
  db_GetMirrorStatus := GetMirrorStatus; db_ListMirrorStatus := ListMirrorStatus;
  db_ListAllMirrorStatus := ListAllMirrorStatus; db_FlushDisabledJobs := FlushDisabledJobs |}.

(** ** The records a store holds *)

Context `{!KvLaws json S}.

(** Every document of the bucket is one the adapter wrote. *)
Definition encoded {A} (marshal : A -> result json) (docs : gmap string json) : Prop :=
  forall k v, docs !! k = Some v -> exists a, marshal a = Ok v.

(** Every key of the status bucket was built by [status_id]. *)
Definition keyed {V} (docs : gmap string V) : Prop :=
  forall k v, docs !! k = Some v -> exists wid mid, k = status_id wid mid.

Definition decode_with {A} (unmarshal : json -> A * option error) (v : json) : option A :=
  match unmarshal v with (a, None) => Some a | (_, Some _) => None end.

Definition dec_mirror : json -> option MirrorStatus :=
  decode_with (fun v => unmarshal_MirrorStatus v MirrorStatus_zero).
Definition dec_worker : json -> option WorkerStatus :=
  decode_with (fun v => unmarshal_WorkerStatus v WorkerStatus_zero).

Definition workers (s : S) : gmap string WorkerStatus :=
  omap dec_worker (kv_view s _workerBucketKey).
Definition statuses (s : S) : gmap string MirrorStatus :=
  omap dec_mirror (kv_view s _statusBucketKey).

Record inv (s : S) : Prop := {
  inv_ready_workers : kv_ready _workerBucketKey s;
  inv_ready_statuses : kv_ready _statusBucketKey s;
  inv_workers : encoded marshal_WorkerStatus (kv_view s _workerBucketKey);
  inv_statuses : encoded marshal_MirrorStatus (kv_view s _statusBucketKey);
  inv_keys : keyed (kv_view s _statusBucketKey)
}.

Lemma workers_bucket : _workerBucketKey ∈ buckets.
Proof. by left. Qed.
Lemma statuses_bucket : _statusBucketKey ∈ buckets.
Proof. right. by left. Qed.
#[local] Hint Resolve workers_bucket statuses_bucket : core.
#[local] Hint Resolve inv_ready_workers inv_ready_statuses inv_workers inv_statuses inv_keys : core.

Lemma buckets_ne : _statusBucketKey <> _workerBucketKey.
Proof. done. Qed.
#[local] Hint Resolve buckets_ne not_eq_sym : core.

Lemma decode_worker w v : marshal_WorkerStatus w = Ok v ->
  dec_worker v = Some w.
Proof. intros Hv. unfold dec_worker, dec_mirror, decode_with. by rewrite (unmarshal_marshal_WorkerStatus w v). Qed.

Lemma decode_mirror m v : marshal_MirrorStatus m = Ok v ->
  dec_mirror v = Some m.
Proof. intros Hv. unfold dec_worker, dec_mirror, decode_with. by rewrite (unmarshal_marshal_MirrorStatus m v). Qed.

Lemma encoded_insert {A} (marshal : A -> result json) docs k a v :
  encoded marshal docs -> marshal a = Ok v -> encoded marshal (<[k := v]> docs).
Proof.
  intros Hd Ha k' v' Hk. apply lookup_insert_Some in Hk as [[-> <-]|[_ Hk]]; eauto.
Qed.

Lemma encoded_delete {A} (marshal : A -> result json) docs k :
  encoded marshal docs -> encoded marshal (delete k docs).
Proof. intros Hd k' v' Hk. apply lookup_delete_Some in Hk as [_ Hk]. eauto. Qed.

Lemma keyed_insert {V} (docs : gmap string V) wid mid v :
  keyed docs -> keyed (<[status_id wid mid := v]> docs).
Proof. intros Hd k' v' Hk. apply lookup_insert_Some in Hk as [[<- _]|[_ Hk]]; eauto. Qed.

Lemma keyed_delete {V} (docs : gmap string V) k : keyed docs -> keyed (delete k docs).
Proof. intros Hd k' v' Hk. apply lookup_delete_Some in Hk as [_ Hk]. eauto. Qed.

(** A write to one bucket keeps the invariant when the new documents are encoded. *)
Lemma inv_write_workers s s' e f :
  inv s -> (forall b, kv_ready b s -> kv_ready b s') ->
  write_spec kv_view _workerBucketKey f s s' e ->
  encoded marshal_WorkerStatus (f (kv_view s _workerBucketKey)) ->
  inv s' /\ statuses s' = statuses s
  /\ kv_view s' _workerBucketKey
     = match e with None => f (kv_view s _workerBucketKey) | Some _ => kv_view s _workerBucketKey end.
Proof.
  intros Hi Hr Hw Hf. unfold write_spec in Hw. unfold statuses.
  destruct e as [e|].
  - rewrite !Hw by auto. split; [|done].
    split; rewrite ?Hw by auto; eauto.
  - destruct Hw as [Hw Ho]. rewrite Ho by auto. split; [|done].
    split; rewrite ?Hw, ?Ho by auto; eauto.
Qed.

Lemma inv_write_statuses s s' e f :
  inv s -> (forall b, kv_ready b s -> kv_ready b s') ->
  write_spec kv_view _statusBucketKey f s s' e ->
  encoded marshal_MirrorStatus (f (kv_view s _statusBucketKey)) ->
  keyed (f (kv_view s _statusBucketKey)) ->
  inv s' /\ workers s' = workers s
  /\ kv_view s' _statusBucketKey
     = match e with None => f (kv_view s _statusBucketKey) | Some _ => kv_view s _statusBucketKey end.
Proof.
  intros Hi Hr Hw Hf. unfold write_spec in Hw. unfold workers.
  destruct e as [e|].
  - rewrite !Hw by auto. split; [|done].
    split; rewrite ?Hw by auto; eauto.
  - destruct Hw as [Hw Ho]. rewrite Ho by auto. split; [|done].
    split; rewrite ?Hw, ?Ho by auto; eauto.
Qed.

(** Both writers: [omap] of the changed documents. *)
Lemma statuses_insert s s' k m v :
  marshal_MirrorStatus m = Ok v ->
  kv_view s' _statusBucketKey = <[k := v]> (kv_view s _statusBucketKey) ->
  statuses s' = <[k := m]> (statuses s).
Proof.
  intros Hv Hs. unfold statuses. rewrite Hs. apply omap_insert_Some. by apply decode_mirror.
Qed.

Lemma workers_insert s s' k w v :
  marshal_WorkerStatus w = Ok v ->
  kv_view s' _workerBucketKey = <[k := v]> (kv_view s _workerBucketKey) ->
  workers s' = <[k := w]> (workers s).
Proof.
  intros Hv Hs. unfold workers. rewrite Hs. apply omap_insert_Some. by apply decode_worker.
Qed.

Lemma workers_lookup s k v : inv s -> kv_view s _workerBucketKey !! k = Some v ->
  exists w, marshal_WorkerStatus w = Ok v /\ workers s !! k = Some w.
Proof.
  intros Hi Hv. destruct (inv_workers s Hi k v Hv) as [w Hw]. exists w. split; [done|].
  unfold workers. rewrite lookup_omap, Hv. simpl. by apply decode_worker.
Qed.

Lemma statuses_lookup s k v : inv s -> kv_view s _statusBucketKey !! k = Some v ->
  exists m, marshal_MirrorStatus m = Ok v /\ statuses s !! k = Some m.
Proof.
  intros Hi Hv. destruct (inv_statuses s Hi k v Hv) as [m Hm]. exists m. split; [done|].
  unfold statuses. rewrite lookup_omap, Hv. simpl. by apply decode_mirror.
Qed.

Lemma GetWorker_spec s id : inv s ->
  exists w e, GetWorker id s = Ret (w, e)
    /\ match e with None => workers s !! id = Some w | Some _ => w = WorkerStatus_zero end.
Proof.
  intros Hi. destruct (kv_get_spec _workerBucketKey id s) as (v & e & Hg & Hv); [eauto..|].
  unfold GetWorker. rewrite Hg. simpl. destruct v as [v|]; [|by eexists _, _].
  destruct Hv as [Hv|[Hv _]]; [|done].
  destruct (workers_lookup s id v Hi (eq_sym Hv)) as (w & Hw & Hl).
  rewrite (unmarshal_marshal_WorkerStatus w v _ Hw). by eexists _, _.
Qed.

Lemma CreateWorker_spec s w : inv s ->
  exists s' e, CreateWorker w s = Ret (s', (w, e)) /\ inv s' /\ statuses s' = statuses s
    /\ workers s' = match e with None => <[w.(ws_ID) := w]> (workers s) | Some _ => workers s end.
Proof.
  intros Hi. unfold CreateWorker. destruct (marshal_WorkerStatus w) as [v|e] eqn:Hv; [|by eexists _, _].
  destruct (kv_put_spec _workerBucketKey w.(ws_ID) v s) as (s' & e & Hp & Hw & Hr); [eauto..|].
  rewrite Hp. simpl. exists s', e. split; [done|].
  destruct (inv_write_workers s s' e _ Hi Hr Hw) as (Hi' & Hs & Hview).
  { eapply encoded_insert; eauto. }
  split; [done|]. split; [done|]. destruct e as [e|].
  - unfold workers. by rewrite Hview.
  - by eapply workers_insert.
Qed.

(** A loop over the documents keeps those that decode; [Wrap] of a nil error is nil, so
    no document that fails to decode is ever reported. *)

Lemma list_one_nil v ms : list_one v ms None = (ms ++ option_list (dec_mirror v), None).
Proof.
  unfold list_one, dec_mirror, decode_with.
  destruct (unmarshal_MirrorStatus v MirrorStatus_zero) as [m [e|]]; simpl; [|done].
  by rewrite Wrap_nil, app_nil_r.
Qed.

Lemma ListAll_loop_spec vals ms :
  ListAllMirrorStatus_loop vals ms None = (ms ++ omap dec_mirror vals.*2, None).
Proof.
  revert ms. induction vals as [|[k v] vals IH]; intros ms; cbn [ListAllMirrorStatus_loop].
  - simpl. by rewrite app_nil_r.
  - rewrite list_one_nil, IH, <- app_assoc. do 2 f_equal. simpl.
    by destruct (dec_mirror v).
Qed.

Lemma omap_range {A B} (f : A -> option B) (m : gmap string A) :
  omap f (range_list m).*2 ≡ₚ (map_to_list (omap f m)).*2.
Proof. by rewrite map_to_list_omap, omap_values, range_perm. Qed.

Lemma List_loop_spec wid vals ms :
  (forall k v, (k, v) ∈ vals -> is_Some (listed_worker k)) ->
  ListMirrorStatus_loop wid vals ms None
  = Ret (ms ++ omap dec_mirror (filter (fun kv => listed_worker kv.1 = Some wid) vals).*2, None).
Proof.
  revert ms. induction vals as [|[k v] vals IH]; intros ms Hk; cbn [ListMirrorStatus_loop].
  - simpl. by rewrite app_nil_r.
  - assert (Hk' : forall k v, (k, v) ∈ vals -> is_Some (listed_worker k)).
    { intros k' v' Hin. apply (Hk k' v'). by right. }
    destruct (Hk k v) as [w Hw]; [by left|]. rewrite Hw, filter_cons. simpl. rewrite Hw.
    destruct (decide (w = wid)) as [->|Hne].
    + rewrite decide_True by done. rewrite list_one_nil, IH by done. rewrite <- app_assoc.
      do 3 f_equal. simpl. by destruct (dec_mirror v).
    + rewrite decide_False by congruence. by apply IH.
Qed.

Lemma ListWorkers_loop_spec vals w ws :
  (forall k v, (k, v) ∈ vals -> exists w, marshal_WorkerStatus w = Ok v) ->
  ListWorkers_loop vals w ws None
  = (ws ++ omap dec_worker vals.*2, None).
Proof.
  revert w ws. induction vals as [|[k v] vals IH]; intros w ws Hv; cbn [ListWorkers_loop].
  - simpl. by rewrite app_nil_r.
  - destruct (Hv k v) as [w1 Hw1]; [by left|].
    rewrite (unmarshal_marshal_WorkerStatus w1 v w Hw1), IH.
    + rewrite <- app_assoc. do 2 f_equal. cbn. by rewrite (decode_worker w1 v Hw1).
    + intros k' v' Hin. apply (Hv k'). by right.
Qed.

Lemma ListWorkers_loop_some vals w ws e :
  is_Some (ListWorkers_loop vals w ws (Some e)).2.
Proof.
  revert w ws e. induction vals as [|[k v] vals IH]; intros w ws e; cbn [ListWorkers_loop].
  - by eexists.
  - destruct (unmarshal_WorkerStatus v w) as [w1 [je|]]; [|apply IH].
    destruct (Wrap_some e je) as [e' ->]. apply IH.
Qed.

Definition deletes_succeed : Prop :=
  forall k s s' e, kv_Delete _statusBucketKey k s = Ret (s', e) -> e = None.

(** Whether the document is one that [FlushDisabledJobs] removes. *)
Definition flushed_doc (v : json) : bool := from_option flushed false (dec_mirror v).

(** One document of the loop: the store afterwards. *)
Lemma flush_one s k v : inv s -> kv_view s _statusBucketKey !! k = Some v ->
  exists s', inv s' /\ workers s' = workers s
    /\ (forall rest, FlushDisabledJobs_loop ((k, v) :: rest) s None = FlushDisabledJobs_loop rest s' None)
    /\ (forall k', k' <> k -> kv_view s' _statusBucketKey !! k' = kv_view s _statusBucketKey !! k')
    /\ (kv_view s' _statusBucketKey !! k = Some v \/
        (kv_view s' _statusBucketKey !! k = None /\ flushed_doc v = true))
    /\ (deletes_succeed -> flushed_doc v = true -> kv_view s' _statusBucketKey !! k = None).
Proof.
  intros Hi Hv. destruct (statuses_lookup s k v Hi Hv) as (m & Hm & _).
  assert (Hfd : flushed_doc v = flushed m).
  { unfold flushed_doc. by rewrite (decode_mirror m v Hm). }
  cbn [FlushDisabledJobs_loop]. rewrite (unmarshal_marshal_MirrorStatus m v _ Hm), Hfd.
  destruct (flushed m) eqn:Hf.
  - destruct (kv_delete_spec _statusBucketKey k s) as (s' & e & Hd & Hw & Hr); [eauto..|].
    destruct (inv_write_statuses s s' e _ Hi Hr Hw) as (Hi' & Hws & Hview).
    { apply encoded_delete. eauto. }
    { apply keyed_delete. eauto. }
    exists s'. split; [done|]. split; [done|]. split; [|split; [|split]].
    + intros rest. rewrite Hd. simpl. destruct e; [|done]. by rewrite Wrap_nil.
    + intros k' Hk. rewrite Hview. destruct e; [done|]. by rewrite lookup_delete_ne.
    + rewrite Hview. destruct e; [by left|]. right. by rewrite lookup_delete_eq.
    + intros Hds _. rewrite Hview, (Hds _ _ _ _ Hd). by rewrite lookup_delete_eq.
  - exists s. split_and!; try done. by left.
Qed.

Lemma FlushDisabledJobs_loop_spec vals s :
  inv s -> NoDup vals.*1 ->
  (forall k v, (k, v) ∈ vals -> kv_view s _statusBucketKey !! k = Some v) ->
  exists s', FlushDisabledJobs_loop vals s None = Ret (s', None)
    /\ inv s' /\ workers s' = workers s
    /\ (forall k, k ∉ vals.*1 -> kv_view s' _statusBucketKey !! k = kv_view s _statusBucketKey !! k)
    /\ (forall k v, (k, v) ∈ vals -> kv_view s' _statusBucketKey !! k = Some v \/
          (kv_view s' _statusBucketKey !! k = None /\ flushed_doc v = true))
    /\ (deletes_succeed -> forall k v, (k, v) ∈ vals -> flushed_doc v = true ->
          kv_view s' _statusBucketKey !! k = None).
Proof.
  revert s. induction vals as [|[k v] vals IH]; intros s Hi Hnd Hsnap.
  { exists s. split_and!; try done; [by intros k v ?%elem_of_nil|by intros _ k v ?%elem_of_nil]. }
  rewrite fmap_cons in Hnd. apply NoDup_cons in Hnd as [Hk Hnd].
  destruct (flush_one s k v Hi) as (s1 & Hi1 & Hw1 & Hstep & Hother & Hself & Hdel).
  { apply Hsnap. by left. }
  destruct (IH s1 Hi1 Hnd) as (s' & Hl & Hi' & Hw' & Hout & Hin & Hall).
  { intros k' v' Hin. rewrite Hother; [apply Hsnap; by right|].
    intros ->. apply Hk. by apply (list_elem_of_fmap_2 fst) in Hin. }
  exists s'. rewrite Hstep. split; [done|]. split; [done|]. split; [congruence|].
  split; [|split].
  - intros k' Hk'. rewrite fmap_cons, not_elem_of_cons in Hk'. destruct Hk' as [Hne Hk'].
    rewrite Hout by done. by apply Hother.
  - intros k' v' [[= -> ->]|Hin']%elem_of_cons; [|by apply Hin]. rewrite Hout by done. done.
  - intros Hds k' v' [[= -> ->]|Hin']%elem_of_cons Hf; [|by eapply Hall]. rewrite Hout by done. eauto.
Qed.

Lemma FlushDisabledJobs_spec s : inv s ->
  exists s' e, FlushDisabledJobs s = Ret (s', e) /\ inv s' /\ workers s' = workers s
    /\ (forall k m, statuses s' !! k = Some m -> statuses s !! k = Some m)
    /\ (forall k m, statuses s !! k = Some m -> flushed m = false -> statuses s' !! k = Some m)
    /\ (deletes_succeed -> e = None -> forall k m, statuses s' !! k = Some m -> flushed m = false).
Proof.
  intros Hi. unfold FlushDisabledJobs.
  destruct (kv_getall_spec _statusBucketKey s) as (m & e & Hg & Hm); [eauto..|].
  rewrite Hg. simpl. destruct e as [e|]; [by exists s, (Some e)|].
  rewrite Hm by done.
  destruct (FlushDisabledJobs_loop_spec (range_list (kv_view s _statusBucketKey)) s Hi)
    as (s' & Hl & Hi' & Hw & _ & Hin & Hall).
  { apply NoDup_range. }
  { intros k v. by rewrite elem_of_range. }
  exists s', None. split; [done|]. split; [done|]. split; [done|].
  assert (Hback : forall k v, kv_view s' _statusBucketKey !! k = Some v ->
            kv_view s _statusBucketKey !! k = Some v).
  { intros k v Hv. destruct (kv_view s _statusBucketKey !! k) as [v0|] eqn:E.
    - destruct (Hin k v0) as [H'|[H' _]]; [by apply elem_of_range|congruence|congruence].
    - exfalso. destruct (FlushDisabledJobs_loop_spec (range_list (kv_view s _statusBucketKey)) s Hi)
        as (s2 & Hl2 & _ & _ & Hout & _ & _); [apply NoDup_range| |].
      { intros k2 v2. by rewrite elem_of_range. }
      assert (s2 = s') as -> by congruence. rewrite Hout, E in Hv; [done|].
      intros ([k2 v2] & -> & H2)%list_elem_of_fmap. apply elem_of_range in H2. simpl in E. congruence. }
  unfold statuses. split; [|split].
  - intros k m0. rewrite !lookup_omap. intros (v & Hv & Hd)%bind_Some. by rewrite (Hback k v Hv).
  - intros k m0. rewrite !lookup_omap. intros (v & Hv & Hd)%bind_Some Hf.
    destruct (Hin k v) as [->|[_ H']]; [by apply elem_of_range|done|].
    unfold flushed_doc in H'. rewrite Hd in H'. simpl in H'. congruence.
  - intros Hds _ k m0. rewrite !lookup_omap. intros (v & Hv & Hd)%bind_Some.
    destruct (flushed m0) eqn:Hf; [|done]. rewrite (Hall Hds k v) in Hv; [done| |].
    + apply elem_of_range. by apply Hback.
    + unfold flushed_doc. by rewrite Hd.
Qed.

#[export] Program Instance laws : DbLaws S :=
  {| db_inv := inv; db_workers := workers; db_statuses := statuses |}.
Next Obligation. intros s id. apply GetWorker_spec. Qed.
Next Obligation.
  intros s id Hi. simpl. unfold DeleteWorker.
  destruct (kv_get_spec _workerBucketKey id s) as (v & e & Hg & Hv); [eauto..|].
  rewrite Hg. simpl. destruct v as [v|]; [|by eexists _, _].
  destruct Hv as [Hv|[Hv _]]; [|done].
  destruct (workers_lookup s id v Hi (eq_sym Hv)) as (w & _ & Hl).
  destruct (kv_delete_spec _workerBucketKey id s) as (s' & e' & Hp & Hw & Hr); [eauto..|].
  exists s', e'. split; [done|].
  destruct (inv_write_workers s s' e' _ Hi Hr Hw) as (Hi' & Hs & Hview).
  { apply encoded_delete. eauto. }
  split; [done|]. split; [done|]. destruct e' as [e'|].
  - unfold workers. by rewrite Hview.
  - split; [by rewrite Hl|]. unfold workers. by rewrite Hview, omap_delete.
Qed.
Next Obligation. intros s w. apply CreateWorker_spec. Qed.
Next Obligation.
  intros s now id Hi. simpl. unfold RefreshWorker.
  destruct (GetWorker_spec s id Hi) as (w & e & Hg & Hw). rewrite Hg. simpl.
  destruct e as [e|]; [by eexists _, _, _|].
  destruct (CreateWorker_spec s (set_ws_LastOnline now w) Hi) as (s' & e & Hc & Hi' & Hs & Hws).
  rewrite Hc. eexists _, _, _. split; [done|]. split; [done|]. split; [done|].
  destruct e; [done|]. exists w. by destruct w.
Qed.
Next Obligation.
  intros s wid mid m Hi. simpl. unfold UpdateMirrorStatus.
  destruct (marshal_MirrorStatus m) as [v|e] eqn:Hv; [|by eexists _, _].
  destruct (kv_put_spec _statusBucketKey (status_id wid mid) v s) as (s' & e & Hp & Hw & Hr); [eauto..|].
  rewrite Hp. simpl. exists s', e. split; [done|].
  destruct (inv_write_statuses s s' e _ Hi Hr Hw) as (Hi' & Hs & Hview).
  { eapply encoded_insert; eauto. }
  { apply keyed_insert. eauto. }
  split; [done|]. split; [done|]. destruct e as [e|].
  - unfold statuses. by rewrite Hview.
  - by eapply statuses_insert.
Qed.
Next Obligation.
  intros s wid mid Hi. simpl. unfold GetMirrorStatus.
  destruct (kv_get_spec _statusBucketKey (status_id wid mid) s) as (v & e & Hg & Hv); [eauto..|].
  rewrite Hg. simpl. destruct v as [v|]; [|by eexists _, _].
  destruct Hv as [Hv|[Hv _]]; [|done].
  destruct (statuses_lookup s _ v Hi (eq_sym Hv)) as (m & Hm & Hl).
  destruct e as [e|]; [by eexists _, _|].
  rewrite (unmarshal_marshal_MirrorStatus m v _ Hm). by eexists _, _.
Qed.
Next Obligation.
  intros s Hi. simpl. unfold ListAllMirrorStatus.
  destruct (kv_getall_spec _statusBucketKey s) as (m & e & Hg & Hm); [eauto..|].
  rewrite Hg. simpl. destruct e as [e|]; [by eexists _, _|]. rewrite Hm by done.
  rewrite ListAll_loop_spec. eexists _, _. split; [done|]. intros _. apply omap_range.
Qed.
Next Obligation.
  intros s wid Hi. simpl. unfold ListMirrorStatus.
  destruct (kv_getall_spec _statusBucketKey s) as (m & e & Hg & Hm); [eauto..|].
  rewrite Hg. simpl. destruct e as [e|]; [by eexists _, _|]. rewrite Hm by done.
  rewrite List_loop_spec.
  - eexists _, _. split; [done|]. intros _. rewrite app_nil_l.
    unfold statuses. rewrite map_to_list_omap.
    etrans; [|apply fmap_Permutation, reflexive_eq, eq_sym,
      (filter_omap_keys dec_mirror (fun k => listed_worker k = Some wid)
         (HP := fun k => decide_rel (=) (listed_worker k) (Some wid)))].
    rewrite omap_values. by rewrite range_perm.
  - intros k v Hin%elem_of_range. destruct (inv_keys s Hi k v Hin) as (w & mid & ->).
    apply listed_worker_some.
Qed.
Next Obligation.
  intros s Hi. simpl. unfold ListWorkers.
  destruct (kv_getall_spec _workerBucketKey s) as (m & e & Hg & Hm); [eauto..|].
  rewrite Hg. simpl.
  destruct (ListWorkers_loop (range_list (default ∅ m)) WorkerStatus_zero [] e) as [ws e'] eqn:E.
  exists ws, e'. split; [done|]. intros ->. destruct e as [e|].
  - pose proof (ListWorkers_loop_some (range_list (default ∅ m)) WorkerStatus_zero [] e) as Hs.
    rewrite E in Hs. by destruct Hs.
  - rewrite Hm, ListWorkers_loop_spec in E; [| |done].
    2: { intros k v Hin%elem_of_range. by apply (inv_workers s Hi k). }
    injection E as <-. apply omap_range.
Qed.
Next Obligation.
  intros s Hi. simpl. destruct (FlushDisabledJobs_spec s Hi) as (s' & e & H').
  exists s', e. by destruct_and! H'.
Qed.
End adapter.
End kvDBAdapter.

(** ** A store in memory

    The four parameters at once: a flat store that never fails, decimal timestamps,
    map order by key, the error wrapper.  The theorems' witnesses run on it. *)

Module Mem.
Abbreviation store := (gmap string json).

#[export] Instance level : LevelLib json store := mem_level.
#[export] Instance time_text : TimeText := decimal_time_text.
#[export] Instance order : RangeOrder := sorted_range.
#[export] Instance wrap : PkgErrors := colon_wrap.
#[export] Existing Instances Leveldb.leveldbAdapter kvDBAdapter.adapter kvDBAdapter.laws.
#[export] Instance kv_laws : KvLaws json store := Leveldb.leveldbLaws (fun _ _ => eq_refl)
  ltac:(done) ltac:(done).

Definition empty : store := ∅.

Lemma flat_view_empty b : flat_view (V := json) ∅ b = ∅.
Proof. apply map_eq. intros k. by rewrite lookup_flat_view, !lookup_empty. Qed.

Lemma empty_inv : db_inv empty.
Proof.
  split; try done; intros k v; change (kv_view empty) with (flat_view (V := json) ∅);
    by rewrite flat_view_empty, lookup_empty.
Qed.

Lemma empty_statuses : db_statuses empty = ∅.
Proof.
  change (db_statuses empty) with
    (omap (kvDBAdapter.dec_mirror) (flat_view (V := json) ∅ _statusBucketKey)).
  by rewrite flat_view_empty, omap_empty.
Qed.
End Mem.

(** ** Reads that do not fail on their own *)

(** [GetMirrorStatus] reports an error only for a job it does not hold. *)
#[local] Existing Instances kvDBAdapter.adapter kvDBAdapter.laws.

Definition reads_exact (S : Type) `{DbLaws S} : Prop :=
  forall (s : S) wid mid m e, db_inv s -> db_GetMirrorStatus wid mid s = Ret (m, Some e) ->
  db_statuses s !! status_id wid mid = None.

Lemma kv_reads_exact (S : Type) `{KvLaws json S} {TT : TimeText} {RO : RangeOrder} {PE : PkgErrors} :
  (forall (s : S) k v e, kv_Get _statusBucketKey k s = Ret (v, e) ->
     v = kv_view s _statusBucketKey !! k /\ (is_Some v -> e = None)) ->
  reads_exact S.
Proof.
  intros Hg s wid mid m e Hi. simpl. unfold kvDBAdapter.GetMirrorStatus.
  destruct (kv_get_spec _statusBucketKey (status_id wid mid) s) as (v & e1 & Hk & _).
  { by right; left. }
  { apply Hi. }
  rewrite Hk. simpl. destruct (Hg _ _ _ _ Hk) as [Hv He].
  destruct v as [v|].
  - rewrite He by done. destruct (kvDBAdapter.statuses_lookup s _ v Hi (eq_sym Hv)) as (m0 & Hm & _).
    by rewrite (unmarshal_marshal_MirrorStatus m0 v _ Hm).
  - intros _. unfold kvDBAdapter.statuses. by rewrite lookup_omap, <- Hv.
Qed.

Import Mem.

Lemma mem_reads_exact : reads_exact Mem.store.
Proof.
  apply kv_reads_exact. intros s k v e. simpl. unfold Leveldb.Get. simpl.
  rewrite lookup_flat_view. unfold mem_get.
  destruct (s !! (_statusBucketKey +:+ k)) as [x|]; simpl; intros Heq; simplify_eq.
  - done.
  - split; [done|by intros []].
Qed.

(** ** What the store promises its clients *)

Section properties.
Context {S : Type} `{KvLaws json S} {TT : TimeText} {RO : RangeOrder} {PE : PkgErrors}.

(** A status written under a mirror and a worker is what is read back for them, whatever
    is stored under other keys stays readable as it was, and when the write is refused
    nothing has changed. *)
Theorem update_then_get (Hre : reads_exact S) s wid mid m :
  db_inv s ->
  returns (kvDBAdapter.UpdateMirrorStatus wid mid m s) (fun '(s', (_, e)) =>
    db_inv s' /\
    forall wid' mid', returns (kvDBAdapter.GetMirrorStatus wid' mid' s') (fun '(m', e') =>
      m' = default MirrorStatus_zero
             (if decide (e = None /\ status_id wid' mid' = status_id wid mid) then Some m
              else db_statuses s !! status_id wid' mid'))).
Proof.
  intros Hi. destruct (db_update_status_spec s wid mid m Hi) as (s' & e & Hu & Hi' & _ & Hs).
  simpl in Hu. rewrite Hu. apply returns_ret. split; [done|]. intros wid' mid'.
  destruct (db_get_status_spec s' wid' mid' Hi') as (m' & e' & Hg & Hm).
  pose proof Hg as Hg'. simpl in Hg. rewrite Hg. apply returns_ret.
  assert (Hl : m' = default MirrorStatus_zero (db_statuses s' !! status_id wid' mid')).
  { destruct e' as [e'|]; [|by rewrite Hm]. by rewrite (Hre s' wid' mid' m' e' Hi' Hg'), Hm. }
  rewrite Hl, Hs. f_equal. destruct e as [e|].
  - by rewrite decide_False by (intros [? _]; done).
  - case_decide as Hd.
    + destruct Hd as [_ ->]. by rewrite lookup_insert_eq.
    + rewrite lookup_insert_ne; [done|]. intros Heq. apply Hd. by rewrite Heq.
Qed.

(** The listing of a worker. When neither mirror names nor worker ids contain a slash,
    the jobs listed for a worker are exactly those stored under it, each once. *)
Theorem list_jobs_of_worker s wid :
  db_inv s -> slash_free (db_statuses s) ->
  returns (kvDBAdapter.ListMirrorStatus wid s) (fun '(ms, e) => e = None ->
    exists named : list (string * MirrorStatus), ms = named.*2 /\ NoDup named.*1
      /\ forall mid m, (mid, m) ∈ named <->
           contains_char slash mid = false /\ db_statuses s !! status_id wid mid = Some m).
Proof.
  intros Hi Hk. destruct (db_list_spec s wid Hi) as (ms & e & Hl & Hp). simpl in Hl.
  rewrite Hl. apply returns_ret. intros He. apply listed_by_mirror; [done|]. by apply Hp.
Qed.

(** C27: [FlushDisabledJobs]. When the deletions succeed and it reports no error, exactly the
    disabled and the nameless jobs are gone; every other job and every worker stays. *)
Theorem flush_removes_disabled (s : S) :
  db_inv s -> kvDBAdapter.deletes_succeed (S := S) ->
  returns (kvDBAdapter.FlushDisabledJobs s) (fun '(s', e) =>
    db_inv s' /\ db_workers s' = db_workers s /\
    (e = None -> db_statuses s' = filter (fun km => flushed km.2 = false) (db_statuses s))).
Proof.
  intros Hi Hd. destruct (kvDBAdapter.FlushDisabledJobs_spec s Hi)
    as (s' & e & He & Hi' & Hw & Hback & Hkeep & Hgone).
  rewrite He. apply returns_ret. split; [done|]. split; [done|]. intros Hn.
  apply map_eq. intros k. apply option_eq. intros m. rewrite map_lookup_filter_Some. simpl. split.
  - intros Hm. split; [by apply Hback|by eapply Hgone].
  - intros [Hm Hf]. by apply Hkeep.
Qed.

(** Decoding errors are lost. Over any documents at all, decodable or not, the listing
    of every job reports no error and leaves the undecodable ones out: [errors.Wrap] of the
    nil [err] is nil, where the JSON error was meant. *)
Theorem list_all_drops_undecodable (s : S) docs :
  kv_GetAll _statusBucketKey s = Ret (Some docs, None) ->
  kvDBAdapter.ListAllMirrorStatus s
  = Ret (omap kvDBAdapter.dec_mirror (range_list docs).*2, None).
Proof.
  intros Hg. unfold kvDBAdapter.ListAllMirrorStatus. rewrite Hg. simpl.
  by rewrite kvDBAdapter.ListAll_loop_spec.
Qed.
End properties.

(** The key of a job. Keys of mirrors without a slash in their name are never shared;
    with a slash they can be, across mirrors and workers, and the listing then looks for
    the job under a worker that is not its own. *)
Theorem status_id_sharing :
  (forall w w' m m', contains_char slash m = false -> contains_char slash m' = false ->
     status_id w m = status_id w' m' -> w = w' /\ m = m')
  /\ (forall a b c, status_id c (a +:+ String slash b) = status_id (b +:+ String slash c) a)
  /\ (forall a b w, contains_char slash a = false -> contains_char slash b = false ->
       listed_worker (status_id w (a +:+ String slash b)) = Some b).
Proof.
  split_and!.
  - intros w w' m m' Hm Hm' Heq. apply split_at_unique in Heq as [-> ->]; done.
  - intros a b c. unfold status_id. by rewrite <- string_app_assoc, str_app_cons.
  - intros a b w Ha Hb. unfold status_id, listed_worker.
    rewrite <- string_app_assoc, str_app_cons, split_char_app, split_char_app by done. done.
Qed.

(** *** Witnesses *)

Definition ex_job : MirrorStatus :=
  MkMirrorStatus "debian" "w" false Status.Disabled 0 0 0 0 EmptyString "1T" EmptyString.

Lemma update_then_get_witness :
  exists s' m e, kvDBAdapter.UpdateMirrorStatus "w" "debian" ex_job Mem.empty = Ret (s', (m, e))
    /\ returns (kvDBAdapter.GetMirrorStatus "w" "alpine" s') (fun '(m', _) => m' = MirrorStatus_zero).
Proof.
  destruct (update_then_get mem_reads_exact Mem.empty "w" "debian" ex_job empty_inv)
    as ([s' [m e]] & He & _ & Hg).
  exists s', m, e. split; [exact He|]. eapply returns_mono; [apply (Hg "w" "alpine")|].
  intros [m' e'] ->. rewrite decide_False by (intros [_ ?]; done).
  by rewrite empty_statuses, lookup_empty.
Defined.

(** A store that holds the disabled job. *)
Definition ex_db : store :=
  match kvDBAdapter.UpdateMirrorStatus "w" "debian" ex_job Mem.empty with
  | Ret (s, _) => s
  | Panic _ => Mem.empty
  end.

Lemma ex_db_spec : db_inv ex_db /\ db_statuses ex_db = {[status_id "w" "debian" := ex_job]}.
Proof.
  destruct (db_update_status_spec Mem.empty "w" "debian" ex_job empty_inv) as (s' & e & He & Hi & _ & Hs).
  assert (e = None) as ->.
  { assert (H : ('(_, (_, e)) ← db_UpdateMirrorStatus "w" "debian" ex_job Mem.empty; Ret e) = Ret None)
      by (vm_compute; reflexivity).
    rewrite He in H. by injection H. }
  assert (ex_db = s') as ->.
  { unfold ex_db. simpl in He. by rewrite He. }
  split; [done|]. rewrite Hs, empty_statuses. apply insert_empty.
Qed.

Lemma list_jobs_of_worker_witness :
  exists ms e, kvDBAdapter.ListMirrorStatus "w" ex_db = Ret (ms, e) /\ (e = None -> ex_job ∈ ms).
Proof.
  destruct ex_db_spec as [Hi Hs].
  destruct (list_jobs_of_worker ex_db "w" Hi) as ([ms e] & He & Hq).
  - intros k m. rewrite Hs, lookup_singleton_Some. intros [<- _]. clear Hi Hs.
    exists "w", "debian". split_and!; reflexivity.
  - exists ms, e. split; [exact He|]. intros Hn. destruct (Hq Hn) as (l & -> & _ & Hl).
    apply (list_elem_of_fmap_2 snd l ("debian", ex_job)), Hl. split; [reflexivity|].
    rewrite Hs. apply lookup_singleton_eq.
Defined.

Lemma mem_deletes : kvDBAdapter.deletes_succeed (S := store).
Proof. intros k s s' e. simpl. unfold Leveldb.Delete. simpl. by intros [= _ <-]. Qed.

Lemma flush_removes_disabled_witness :
  exists s' e, kvDBAdapter.FlushDisabledJobs ex_db = Ret (s', e)
    /\ (e = None -> db_statuses s' = ∅).
Proof.
  destruct ex_db_spec as [Hi Hs].
  destruct (flush_removes_disabled ex_db Hi mem_deletes) as ([s' e] & He & _ & _ & Hq).
  exists s', e. split; [exact He|]. intros Hn. rewrite (Hq Hn), Hs.
  by rewrite map_filter_singleton_False.
Defined.

(** One document of garbage next to the job. *)
Definition garbage : store :=
  <[_statusBucketKey +:+ "x/w" := JStr "garbage"]> ex_db.

Definition garbage_docs : gmap string json :=
  match kv_GetAll _statusBucketKey garbage with Ret (Some m, _) => m | _ => ∅ end.

Lemma list_all_drops_undecodable_witness :
  kvDBAdapter.ListAllMirrorStatus garbage = Ret ([ex_job], None).
Proof.
  rewrite (list_all_drops_undecodable garbage garbage_docs).
  - assert (omap kvDBAdapter.dec_mirror (range_list garbage_docs).*2 = [ex_job]) as ->; [|reflexivity].
    vm_compute. reflexivity.
  - reflexivity.
Defined.

Lemma status_id_sharing_witness :
  status_id "w" "a" = status_id "w" "a" /\ listed_worker (status_id "w" "a/b") = Some "b".
Proof.
  split; [done|]. exact (proj2 (proj2 status_id_sharing) "a" "b" "w" eq_refl eq_refl).
Defined.
