(* ===== verification/Manager.v ===== *)
(** * manager/server.go and manager/middleware.go: the HTTP handlers

    Each handler is a function of the store, of the request and of the instants at
    which it reads the clock.  It returns the new store and what it wrote to the
    client, in order: gin sends the status code of the first write, later ones only
    add to the body, so a handler that forgets to return after an error shows up as
    two writes.  Handlers run one at a time here; the file [Interleave] lets their steps
    interleave. *)

From S2P Require Import Prelude Json Msg Kv Db.

Local Open Scope string_scope.
Local Open Scope list_scope.
Local Open Scope Z_scope.

(** ** Responses *)

Inductive body : Type :=
| BNone
| BEmpty
| BError (msg : string)
| BInfo (msg : string)
| BWorker (w : WorkerStatus)
| BWorkers (ws : list WorkerStatus)
| BJob (m : MirrorStatus)
| BJobs (ms : list MirrorStatus)
| BWebJobs (ms : list WebMirrorStatus).

Abbreviation response := (list (Z * body)).

Definition StatusOK : Z := 200.
Definition StatusBadRequest : Z := 400.
Definition StatusInternalServerError : Z := 500.

(** The status code the client sees. *)
Definition status_code (r : response) : option Z := (head r) ≫= fun cb => Some cb.1.

(** [c.BindJSON]: the decoded value, and the 400 it sends when decoding fails. *)
Definition BindJSON {A} (unmarshal : json -> A -> A * option error) (doc : json) (zero : A)
    : A * response :=
  let '(a, err) := unmarshal doc zero in
  match err with
  | None => (a, [])
  | Some _ => (a, [(StatusBadRequest, BNone)])
  end.

Definition returnErrJSON (code : Z) (err : error) : response := [(code, BError err)].

(** ** The fields the manager derives *)

(** Which of the old and the reported size [updateJobOfWorker] keeps. *)
Definition meaningful_size (size : string) : bool :=
  negb (bool_decide (size = EmptyString)) && negb (bool_decide (size = "unknown")).

Lemma meaningful_size_spec size :
  meaningful_size size = true <-> size <> EmptyString /\ size <> "unknown".
Proof. unfold meaningful_size. rewrite andb_true_iff, !negb_true_iff, !bool_decide_eq_false. done. Qed.

(** Lines 326 to 348 of [updateJobOfWorker]: the reported status completed from the
    stored one. *)
Definition merge_status (curTime : Z) (curStatus status : MirrorStatus) : MirrorStatus :=
  let status := set_ms_LastStarted
    (if decide (status.(ms_Status) = Status.PreSyncing /\ curStatus.(ms_Status) <> Status.PreSyncing)
     then curTime else curStatus.(ms_LastStarted)) status in
  let status := set_ms_LastUpdate
    (if decide (status.(ms_Status) = Status.Success)
     then curTime else curStatus.(ms_LastUpdate)) status in
  let status := set_ms_LastEnded
    (if decide (status.(ms_Status) = Status.Success \/ status.(ms_Status) = Status.Failed)
     then curTime else curStatus.(ms_LastEnded)) status in
  if decide (curStatus.(ms_Size) <> EmptyString /\ curStatus.(ms_Size) <> "unknown")
  then
    if decide (status.(ms_Size) = EmptyString \/ status.(ms_Size) = "unknown")
    then set_ms_Size curStatus.(ms_Size) status
    else status
  else status.

(** The fields of a merged status, one by one. *)
Section merge.
Context (t : Z) (cur m : MirrorStatus).

#[local] Ltac merge_solve := unfold merge_status; repeat case_decide; done.

Lemma merge_Status : (merge_status t cur m).(ms_Status) = m.(ms_Status).
Proof. merge_solve. Qed.
Lemma merge_Name : (merge_status t cur m).(ms_Name) = m.(ms_Name).
Proof. merge_solve. Qed.
Lemma merge_Worker : (merge_status t cur m).(ms_Worker) = m.(ms_Worker).
Proof. merge_solve. Qed.
Lemma merge_Scheduled : (merge_status t cur m).(ms_Scheduled) = m.(ms_Scheduled).
Proof. merge_solve. Qed.
Lemma merge_LastStarted : (merge_status t cur m).(ms_LastStarted)
  = if decide (m.(ms_Status) = Status.PreSyncing /\ cur.(ms_Status) <> Status.PreSyncing)
    then t else cur.(ms_LastStarted).
Proof. merge_solve. Qed.
Lemma merge_LastUpdate : (merge_status t cur m).(ms_LastUpdate)
  = if decide (m.(ms_Status) = Status.Success) then t else cur.(ms_LastUpdate).
Proof. merge_solve. Qed.
Lemma merge_LastEnded : (merge_status t cur m).(ms_LastEnded)
  = if decide (m.(ms_Status) = Status.Success \/ m.(ms_Status) = Status.Failed)
    then t else cur.(ms_LastEnded).
Proof. merge_solve. Qed.
Lemma merge_Size : (merge_status t cur m).(ms_Size)
  = if meaningful_size cur.(ms_Size) && negb (meaningful_size m.(ms_Size))
    then cur.(ms_Size) else m.(ms_Size).
Proof.
  unfold merge_status. case_decide as Hc.
  - rewrite (proj2 (meaningful_size_spec _) Hc). simpl.
    destruct (meaningful_size m.(ms_Size)) eqn:Hm; simpl.
    + apply meaningful_size_spec in Hm. rewrite decide_False by (cbn; tauto). done.
    + rewrite decide_True; [done|]. cbn. apply not_true_iff_false in Hm.
      rewrite meaningful_size_spec in Hm. destruct (decide (m.(ms_Size) = EmptyString)); [by left|].
      destruct (decide (m.(ms_Size) = "unknown")); [by right|]. by destruct Hm.
  - destruct (meaningful_size cur.(ms_Size)) eqn:Hm; [|done].
    by apply meaningful_size_spec in Hm.
Qed.

(** A report [m] completed from the status [cur] at the instant [t]: what it says of the
    mirror is kept; a start is dated when the mirror was not about to sync already, an update
    when it succeeded, an end when it succeeded or failed; and a size is not forgotten. *)
Record completed (new : MirrorStatus) : Prop := {
  cp_said : (new.(ms_Name), new.(ms_Worker), new.(ms_IsMaster), new.(ms_Status))
    = (m.(ms_Name), m.(ms_Worker), m.(ms_IsMaster), m.(ms_Status));
  cp_also : (new.(ms_Scheduled), new.(ms_Upstream), new.(ms_ErrorMsg))
    = (m.(ms_Scheduled), m.(ms_Upstream), m.(ms_ErrorMsg));
  cp_started : new.(ms_LastStarted) =
    if bool_decide (m.(ms_Status) = Status.PreSyncing) && negb (bool_decide (cur.(ms_Status) = Status.PreSyncing))
    then t else cur.(ms_LastStarted);
  cp_update : new.(ms_LastUpdate) = if bool_decide (m.(ms_Status) = Status.Success) then t else cur.(ms_LastUpdate);
  cp_ended : new.(ms_LastEnded) =
    if bool_decide (m.(ms_Status) ∈ [Status.Success; Status.Failed]) then t else cur.(ms_LastEnded);
  cp_size : new.(ms_Size) =
    if meaningful_size cur.(ms_Size) && negb (meaningful_size m.(ms_Size)) then cur.(ms_Size) else m.(ms_Size)
}.

Lemma merge_completed : completed (merge_status t cur m).
Proof.
  split.
  - merge_solve.
  - merge_solve.
  - rewrite merge_LastStarted, <- bool_decide_not, <- bool_decide_and. by case_decide; case_bool_decide.
  - rewrite merge_LastUpdate. by case_decide; case_bool_decide.
  - rewrite merge_LastEnded. case_decide as H1; case_bool_decide as H2; try done; set_solver.
  - apply merge_Size.
Qed.
End merge.

Section handlers.
Context {S : Type} `{DbAdapter S} {TT : TimeText}.

(** [PostJSON(workerURL, workerCmd, s.httpClient)]: nil or the error. *)
Context (PostJSON : string -> WorkerCmd -> option error).

Definition listAllJobs (s : S) : comp (S * response) :=
  '(mirrorStatusList, err) ← db_ListAllMirrorStatus s;
  match err with
  | Some e => Ret (s, returnErrJSON StatusInternalServerError
                        ("failed to list all mirror status: " +:+ e))
  | None => Ret (s, [(StatusOK, BWebJobs (BuildWebMirrorStatus <$> mirrorStatusList))])
  end.

Definition flushDisabledJobs (s : S) : comp (S * response) :=
  '(s, err) ← db_FlushDisabledJobs s;
  match err with
  | Some e => Ret (s, returnErrJSON StatusInternalServerError
                        ("failed to flush disabled jobs: " +:+ e))
  | None => Ret (s, [(StatusOK, BInfo "flushed")])
  end.

Definition deleteWorker (workerID : string) (s : S) : comp (S * response) :=
  '(s, err) ← db_DeleteWorker workerID s;
  match err with
  | Some e => Ret (s, returnErrJSON StatusInternalServerError ("failed to delete worker: " +:+ e))
  | None => Ret (s, [(StatusOK, BInfo "deleted")])
  end.

Definition redact (w : WorkerStatus) : WorkerStatus :=
  MkWorkerStatus w.(ws_ID) w.(ws_URL) "REDACTED" w.(ws_LastOnline) w.(ws_LastRegister).

Definition listWorkers (s : S) : comp (S * response) :=
  '(workers, err) ← db_ListWorkers s;
  match err with
  | Some e => Ret (s, returnErrJSON StatusInternalServerError ("failed to list workers: " +:+ e))
  | None => Ret (s, [(StatusOK, BWorkers (redact <$> workers))])
  end.

(** [t1] and [t2] are the two calls of [time.Now()]. *)
Definition registerWorker (t1 t2 : Z) (doc : json) (s : S) : comp (S * response) :=
  let '(_worker, bind) := BindJSON unmarshal_WorkerStatus doc WorkerStatus_zero in
  let _worker := set_ws_LastOnline t1 _worker in
  let _worker := set_ws_LastRegister t2 _worker in
  '(s, (newWorker, err)) ← db_CreateWorker _worker s;
  match err with
  | Some e => Ret (s, bind ++ returnErrJSON StatusInternalServerError
                        ("failed to register worker: " +:+ e))
  | None => Ret (s, bind ++ [(StatusOK, BWorker newWorker)])
  end.

Definition listJobsOfWorker (workerID : string) (s : S) : comp (S * response) :=
  '(mirrorStatusList, err) ← db_ListMirrorStatus workerID s;
  match err with
  | Some e => Ret (s, returnErrJSON StatusInternalServerError
                        ("failed to list jobs of worker " +:+ workerID +:+ ": " +:+ e))
  | None => Ret (s, [(StatusOK, BJobs mirrorStatusList)])
  end.

Definition update_failed (mirrorName workerID e : string) : error :=
  "failed to update job " +:+ mirrorName +:+ " of worker " +:+ workerID +:+ ": " +:+ e.

Definition empty_name_error : response :=
  returnErrJSON StatusBadRequest "mirror Name should not be empty".

(** [clock] gives the instant of each [RefreshWorker]. *)
Fixpoint updateSchedules_loop (clock : nat -> Z) (workerID : string)
    (schedules : list MirrorSchedule) (s : S) (out : response) : comp (S * response) :=
  match schedules with
  | [] => Ret (s, out ++ [(StatusOK, BEmpty)])
  | schedule :: rest =>
      let mirrorName := schedule.(sc_MirrorName) in
      let out := if decide (mirrorName = EmptyString) then out ++ empty_name_error else out in
      '(s, _) ← db_RefreshWorker (clock (length rest)) workerID s;
      '(curStatus, err) ← db_GetMirrorStatus workerID mirrorName s;
      match err with
      | Some _ => updateSchedules_loop clock workerID rest s out
      | None =>
          if decide (curStatus.(ms_Scheduled) = schedule.(sc_NextSchedule))
          then updateSchedules_loop clock workerID rest s out
          else
            let curStatus := set_ms_Scheduled schedule.(sc_NextSchedule) curStatus in
            '(s, (_, err)) ← db_UpdateMirrorStatus workerID mirrorName curStatus s;
            match err with
            | Some e => Ret (s, out ++ returnErrJSON StatusInternalServerError
                                  (update_failed mirrorName workerID e))
            | None => updateSchedules_loop clock workerID rest s out
            end
      end
  end.

Definition updateSchedulesOfWorker (clock : nat -> Z) (workerID : string) (doc : json) (s : S)
    : comp (S * response) :=
  let '(schedules, bind) := BindJSON unmarshal_MirrorSchedules doc (MkMirrorSchedules None) in
  updateSchedules_loop clock workerID (default [] schedules.(Schedules)) s bind.

Definition updateJobOfWorker (t1 curTime : Z) (workerID : string) (doc : json) (s : S)
    : comp (S * response) :=
  let '(status, bind) := BindJSON unmarshal_MirrorStatus doc MirrorStatus_zero in
  let mirrorName := status.(ms_Name) in
  let out := if decide (mirrorName = EmptyString) then bind ++ empty_name_error else bind in
  '(s, _) ← db_RefreshWorker t1 workerID s;
  '(curStatus, _) ← db_GetMirrorStatus workerID mirrorName s;
  let status := merge_status curTime curStatus status in
  '(s, (newStatus, err)) ← db_UpdateMirrorStatus workerID mirrorName status s;
  match err with
  | Some e => Ret (s, out ++ returnErrJSON StatusInternalServerError
                        (update_failed mirrorName workerID e))
  | None => Ret (s, out ++ [(StatusOK, BJob newStatus)])
  end.

Definition updateMirrorSize (t1 : Z) (workerID : string) (doc : json) (s : S) : comp (S * response) :=
  let '(msg, bind) := BindJSON unmarshal_SizeMsg doc SizeMsg_zero in
  let mirrorName := msg.(sz_Name) in
  '(s, _) ← db_RefreshWorker t1 workerID s;
  '(status, err) ← db_GetMirrorStatus workerID mirrorName s;
  match err with
  | Some e => Ret (s, bind ++ returnErrJSON StatusInternalServerError e)
  | None =>
      let status :=
        if negb (bool_decide (msg.(sz_Size) = EmptyString))
           || negb (bool_decide (msg.(sz_Size) = "unknown"))
        then set_ms_Size msg.(sz_Size) status else status in
      '(s, (newStatus, err)) ← db_UpdateMirrorStatus workerID mirrorName status s;
      match err with
      | Some e => Ret (s, bind ++ returnErrJSON StatusInternalServerError
                            (update_failed mirrorName workerID e))
      | None => Ret (s, bind ++ [(StatusOK, BJob newStatus)])
      end
  end.

(** The status a command imposes before it is sent to the worker. *)
Definition cmd_status (cmd : CmdVerb) : option SyncStatus :=
  if decide (cmd = CmdDisable) then Some Status.Disabled
  else if decide (cmd = CmdStop) then Some Status.Paused
  else None.

Definition handleClientCmd (doc : json) (s : S) : comp (S * response * list (string * WorkerCmd)) :=
  let '(clientCmd, bind) := BindJSON unmarshal_ClientCmd doc ClientCmd_zero in
  let workerID := clientCmd.(cc_WorkerID) in
  if decide (workerID = EmptyString)
  then Ret (s, bind ++ [(StatusInternalServerError, BNone)], [])
  else
    '(w, err) ← db_GetWorker workerID s;
    match err with
    | Some _ => Ret (s, bind ++ returnErrJSON StatusBadRequest
                          ("worker " +:+ workerID +:+ " is not registered yet"), [])
    | None =>
        let workerURL := w.(ws_URL) in
        let workerCmd := MkWorkerCmd clientCmd.(cc_Cmd) clientCmd.(cc_MirrorID)
                           clientCmd.(cc_Args) clientCmd.(cc_Options) in
        '(curStat, _) ← db_GetMirrorStatus clientCmd.(cc_WorkerID) clientCmd.(cc_MirrorID) s;
        '(s, _) ← match cmd_status clientCmd.(cc_Cmd) with
             | Some st => db_UpdateMirrorStatus clientCmd.(cc_WorkerID) clientCmd.(cc_MirrorID)
                            (set_ms_Status st curStat) s
             | None => Ret (s, (curStat, None))
             end;
        match PostJSON workerURL workerCmd with
        | Some e => Ret (s, bind ++ returnErrJSON StatusInternalServerError
                              ("post command to worker " +:+ workerID +:+ "(" +:+ workerURL +:+
                               ") fail: " +:+ e), [(workerURL, workerCmd)])
        | None => Ret (s, bind ++ [(StatusOK,
                              BInfo ("successfully send command to worker " +:+ workerID))],
                       [(workerURL, workerCmd)])
        end
    end.

(** The middleware of the [/workers/:id] group: [inr] passes the request on. *)
Definition workerIDValidator (workerID : string) (s : S) : comp (response + unit) :=
  '(_, err) ← db_GetWorker workerID s;
  match err with
  | Some _ => Ret (inl (returnErrJSON StatusBadRequest ("invalid workerID " +:+ workerID)))
  | None => Ret (inr tt)
  end.

Definition validated (workerID : string) (h : S -> comp (S * response)) (s : S) : comp (S * response) :=
  v ← workerIDValidator workerID s;
  match v with
  | inl out => Ret (s, out)
  | inr _ => h s
  end.

(** ** Routes *)

Inductive request : Type :=
| Ping
| ListAllJobs
| FlushDisabled
| ListWorkers
| RegisterWorker (doc : json)
| DeleteWorker (id : string)
| ListJobs (id : string)
| UpdateJob (id job : string) (doc : json)
| UpdateSize (id job : string) (doc : json)
| UpdateSchedules (id : string) (doc : json)
| Cmd (doc : json).

(** The engine built by [GetTUNASyncManager]; [clock] gives the successive readings of
    the clock. *)
Definition serve (clock : nat -> Z) (r : request) (s : S) : comp (S * response) :=
  match r with
  | Ping => Ret (s, [(StatusOK, BInfo "pong")])
  | ListAllJobs => listAllJobs s
  | FlushDisabled => flushDisabledJobs s
  | ListWorkers => listWorkers s
  | RegisterWorker doc => registerWorker (clock 0%nat) (clock 1%nat) doc s
  | DeleteWorker id => validated id (deleteWorker id) s
  | ListJobs id => validated id (listJobsOfWorker id) s
  | UpdateJob id _ doc => validated id (updateJobOfWorker (clock 0%nat) (clock 1%nat) id doc) s
  | UpdateSize id _ doc => validated id (updateMirrorSize (clock 0%nat) id doc) s
  | UpdateSchedules id doc => validated id (updateSchedulesOfWorker clock id doc) s
  | Cmd doc => '(s, out, _) ← handleClientCmd doc s; Ret (s, out)
  end.
End handlers.

(** ** Running handlers against what the store promises *)

Section invariant.
Context {S : Type} `{DbLaws S} {TT : TimeText} (PostJSON : string -> WorkerCmd -> option error).

(** The instants of a job never lie in the future and a success is also an end. *)
Definition times_ok (t : Z) (m : MirrorStatus) : Prop :=
  m.(ms_LastUpdate) <= m.(ms_LastEnded) /\ m.(ms_LastEnded) <= t /\ m.(ms_LastStarted) <= t.

Definition store_ok (t : Z) (s : S) : Prop :=
  db_inv s /\ forall k m, db_statuses s !! k = Some m -> times_ok t m.

Lemma times_ok_zero t : time_zero <= t -> times_ok t MirrorStatus_zero.
Proof. unfold times_ok. simpl. lia. Qed.

Lemma times_ok_mono t t' m : t <= t' -> times_ok t m -> times_ok t' m.
Proof. unfold times_ok. lia. Qed.

Lemma store_ok_mono t t' s : t <= t' -> store_ok t s -> store_ok t' s.
Proof. intros Ht [Hi Hs]. split; [done|]. intros k m Hm. eapply times_ok_mono; eauto. Qed.

Lemma merge_times_ok t cur status : times_ok t cur -> times_ok t (merge_status t cur status).
Proof.
  unfold times_ok. rewrite merge_LastUpdate, merge_LastEnded, merge_LastStarted.
  intros (H1 & H2 & H3). repeat case_decide; first [lia | exfalso; tauto].
Qed.

Lemma get_ok t wid mid s : time_zero <= t -> store_ok t s ->
  returns (db_GetMirrorStatus wid mid s) (fun me => times_ok t me.1).
Proof.
  intros Ht [Hi Hs]. destruct (db_get_status_spec s wid mid Hi) as (m & e & -> & He).
  apply returns_ret. simpl. destruct e; [|by eapply Hs]. subst m. by apply times_ok_zero.
Qed.

Lemma refresh_ok t now id s : store_ok t s ->
  returns (db_RefreshWorker now id s) (fun r => store_ok t r.1).
Proof.
  intros [Hi Hs]. destruct (db_refresh_worker_spec s now id Hi) as (s' & w & e & -> & Hi' & Hst & _).
  apply returns_ret. split; [done|]. simpl. by rewrite Hst.
Qed.

Lemma update_ok t wid mid m s : store_ok t s -> times_ok t m ->
  returns (db_UpdateMirrorStatus wid mid m s) (fun r => store_ok t r.1).
Proof.
  intros [Hi Hs] Hm. destruct (db_update_status_spec s wid mid m Hi) as (s' & e & -> & Hi' & _ & Hst).
  apply returns_ret. split; [done|]. simpl. rewrite Hst. destruct e; [done|].
  intros k m' [[_ <-]|[_ Hk]]%lookup_insert_Some; eauto.
Qed.

Lemma create_ok t w s : store_ok t s -> returns (db_CreateWorker w s) (fun r => store_ok t r.1).
Proof.
  intros [Hi Hs]. destruct (db_create_worker_spec s w Hi) as (s' & e & -> & Hi' & Hst & _).
  apply returns_ret. split; [done|]. simpl. by rewrite Hst.
Qed.

Lemma delete_ok t id s : store_ok t s -> returns (db_DeleteWorker id s) (fun r => store_ok t r.1).
Proof.
  intros [Hi Hs]. destruct (db_delete_worker_spec s id Hi) as (s' & e & -> & Hi' & Hst & _).
  apply returns_ret. split; [done|]. simpl. by rewrite Hst.
Qed.

Lemma flush_ok t s : store_ok t s -> returns (db_FlushDisabledJobs s) (fun r => store_ok t r.1).
Proof.
  intros [Hi Hs]. destruct (db_flush_spec s Hi) as (s' & e & -> & Hi' & _ & Hst & _).
  apply returns_ret. split; [done|]. simpl. eauto.
Qed.

Lemma get_worker_ok t id s : store_ok t s -> returns (db_GetWorker id s) (fun _ => True).
Proof. intros [Hi _]. destruct (db_get_worker_spec s id Hi) as (w & e & -> & _). by auto with tunasync. Qed.

Lemma lists_ok t s : store_ok t s ->
  returns (db_ListAllMirrorStatus s) (fun _ => True) /\ returns (db_ListWorkers s) (fun _ => True)
  /\ forall wid, returns (db_ListMirrorStatus wid s) (fun _ => True).
Proof.
  intros [Hi _]. split; [|split].
  - destruct (db_list_all_spec s Hi) as (? & ? & -> & _). by auto with tunasync.
  - destruct (db_list_workers_spec s Hi) as (? & ? & -> & _). by auto with tunasync.
  - intros wid. destruct (db_list_spec s wid Hi) as (? & ? & -> & _). by auto with tunasync.
Qed.

(** One step of a handler: run the next call of the store with the lemma [L]. *)
Ltac step L := eapply returns_bind; [by (apply L || eapply L)|]; simpl.

Lemma validated_ok t id h s : store_ok t s ->
  (forall s, store_ok t s -> returns (h s) (fun r => store_ok t r.1)) ->
  returns (validated id h s) (fun r => store_ok t r.1).
Proof.
  intros Hs Hh. unfold validated, workerIDValidator.
  eapply (returns_bind _ _ (fun _ => True)).
  - step (get_worker_ok t). intros [w [e|]] _; by auto with tunasync.
  - intros [out|[]] _; [by auto with tunasync|by apply Hh].
Qed.

Lemma updateSchedules_loop_ok t clock wid l s out : time_zero <= t -> store_ok t s ->
  returns (updateSchedules_loop clock wid l s out) (fun r => store_ok t r.1).
Proof.
  intros Ht. revert s out. induction l as [|sc l IH]; intros s out Hs; cbn [updateSchedules_loop].
  { by auto with tunasync. }
  step refresh_ok. intros [s1 [w e]] Hs1. simpl in Hs1.
  step (get_ok t). intros [cur err] Hcur. simpl in Hcur.
  destruct err; [by apply IH|]. case_decide; [by apply IH|].
  step (update_ok t). intros [s2 [m e2]] Hs2. simpl in Hs2.
  destruct e2; [by auto with tunasync|by apply IH].
Qed.

Lemma updateJob_ok t t1 wid doc s : time_zero <= t -> store_ok t s ->
  returns (updateJobOfWorker t1 t wid doc s) (fun r => store_ok t r.1).
Proof.
  intros Ht Hs. unfold updateJobOfWorker. destruct (BindJSON _ _ _) as [status bind].
  step refresh_ok. intros [s1 [w e]] Hs1. simpl in Hs1.
  step (get_ok t). intros [cur err] Hcur. simpl in Hcur.
  eapply returns_bind; [by apply (update_ok t), merge_times_ok|].
  intros [s2 [m e2]] Hs2. destruct e2; by auto with tunasync.
Qed.

Lemma updateSize_ok t t1 wid doc s : time_zero <= t -> store_ok t s ->
  returns (updateMirrorSize t1 wid doc s) (fun r => store_ok t r.1).
Proof.
  intros Ht Hs. unfold updateMirrorSize. destruct (BindJSON _ _ _) as [msg bind].
  step refresh_ok. intros [s1 [w e]] Hs1. simpl in Hs1.
  step (get_ok t). intros [cur err] Hcur. simpl in Hcur.
  destruct err; [by auto with tunasync|].
  eapply returns_bind; [apply (update_ok t); [done|by case_match]|].
  intros [s2 [m e2]] Hs2. destruct e2; by auto with tunasync.
Qed.

Lemma handleClientCmd_ok t doc s : time_zero <= t -> store_ok t s ->
  returns (handleClientCmd PostJSON doc s) (fun r => store_ok t r.1.1).
Proof.
  intros Ht Hs. unfold handleClientCmd. destruct (BindJSON _ _ _) as [cmd bind].
  case_decide; [by auto with tunasync|].
  step (get_worker_ok t). intros [w err] _. destruct err; [by auto with tunasync|].
  step (get_ok t). intros [cur err] Hcur. simpl in Hcur.
  eapply (returns_bind _ _ (fun r => store_ok t r.1)).
  - destruct (cmd_status _); [by apply update_ok|by auto with tunasync].
  - intros [s1 me] Hs1. simpl. case_match; by auto with tunasync.
Qed.

Lemma serve_ok t clock r s : time_zero <= t -> (forall i, clock i = t) -> store_ok t s ->
  returns (serve PostJSON clock r s) (fun x => store_ok t x.1).
Proof.
  intros Ht Hc Hs. destruct (lists_ok t s Hs) as (HL & HW & _).
  destruct r; cbn [serve]; rewrite ?Hc.
  - by auto with tunasync.
  - unfold listAllJobs. step HL. intros [ms [e|]] _; by auto with tunasync.
  - unfold flushDisabledJobs. step flush_ok. intros [s1 [e|]] Hs1; by auto with tunasync.
  - unfold listWorkers. step HW. intros [ms [e|]] _; by auto with tunasync.
  - unfold registerWorker. destruct (BindJSON _ _ _) as [w bind].
    step create_ok. intros [s1 [w1 [e|]]] Hs1; by auto with tunasync.
  - apply validated_ok; [done|]. intros s1 Hs1. unfold deleteWorker.
    step delete_ok. intros [s2 [e|]] Hs2; by auto with tunasync.
  - apply validated_ok; [done|]. intros s1 Hs1. unfold listJobsOfWorker.
    eapply returns_bind; [by apply (lists_ok t s1)|]. intros [ms [e|]] _; by auto with tunasync.
  - apply validated_ok; [done|]. intros s1 Hs1. by apply updateJob_ok.
  - apply validated_ok; [done|]. intros s1 Hs1. by apply updateSize_ok.
  - apply validated_ok; [done|]. intros s1 Hs1. unfold updateSchedulesOfWorker.
    destruct (BindJSON _ _ _) as [sch bind]. by apply updateSchedules_loop_ok.
  - eapply returns_bind; [by apply (handleClientCmd_ok t)|]. intros [[s1 out] posts] Hs1.
    by auto with tunasync.
Qed.

(** Several requests at one instant. *)
Fixpoint serve_all (t : Z) (rs : list request) (s : S) : comp S :=
  match rs with
  | [] => Ret s
  | r :: rs => '(s, _) ← serve PostJSON (fun _ => t) r s; serve_all t rs s
  end.

Lemma serve_all_ok t rs s : time_zero <= t -> store_ok t s ->
  returns (serve_all t rs s) (store_ok t).
Proof.
  intros Ht. revert s. induction rs as [|r rs IH]; intros s Hs; cbn [serve_all].
  { by auto with tunasync. }
  eapply returns_bind; [by apply (serve_ok t)|]. intros [s1 out] Hs1. by apply IH.
Qed.

(** ** Runs: requests served one after the other under a clock that does not go back *)

Inductive serves : Z -> S -> Z -> S -> Prop :=
| serves_refl t s : serves t s t s
| serves_step t0 s0 t s clock r t' s' out :
    serves t0 s0 t s -> t <= t' -> (forall i, clock i = t') ->
    serve PostJSON clock r s = Ret (s', out) -> serves t0 s0 t' s'.

Lemma serves_ok t0 s0 t s : time_zero <= t0 -> store_ok t0 s0 -> serves t0 s0 t s ->
  time_zero <= t /\ store_ok t s.
Proof.
  intros Hz Hs0 Hr. induction Hr as [|t0 s0 t s clock r t' s' out Hr IH Ht Hc He]; [done|].
  destruct (IH Hz Hs0) as [Hz' Hs]. split; [lia|].
  destruct (serve_ok t' clock r s) as ([s1 out1] & E & Hok); [lia|done|by eapply store_ok_mono|].
  simpl in Hok. congruence.
Qed.
End invariant.

(** ** What each handler does *)

Section properties.
Context {S : Type} `{DbLaws S} {TT : TimeText} (PostJSON : string -> WorkerCmd -> option error).

Lemma read_cur (Hre : reads_exact S) s wid mid : db_inv s ->
  returns (db_GetMirrorStatus wid mid s) (fun me =>
    me.1 = default MirrorStatus_zero (db_statuses s !! status_id wid mid)).
Proof.
  intros Hi. destruct (db_get_status_spec s wid mid Hi) as (m & e & Hg & He). rewrite Hg.
  apply returns_ret. simpl. destruct e as [e|].
  - by rewrite (Hre s wid mid m e Hi Hg).
  - by rewrite He.
Qed.

(** A refresh followed by what the handler does with the unchanged statuses. *)
Lemma after_refresh {B} s now id (f : S * (WorkerStatus * option error) -> comp B) Q :
  db_inv s ->
  (forall s' we, db_inv s' -> db_statuses s' = db_statuses s -> returns (f (s', we)) Q) ->
  returns (db_RefreshWorker now id s ≫= f) Q.
Proof.
  intros Hi Hf. destruct (db_refresh_worker_spec s now id Hi) as (s' & w & e & -> & Hi' & Hst & _).
  by apply Hf.
Qed.

(** The write that ends a handler. *)
Lemma final_update {B} s wid mid m (f : S * (MirrorStatus * option error) -> comp B) Q :
  db_inv s ->
  (forall s', db_inv s' -> db_statuses s' = <[status_id wid mid := m]> (db_statuses s) ->
     returns (f (s', (m, None))) Q) ->
  (forall s' e, db_inv s' -> db_statuses s' = db_statuses s -> returns (f (s', (m, Some e))) Q) ->
  returns (db_UpdateMirrorStatus wid mid m s ≫= f) Q.
Proof.
  intros Hi Hok Herr. destruct (db_update_status_spec s wid mid m Hi) as (s' & e & -> & Hi' & _ & Hst).
  destruct e; [by apply Herr|by apply Hok].
Qed.

Lemma BindJSON_ok {A} (un : json -> A -> A * option error) doc zero a :
  un doc zero = (a, None) -> BindJSON un doc zero = (a, []).
Proof. unfold BindJSON. by intros ->. Qed.

(** What a report leaves, for the theorems on several programs too. *)
Lemma updateJob_exact (Hre : reads_exact S) s wid doc status t1 now :
  db_inv s -> unmarshal_MirrorStatus doc MirrorStatus_zero = (status, None) ->
  status.(ms_Name) <> EmptyString ->
  let id := status_id wid status.(ms_Name) in
  let new := merge_status now (default MirrorStatus_zero (db_statuses s !! id)) status in
  returns (updateJobOfWorker t1 now wid doc s) (fun '(s', out) =>
    (out = [(StatusOK, BJob new)] /\ db_statuses s' = <[id := new]> (db_statuses s))
    \/ (status_code out = Some StatusInternalServerError /\ db_statuses s' = db_statuses s)).
Proof.
  intros Hi Hdoc Hname id new. unfold updateJobOfWorker. rewrite (BindJSON_ok _ _ _ _ Hdoc).
  rewrite decide_False by done. apply after_refresh; [done|]. intros s1 we Hi1 Hs1. simpl.
  eapply returns_bind; [by apply read_cur|]. intros [cur ge]. simpl. rewrite Hs1. intros ->.
  apply final_update; [done| |].
  - intros s2 Hi2 Hs2. apply returns_ret. left. by rewrite Hs2, Hs1.
  - intros s2 e Hi2 Hs2. apply returns_ret. right. by rewrite Hs2, Hs1.
Qed.

(** C11: [updateJobOfWorker]. A well-formed report for a named mirror is answered 200 with
    the merged status, which is what is stored from then on under that mirror and worker
    and nothing else; when the store refuses the write the answer is 500 and no status
    changes. *)
Theorem updateJob_effect (Hre : reads_exact S) s wid doc status t1 now :
  db_inv s -> unmarshal_MirrorStatus doc MirrorStatus_zero = (status, None) ->
  status.(ms_Name) <> EmptyString ->
  let id := status_id wid status.(ms_Name) in
  exists new, completed now (default MirrorStatus_zero (db_statuses s !! id)) status new
  /\ returns (updateJobOfWorker t1 now wid doc s) (fun '(s', out) =>
    (out = [(StatusOK, BJob new)] /\ db_statuses s' = <[id := new]> (db_statuses s))
    \/ (status_code out = Some StatusInternalServerError /\ db_statuses s' = db_statuses s)).
Proof. intros. eexists. split; [apply merge_completed|by apply updateJob_exact]. Qed.

(** The missing return. A report without a mirror name is answered 400, and the
    handler goes on all the same: when the store accepts the write there is a record
    under the empty name afterwards. *)
Theorem updateJob_empty_name s wid doc status t1 now :
  db_inv s -> unmarshal_MirrorStatus doc MirrorStatus_zero = (status, None) ->
  status.(ms_Name) = EmptyString ->
  returns (updateJobOfWorker t1 now wid doc s) (fun '(s', out) =>
    status_code out = Some StatusBadRequest /\
    exists m rest, out = (StatusBadRequest, BError "mirror Name should not be empty") :: rest
      /\ m.(ms_Name) = EmptyString
      /\ (rest = [(StatusOK, BJob m)] /\ db_statuses s' = <[status_id wid EmptyString := m]> (db_statuses s)
          \/ db_statuses s' = db_statuses s)).
Proof.
  intros Hi Hdoc Hname. unfold updateJobOfWorker. rewrite (BindJSON_ok _ _ _ _ Hdoc).
  rewrite decide_True by done. apply after_refresh; [done|]. intros s1 we Hi1 Hs1. simpl.
  destruct (db_get_status_spec s1 wid status.(ms_Name) Hi1) as (cur & ge & -> & _). simpl.
  set (m := merge_status now cur status).
  assert (Hm : m.(ms_Name) = EmptyString) by (unfold m; by rewrite merge_Name).
  rewrite Hname. apply final_update; [done| |].
  - intros s2 Hi2 Hs2. apply returns_ret. split; [done|]. exists m. eexists. split; [done|].
    split; [done|]. left. by rewrite Hs2, Hs1.
  - intros s2 e Hi2 Hs2. apply returns_ret. split; [done|]. exists m. eexists. split; [done|].
    split; [done|]. right. by rewrite Hs2, Hs1.
Qed.

Lemma updateMirrorSize_exact (Hre : reads_exact S) s wid doc msg t1 m :
  db_inv s -> unmarshal_SizeMsg doc SizeMsg_zero = (msg, None) ->
  db_statuses s !! status_id wid msg.(sz_Name) = Some m ->
  returns (updateMirrorSize t1 wid doc s) (fun '(s', out) =>
    (out = [(StatusOK, BJob (set_ms_Size msg.(sz_Size) m))]
     /\ db_statuses s' = <[status_id wid msg.(sz_Name) := set_ms_Size msg.(sz_Size) m]> (db_statuses s))
    \/ (status_code out = Some StatusInternalServerError /\ db_statuses s' = db_statuses s)).
Proof.
  intros Hi Hdoc Hm. unfold updateMirrorSize. rewrite (BindJSON_ok _ _ _ _ Hdoc).
  apply after_refresh; [done|]. intros s1 we Hi1 Hs1. simpl.
  destruct (db_get_status_spec s1 wid msg.(sz_Name) Hi1) as (cur & ge & Hg & Hge). rewrite Hg. simpl.
  destruct ge as [ge|].
  { specialize (Hre _ _ _ _ _ Hi1 Hg). rewrite Hs1 in Hre. congruence. }
  rewrite Hs1, Hm in Hge. injection Hge as ->.
  assert (Ht : negb (bool_decide (msg.(sz_Size) = EmptyString))
               || negb (bool_decide (msg.(sz_Size) = "unknown")) = true).
  { case_bool_decide as He; simpl; [|done]. rewrite He. done. }
  rewrite Ht. apply final_update; [done| |].
  - intros s2 Hi2 Hs2. apply returns_ret. left. by rewrite Hs2, Hs1.
  - intros s2 e Hi2 Hs2. apply returns_ret. right. by rewrite Hs2, Hs1.
Qed.

(** [updateMirrorSize] on a mirror the worker has. The reported size is stored
    whatever it is, the empty one and "unknown" included: the test written to keep a
    meaningful size is always true. *)
Theorem updateMirrorSize_overwrites (Hre : reads_exact S) s wid doc msg t1 m :
  db_inv s -> unmarshal_SizeMsg doc SizeMsg_zero = (msg, None) ->
  db_statuses s !! status_id wid msg.(sz_Name) = Some m ->
  returns (updateMirrorSize t1 wid doc s) (fun '(s', out) =>
    (out = [(StatusOK, BJob (set_ms_Size msg.(sz_Size) m))]
     /\ db_statuses s' = <[status_id wid msg.(sz_Name) := set_ms_Size msg.(sz_Size) m]> (db_statuses s))
    \/ (status_code out = Some StatusInternalServerError /\ db_statuses s' = db_statuses s)).
Proof. intros. by apply updateMirrorSize_exact. Qed.

(** The statuses after the schedules [l]: those the worker has take their next instant. *)
Definition rescheduled (wid : string) (l : list MirrorSchedule) (m : gmap string MirrorStatus)
    : gmap string MirrorStatus :=
  foldl (fun m sc => alter (set_ms_Scheduled sc.(sc_NextSchedule)) (status_id wid sc.(sc_MirrorName)) m) m l.

(** The errors written for schedules without a name. *)
Definition nameless (l : list MirrorSchedule) : response :=
  concat ((fun sc => if decide (sc.(sc_MirrorName) = EmptyString) then empty_name_error else []) <$> l).

Lemma alter_absent {A} (f : A -> A) k (m : gmap string A) : m !! k = None -> alter f k m = m.
Proof.
  intros Hk. apply map_eq. intros k'. destruct (decide (k' = k)) as [->|Hne].
  - by rewrite lookup_alter_eq, Hk.
  - by rewrite lookup_alter_ne.
Qed.

Lemma alter_same {A} (f : A -> A) k (m : gmap string A) x : m !! k = Some x -> f x = x -> alter f k m = m.
Proof.
  intros Hk Hf. apply map_eq. intros k'. destruct (decide (k' = k)) as [->|Hne].
  - rewrite lookup_alter_eq, Hk. simpl. by rewrite Hf.
  - by rewrite lookup_alter_ne.
Qed.

Lemma alter_present {A} (f : A -> A) k (m : gmap string A) x : m !! k = Some x -> alter f k m = <[k := f x]> m.
Proof.
  intros Hk. apply map_eq. intros k'. destruct (decide (k' = k)) as [->|Hne].
  - by rewrite lookup_alter_eq, Hk, lookup_insert_eq.
  - by rewrite lookup_alter_ne, lookup_insert_ne.
Qed.

(** What [updateSchedules_loop] leaves. *)
Definition schedules_done (wid : string) (l : list MirrorSchedule) (s : S) (out : response) (r : S * response) : Prop :=
  db_inv r.1 /\
  ((db_statuses r.1 = rescheduled wid l (db_statuses s) /\ r.2 = out ++ nameless l ++ [(StatusOK, BEmpty)])
   \/ exists l1 sc l2 e, l = l1 ++ sc :: l2 /\ db_statuses r.1 = rescheduled wid l1 (db_statuses s)
       /\ r.2 = out ++ nameless (l1 ++ [sc]) ++ [(StatusInternalServerError, BError e)]).

Lemma schedules_done_cons wid sc l s s1 out r :
  db_statuses s1 = rescheduled wid [sc] (db_statuses s) ->
  schedules_done wid l s1 (out ++ nameless [sc]) r -> schedules_done wid (sc :: l) s out r.
Proof.
  intros Hs [Hi Hr]. split; [done|].
  assert (Hn : forall l, nameless (sc :: l) = nameless [sc] ++ nameless l).
  { intros l0. unfold nameless. simpl. by rewrite app_nil_r. }
  destruct Hr as [[Hst Ho]|(l1 & sc' & l2 & e & -> & Hst & Ho)].
  - left. rewrite Hst, Ho, Hs. split; [done|]. by rewrite (Hn l), <- !app_assoc.
  - right. exists (sc :: l1), sc', l2, e. split; [done|]. rewrite Hst, Ho, Hs. split; [done|].
    rewrite <- app_comm_cons, (Hn (l1 ++ _)), <- !app_assoc. done.
Qed.

Lemma updateSchedules_loop_exact (Hre : reads_exact S) clock wid l s out : db_inv s ->
  returns (updateSchedules_loop clock wid l s out) (schedules_done wid l s out).
Proof.
  revert s out. induction l as [|sc l IH]; intros s out Hi; cbn [updateSchedules_loop].
  { apply returns_ret. split; [done|by left]. }
  set (mid := sc.(sc_MirrorName)).
  set (out1 := if decide _ then _ else _).
  assert (Hout : out1 = out ++ nameless [sc]).
  { unfold out1, nameless. simpl. fold mid. case_decide; by rewrite !app_nil_r. }
  clearbody out1. subst out1.
  apply after_refresh; [done|]. intros s1 [w we] Hi1 Hs1. simpl.
  destruct (db_get_status_spec s1 wid mid Hi1) as (cur & e & Hg & He). rewrite Hg. simpl.
  assert (Hskip : rescheduled wid [sc] (db_statuses s1) = db_statuses s1 ->
    returns (updateSchedules_loop clock wid l s1 (out ++ nameless [sc])) (schedules_done wid (sc :: l) s out)).
  { intros Hr. eapply returns_mono; [by apply IH|]. intros r. apply schedules_done_cons. by rewrite <- Hs1, Hr. }
  destruct e as [e|].
  { apply Hskip. apply alter_absent. by eapply Hre. }
  case_decide as Hsame.
  { apply Hskip. apply (alter_same _ _ _ cur); [done|]. rewrite <- Hsame. by destruct cur. }
  apply final_update; [done| |].
  - intros s2 Hi2 Hs2. eapply returns_mono; [by apply IH|]. intros r. apply schedules_done_cons.
    rewrite Hs2, <- Hs1. symmetry. by apply (alter_present (set_ms_Scheduled (sc_NextSchedule sc))).
  - intros s2 e Hi2 Hs2. apply returns_ret. split; [done|]. right.
    exists [], sc, l, (update_failed mid wid e). split; [done|]. simpl. split; [by rewrite Hs2|].
    by rewrite <- app_assoc.
Qed.

(** [updateSchedulesOfWorker]. Each of the mirrors in the report that has a status takes
    its next instant and keeps everything else; a mirror without a status gets none; and
    when the store refuses a write the answer is 500, those before it in the report being
    done and those after it not. *)
Theorem updateSchedules_effect (Hre : reads_exact S) clock wid doc l s :
  db_inv s -> unmarshal_MirrorSchedules doc (MkMirrorSchedules None) = (MkMirrorSchedules l, None) ->
  returns (updateSchedulesOfWorker clock wid doc s) (fun '(s', out) =>
    (db_statuses s' = rescheduled wid (default [] l) (db_statuses s)
     /\ out = nameless (default [] l) ++ [(StatusOK, BEmpty)])
    \/ exists l1 sc l2 e, default [] l = l1 ++ sc :: l2
       /\ db_statuses s' = rescheduled wid l1 (db_statuses s)
       /\ out = nameless (l1 ++ [sc]) ++ [(StatusInternalServerError, BError e)]).
Proof.
  intros Hi Hdoc. unfold updateSchedulesOfWorker. rewrite (BindJSON_ok _ _ _ _ Hdoc). simpl.
  eapply returns_mono; [by apply updateSchedules_loop_exact|]. intros [s' out] [_ Hr]. exact Hr.
Qed.

(** What the manager records of a command before it sends it. A stop asks the store for
    exactly one write, the status of the job as it stands (the zero status when it has none)
    turned to Paused, a disable for the one turned to Disabled; when that write reports no
    error it is the status of the job from then on, and no other status has changed. Every
    other verb leaves the store alone. *)
Definition recorded (cmd : CmdVerb) (wid mid : string) (s s' : S) : Prop :=
  let cur := default MirrorStatus_zero (db_statuses s !! status_id wid mid) in
  let written st := exists e,
    db_UpdateMirrorStatus wid mid (set_ms_Status st cur) s = Ret (s', (set_ms_Status st cur, e))
    /\ db_statuses s' = match e with
                        | None => <[status_id wid mid := set_ms_Status st cur]> (db_statuses s)
                        | Some _ => db_statuses s
                        end in
  (cmd = CmdDisable -> written Status.Disabled) /\ (cmd = CmdStop -> written Status.Paused)
  /\ (cmd <> CmdDisable -> cmd <> CmdStop -> s' = s).

Lemma handleClientCmd_exact (Hre : reads_exact S) s doc cmd w :
  db_inv s -> unmarshal_ClientCmd doc ClientCmd_zero = (cmd, None) ->
  cmd.(cc_WorkerID) <> EmptyString ->
  (forall e, db_GetWorker cmd.(cc_WorkerID) s <> Ret (WorkerStatus_zero, Some e)) ->
  db_workers s !! cmd.(cc_WorkerID) = Some w ->
  returns (handleClientCmd PostJSON doc s) (fun '(s', out, posts) =>
    posts = [(w.(ws_URL), MkWorkerCmd cmd.(cc_Cmd) cmd.(cc_MirrorID) cmd.(cc_Args) cmd.(cc_Options))]
    /\ recorded cmd.(cc_Cmd) cmd.(cc_WorkerID) cmd.(cc_MirrorID) s s'
    /\ (status_code out = Some StatusOK <->
        PostJSON w.(ws_URL) (MkWorkerCmd cmd.(cc_Cmd) cmd.(cc_MirrorID) cmd.(cc_Args) cmd.(cc_Options)) = None)).
Proof.
  intros Hi Hdoc Hid Hreg Hw. unfold handleClientCmd. rewrite (BindJSON_ok _ _ _ _ Hdoc).
  rewrite decide_False by done.
  destruct (db_get_worker_spec s cmd.(cc_WorkerID) Hi) as (w' & e & Hg & He).
  destruct e as [e|]; [subst w'; by destruct (Hreg e)|].
  rewrite Hg. rewrite Hw in He. injection He as <-. simpl.
  eapply returns_bind; [by apply read_cur|]. intros [c ge]. simpl. intros ->.
  unfold recorded, cmd_status. set (cur := default _ _).
  assert (Hwrite : forall st, exists s2 e2,
    db_UpdateMirrorStatus cmd.(cc_WorkerID) cmd.(cc_MirrorID) (set_ms_Status st cur) s
      = Ret (s2, (set_ms_Status st cur, e2))
    /\ db_statuses s2 = match e2 with
        | None => <[status_id cmd.(cc_WorkerID) cmd.(cc_MirrorID) := set_ms_Status st cur]> (db_statuses s)
        | Some _ => db_statuses s end).
  { intros st. destruct (db_update_status_spec s cmd.(cc_WorkerID) cmd.(cc_MirrorID) (set_ms_Status st cur) Hi)
      as (s2 & e2 & He2 & _ & _ & Hs2). by exists s2, e2. }
  destruct (decide (cmd.(cc_Cmd) = CmdDisable)) as [Hd|Hd];
    [|destruct (decide (cmd.(cc_Cmd) = CmdStop)) as [Hp|Hp]].
  - destruct (Hwrite Status.Disabled) as (s2 & e2 & Hw2 & Hs2). rewrite Hw2. simpl.
    destruct (PostJSON _ _); apply returns_ret; split_and!;
      first [done | by rewrite ?Hd, ?Hp | intros _; exists e2; split; [done|exact Hs2]].
  - destruct (Hwrite Status.Paused) as (s2 & e2 & Hw2 & Hs2). rewrite Hw2. simpl.
    destruct (PostJSON _ _); apply returns_ret; split_and!;
      first [done | by rewrite ?Hd, ?Hp | intros _; exists e2; split; [done|exact Hs2]].
  - simpl. destruct (PostJSON _ _); apply returns_ret; by split_and!.
Qed.

(** [handleClientCmd] for a registered worker sends that worker exactly one command,
    with the verb, mirror, arguments and options of the client; "disable" and "stop" first
    mark the job Disabled and Paused, whether or not the worker then accepts the command;
    the other verbs change no status. *)
Theorem handleClientCmd_effect (Hre : reads_exact S) s doc cmd w :
  db_inv s -> unmarshal_ClientCmd doc ClientCmd_zero = (cmd, None) ->
  cmd.(cc_WorkerID) <> EmptyString ->
  (forall e, db_GetWorker cmd.(cc_WorkerID) s <> Ret (WorkerStatus_zero, Some e)) ->
  db_workers s !! cmd.(cc_WorkerID) = Some w ->
  returns (handleClientCmd PostJSON doc s) (fun '(s', out, posts) =>
    posts = [(w.(ws_URL), MkWorkerCmd cmd.(cc_Cmd) cmd.(cc_MirrorID) cmd.(cc_Args) cmd.(cc_Options))]
    /\ recorded cmd.(cc_Cmd) cmd.(cc_WorkerID) cmd.(cc_MirrorID) s s'
    /\ (status_code out = Some StatusOK <->
        PostJSON w.(ws_URL) (MkWorkerCmd cmd.(cc_Cmd) cmd.(cc_MirrorID) cmd.(cc_Args) cmd.(cc_Options)) = None)).
Proof. intros. by apply handleClientCmd_exact. Qed.

(** The token a worker registered with is never listed. *)
Theorem listWorkers_redacts s :
  db_inv s ->
  returns (listWorkers s) (fun '(s', out) =>
    s' = s /\ forall c ws w, (c, BWorkers ws) ∈ out -> w ∈ ws -> w.(ws_Token) = "REDACTED").
Proof.
  intros Hi. unfold listWorkers.
  destruct (db_list_workers_spec s Hi) as (ws & e & -> & _). simpl.
  destruct e; apply returns_ret; (split; [done|]); intros c ws' w Hin Hw.
  - by apply list_elem_of_singleton in Hin.
  - apply list_elem_of_singleton in Hin as [= -> ->].
    by apply list_elem_of_fmap in Hw as (w0 & -> & _).
Qed.

(** The worker group of routes. A request that names a worker the manager does not
    know is answered 400 and changes nothing. *)
Theorem unregistered_worker_rejected s clock id r :
  db_inv s -> db_workers s !! id = None ->
  (r = DeleteWorker id \/ r = ListJobs id \/ (exists job doc, r = UpdateJob id job doc)
   \/ (exists job doc, r = UpdateSize id job doc) \/ exists doc, r = UpdateSchedules id doc) ->
  serve PostJSON clock r s
  = Ret (s, [(StatusBadRequest, BError ("invalid workerID " +:+ id))]).
Proof.
  intros Hi Hw Hr.
  assert (Hv : forall h, validated id h s
           = Ret (s, [(StatusBadRequest, BError ("invalid workerID " +:+ id))])).
  { intros h. unfold validated, workerIDValidator.
    destruct (db_get_worker_spec s id Hi) as (w & e & -> & He). simpl.
    destruct e; [done|]. congruence. }
  destruct Hr as [->|[->|[(? & ? & ->)|[(? & ? & ->)|(? & ->)]]]]; apply Hv.
Qed.

(** Safety of a whole run. From a store whose instants are sound, requests served under
    a clock that does not go back keep every job's last success no later than its last end,
    and no recorded instant in the future; and the next request is answered, never ended
    by a panic. *)
Theorem serves_times t0 s0 t s :
  time_zero <= t0 -> store_ok t0 s0 -> serves PostJSON t0 s0 t s ->
  (forall k m, db_statuses s !! k = Some m ->
     m.(ms_LastUpdate) <= m.(ms_LastEnded) <= t /\ m.(ms_LastStarted) <= t)
  /\ forall r, exists s' out, serve PostJSON (fun _ => t) r s = Ret (s', out).
Proof.
  intros Hz Hs0 Hr. destruct (serves_ok PostJSON t0 s0 t s Hz Hs0 Hr) as [Ht Hs]. split.
  - intros k m Hm. destruct (proj2 Hs k m Hm) as (? & ? & ?). done.
  - intros r. destruct (serve_ok PostJSON t (fun _ => t) r s) as ([s' out] & He & _); eauto.
Qed.
End properties.

(** ** Witnesses, on the store in memory *)

Import Mem.

Definition ex_report (name : string) : json :=
  JObj [("name", JStr name); ("worker", JStr "w1"); ("status", JStr "success"); ("size", JStr "2T")].

Definition ex_status (name : string) : MirrorStatus :=
  MkMirrorStatus name "w1" false Status.Success time_zero time_zero time_zero time_zero
    EmptyString "2T" EmptyString.

Lemma ex_report_decodes name :
  unmarshal_MirrorStatus (ex_report name) MirrorStatus_zero = (ex_status name, None).
Proof. reflexivity. Qed.

Definition ex_register : json := JObj [("id", JStr "w1"); ("url", JStr "http://w1:6000/")].

Definition no_post (url : string) (cmd : WorkerCmd) : option error := None.

(** A store after a registration and a report, at instant 5. *)
Definition ex_run : comp store :=
  serve_all no_post 5 [RegisterWorker ex_register; UpdateJob "w1" "debian" (ex_report "debian")] Mem.empty.
Definition ex_store : store := match ex_run with Ret s => s | Panic _ => Mem.empty end.

Lemma empty_store_ok t : store_ok t Mem.empty.
Proof. split; [apply empty_inv|]. intros k m. by rewrite empty_statuses. Qed.

Lemma ex_store_ok : store_ok 5 ex_store.
Proof.
  unfold ex_store.
  destruct (serve_all_ok no_post 5
    [RegisterWorker ex_register; UpdateJob "w1" "debian" (ex_report "debian")] Mem.empty)
    as (s & Hs & Hok); [done|apply empty_store_ok|].
  change ex_run with (serve_all no_post 5
    [RegisterWorker ex_register; UpdateJob "w1" "debian" (ex_report "debian")] Mem.empty).
  by rewrite Hs.
Qed.

Definition ex_stored : MirrorStatus := merge_status 5 MirrorStatus_zero (ex_status "debian").

Lemma ex_store_statuses : db_statuses ex_store !! status_id "w1" "debian" = Some ex_stored.
Proof. vm_compute. reflexivity. Qed.

Lemma ex_store_workers :
  db_workers ex_store !! "w1" = Some (MkWorkerStatus "w1" "http://w1:6000/" EmptyString 5 5).
Proof. vm_compute. reflexivity. Qed.

Lemma updateJob_effect_witness :
  exists new s' out, completed 7 ex_stored (ex_status "debian") new
    /\ updateJobOfWorker 6 7 "w1" (ex_report "debian") ex_store = Ret (s', out)
    /\ (out = [(StatusOK, BJob new)] \/ status_code out = Some StatusInternalServerError).
Proof.
  destruct (updateJob_effect mem_reads_exact ex_store "w1" (ex_report "debian") (ex_status "debian")
    6 7 (proj1 ex_store_ok) (ex_report_decodes "debian")) as (new & Hn & [s' out] & He & Hq); [done|].
  exists new, s', out. cbn [ms_Name ex_status] in Hn. rewrite ex_store_statuses in Hn. split; [exact Hn|].
  split; [exact He|]. destruct Hq as [[Ho _]|[Ho _]]; auto.
Defined.

Lemma updateJob_empty_name_witness :
  exists s' m rest, updateJobOfWorker 6 7 "w1" (ex_report EmptyString) ex_store
    = Ret (s', (StatusBadRequest, BError "mirror Name should not be empty") :: rest)
    /\ m.(ms_Name) = EmptyString
    /\ db_statuses s' !! status_id "w1" EmptyString = Some m.
Proof.
  destruct (updateJob_empty_name ex_store "w1" (ex_report EmptyString) (ex_status EmptyString) 6 7
    (proj1 ex_store_ok) (ex_report_decodes EmptyString) eq_refl)
    as ([s' out] & He & _ & m & rest & -> & Hm & [[_ Hs]|Hs]).
  - exists s', m, rest. split_and!; [exact He|exact Hm|]. rewrite Hs. by rewrite lookup_insert_eq.
  - exfalso.
    assert (Hc : (c ← updateJobOfWorker 6 7 "w1" (ex_report EmptyString) ex_store;
      Ret (bool_decide (db_statuses c.1 !! status_id "w1" EmptyString = None)))
      = Ret false) by (vm_compute; reflexivity).
    rewrite He in Hc. cbn [mbind comp_bind fst] in Hc. injection Hc as Hc.
    apply bool_decide_eq_false in Hc. apply Hc.
    etransitivity; [exact (f_equal (lookup _) Hs)|]. vm_compute. reflexivity.
Defined.

Definition ex_size : json := JObj [("name", JStr "debian"); ("size", JStr "unknown")].

Lemma updateMirrorSize_overwrites_witness :
  exists s' out, updateMirrorSize 6 "w1" ex_size ex_store = Ret (s', out)
    /\ ex_stored.(ms_Size) = "2T"
    /\ (out = [(StatusOK, BJob (set_ms_Size "unknown" ex_stored))]
        \/ status_code out = Some StatusInternalServerError).
Proof.
  destruct (updateMirrorSize_overwrites mem_reads_exact ex_store "w1" ex_size
    (MkSizeMsg "debian" "unknown") 6 ex_stored (proj1 ex_store_ok) eq_refl ex_store_statuses)
    as ([s' out] & He & Hq).
  exists s', out. split_and!; [exact He|reflexivity|].
  destruct Hq as [[Ho _]|[Ho _]]; auto.
Defined.

Definition ex_stop : json :=
  JObj [("cmd", JStr "stop"); ("worker_id", JStr "w1"); ("mirror_id", JStr "debian")].
Definition ex_stop_cmd : ClientCmd := MkClientCmd CmdStop "debian" "w1" None None.

Lemma handleClientCmd_effect_witness :
  exists s' out posts, handleClientCmd no_post ex_stop ex_store = Ret (s', out, posts)
    /\ posts = [("http://w1:6000/", MkWorkerCmd CmdStop "debian" None None)]
    /\ status_code out = Some StatusOK.
Proof.
  destruct (handleClientCmd_effect no_post mem_reads_exact ex_store ex_stop ex_stop_cmd
    (MkWorkerStatus "w1" "http://w1:6000/" EmptyString 5 5) (proj1 ex_store_ok) eq_refl)
    as ([[s' out] posts] & He & Hp & _ & Hc).
  - done.
  - intros e. vm_compute. discriminate.
  - exact ex_store_workers.
  - exists s', out, posts. split_and!; [exact He|exact Hp|by apply Hc].
Defined.

Definition ex_schedules : json :=
  JObj [("schedules", JArr [JObj [("name", JStr "debian"); ("next_schedule", JNull)]])].

Lemma updateSchedules_effect_witness :
  exists s' out, updateSchedulesOfWorker (fun _ => 6) "w1" ex_schedules ex_store = Ret (s', out)
    /\ (out = [(StatusOK, BEmpty)] \/ status_code out = Some StatusInternalServerError).
Proof.
  destruct (updateSchedules_effect mem_reads_exact (fun _ => 6) "w1" ex_schedules
    (Some [MkMirrorSchedule "debian" time_zero]) ex_store (proj1 ex_store_ok) eq_refl) as ([s' out] & He & Hq).
  exists s', out. split; [exact He|]. destruct Hq as [[_ Ho]|(l1 & sc & l2 & e & Hl & _ & Ho)].
  - left. exact Ho.
  - right. destruct l1 as [|x l1]; [|by destruct l1]. injection Hl as <- <-. rewrite Ho. reflexivity.
Defined.

Lemma listWorkers_redacts_witness :
  exists s' out, listWorkers ex_store = Ret (s', out) /\ s' = ex_store
  /\ forall c ws w, (c, BWorkers ws) ∈ out -> w ∈ ws -> w.(ws_Token) = "REDACTED".
Proof.
  destruct (listWorkers_redacts ex_store (proj1 ex_store_ok)) as ([s' out] & He & Hq).
  exists s', out. split; [exact He|exact Hq].
Defined.

Lemma unregistered_worker_rejected_witness :
  serve no_post (fun _ => 6) (DeleteWorker "w2") ex_store
  = Ret (ex_store, [(StatusBadRequest, BError "invalid workerID w2")]).
Proof.
  apply (unregistered_worker_rejected no_post ex_store (fun _ => 6) "w2" (DeleteWorker "w2")
    (proj1 ex_store_ok)); [vm_compute; reflexivity|by left].
Defined.

Lemma ex_serves : exists s, serves no_post 5 Mem.empty 5 s
  /\ db_statuses s !! status_id "w1" "debian" = Some ex_stored.
Proof.
  destruct (serve_ok no_post 5 (fun _ => 5) (RegisterWorker ex_register) Mem.empty)
    as ([s1 o1] & E1 & Hs1); [done|done|apply empty_store_ok|].
  destruct (serve_ok no_post 5 (fun _ => 5) (UpdateJob "w1" "debian" (ex_report "debian")) s1)
    as ([s2 o2] & E2 & Hs2); [done|done|exact Hs1|].
  exists s2. split.
  - eapply serves_step; [eapply serves_step; [apply serves_refl|done| |exact E1]|done| |exact E2]; done.
  - replace s2 with ex_store; [apply ex_store_statuses|].
    unfold ex_store, ex_run, serve_all. by rewrite E1; cbn [mbind comp_bind]; rewrite E2.
Qed.

Lemma serves_times_witness :
  exists s, serves no_post 5 Mem.empty 5 s
    /\ db_statuses s !! status_id "w1" "debian" = Some ex_stored
    /\ (ex_stored.(ms_LastUpdate) <= ex_stored.(ms_LastEnded) <= 5 /\ ex_stored.(ms_LastStarted) <= 5)
    /\ exists s' out, serve no_post (fun _ => 5) ListAllJobs s = Ret (s', out).
Proof.
  destruct ex_serves as (s & Hs & Hm). exists s.
  assert (Hz : time_zero <= 5) by done.
  destruct (serves_times no_post 5 Mem.empty 5 s Hz (empty_store_ok 5) Hs) as [H1 H2].
  split_and!; [exact Hs|exact Hm|apply (H1 _ _ Hm)|apply (H1 _ _ Hm)|apply (H1 _ _ Hm)|apply H2].
Defined.
