(* ===== verification/Interleave.v ===== *)
(** * manager/server.go: handlers side by side

    The handlers of the manager run concurrently.  Here each is a program of the steps other
    handlers can come between: the calls of the store, the readings of the clock, and the
    operations of the lock [s.rwmu].  [RefreshWorker] reads and writes in two steps, for
    several handlers may be inside their read locks, and [registerWorker] and the validator
    of the worker take no lock at all.  Run alone, each program is the handler of the file
    [Manager]. *)

From S2P Require Import Prelude Json Msg Web Kv Db Manager.

Local Open Scope string_scope.
Local Open Scope list_scope.
Local Open Scope Z_scope.

(** ** Programs *)

Section progs.
Context {S : Type} `{DbAdapter S} {TT : TimeText}.
Context (PostJSON : string -> WorkerCmd -> option error).

Inductive prog : Type :=
| Finish (out : response)
| Now (k : Z -> prog)
| Do (call : S -> comp (S * prog))
| RLock (k : prog)
| RUnlock (k : prog)
| Lock (k : prog)
| Unlock (k : prog).

(** A read of the store, and a call that may change it. *)
Definition read {A} (f : S -> comp A) (k : A -> prog) : prog :=
  Do (fun s => a ← f s; Ret (s, k a)).
Definition write {A} (f : S -> comp (S * A)) (k : A -> prog) : prog :=
  Do (fun s => '(s, a) ← f s; Ret (s, k a)).

Definition read_locked {A} (f : S -> comp A) (k : A -> prog) : prog := RLock (read f (fun a => RUnlock (k a))).
Definition write_locked {A} (f : S -> comp (S * A)) (k : A -> prog) : prog := Lock (write f (fun a => Unlock (k a))).

Definition fail (out : response) (msg : error) : prog := Finish (out ++ returnErrJSON StatusInternalServerError msg).

(** [s.adapter.RefreshWorker(workerID)], of which only the effect matters. *)
Definition refresh (workerID : string) (k : prog) : prog :=
  read (db_GetWorker workerID) (fun '(w, err) =>
    match err with
    | Some _ => k
    | None => Now (fun t => write (db_CreateWorker (set_ws_LastOnline t w)) (fun _ => k))
    end).

(** Refreshing and reading a status under the read lock. *)
Definition refresh_get (workerID mirrorName : string) (k : MirrorStatus * option error -> prog) : prog :=
  RLock (refresh workerID (read (db_GetMirrorStatus workerID mirrorName) (fun r => RUnlock (k r)))).

Definition listAllJobs_prog : prog :=
  read_locked db_ListAllMirrorStatus (fun '(l, err) =>
    match err with
    | Some e => fail [] ("failed to list all mirror status: " +:+ e)
    | None => Finish [(StatusOK, BWebJobs (BuildWebMirrorStatus <$> l))]
    end).

Definition flushDisabledJobs_prog : prog :=
  write_locked db_FlushDisabledJobs (fun err =>
    match err with
    | Some e => fail [] ("failed to flush disabled jobs: " +:+ e)
    | None => Finish [(StatusOK, BInfo "flushed")]
    end).

Definition deleteWorker_prog (workerID : string) : prog :=
  write_locked (db_DeleteWorker workerID) (fun err =>
    match err with
    | Some e => fail [] ("failed to delete worker: " +:+ e)
    | None => Finish [(StatusOK, BInfo "deleted")]
    end).

Definition listWorkers_prog : prog :=
  read_locked db_ListWorkers (fun '(workers, err) =>
    match err with
    | Some e => fail [] ("failed to list workers: " +:+ e)
    | None => Finish [(StatusOK, BWorkers (redact <$> workers))]
    end).

(** No lock. *)
Definition registerWorker_prog (doc : json) : prog :=
  let '(_worker, bind) := BindJSON unmarshal_WorkerStatus doc WorkerStatus_zero in
  Now (fun t1 => Now (fun t2 =>
    write (db_CreateWorker (set_ws_LastRegister t2 (set_ws_LastOnline t1 _worker))) (fun '(newWorker, err) =>
      match err with
      | Some e => fail bind ("failed to register worker: " +:+ e)
      | None => Finish (bind ++ [(StatusOK, BWorker newWorker)])
      end))).

Definition listJobsOfWorker_prog (workerID : string) : prog :=
  read_locked (db_ListMirrorStatus workerID) (fun '(l, err) =>
    match err with
    | Some e => fail [] ("failed to list jobs of worker " +:+ workerID +:+ ": " +:+ e)
    | None => Finish [(StatusOK, BJobs l)]
    end).

(** The write of a status, and the answer with it. *)
Definition update_status (workerID mirrorName : string) (m : MirrorStatus) (out : response) (k : MirrorStatus -> prog) : prog :=
  write_locked (db_UpdateMirrorStatus workerID mirrorName m) (fun '(m, err) =>
    match err with
    | Some e => fail out (update_failed mirrorName workerID e)
    | None => k m
    end).

Fixpoint updateSchedules_prog (workerID : string) (schedules : list MirrorSchedule) (out : response) : prog :=
  match schedules with
  | [] => Finish (out ++ [(StatusOK, BEmpty)])
  | schedule :: rest =>
      let mirrorName := schedule.(sc_MirrorName) in
      let out := if decide (mirrorName = EmptyString) then out ++ empty_name_error else out in
      refresh_get workerID mirrorName (fun '(curStatus, err) =>
        match err with
        | Some _ => updateSchedules_prog workerID rest out
        | None =>
            if decide (curStatus.(ms_Scheduled) = schedule.(sc_NextSchedule))
            then updateSchedules_prog workerID rest out
            else update_status workerID mirrorName (set_ms_Scheduled schedule.(sc_NextSchedule) curStatus) out
                   (fun _ => updateSchedules_prog workerID rest out)
        end)
  end.

Definition updateSchedulesOfWorker_prog (workerID : string) (doc : json) : prog :=
  let '(schedules, bind) := BindJSON unmarshal_MirrorSchedules doc (MkMirrorSchedules None) in
  updateSchedules_prog workerID (default [] schedules.(Schedules)) bind.

Definition updateJobOfWorker_prog (workerID : string) (doc : json) : prog :=
  let '(status, bind) := BindJSON unmarshal_MirrorStatus doc MirrorStatus_zero in
  let mirrorName := status.(ms_Name) in
  let out := if decide (mirrorName = EmptyString) then bind ++ empty_name_error else bind in
  refresh_get workerID mirrorName (fun '(curStatus, _) =>
    Now (fun curTime =>
      update_status workerID mirrorName (merge_status curTime curStatus status) out (fun m =>
        Finish (out ++ [(StatusOK, BJob m)])))).

Definition updateMirrorSize_prog (workerID : string) (doc : json) : prog :=
  let '(msg, bind) := BindJSON unmarshal_SizeMsg doc SizeMsg_zero in
  let mirrorName := msg.(sz_Name) in
  refresh_get workerID mirrorName (fun '(status, err) =>
    match err with
    | Some e => fail bind e
    | None =>
        let status :=
          if negb (bool_decide (msg.(sz_Size) = EmptyString)) || negb (bool_decide (msg.(sz_Size) = "unknown"))
          then set_ms_Size msg.(sz_Size) status else status in
        update_status workerID mirrorName status bind (fun m => Finish (bind ++ [(StatusOK, BJob m)]))
    end).

Definition handleClientCmd_prog (doc : json) : prog :=
  let '(clientCmd, bind) := BindJSON unmarshal_ClientCmd doc ClientCmd_zero in
  let workerID := clientCmd.(cc_WorkerID) in
  if decide (workerID = EmptyString) then Finish (bind ++ [(StatusInternalServerError, BNone)])
  else
    read_locked (db_GetWorker workerID) (fun '(w, err) =>
      match err with
      | Some _ => Finish (bind ++ returnErrJSON StatusBadRequest ("worker " +:+ workerID +:+ " is not registered yet"))
      | None =>
          let workerURL := w.(ws_URL) in
          let workerCmd := MkWorkerCmd clientCmd.(cc_Cmd) clientCmd.(cc_MirrorID)
                             clientCmd.(cc_Args) clientCmd.(cc_Options) in
          let post :=
            match PostJSON workerURL workerCmd with
            | Some e => fail bind ("post command to worker " +:+ workerID +:+ "(" +:+ workerURL +:+ ") fail: " +:+ e)
            | None => Finish (bind ++ [(StatusOK, BInfo ("successfully send command to worker " +:+ workerID))])
            end in
          read_locked (db_GetMirrorStatus workerID clientCmd.(cc_MirrorID)) (fun '(curStat, _) =>
            match cmd_status clientCmd.(cc_Cmd) with
            | Some st => write_locked (db_UpdateMirrorStatus workerID clientCmd.(cc_MirrorID) (set_ms_Status st curStat))
                           (fun _ => post)
            | None => post
            end)
      end).

(** No lock either. *)
Definition validated_prog (workerID : string) (k : prog) : prog :=
  read (db_GetWorker workerID) (fun '(_, err) =>
    match err with
    | Some _ => Finish (returnErrJSON StatusBadRequest ("invalid workerID " +:+ workerID))
    | None => k
    end).

Definition prog_of (r : request) : prog :=
  match r with
  | Ping => Finish [(StatusOK, BInfo "pong")]
  | ListAllJobs => listAllJobs_prog
  | FlushDisabled => flushDisabledJobs_prog
  | ListWorkers => listWorkers_prog
  | RegisterWorker doc => registerWorker_prog doc
  | DeleteWorker id => validated_prog id (deleteWorker_prog id)
  | ListJobs id => validated_prog id (listJobsOfWorker_prog id)
  | UpdateJob id _ doc => validated_prog id (updateJobOfWorker_prog id doc)
  | UpdateSize id _ doc => validated_prog id (updateMirrorSize_prog id doc)
  | UpdateSchedules id doc => validated_prog id (updateSchedulesOfWorker_prog id doc)
  | Cmd doc => handleClientCmd_prog doc
  end.

(** ** Alone *)

(** A program run with nothing in between, at one instant. *)
Fixpoint alone (t : Z) (p : prog) (s : S) : comp (S * response) :=
  match p with
  | Finish out => Ret (s, out)
  | Now k => alone t (k t) s
  | Do call => match call s with Ret (s, p) => alone t p s | Panic m => Panic m end
  | RLock k | RUnlock k | Lock k | Unlock k => alone t k s
  end.
End progs.
Arguments prog : clear implicits.

(** [RefreshWorker] is its two calls. *)
Class RefreshParts (S : Type) `{DbAdapter S} := {
  refresh_parts now id s : db_RefreshWorker now id s =
    ('(w, err) ← db_GetWorker id s;
     match err with
     | None => db_CreateWorker (set_ws_LastOnline now w) s
     | Some _ => Ret (s, (w, err))
     end)
}.

#[export] Instance kv_refresh_parts {S : Type} `{KvAdapter json S} {TT : TimeText} {RO : RangeOrder} {PE : PkgErrors} :
  RefreshParts S (H := kvDBAdapter.adapter).
Proof. by split. Qed.

Section alone.
Context {S : Type} `{RefreshParts S} {TT : TimeText}.
Context (PostJSON : string -> WorkerCmd -> option error) (t : Z).

Lemma alone_read {A} (f : S -> comp A) (k : A -> prog S) s :
  alone t (read f k) s = a ← f s; alone t (k a) s.
Proof. unfold read. simpl. by destruct (f s). Qed.

Lemma alone_write {A} (f : S -> comp (S * A)) (k : A -> prog S) s :
  alone t (write f k) s = '(s, a) ← f s; alone t (k a) s.
Proof. unfold write. simpl. by destruct (f s) as [[]|]. Qed.

Lemma alone_refresh_get wid name (k : MirrorStatus * option error -> prog S) s :
  alone t (refresh_get wid name k) s
  = '(s, _) ← db_RefreshWorker t wid s; r ← db_GetMirrorStatus wid name s; alone t (k r) s.
Proof.
  unfold refresh_get, refresh. cbn [alone]. rewrite alone_read, refresh_parts.
  destruct (db_GetWorker wid s) as [[w [e|]]|]; [| |done]; cbn [mbind comp_bind].
  - by rewrite alone_read.
  - cbn [alone]. rewrite alone_write. destruct (db_CreateWorker _ s) as [[s1 r]|]; [|done].
    cbn [mbind comp_bind]. by rewrite alone_read.
Qed.

Lemma alone_update_status wid name m out k s :
  alone t (update_status wid name m out k) s
  = '(s, (m, err)) ← db_UpdateMirrorStatus wid name m s;
    match err with
    | Some e => Ret (s, out ++ returnErrJSON StatusInternalServerError (update_failed name wid e))
    | None => alone t (k m) s
    end.
Proof.
  unfold update_status, write_locked. cbn [alone]. rewrite alone_write.
  by destruct (db_UpdateMirrorStatus _ _ _ s) as [[s1 [m1 [e|]]]|].
Qed.

Lemma alone_validated wid p h s : (forall s, alone t p s = h s) ->
  alone t (validated_prog wid p) s = validated wid h s.
Proof.
  intros Hp. unfold validated_prog, validated, workerIDValidator. rewrite alone_read.
  destruct (db_GetWorker wid s) as [[w [e|]]|]; [done| |done]. simpl. apply Hp.
Qed.

Lemma alone_updateSchedules wid l s out :
  alone t (updateSchedules_prog wid l out) s = updateSchedules_loop (fun _ => t) wid l s out.
Proof.
  revert s out. induction l as [|sc l IH]; intros s out; [done|].
  cbn [updateSchedules_prog updateSchedules_loop]. rewrite alone_refresh_get.
  destruct (db_RefreshWorker _ _ s) as [[s1 r]|]; [|done]. cbn [mbind comp_bind].
  destruct (db_GetMirrorStatus _ _ s1) as [[cur [e|]]|]; [|  |done]; cbn [mbind comp_bind]; [apply IH|].
  case_decide; [apply IH|]. rewrite alone_update_status.
  destruct (db_UpdateMirrorStatus _ _ _ s1) as [[s2 [m [e|]]]|]; [done| |done]. apply IH.
Qed.

(** A handler run alone. Whatever the request, its program run with nothing in between is
    the handler: same store, same answer, same panics. *)
Theorem alone_serves r s : alone t (prog_of PostJSON r) s = serve PostJSON (fun _ => t) r s.
Proof.
  destruct r as [| | | |doc|id|id|id job doc|id job doc|id doc|doc]; cbn [prog_of serve]; try apply alone_validated.
  - done.
  - unfold listAllJobs_prog, read_locked, listAllJobs. cbn [alone]. rewrite alone_read.
    by destruct (db_ListAllMirrorStatus s) as [[l [e|]]|].
  - unfold flushDisabledJobs_prog, write_locked, flushDisabledJobs. cbn [alone]. rewrite alone_write.
    by destruct (db_FlushDisabledJobs s) as [[s1 [e|]]|].
  - unfold listWorkers_prog, read_locked, listWorkers. cbn [alone]. rewrite alone_read.
    by destruct (db_ListWorkers s) as [[l [e|]]|].
  - unfold registerWorker_prog, registerWorker. destruct (BindJSON _ _ _) as [w bind]. cbn [alone].
    rewrite alone_write. by destruct (db_CreateWorker _ s) as [[s1 [w1 [e|]]]|].
  - intros s1. unfold deleteWorker_prog, write_locked, deleteWorker. cbn [alone]. rewrite alone_write.
    by destruct (db_DeleteWorker id s1) as [[s2 [e|]]|].
  - intros s1. unfold listJobsOfWorker_prog, read_locked, listJobsOfWorker. cbn [alone]. rewrite alone_read.
    by destruct (db_ListMirrorStatus id s1) as [[l [e|]]|].
  - intros s1. unfold updateJobOfWorker_prog, updateJobOfWorker. destruct (BindJSON _ _ _) as [m bind].
    rewrite alone_refresh_get. destruct (db_RefreshWorker _ _ s1) as [[s2 r]|]; [|done]. cbn [mbind comp_bind].
    destruct (db_GetMirrorStatus _ _ s2) as [[cur e]|]; [|done]. cbn [mbind comp_bind alone].
    by rewrite alone_update_status.
  - intros s1. unfold updateMirrorSize_prog, updateMirrorSize. destruct (BindJSON _ _ _) as [m bind].
    rewrite alone_refresh_get. destruct (db_RefreshWorker _ _ s1) as [[s2 r]|]; [|done]. cbn [mbind comp_bind].
    destruct (db_GetMirrorStatus _ _ s2) as [[cur [e|]]|]; [done| |done]. cbn [mbind comp_bind].
    by rewrite alone_update_status.
  - intros s1. unfold updateSchedulesOfWorker_prog, updateSchedulesOfWorker.
    destruct (BindJSON _ _ _) as [l bind]. apply alone_updateSchedules.
  - unfold handleClientCmd_prog, handleClientCmd. destruct (BindJSON _ _ _) as [cmd bind].
    case_decide; [done|]. unfold read_locked. cbn [alone]. rewrite alone_read.
    destruct (db_GetWorker _ s) as [[w [e|]]|]; [done| |done]. cbn [mbind comp_bind alone]. rewrite alone_read.
    destruct (db_GetMirrorStatus _ _ s) as [[cur e]|]; [|done]. cbn [mbind comp_bind alone].
    destruct (cmd_status _) as [st|].
    + unfold write_locked. cbn [alone]. rewrite alone_write.
      destruct (db_UpdateMirrorStatus _ _ _ s) as [[s1 r]|]; [|done]. cbn [mbind comp_bind alone].
      by destruct (PostJSON _ _).
    + cbn [mbind comp_bind]. by destruct (PostJSON _ _).
Qed.
End alone.

(** ** Side by side *)

Section conc.
Context {S : Type} `{DbLaws S} {TT : TimeText}.
Context (PostJSON : string -> WorkerCmd -> option error).

(** The requests in flight, finished ones included, with the lock they share. *)
Record conc : Type := MkConc {
  c_now : Z;
  c_store : S;
  c_readers : nat;
  c_writer : bool;
  c_procs : list (prog S)
}.

(** A step of one program; nothing when it is finished, waits for the lock or panics. *)
Definition step_prog (now : Z) (p : prog S) (s : S) (readers : nat) (writer : bool)
    : option (S * nat * bool * prog S) :=
  match p with
  | Finish _ => None
  | Now k => Some (s, readers, writer, k now)
  | Do call => match call s with Ret (s, p) => Some (s, readers, writer, p) | Panic _ => None end
  | RLock k => if writer then None else Some (s, Datatypes.S readers, writer, k)
  | RUnlock k => Some (s, pred readers, writer, k)
  | Lock k => if writer || (0 <? readers)%nat then None else Some (s, readers, true, k)
  | Unlock k => Some (s, readers, false, k)
  end.

Definition step_at (i : nat) (c : conc) : option conc :=
  p ← c.(c_procs) !! i;
  '(s, readers, writer, p) ← step_prog c.(c_now) p c.(c_store) c.(c_readers) c.(c_writer);
  Some (MkConc c.(c_now) s readers writer (<[i := p]> c.(c_procs))).

Definition arrive (r : request) (c : conc) : conc :=
  MkConc c.(c_now) c.(c_store) c.(c_readers) c.(c_writer) (c.(c_procs) ++ [prog_of PostJSON r]).

Inductive conc_step : conc -> conc -> Prop :=
| cs_run i c c' : step_at i c = Some c' -> conc_step c c'
| cs_arrive r c : conc_step c (arrive r c)
| cs_clock t c : c.(c_now) <= t ->
    conc_step c (MkConc t c.(c_store) c.(c_readers) c.(c_writer) c.(c_procs)).

Definition idle (t : Z) (s : S) : conc := MkConc t s 0 false [].

(** *** What a program keeps *)

Inductive mode : Type := Out | Reading | Writing.

#[export] Instance mode_eq_dec : EqDecision mode.
Proof. solve_decision. Defined.

(** From the instant [t] on, with the lock held as [md] says, a program takes and gives back
    the lock in turn, never panics on a store with consistent instants, and keeps it so. *)
Fixpoint fits (md : mode) (t : Z) (p : prog S) : Prop :=
  match p with
  | Finish _ => md = Out
  | Now k => forall t', t <= t' -> fits md t' (k t')
  | Do call => forall t' s, t <= t' -> store_ok t' s ->
      match call s with Ret (s', p') => store_ok t' s' /\ fits md t' p' | Panic _ => False end
  | RLock k => md = Out /\ fits Reading t k
  | RUnlock k => md = Reading /\ fits Out t k
  | Lock k => md = Out /\ fits Writing t k
  | Unlock k => md = Writing /\ fits Out t k
  end.

Lemma fits_mono md t t' p : t <= t' -> fits md t p -> fits md t' p.
Proof.
  intros Ht. revert md. induction p as [out|k IH|call|k IH|k IH|k IH|k IH]; intros md; simpl; try done.
  - intros Hk t'' Ht'. apply Hk. lia.
  - intros Hc t'' s Ht'. apply Hc. lia.
  - intros [? ?]. auto.
  - intros [? ?]. auto.
  - intros [? ?]. auto.
  - intros [? ?]. auto.
Qed.

Lemma fits_read {A} md t (f : S -> comp A) k :
  (forall t' s, t <= t' -> store_ok t' s -> returns (f s) (fun a => fits md t' (k a))) -> fits md t (read f k).
Proof. intros Hf t' s Ht Hs. destruct (Hf t' s Ht Hs) as (a & -> & Ha). done. Qed.

Lemma fits_write {A} md t (f : S -> comp (S * A)) k :
  (forall t' s, t <= t' -> store_ok t' s -> returns (f s) (fun '(s', a) => store_ok t' s' /\ fits md t' (k a))) ->
  fits md t (write f k).
Proof. intros Hf t' s Ht Hs. destruct (Hf t' s Ht Hs) as ([s' a] & -> & Ha). done. Qed.

Lemma fits_refresh_get t wid name k : time_zero <= t ->
  (forall t' m e, t <= t' -> times_ok t' m -> fits Out t' (k (m, e))) -> fits Out t (refresh_get wid name k).
Proof.
  intros Hz Hk. split; [done|]. apply fits_read. intros t1 s1 Ht1 Hs1.
  destruct (get_worker_ok t1 wid s1 Hs1) as ([w err] & -> & _). apply returns_ret.
  assert (Hget : forall t', t1 <= t' ->
    fits Reading t' (read (db_GetMirrorStatus wid name) (fun r => RUnlock (k r)))).
  { intros t' Ht'. apply fits_read. intros t2 s2 Ht2 Hs2.
    eapply returns_mono; [apply (get_ok t2); [lia|done]|]. intros [m e] Hm. split; [done|]. apply Hk; [lia|done]. }
  destruct err as [e|]; [by apply Hget|]. intros t2 Ht2. apply fits_write. intros t3 s3 Ht3 Hs3.
  eapply returns_mono; [by apply (create_ok t3)|]. intros [s4 r] Hs4. split; [done|]. apply Hget. lia.
Qed.

Lemma fits_update_status t wid name m out k : times_ok t m ->
  (forall t', t <= t' -> fits Out t' (k m)) -> fits Out t (update_status wid name m out k).
Proof.
  intros Hm Hk. split; [done|]. apply fits_write. intros t' s Ht Hs.
  destruct Hs as [Hi Hs]. destruct (db_update_status_spec s wid name m Hi) as (s' & e & Hu & _).
  destruct (update_ok t' wid name m s (conj Hi Hs)) as (r & Hu' & Hs'); [by eapply times_ok_mono|].
  rewrite Hu in Hu' |- *. injection Hu' as <-. apply returns_ret. split; [done|].
  destruct e; simpl; split; try done. by apply Hk.
Qed.

Lemma fits_read_locked {A} t (f : S -> comp A) k :
  (forall t' s, t <= t' -> store_ok t' s -> returns (f s) (fun a => fits Out t' (k a))) -> fits Out t (read_locked f k).
Proof.
  intros Hf. split; [done|]. apply fits_read. intros t' s Ht Hs. eapply returns_mono; [by apply Hf|].
  intros a Ha. done.
Qed.

Lemma fits_write_locked {A} t (f : S -> comp (S * A)) k :
  (forall t' s, t <= t' -> store_ok t' s -> returns (f s) (fun '(s', a) => store_ok t' s' /\ fits Out t' (k a))) ->
  fits Out t (write_locked f k).
Proof.
  intros Hf. split; [done|]. apply fits_write. intros t' s Ht Hs. eapply returns_mono; [by apply Hf|].
  intros [s' a] [Hs' Ha]. done.
Qed.

Lemma fits_validated t wid p : (forall t', t <= t' -> fits Out t' p) -> fits Out t (validated_prog wid p).
Proof.
  intros Hp. apply fits_read. intros t' s Ht Hs. eapply returns_mono; [by apply (get_worker_ok t')|].
  intros [w [e|]] _; [done|by apply Hp].
Qed.

Lemma fits_updateSchedules t wid l out : time_zero <= t -> fits Out t (updateSchedules_prog wid l out).
Proof.
  revert t out. induction l as [|sc l IH]; intros t out Hz; [done|]. apply fits_refresh_get; [done|].
  intros t' cur [e|] Ht Hcur; [apply IH; lia|]. case_decide; [apply IH; lia|].
  apply fits_update_status; [done|]. intros t'' Ht'. apply IH. lia.
Qed.

Lemma fits_prog t r : time_zero <= t -> fits Out t (prog_of PostJSON r).
Proof.
  intros Hz. destruct r as [| | | |doc|id|id|id job doc|id job doc|id doc|doc]; cbn [prog_of];
    try (apply fits_validated; intros t0 Ht0).
  - done.
  - apply fits_read_locked. intros t' s Ht Hs. eapply returns_mono; [by apply (lists_ok t')|]. by intros [l [e|]] _.
  - apply fits_write_locked. intros t' s Ht Hs. eapply returns_mono; [by apply (flush_ok t')|]. by intros [s' [e|]] ?.
  - apply fits_read_locked. intros t' s Ht Hs. eapply returns_mono; [by apply (lists_ok t')|]. by intros [l [e|]] _.
  - unfold registerWorker_prog. destruct (BindJSON _ _ _) as [w bind]. intros t1 Ht1 t2 Ht2. apply fits_write.
    intros t' s Ht Hs. eapply returns_mono; [by apply (create_ok t')|]. by intros [s' [w' [e|]]] ?.
  - apply fits_write_locked. intros t' s Ht Hs. eapply returns_mono; [by apply (delete_ok t')|]. by intros [s' [e|]] ?.
  - apply fits_read_locked. intros t' s Ht Hs. eapply returns_mono; [by apply (lists_ok t')|]. by intros [l [e|]] _.
  - unfold updateJobOfWorker_prog. destruct (BindJSON _ _ _) as [m bind]. apply fits_refresh_get; [lia|].
    intros t1 cur e Ht1 Hcur t2 Ht2. apply fits_update_status; [|done].
    apply merge_times_ok. by eapply times_ok_mono.
  - unfold updateMirrorSize_prog. destruct (BindJSON _ _ _) as [m bind]. apply fits_refresh_get; [lia|].
    intros t1 cur [e|] Ht1 Hcur; [done|]. apply fits_update_status; [|done]. by case_match.
  - unfold updateSchedulesOfWorker_prog. destruct (BindJSON _ _ _) as [l bind]. apply fits_updateSchedules. lia.
  - unfold handleClientCmd_prog. destruct (BindJSON _ _ _) as [cmd bind]. case_decide; [done|].
    apply fits_read_locked. intros t1 s1 Ht1 Hs1. eapply returns_mono; [by apply (get_worker_ok t1)|].
    intros [w [e|]] _; [done|]. apply fits_read_locked. intros t2 s2 Ht2 Hs2.
    eapply returns_mono; [apply (get_ok t2); [lia|done]|]. intros [cur e] Hcur.
    destruct (cmd_status _) as [st|]; [|by destruct (PostJSON _ _)].
    apply fits_write_locked. intros t3 s3 Ht3 Hs3.
    eapply returns_mono; [apply (update_ok t3); [done|by eapply times_ok_mono]|].
    intros [s4 r] Hs4. split; [done|]. by destruct (PostJSON _ _).
Qed.

(** *** The lock *)

Definition count (md : mode) (l : list mode) : nat := length (filter (eq md) l).

Definition one (md md' : mode) : nat := if decide (md = md') then 1%nat else 0%nat.

Lemma count_insert md l i md1 md2 : l !! i = Some md1 ->
  (count md (<[i := md2]> l) + one md md1 = count md l + one md md2)%nat.
Proof.
  unfold count, one. revert i. induction l as [|x l IH]; intros [|i] Hi; simplify_eq/=.
  - rewrite !filter_cons. repeat case_decide; simpl; lia.
  - specialize (IH i Hi). rewrite !filter_cons. repeat case_decide; simpl; lia.
Qed.

Lemma count_zero md l i : count md l = 0%nat -> l !! i = Some md -> False.
Proof.
  intros Hz Hi. apply list_elem_of_lookup_2 in Hi. unfold count in Hz. apply length_zero_iff_nil in Hz.
  assert (Hf : md ∈ filter (eq md) l) by by apply list_elem_of_filter. rewrite Hz in Hf. by apply elem_of_nil in Hf.
Qed.

(** The lock agrees with what the programs hold, and no writer shares it. *)
Record conc_inv (c : conc) : Prop := {
  ci_zero : time_zero <= c.(c_now);
  ci_store : store_ok c.(c_now) c.(c_store);
  ci_held : exists l, Forall2 (fun md p => fits md c.(c_now) p) l c.(c_procs)
    /\ c.(c_readers) = count Reading l
    /\ count Writing l = (if c.(c_writer) then 1 else 0)%nat
    /\ (c.(c_writer) = true -> c.(c_readers) = 0%nat)
}.

Lemma idle_inv t s : time_zero <= t -> store_ok t s -> conc_inv (idle t s).
Proof. intros Hz Hs. split; [done|done|]. by exists []. Qed.

(** A step of a program of mode [md1] that leaves it in mode [md2]. *)
Lemma conc_inv_step c i s' readers writer p p' md2 l md1 :
  conc_inv c -> Forall2 (fun md p => fits md c.(c_now) p) l c.(c_procs) ->
  l !! i = Some md1 -> c.(c_procs) !! i = Some p -> store_ok c.(c_now) s' -> fits md2 c.(c_now) p' ->
  readers = count Reading (<[i := md2]> l) ->
  count Writing (<[i := md2]> l) = (if (writer : bool) then 1 else 0)%nat -> (writer = true -> readers = 0%nat) ->
  conc_inv (MkConc c.(c_now) s' readers writer (<[i := p']> c.(c_procs))).
Proof.
  intros [Hz _ _] Hl Hi Hp Hs Hf Hr Hw Hx. split; [done|done|]. simpl. exists (<[i := md2]> l).
  split; [by apply Forall2_insert|]. done.
Qed.

Lemma conc_step_inv c c' : conc_step c c' -> conc_inv c -> conc_inv c'.
Proof.
  destruct 1 as [i c c' Hi|r c|t c Ht]; intros Hc; pose proof Hc as [Hz Hs (l & Hl & Hr & Hw & Hx)].
  - unfold step_at in Hi. destruct (c_procs c !! i) as [p|] eqn:Hp; [|done]. simpl in Hi.
    destruct (Forall2_lookup_r _ _ _ _ _ Hl Hp) as (md & Hmd & Hf).
    pose proof (fun md2 => count_insert Reading l i md md2 Hmd) as CR.
    pose proof (fun md2 => count_insert Writing l i md md2 Hmd) as CW.
    destruct p as [out|k|call|k|k|k|k]; simpl in Hi, Hf.
    + done.
    + injection Hi as <-. eapply (conc_inv_step _ _ _ _ _ _ _ md); try done; [by apply Hf| | ];
        specialize (CR md); specialize (CW md); lia.
    + specialize (Hf _ _ (Z.le_refl _) Hs). destruct (call _) as [[s' p']|]; [|done]. injection Hi as <-.
      destruct Hf as [Hs' Hf]. eapply (conc_inv_step _ _ _ _ _ _ _ md); try done;
        specialize (CR md); specialize (CW md); lia.
    + destruct Hf as [-> Hf]. destruct (c_writer c); [done|]. injection Hi as <-.
      eapply (conc_inv_step _ _ _ _ _ _ _ Reading); try done;
        specialize (CR Reading); specialize (CW Reading); unfold one in *; simpl in *; lia.
    + destruct Hf as [-> Hf]. injection Hi as <-.
      eapply (conc_inv_step _ _ _ _ _ _ _ Out); try done;
        specialize (CR Out); specialize (CW Out); unfold one in *; simpl in *; try lia.
      intros Hwr. specialize (Hx Hwr). lia.
    + destruct Hf as [-> Hf]. destruct (c_writer c); [done|]. destruct (0 <? c_readers c)%nat eqn:E; [done|].
      apply Nat.ltb_ge in E. injection Hi as <-.
      eapply (conc_inv_step _ _ _ _ _ _ _ Writing); try done;
        specialize (CR Writing); specialize (CW Writing); unfold one in *; simpl in *; lia.
    + destruct Hf as [-> Hf]. injection Hi as <-.
      eapply (conc_inv_step _ _ _ _ _ _ _ Out); try done;
        specialize (CR Out); specialize (CW Out); unfold one in *; simpl in *; try done;
        destruct (c_writer c); lia.
  - split; [done|done|]. simpl. exists (l ++ [Out]). split; [apply Forall2_app; [done|]|].
    + constructor; [by apply fits_prog|done].
    + unfold count in *. rewrite !filter_app, !length_app. simpl. by rewrite !Nat.add_0_r.
  - split; simpl; [lia|by eapply store_ok_mono|]. exists l. split; [|done].
    eapply Forall2_impl; [exact Hl|]. intros md p. by apply fits_mono.
Qed.

Lemma conc_steps_inv c c' : rtc conc_step c c' -> conc_inv c -> conc_inv c'.
Proof. induction 1 as [|c1 c2 c3 H12 _ IH]; [done|]. intros Hc. by eapply IH, conc_step_inv. Qed.

Definition finished (p : prog S) : Prop := match p with Finish _ => True | _ => False end.

(** A program that holds the lock can go on. *)
Lemma holder_steps c i md p l : conc_inv c -> Forall2 (fun md p => fits md c.(c_now) p) l c.(c_procs) ->
  c.(c_procs) !! i = Some p -> l !! i = Some md -> md <> Out -> is_Some (step_at i c).
Proof.
  intros [_ Hs _] Hl Hp Hmd Hne. destruct (Forall2_lookup_r _ _ _ _ _ Hl Hp) as (md' & Hmd' & Hf).
  rewrite Hmd in Hmd'. injection Hmd' as <-. unfold step_at. rewrite Hp. simpl.
  destruct p as [out|k|call|k|k|k|k]; simpl in *.
  - done.
  - by eexists.
  - specialize (Hf _ _ (Z.le_refl _) Hs). destruct (call _) as [[s' p']|]; [by eexists|done].
  - by destruct Hf.
  - by eexists.
  - by destruct Hf.
  - by eexists.
Qed.

(** C19: requests in flight together. Whatever requests arrive, and however their steps
    interleave under a clock that does not go back, the instants in the store stay
    consistent; a handler holding the write lock is alone to hold it; and as long as a request
    is unfinished one of them can go on: none has panicked and they never all wait for
    the lock. *)
Theorem requests_never_block t0 s0 c : time_zero <= t0 -> store_ok t0 s0 -> rtc conc_step (idle t0 s0) c ->
  store_ok c.(c_now) c.(c_store)
  /\ (c.(c_writer) = true -> c.(c_readers) = 0%nat)
  /\ (Exists (fun p => ~ finished p) c.(c_procs) -> exists i, is_Some (step_at i c)).
Proof.
  intros Hz Hs0 Hr. apply conc_steps_inv in Hr; [|by apply idle_inv].
  pose proof Hr as [_ Hs (l & Hl & Hrd & Hw & Hx)]. split_and!; [done|done|].
  intros (p & Hin & Hp)%Exists_exists. apply list_elem_of_lookup_1 in Hin as [i Hi].
  destruct (Forall2_lookup_r _ _ _ _ _ Hl Hi) as (md & Hmd & Hf).
  destruct (decide (count Reading l = 0 /\ count Writing l = 0)%nat) as [[HR HW]|Hheld].
  - exists i. assert (Hout : md = Out).
    { destruct md; [done|by destruct (count_zero Reading l i)|by destruct (count_zero Writing l i)]. }
    subst md. unfold step_at. rewrite Hi. simpl. rewrite HR in Hrd. rewrite Hrd.
    destruct (c_writer c); [lia|].
    destruct p as [out|k|call|k|k|k|k]; simpl in *; [by destruct Hp|by eexists| |by eexists..].
    specialize (Hf _ _ (Z.le_refl _) Hs). destruct (call _) as [[s' p']|]; [by eexists|done].
  - assert (Hex : exists j md', l !! j = Some md' /\ md' <> Out).
    { unfold count in Hheld. destruct (filter (eq Reading) l) as [|x lr] eqn:ER.
      - destruct (filter (eq Writing) l) as [|x lw] eqn:EW; [by destruct Hheld|].
        assert (Hx' : x ∈ filter (eq Writing) l) by (rewrite EW; by left).
        apply list_elem_of_filter in Hx' as [<- Hx']. apply list_elem_of_lookup_1 in Hx' as [j Hj]. by exists j, Writing.
      - assert (Hx' : x ∈ filter (eq Reading) l) by (rewrite ER; by left).
        apply list_elem_of_filter in Hx' as [<- Hx']. apply list_elem_of_lookup_1 in Hx' as [j Hj]. by exists j, Reading. }
    destruct Hex as (j & md' & Hj & Hne). exists j.
    destruct (Forall2_lookup_l _ _ _ _ _ Hl Hj) as (p' & Hp' & _). by eapply holder_steps.
Qed.
End conc.

(** ** A request among others that leave its status alone *)

Section apart.
Context {S : Type} `{DbLaws S} {TT : TimeText}.
Context (PostJSON : string -> WorkerCmd -> option error) (id : string).

(** The requests that may change the status stored under [id]. *)
Definition touches (r : request) : Prop :=
  match r with
  | FlushDisabled => True
  | UpdateJob wid _ doc => id = status_id wid (BindJSON unmarshal_MirrorStatus doc MirrorStatus_zero).1.(ms_Name)
  | UpdateSize wid _ doc => id = status_id wid (BindJSON unmarshal_SizeMsg doc SizeMsg_zero).1.(sz_Name)
  | UpdateSchedules wid doc =>
      exists sc, sc ∈ default [] (BindJSON unmarshal_MirrorSchedules doc (MkMirrorSchedules None)).1.(Schedules)
        /\ id = status_id wid sc.(sc_MirrorName)
  | Cmd doc => let c := (BindJSON unmarshal_ClientCmd doc ClientCmd_zero).1 in
      id = status_id c.(cc_WorkerID) c.(cc_MirrorID)
  | _ => False
  end.

(** A program whose calls leave that status as it is. *)
Fixpoint avoids (p : prog S) : Prop :=
  match p with
  | Finish _ => True
  | Now k => forall t, avoids (k t)
  | Do call => forall s, db_inv s ->
      match call s with
      | Ret (s', p') => db_inv s' /\ db_statuses s' !! id = db_statuses s !! id /\ avoids p'
      | Panic _ => True
      end
  | RLock k | RUnlock k | Lock k | Unlock k => avoids k
  end.

(** A program that ends with [Q] of its answer and of the status then, when nothing else
    changes the status, [v] now. *)
Fixpoint yields (Q : response -> option MirrorStatus -> Prop) (v : option MirrorStatus) (p : prog S) : Prop :=
  match p with
  | Finish out => Q out v
  | Now k => forall t, yields Q v (k t)
  | Do call => forall s, db_inv s -> db_statuses s !! id = v ->
      match call s with
      | Ret (s', p') => db_inv s' /\ yields Q (db_statuses s' !! id) p'
      | Panic _ => True
      end
  | RLock k | RUnlock k | Lock k | Unlock k => yields Q v k
  end.

(** A call that leaves the statuses alone. *)
Definition harmless {A} (f : S -> comp (S * A)) : Prop :=
  forall s, db_inv s -> returns (f s) (fun '(s', _) => db_inv s' /\ db_statuses s' !! id = db_statuses s !! id).

Lemma avoids_read {A} (f : S -> comp A) k : (forall a, avoids (k a)) -> avoids (read f k).
Proof. intros Hk s Hs. simpl. by destruct (f s). Qed.

Lemma avoids_write {A} (f : S -> comp (S * A)) k : harmless f -> (forall a, avoids (k a)) -> avoids (write f k).
Proof. intros Hf Hk s Hs. destruct (Hf s Hs) as ([s' a] & -> & Hi & He). done. Qed.

Lemma yields_read {A} Q v (f : S -> comp A) k :
  (forall s, db_inv s -> db_statuses s !! id = v -> returns (f s) (fun a => yields Q v (k a))) -> yields Q v (read f k).
Proof. intros Hf s Hs Hv. destruct (Hf s Hs Hv) as (a & -> & Ha). simpl. by rewrite Hv. Qed.

Lemma create_harmless w : harmless (db_CreateWorker w).
Proof.
  intros s Hs. destruct (db_create_worker_spec s w Hs) as (s' & e & -> & Hi & He & _).
  apply returns_ret. by rewrite He.
Qed.

Lemma delete_harmless wid : harmless (db_DeleteWorker wid).
Proof.
  intros s Hs. destruct (db_delete_worker_spec s wid Hs) as (s' & e & -> & Hi & He & _).
  apply returns_ret. by rewrite He.
Qed.

Lemma update_harmless wid name m : id <> status_id wid name -> harmless (db_UpdateMirrorStatus wid name m).
Proof.
  intros Hne s Hs. destruct (db_update_status_spec s wid name m Hs) as (s' & e & -> & Hi & _ & He).
  apply returns_ret. split; [done|]. rewrite He. destruct e; [done|]. by rewrite lookup_insert_ne.
Qed.

Lemma avoids_refresh_get wid name k : (forall r, avoids (k r)) -> avoids (refresh_get wid name k).
Proof.
  intros Hk. apply avoids_read. intros [w [e|]]; [by apply avoids_read|].
  intros t. apply avoids_write; [apply create_harmless|]. intros _. by apply avoids_read.
Qed.

Lemma avoids_update_status wid name m out k : id <> status_id wid name -> (forall m, avoids (k m)) ->
  avoids (update_status wid name m out k).
Proof. intros Hne Hk. apply avoids_write; [by apply update_harmless|]. intros [m' [e|]]; [done|apply Hk]. Qed.

Lemma avoids_updateSchedules wid l out : (forall sc, sc ∈ l -> id <> status_id wid sc.(sc_MirrorName)) ->
  avoids (updateSchedules_prog wid l out).
Proof.
  revert out. induction l as [|sc l IH]; intros out Hl; [done|]. apply avoids_refresh_get.
  assert (Hl' : forall out, avoids (updateSchedules_prog wid l out)) by (intros; apply IH; intros; apply Hl; by right).
  intros [cur [e|]]; [apply Hl'|]. case_decide; [apply Hl'|].
  apply avoids_update_status; [apply Hl; by left|]. intros _. apply Hl'.
Qed.

Lemma avoids_validated wid p : avoids p -> avoids (validated_prog wid p).
Proof. intros Hp. apply avoids_read. by intros [w [e|]]. Qed.

Lemma prog_avoids r : ~ touches r -> avoids (prog_of PostJSON r).
Proof.
  destruct r as [| | | |doc|wid|wid|wid job doc|wid job doc|wid doc|doc]; cbn [prog_of touches]; intros Hne;
    try apply avoids_validated.
  - done.
  - apply avoids_read. by intros [l [e|]].
  - done.
  - apply avoids_read. by intros [l [e|]].
  - unfold registerWorker_prog. destruct (BindJSON _ _ _) as [w bind]. intros t1 t2.
    apply avoids_write; [apply create_harmless|]. by intros [w' [e|]].
  - apply avoids_write; [apply delete_harmless|]. by intros [e|].
  - apply avoids_read. by intros [l [e|]].
  - unfold updateJobOfWorker_prog. destruct (BindJSON _ _ _) as [m bind]. apply avoids_refresh_get.
    intros [cur e] t. by apply avoids_update_status.
  - unfold updateMirrorSize_prog. destruct (BindJSON _ _ _) as [m bind]. apply avoids_refresh_get.
    intros [cur [e|]]; [done|]. by apply avoids_update_status.
  - unfold updateSchedulesOfWorker_prog. destruct (BindJSON _ _ _) as [l bind]. apply avoids_updateSchedules.
    intros sc Hsc He. apply Hne. by exists sc.
  - unfold handleClientCmd_prog. destruct (BindJSON _ _ _) as [cmd bind]. case_decide; [done|].
    apply avoids_read. intros [w [e|]]; [done|]. apply avoids_read. intros [cur e].
    destruct (cmd_status _) as [st|]; [|by destruct (PostJSON _ _)].
    apply avoids_write; [by apply update_harmless|]. intros _. simpl. by destruct (PostJSON _ _).
Qed.

(** Steps during which no request that touches the status arrives. *)
Inductive apart_step : conc -> conc -> Prop :=
| as_run i c c' : step_at i c = Some c' -> apart_step c c'
| as_arrive r c : ~ touches r -> apart_step c (arrive PostJSON r c)
| as_clock t c : c.(c_now) <= t ->
    apart_step c (MkConc t c.(c_store) c.(c_readers) c.(c_writer) c.(c_procs)).

(** All programs but that of [i] avoid the status, and that one yields [Q]. *)
Definition only (i : nat) (Q : response -> option MirrorStatus -> Prop) (c : conc) : Prop :=
  db_inv c.(c_store)
  /\ (forall j p, c.(c_procs) !! j = Some p -> j <> i -> avoids p)
  /\ (forall p, c.(c_procs) !! i = Some p -> yields Q (db_statuses c.(c_store) !! id) p).

Lemma step_prog_avoids now p s rd wr s' rd' wr' p' : db_inv s -> avoids p ->
  step_prog now p s rd wr = Some (s', rd', wr', p') ->
  db_inv s' /\ db_statuses s' !! id = db_statuses s !! id /\ avoids p'.
Proof.
  intros Hi Ha Hs. destruct p as [out|k|call|k|k|k|k]; simpl in *; simplify_eq; try done.
  - specialize (Ha _ Hi). destruct (call _) as [[s1 p1]|]; by simplify_eq.
  - destruct wr; by simplify_eq.
  - destruct (_ || _); by simplify_eq.
Qed.

Lemma step_prog_yields Q now p s rd wr s' rd' wr' p' : db_inv s -> yields Q (db_statuses s !! id) p ->
  step_prog now p s rd wr = Some (s', rd', wr', p') -> db_inv s' /\ yields Q (db_statuses s' !! id) p'.
Proof.
  intros Hi Hy Hs. destruct p as [out|k|call|k|k|k|k]; simpl in *; simplify_eq; try done.
  - specialize (Hy _ Hi eq_refl). destruct (call _) as [[s1 p1]|]; by simplify_eq.
  - destruct wr; by simplify_eq.
  - destruct (_ || _); by simplify_eq.
Qed.

Lemma step_at_inv i (c c' : conc (S := S)) : step_at i c = Some c' -> exists p s rd wr p',
  c.(c_procs) !! i = Some p /\ step_prog c.(c_now) p c.(c_store) c.(c_readers) c.(c_writer) = Some (s, rd, wr, p')
  /\ c' = MkConc c.(c_now) s rd wr (<[i := p']> c.(c_procs)) /\ (i < length c.(c_procs))%nat.
Proof.
  unfold step_at. destruct (c_procs c !! i) as [p|] eqn:Hp; [|done]. simpl.
  destruct (step_prog _ p _ _ _) as [[[[s rd] wr] p']|] eqn:Hs; [|done]. intros [= <-].
  exists p, s, rd, wr, p'. split_and!; [done..|]. apply lookup_lt_is_Some. by eexists.
Qed.

Lemma insert_procs (P : nat -> prog S -> Prop) j p' l : (j < length l)%nat -> P j p' ->
  (forall k q, l !! k = Some q -> k <> j -> P k q) -> forall k q, <[j := p']> l !! k = Some q -> P k q.
Proof.
  intros Hj Hp Hl k q Hk. destruct (decide (k = j)) as [->|Hne].
  - rewrite list_lookup_insert_eq in Hk by done. by simplify_eq.
  - rewrite list_lookup_insert_ne in Hk by done. by apply Hl.
Qed.

Lemma apart_step_only i Q c c' : apart_step c c' -> (i < length c.(c_procs))%nat -> only i Q c ->
  only i Q c' /\ (i < length c'.(c_procs))%nat.
Proof.
  destruct 1 as [j c c' Hj|r c Hr|t c Ht]; intros Hlen (Hi & Ha & Hy).
  - apply step_at_inv in Hj as (p & s' & rd & wr & p' & Hp & Hs & -> & Hlt).
    split; [|simpl; by rewrite length_insert]. unfold only. simpl. destruct (decide (j = i)) as [->|Hne].
    + destruct (step_prog_yields Q _ _ _ _ _ _ _ _ _ Hi (Hy _ Hp) Hs) as [Hi' Hy']. split_and!; [done| |].
      * apply (insert_procs (fun k q => k <> i -> avoids q)); [done|done|]. intros k q Hk _ Hne. by apply (Ha k).
      * intros q Hq. rewrite list_lookup_insert_eq in Hq by done. by simplify_eq.
    + destruct (step_prog_avoids _ _ _ _ _ _ _ _ _ Hi (Ha _ _ Hp Hne) Hs) as (Hi' & He & Hav'). split_and!; [done| |].
      * apply (insert_procs (fun k q => k <> i -> avoids q)); [done|done|]. intros k q Hk _ Hne'. by apply (Ha k).
      * intros q Hq. rewrite list_lookup_insert_ne in Hq by done. rewrite He. by apply Hy.
  - simpl. split; [|rewrite length_app; lia]. split_and!; [done| |]; simpl.
    + intros j p [Hj|[Hj Hp]]%lookup_app_Some Hne; [by apply (Ha j)|].
      apply list_lookup_singleton_Some in Hp as [_ <-]. by apply prog_avoids.
    + intros p. rewrite lookup_app_l by done. apply Hy.
  - done.
Qed.

Lemma apart_steps_only i Q c c' : rtc apart_step c c' -> (i < length c.(c_procs))%nat -> only i Q c -> only i Q c'.
Proof.
  induction 1 as [|c1 c2 c3 H12 _ IH]; [done|]. intros Hl Hc.
  destruct (apart_step_only i Q _ _ H12 Hl Hc) as [Hc' Hl']. by apply IH.
Qed.

(** From the start, when nobody touches the status. *)
Lemma apart_all t0 s0 c : db_inv s0 -> rtc apart_step (idle t0 s0) c ->
  db_inv c.(c_store) /\ forall j p, c.(c_procs) !! j = Some p -> avoids p.
Proof.
  intros Hi Hr. assert (Hstart : db_inv (idle t0 s0).(c_store) /\
    forall j p, (idle t0 s0).(c_procs) !! j = Some p -> avoids p) by by split.
  revert Hstart. induction Hr as [|c1 c2 c3 H12 _ IH]; [done|]. intros [Hi1 Ha]. apply IH. clear IH.
  destruct H12 as [j c c' Hj|r c Hr|t c Ht]; [| |done].
  - apply step_at_inv in Hj as (p & s' & rd & wr & p' & Hp & Hs & -> & Hlt).
    destruct (step_prog_avoids _ _ _ _ _ _ _ _ _ Hi1 (Ha _ _ Hp) Hs) as (Hi' & _ & Hav').
    split; [done|]. apply (insert_procs (fun _ => avoids)); [done|done|]. intros k q Hk _. by apply (Ha k).
  - split; [done|]. simpl. intros j p [Hj|[Hj Hp]]%lookup_app_Some; [by apply (Ha j)|].
    apply list_lookup_singleton_Some in Hp as [_ <-]. by apply prog_avoids.
Qed.

(** *** A report and a command *)

Lemma yields_refresh_get (Hre : reads_exact S) Q v wid name k : id = status_id wid name ->
  (forall e, yields Q v (k (default MirrorStatus_zero v, e))) -> yields Q v (refresh_get wid name k).
Proof.
  intros Hid Hk. assert (Hget : yields Q v (read (db_GetMirrorStatus wid name) (fun r => RUnlock (k r)))).
  { apply yields_read. intros s Hs Hv. destruct (read_cur Hre s wid name Hs) as ([m e] & -> & Hm).
    apply returns_ret. simpl in Hm |- *. rewrite Hm, <- Hid, Hv. apply Hk. }
  apply yields_read. intros s Hs Hv.
  destruct (db_get_worker_spec s wid Hs) as (w & [e|] & -> & _); apply returns_ret; [done|].
  intros t s1 Hs1 Hv1. destruct (create_harmless (set_ws_LastOnline t w) s1 Hs1) as ([s2 r] & -> & Hi2 & He).
  split; [done|]. by rewrite He, Hv1.
Qed.

(** What is left of a report when nothing else touches its status: refused for the worker, or
    completed from the status it found, or refused by the store. *)
Definition reported (status : MirrorStatus) (v : option MirrorStatus) (out : response) (v' : option MirrorStatus) : Prop :=
  (exists now new, completed now (default MirrorStatus_zero v) status new
     /\ out = [(StatusOK, BJob new)] /\ v' = Some new)
  \/ (v' = v /\ (status_code out = Some StatusBadRequest \/ status_code out = Some StatusInternalServerError)).

Lemma report_yields (Hre : reads_exact S) wid job doc status v : unmarshal_MirrorStatus doc MirrorStatus_zero = (status, None) ->
  status.(ms_Name) <> EmptyString -> id = status_id wid status.(ms_Name) ->
  yields (reported status v) v (prog_of PostJSON (UpdateJob wid job doc)).
Proof.
  intros Hdoc Hname Hid. apply yields_read. intros s Hs Hv.
  destruct (db_get_worker_spec s wid Hs) as (w & [e|] & -> & _); apply returns_ret; [by right; auto|].
  unfold updateJobOfWorker_prog. rewrite (BindJSON_ok _ _ _ _ Hdoc). rewrite decide_False by done.
  apply yields_refresh_get; [done..|]. intros e now s1 Hs1 Hv1.
  set (new := merge_status now (default MirrorStatus_zero v) status).
  destruct (db_update_status_spec s1 wid status.(ms_Name) new Hs1) as (s2 & e2 & -> & Hi2 & _ & He).
  split; [done|]. rewrite He. destruct e2 as [e2|]; simpl; [right; auto|].
  left. exists now, new. split_and!; [apply merge_completed|done|]. rewrite Hid. apply lookup_insert_eq.
Qed.

(** C20: a report among other requests. While the requests that come before, with and after a
    report all leave its status alone, however their steps interleave with those of the
    report, once it is answered the status is the report completed from the status it found
    when it arrived, or what it was when the worker is unknown or the store refuses. *)
Theorem report_apart (Hre : reads_exact S) wid job doc status t0 s0 c0 c out :
  db_inv s0 -> unmarshal_MirrorStatus doc MirrorStatus_zero = (status, None) ->
  status.(ms_Name) <> EmptyString -> id = status_id wid status.(ms_Name) ->
  rtc apart_step (idle t0 s0) c0 -> rtc apart_step (arrive PostJSON (UpdateJob wid job doc) c0) c ->
  c.(c_procs) !! length c0.(c_procs) = Some (Finish out) ->
  reported status (db_statuses c0.(c_store) !! id) out (db_statuses c.(c_store) !! id).
Proof.
  intros Hi Hdoc Hname Hid H0c Hc Hout. destruct (apart_all t0 s0 c0 Hi H0c) as [Hi0 Ha].
  set (Q := reported status (db_statuses c0.(c_store) !! id)).
  assert (Ho : only (length c0.(c_procs)) Q c).
  { eapply apart_steps_only; [exact Hc|simpl; rewrite length_app; simpl; lia|]. split_and!; [done| |]; simpl.
    - intros j p [Hj|[Hj Hp]]%lookup_app_Some Hne; [by apply (Ha j)|].
      apply list_lookup_singleton_Some in Hp as [Hj0 _]. lia.
    - intros p. rewrite lookup_app_r, Nat.sub_diag by done. intros [= <-]. by apply report_yields. }
  destruct Ho as (_ & _ & Hy). exact (Hy _ Hout).
Qed.
End apart.

(** ** Races

    An order of steps, run. *)
Section run.
Context {S : Type} `{DbLaws S} {TT : TimeText}.
Context (PostJSON : string -> WorkerCmd -> option error).

Fixpoint run_order (order : list nat) (c : conc (S := S)) : option conc :=
  match order with
  | [] => Some c
  | i :: order => c ← step_at i c; run_order order c
  end.

Lemma run_order_steps order c c' : run_order order c = Some c' -> rtc (conc_step PostJSON) c c'.
Proof.
  revert c. induction order as [|i order IH]; intros c; simpl; [by intros [= <-]|].
  destruct (step_at i c) as [c1|] eqn:Hi; [|done]. simpl. intros Hr.
  eapply rtc_l; [by apply (cs_run PostJSON i)|]. by apply IH.
Qed.

(** What is to be seen of the end of a run. *)
Lemma run_order_result {A} (f : conc (S := S) -> A) order c a :
  match run_order order c with Some c' => Some (f c') | None => None end = Some a ->
  exists c', run_order order c = Some c' /\ f c' = a.
Proof. destruct (run_order order c) as [c'|]; [|done]. intros [= <-]. by exists c'. Qed.

(** Two requests that arrive together at the instant [t]. *)
Definition both (t : Z) (s : S) (r1 r2 : request) : conc :=
  arrive PostJSON r2 (arrive PostJSON r1 (idle t s)).

Lemma both_steps t s r1 r2 order c : run_order order (both t s r1 r2) = Some c -> rtc (conc_step PostJSON) (idle t s) c.
Proof.
  intros Hr. eapply rtc_l; [apply cs_arrive|]. eapply rtc_l; [apply cs_arrive|]. by eapply run_order_steps.
Qed.

(** The answers, when all are finished. *)
Definition answers (c : conc (S := S)) : option (list response) :=
  mapM (fun p => match p with Finish out => Some out | _ => None end) c.(c_procs).
End run.

Import Mem.

Definition ex_moved : json := JObj [("id", JStr "w1"); ("url", JStr "http://w2:6000/")].

(** When debian was last updated, and the address of w1. *)
Definition ex_last_update (s : store) : option Z :=
  match db_statuses s !! status_id "w1" "debian" with Some m => Some m.(ms_LastUpdate) | None => None end.
Definition ex_url (s : store) : option string :=
  match db_workers s !! "w1" with Some w => Some w.(ws_URL) | None => None end.

Definition ex_update : request := UpdateJob "w1" "debian" (ex_report "debian").

(** The stop reads the status, the report comes and goes, the stop writes. *)
Definition ex_stop_order : list nat := replicate 6 0%nat ++ replicate 11 1%nat ++ replicate 3 0%nat.
(** The report reads the worker, the registration comes and goes, the report writes. *)
Definition ex_register_order : list nat := replicate 3 0%nat ++ replicate 3 1%nat ++ replicate 8 0%nat.

Definition ex_all_ok (c : conc (S := store)) : bool :=
  match answers c with Some outs => bool_decide (omap status_code outs = [StatusOK; StatusOK]) | None => false end.

Definition ex_end (c : conc (S := store)) : bool * option Z * option string :=
  (ex_all_ok c, ex_last_update c.(c_store), ex_url c.(c_store)).

Lemma ex_raced r1 r2 order ok u a :
  match run_order order (both no_post 7 ex_store r1 r2) with Some c => Some (ex_end c) | None => None end
    = Some (ok, u, a) ->
  exists c, rtc (conc_step no_post) (idle 7 ex_store) c
    /\ ex_all_ok c = ok /\ ex_last_update c.(c_store) = u /\ ex_url c.(c_store) = a.
Proof.
  intros (c & Hr & [= <- <- <-])%(run_order_result ex_end). exists c. split; [by eapply both_steps|done].
Qed.

(** One after the other. *)
Definition ex_served {A} (f : store -> A) (rs : list request) : option A :=
  match serve_all no_post 7 rs ex_store with Ret s => Some (f s) | Panic _ => None end.

Lemma ex_served_spec {A} (f : store -> A) (a : A) rss : Forall (fun rs => ex_served f rs = Some a) rss ->
  forall rs, rs ∈ rss -> exists s, serve_all no_post 7 rs ex_store ⇓ s /\ f s = a.
Proof.
  rewrite Forall_forall. intros Hall rs Hrs. specialize (Hall rs Hrs). unfold ex_served in Hall.
  destruct (serve_all _ _ _ _) as [s|]; [|done]. injection Hall as <-. by exists s.
Qed.

(** Handlers are not serializable. A stop that reads the status before a report is written
    and writes after it erases the update the report announced, though both are answered 200
    and the update survives when either comes first; and a report that refreshes its worker
    around a registration, which takes no lock, puts back the address the worker had
    before, to which neither order leads. *)
Theorem handlers_race :
  (exists c, rtc (conc_step no_post) (idle 7 ex_store) c
    /\ ex_all_ok c = true /\ ex_last_update c.(c_store) = Some 5)
  /\ (forall rs, rs ∈ [[Manager.Cmd ex_stop; ex_update]; [ex_update; Manager.Cmd ex_stop]] ->
       exists s, serve_all no_post 7 rs ex_store ⇓ s /\ ex_last_update s = Some 7)
  /\ (exists c, rtc (conc_step no_post) (idle 7 ex_store) c
       /\ ex_all_ok c = true /\ ex_url c.(c_store) = Some "http://w1:6000/")
  /\ (forall rs, rs ∈ [[RegisterWorker ex_moved; ex_update]; [ex_update; RegisterWorker ex_moved]] ->
       exists s, serve_all no_post 7 rs ex_store ⇓ s /\ ex_url s = Some "http://w2:6000/").
Proof.
  split_and!.
  - destruct (ex_raced (Manager.Cmd ex_stop) ex_update ex_stop_order true (Some 5) (Some "http://w1:6000/"))
      as (c & Hc & Ho & Hu & _); [vm_compute; reflexivity|by exists c].
  - apply ex_served_spec. repeat constructor; vm_compute; reflexivity.
  - destruct (ex_raced ex_update (RegisterWorker ex_moved) ex_register_order true (Some 7) (Some "http://w1:6000/"))
      as (c & Hc & Ho & _ & Ha); [vm_compute; reflexivity|by exists c].
  - apply ex_served_spec. repeat constructor; vm_compute; reflexivity.
Qed.

(** *** Witnesses *)

Lemma alone_serves_witness : alone 7 (prog_of no_post ex_update) ex_store = serve no_post (fun _ => 7) ex_update ex_store
  /\ (exists s, alone 7 (prog_of no_post ex_update) ex_store = Ret s).
Proof.
  split; [exact (alone_serves no_post 7 ex_update ex_store)|].
  destruct (serve_ok no_post 7 (fun _ => 7) ex_update ex_store) as (r & Hr & _);
    [discriminate|reflexivity|apply (store_ok_mono 5); [lia|exact ex_store_ok]|].
  exists r. rewrite <- Hr. exact (alone_serves no_post 7 ex_update ex_store).
Defined.

Definition ex_unfinished (p : prog store) : bool := match p with Finish _ => false | _ => true end.

Definition ex_running (i : nat) (c : conc (S := store)) : bool :=
  match c.(c_procs) !! i with Some p => ex_unfinished p | None => true end.

Lemma ex_finished i c : ex_running i c = false -> exists out, c.(c_procs) !! i = Some (Finish out).
Proof. unfold ex_running. destruct (c_procs c !! i) as [[out|k|k|k|k|k|k]|]; try done. by exists out. Qed.

(** Two requests in flight that both hold the lock for reading. *)
Lemma requests_never_block_witness :
  exists c, run_order [0; 0; 1]%nat (both no_post 7 ex_store ex_update ListWorkers) = Some c
    /\ c.(c_readers) = 2%nat /\ store_ok c.(c_now) c.(c_store) /\ exists i, is_Some (step_at i c).
Proof.
  destruct (run_order_result (fun c => (c_readers c, existsb ex_unfinished (c_procs c)))
    [0; 0; 1]%nat (both no_post 7 ex_store ex_update ListWorkers) (2%nat, true))
    as (c & Hr & Hc); [vm_compute; reflexivity|]. injection Hc as Hrd Hex.
  exists c. destruct (requests_never_block no_post 7 ex_store c) as (Hs & _ & Hp).
  - vm_compute. discriminate.
  - apply (store_ok_mono 5); [lia|exact ex_store_ok].
  - by eapply both_steps.
  - split_and!; [exact Hr|exact Hrd|exact Hs|]. apply Hp. apply existsb_exists in Hex as (p & Hin & Hp').
    apply Exists_exists. exists p. split; [by apply list_elem_of_In|].
    intros Hf. destruct p; [discriminate Hp'|destruct Hf..].
Defined.

Lemma ex_apart_run order c c' : run_order order c = Some c' -> rtc (apart_step no_post (status_id "w1" "debian")) c c'.
Proof.
  revert c. induction order as [|i order IH]; intros c; simpl; [intros [= <-]; apply rtc_refl|].
  destruct (step_at i c) as [c1|] eqn:Hi; [|discriminate]. simpl. intros Hr.
  eapply rtc_l; [by apply (as_run no_post _ i)|]. by apply IH.
Qed.

(** A report runs to its end while a listing waits. *)
Lemma report_apart_witness :
  exists c out, run_order (replicate 11 0%nat) (both no_post 7 ex_store ex_update ListAllJobs) = Some c
    /\ c.(c_procs) !! 0%nat = Some (Finish out)
    /\ reported (ex_status "debian") (Some ex_stored) out (db_statuses c.(c_store) !! status_id "w1" "debian").
Proof.
  destruct (run_order_result (ex_running 0) (replicate 11 0%nat) (both no_post 7 ex_store ex_update ListAllJobs) false)
    as (c & Hr & (out & Hp)%ex_finished); [vm_compute; reflexivity|].
  exists c, out. split_and!; [exact Hr|exact Hp|]. rewrite <- ex_store_statuses.
  apply (report_apart no_post (status_id "w1" "debian") mem_reads_exact "w1" "debian" (ex_report "debian") (ex_status "debian")
    7 ex_store (idle 7 ex_store) c out (proj1 ex_store_ok) (ex_report_decodes "debian") ltac:(discriminate) eq_refl
    (rtc_refl _ _)); [|exact Hp].
  apply (rtc_l _ _ (both no_post 7 ex_store ex_update ListAllJobs)); [|exact (ex_apart_run _ _ _ Hr)].
  exact (as_arrive no_post (status_id "w1" "debian") ListAllJobs (arrive no_post ex_update (idle 7 ex_store)) (fun H => H)).
Defined.
