(* ===== verification/ManagerConfig.v ===== *)
(** * manager/config.go, and the start of the manager

    Where each setting of the manager comes from, and what [GetTUNASyncManager],
    [makeDBAdapter] and [Run] make of them: which storage is opened and whether TLS is
    spoken. *)

From S2P Require Import Prelude.

Local Open Scope string_scope.
Local Open Scope list_scope.
Local Open Scope Z_scope.

Record ServerConfig : Type := MkServerConfig { Addr : string; Port : Z; SSLCert : string; SSLKey : string }.

Record FileConfig : Type := MkFileConfig {
  StatusFile : string;
  DBFile : string;
  DBType : string;
  CACert : string
}.

Record Config : Type := MkConfig { Debug : bool; Server : ServerConfig; Files : FileConfig }.

(** The keys a file holds: the decoder leaves the fields of the others. *)
Record config_file : Type := MkConfigFile {
  cf_debug : option bool;
  cf_addr : option string;
  cf_port : option Z;
  cf_ssl_cert : option string;
  cf_ssl_key : option string;
  cf_status_file : option string;
  cf_db_file : option string;
  cf_db_type : option string;
  cf_ca_cert : option string
}.

Definition decoded (f : config_file) (c : Config) : Config :=
  MkConfig (default c.(Debug) f.(cf_debug))
    (MkServerConfig (default c.(Server).(Addr) f.(cf_addr)) (default c.(Server).(Port) f.(cf_port))
       (default c.(Server).(SSLCert) f.(cf_ssl_cert)) (default c.(Server).(SSLKey) f.(cf_ssl_key)))
    (MkFileConfig (default c.(Files).(StatusFile) f.(cf_status_file)) (default c.(Files).(DBFile) f.(cf_db_file))
       (default c.(Files).(DBType) f.(cf_db_type)) (default c.(Files).(CACert) f.(cf_ca_cert))).

(** The flags, empty or 0 when not given. *)
Record flags : Type := MkFlags {
  fl_addr : string;
  fl_port : Z;
  fl_cert : string;
  fl_key : string;
  fl_status_file : string;
  fl_db_file : string;
  fl_db_type : string
}.

Definition default_config : Config :=
  MkConfig false (MkServerConfig "127.0.0.1" 14242 EmptyString EmptyString)
    (MkFileConfig "/var/lib/tunasync/tunasync.json" "/var/lib/tunasync/tunasync.db" "bolt" EmptyString).

(** The flag when it is given. *)
Definition given (flag old : string) : string := if decide (flag <> EmptyString) then flag else old.

Section load.
(** [read] is what the contents of a file decode to. *)
Context (read : string -> result config_file).

Definition LoadConfig (cfgFile : string) (c : nilable flags) : result Config :=
  cfg ← (if decide (cfgFile <> EmptyString) then f ← read cfgFile; Ok (decoded f default_config)
         else Ok default_config);
  match c with
  | None => Ok cfg
  | Some c =>
      let s := cfg.(Server) in
      let s := MkServerConfig (given c.(fl_addr) s.(Addr)) s.(Port) s.(SSLCert) s.(SSLKey) in
      let s := if decide (0 < c.(fl_port)) then MkServerConfig s.(Addr) c.(fl_port) s.(SSLCert) s.(SSLKey) else s in
      let s := if decide (c.(fl_cert) <> EmptyString /\ c.(fl_key) <> EmptyString)
               then MkServerConfig s.(Addr) s.(Port) c.(fl_cert) c.(fl_key) else s in
      let f := cfg.(Files) in
      let f := MkFileConfig (given c.(fl_status_file) f.(StatusFile)) (given c.(fl_db_file) f.(DBFile))
                 (given c.(fl_db_type) f.(DBType)) f.(CACert) in
      Ok (MkConfig cfg.(Debug) s f)
  end.
End load.

(** ** Starting *)

(** What the start asks of the outside. *)
Inductive opening : Type :=
| NewClient (caCert : string)
| OpenBolt (file : string)
| OpenRedis (url : string)
| OpenBadger (dir : string)
| OpenLeveldb (dir : string).

Definition unsupported (dbType : string) : error := "unsupported db-type: " +:+ dbType.

(** Opening and initialising the storage; [answer] is the error of either. *)
Definition makeDBAdapter (answer : opening -> option error) (dbType dbFile : string)
    : list opening * option error :=
  if decide (dbType = "bolt") then ([OpenBolt dbFile], answer (OpenBolt dbFile))
  else if decide (dbType = "redis") then ([OpenRedis dbFile], answer (OpenRedis dbFile))
  else if decide (dbType = "badger") then ([OpenBadger dbFile], answer (OpenBadger dbFile))
  else if decide (dbType = "leveldb") then ([OpenLeveldb dbFile], answer (OpenLeveldb dbFile))
  else ([], Some (unsupported dbType)).

(** A manager: whether it has storage. *)
Record started : Type := MkStarted { has_adapter : bool }.

(** [GetTUNASyncManager] when there is no manager yet: nothing when it fails. *)
Definition GetTUNASyncManager (answer : opening -> option error) (cfg : Config) : list opening * option started :=
  let '(asked, err) :=
    if decide (cfg.(Files).(CACert) <> EmptyString)
    then ([NewClient cfg.(Files).(CACert)], answer (NewClient cfg.(Files).(CACert)))
    else ([], None) in
  match err with
  | Some _ => (asked, None)
  | None =>
      if decide (cfg.(Files).(DBFile) <> EmptyString) then
        let '(asked', err) := makeDBAdapter answer cfg.(Files).(DBType) cfg.(Files).(DBFile) in
        (asked ++ asked', match err with Some _ => None | None => Some (MkStarted true) end)
      else (asked, Some (MkStarted false))
  end.

(** [Run] listens: the address and whether it speaks TLS. *)
Definition Run_listens (cfg : Config) : string * bool :=
  (cfg.(Server).(Addr) +:+ ":" +:+ pretty cfg.(Server).(Port),
   negb (bool_decide (cfg.(Server).(SSLCert) = EmptyString /\ cfg.(Server).(SSLKey) = EmptyString))).

(** ** Which setting counts *)

(** The flag, else the file, else the default. *)
Definition setting (flag : string) (file : option string) (dflt : string) : string :=
  if decide (flag = EmptyString) then default dflt file else flag.

Lemma given_setting flag file dflt : given flag (default dflt file) = setting flag file dflt.
Proof. unfold given, setting. destruct (decide (flag = EmptyString)); by case_decide. Qed.

(** The settings of the manager. Of the address, the port and the files the flag counts
    when it is given, else the file of the configuration, else the default; a certificate
    and a key given as flags count only together, else those of the file do, and the
    manager speaks TLS exactly when one of the two is set. *)
Theorem manager_config_precedence read cfgFile f c :
  cfgFile <> EmptyString -> read cfgFile = Ok f ->
  exists cfg, LoadConfig read cfgFile (Some c) = Ok cfg
  /\ cfg.(Server).(Addr) = setting c.(fl_addr) f.(cf_addr) "127.0.0.1"
  /\ cfg.(Server).(Port) = (if decide (c.(fl_port) <= 0) then default 14242 f.(cf_port) else c.(fl_port))
  /\ (let both := bool_decide (c.(fl_cert) <> EmptyString /\ c.(fl_key) <> EmptyString) in
      cfg.(Server).(SSLCert) = (if both then c.(fl_cert) else default EmptyString f.(cf_ssl_cert))
      /\ cfg.(Server).(SSLKey) = (if both then c.(fl_key) else default EmptyString f.(cf_ssl_key))
      /\ ((Run_listens cfg).2 = true <->
          both = true \/ default EmptyString f.(cf_ssl_cert) <> EmptyString
          \/ default EmptyString f.(cf_ssl_key) <> EmptyString))
  /\ cfg.(Files).(StatusFile) = setting c.(fl_status_file) f.(cf_status_file) "/var/lib/tunasync/tunasync.json"
  /\ cfg.(Files).(DBFile) = setting c.(fl_db_file) f.(cf_db_file) "/var/lib/tunasync/tunasync.db"
  /\ cfg.(Files).(DBType) = setting c.(fl_db_type) f.(cf_db_type) "bolt"
  /\ cfg.(Files).(CACert) = default EmptyString f.(cf_ca_cert)
  /\ cfg.(Debug) = default false f.(cf_debug).
Proof.
  intros Hne Hr. unfold LoadConfig. rewrite decide_True by done. rewrite Hr. simpl.
  eexists. split; [done|]. simpl.
  destruct (decide (fl_cert c <> EmptyString /\ fl_key c <> EmptyString)) as [[Hc Hk]|Hck];
    [rewrite bool_decide_true by done|rewrite bool_decide_false by done];
    (destruct (decide (0 < fl_port c)); simpl; [rewrite (decide_False (P := fl_port c <= 0)) by lia
                                               |rewrite (decide_True (P := fl_port c <= 0)) by lia]);
    rewrite !given_setting; (split_and!; try done);
    unfold Run_listens; simpl; rewrite negb_true_iff, bool_decide_eq_false.
  1, 2: split; [by left|]; intros _ [? _]; done.
  all: destruct (decide (default EmptyString (cf_ssl_cert f) = EmptyString)),
         (decide (default EmptyString (cf_ssl_key f) = EmptyString)); naive_solver.
Qed.

(** What a manager without a database path does: it starts, and has no storage to answer
    requests from. *)
Lemma no_db_file answer cfg : cfg.(Files).(DBFile) = EmptyString -> cfg.(Files).(CACert) = EmptyString ->
  GetTUNASyncManager answer cfg = ([], Some (MkStarted false)).
Proof. intros Hd Hc. unfold GetTUNASyncManager. by rewrite Hd, Hc. Qed.

(** An opening that is one of a storage. *)
Definition is_storage (o : opening) : bool := match o with NewClient _ => false | _ => true end.

Lemma makeDBAdapter_opens answer dbType dbFile :
  match makeDBAdapter answer dbType dbFile with
  | (asked, None) => exists o, asked = [o] /\ is_storage o = true /\ answer o = None
  | (_, Some _) => True
  end.
Proof.
  unfold makeDBAdapter. repeat case_decide; try done;
    match goal with |- context [answer ?o] => destruct (answer o) eqn:Eo end; eauto.
Qed.

(** The storage of the manager. A manager that starts has opened exactly one storage when
    a path is configured, of one of the four known types and without an error, and none
    otherwise; an unknown type never starts. *)
Theorem one_storage answer cfg :
  let opened := filter (fun o => is_storage o = true) (GetTUNASyncManager answer cfg).1 in
  (forall m, (GetTUNASyncManager answer cfg).2 = Some m ->
     if m.(has_adapter) then exists o, opened = [o] /\ answer o = None
     else opened = [] /\ cfg.(Files).(DBFile) = EmptyString)
  /\ (cfg.(Files).(DBFile) <> EmptyString -> cfg.(Files).(DBType) ∉ ["bolt"; "redis"; "badger"; "leveldb"] ->
      (GetTUNASyncManager answer cfg).2 = None).
Proof.
  unfold GetTUNASyncManager. pose proof (makeDBAdapter_opens answer (DBType (Files cfg)) (DBFile (Files cfg))) as Ho.
  split.
  - intros m. destruct (makeDBAdapter _ _ _) as [asked [e|]];
      [|destruct Ho as (o & -> & Hs & Ho)];
      (destruct (decide (CACert (Files cfg) <> EmptyString)); [destruct (answer (NewClient _)); [done|]|]);
      destruct (decide (DBFile (Files cfg) <> EmptyString)) as [Hd|Hd];
      intros [= <-]; cbn [fst has_adapter app]; rewrite ?filter_cons; simpl; rewrite ?Hs; simpl;
      first [by exists o | by destruct (decide (DBFile (Files cfg) = EmptyString))].
  - clear Ho. intros Hd Ht. rewrite !not_elem_of_cons in Ht. destruct Ht as (H1 & H2 & H3 & H4 & _). unfold makeDBAdapter.
    destruct (decide (CACert (Files cfg) <> EmptyString)); [destruct (answer (NewClient _)); [done|]|];
      rewrite decide_True by done; rewrite !decide_False by done; done.
Qed.

(** *** Witnesses *)

Definition ex_file : config_file :=
  MkConfigFile (Some true) (Some "0.0.0.0") None (Some "/etc/a.crt") (Some "/etc/a.key") None None (Some "redis") None.

Lemma manager_config_precedence_witness :
  exists cfg, LoadConfig (fun _ => Ok ex_file) "manager.conf"
      (Some (MkFlags EmptyString 443 "/tmp/b.crt" EmptyString EmptyString "redis://db" EmptyString)) = Ok cfg
    /\ cfg.(Server).(Port) = 443 /\ cfg.(Server).(SSLCert) = "/etc/a.crt" /\ cfg.(Files).(DBType) = "redis".
Proof.
  destruct (manager_config_precedence (fun _ => Ok ex_file) "manager.conf" ex_file
    (MkFlags EmptyString 443 "/tmp/b.crt" EmptyString EmptyString "redis://db" EmptyString)
    ltac:(discriminate) eq_refl) as (cfg & H & _ & Hp & (Hc & _) & _ & _ & Ht & _).
  exists cfg. split; [exact H|]. split; [exact Hp|]. split; [exact Hc|exact Ht].
Defined.

Lemma one_storage_witness :
  exists o, (GetTUNASyncManager (fun _ => None) default_config).1 = [o].
Proof.
  destruct (proj1 (one_storage (fun _ => None) default_config) (MkStarted true) eq_refl) as (o & H & _).
  exists o. exact H.
Defined.
