(* ===== verification/Context.v ===== *)
(** * worker/context.go: layered settings

    A context is a stack of string-keyed layers.  A provider keeps its working
    directory, log directory and log file there; a hook that needs other values for one
    run enters a layer, sets them and exits the layer afterwards.  A value is an
    [interface{}]: the code stores strings and, for the volumes of a container, a list of
    strings.  [EnterContext] and [ExitContext] of
    [base_provider.go] are the two ways a provider replaces its context. *)

From S2P Require Import Prelude.

Local Open Scope string_scope.
Local Open Scope list_scope.

Definition _WorkingDirKey : string := "working_dir".
Definition _LogDirKey : string := "log_dir".
Definition _LogFileKey : string := "log_file".

(** ** The type *)

Inductive value : Type :=
| VStr (s : string)
| VStrs (l : list string).

Inductive Context : Type :=
| MkContext (parent : option Context) (store : gmap string value).

Definition ctx_parent (ctx : Context) : option Context :=
  match ctx with MkContext p _ => p end.
Definition ctx_store (ctx : Context) : gmap string value :=
  match ctx with MkContext _ s => s end.

Definition NewContext : Context := MkContext None ∅.

Definition Enter (ctx : Context) : Context := MkContext (Some ctx) ∅.

Definition Exit (ctx : Context) : nilable Context * option error :=
  match ctx_parent ctx with
  | None => (None, Some "Cannot exit the bottom layer context")
  | Some p => (Some p, None)
  end.

Fixpoint Get (ctx : Context) (key : string) : option value :=
  match ctx with
  | MkContext None store =>
      match store !! key with
      | Some v => Some v
      | None => None
      end
  | MkContext (Some parent) store =>
      match store !! key with
      | Some v => Some v
      | None => Get parent key
      end
  end.

Definition Set_ (key : string) (v : value) (ctx : Context) : Context :=
  MkContext (ctx_parent ctx) (<[key := v]> (ctx_store ctx)).

(** ** The reference: the layers merged, the top one first *)

Fixpoint layers (ctx : Context) : list (gmap string value) :=
  match ctx with
  | MkContext None s => [s]
  | MkContext (Some p) s => s :: layers p
  end.

Definition flatten (ctx : Context) : gmap string value := ⋃ layers ctx.

Definition depth (ctx : Context) : nat := length (layers ctx).

Lemma flatten_cons p s : flatten (MkContext (Some p) s) = s ∪ flatten p.
Proof. done. Qed.

Lemma Get_flatten ctx key : Get ctx key = flatten ctx !! key.
Proof.
  revert ctx. fix IH 1. intros [[p|] s]; cbn [Get].
  - rewrite flatten_cons, lookup_union, IH.
    destruct (s !! key), (flatten p !! key); done.
  - unfold flatten. simpl. rewrite right_id by apply _. by case_match.
Qed.

Lemma Get_Enter ctx key : Get (Enter ctx) key = Get ctx key.
Proof. unfold Enter. cbn [Get]. by rewrite lookup_empty. Qed.

Lemma Get_Set key key' v ctx :
  Get (Set_ key v ctx) key' = if decide (key = key') then Some v else Get ctx key'.
Proof.
  destruct ctx as [[p|] s]; unfold Set_; cbn [Get ctx_parent ctx_store]; case_decide as Hk; subst.
  - by rewrite lookup_insert_eq.
  - by rewrite lookup_insert_ne.
  - by rewrite lookup_insert_eq.
  - by rewrite lookup_insert_ne.
Qed.

Lemma Exit_Set key v ctx : Exit (Set_ key v ctx) = Exit ctx.
Proof. by destruct ctx. Qed.

Lemma Exit_Enter ctx : Exit (Enter ctx) = (Some ctx, None).
Proof. done. Qed.

(** ** A provider's context: nil once [ExitContext] has left the bottom layer *)

(** [p.ctx = p.ctx.Enter()]: [Enter] does not look into its receiver, so a nil context
    enters a layer whose parent is nil. *)
Definition EnterContext (p : nilable Context) : nilable Context := Some (MkContext p ∅).

(** [p.ctx, _ = p.ctx.Exit()] *)
Definition ExitContext (p : nilable Context) : comp (nilable Context) :=
  match p with
  | None => Panic "runtime error: invalid memory address or nil pointer dereference"
  | Some ctx => Ret (Exit ctx).1
  end.

(** [WorkingDir], [LogDir] and [LogFile]. *)
Definition ctx_get (p : nilable Context) (key missing : string) : comp string :=
  match p with
  | None => Panic "runtime error: invalid memory address or nil pointer dereference"
  | Some ctx => match Get ctx key with Some (VStr s) => Ret s | _ => Panic missing end
  end.

Definition WorkingDir (p : nilable Context) : comp string :=
  ctx_get p _WorkingDirKey "working dir is impossible to be non-exist".
Definition LogDir (p : nilable Context) : comp string :=
  ctx_get p _LogDirKey "log dir is impossible to be unavailable".
Definition LogFile (p : nilable Context) : comp string :=
  ctx_get p _LogFileKey "log file is impossible to be unavailable".

(** The context the constructors of the providers leave. *)
Definition provider_context (workingDir logDir logFile : string) : Context :=
  Set_ _LogFileKey (VStr logFile) (Set_ _LogDirKey (VStr logDir) (Set_ _WorkingDirKey (VStr workingDir) NewContext)).

(** ** Properties *)

(** The operations a hook performs between entering and leaving a layer. *)
Definition sets (kvs : list (string * value)) (ctx : Context) : Context :=
  foldl (fun c kv => Set_ kv.1 kv.2 c) ctx kvs.

Lemma Exit_sets kvs ctx : Exit (sets kvs ctx) = Exit ctx.
Proof.
  revert ctx. induction kvs as [|kv kvs IH]; intros ctx; [done|].
  change (sets (kv :: kvs) ctx) with (sets kvs (Set_ kv.1 kv.2 ctx)). by rewrite IH, Exit_Set.
Qed.

(** A context is the stack its comment promises. A lookup answers the innermost layer
    that has the key, which is a lookup in the union of the layers; whatever is set after
    entering a layer, exiting it gives back the very context that was entered; and the
    bottom layer cannot be left. *)
Theorem context_is_a_stack ctx kvs key :
  Get ctx key = flatten ctx !! key
  /\ Exit (sets kvs (Enter ctx)) = (Some ctx, None)
  /\ (forall v, Get (Set_ key v (Enter ctx)) key = Some v)
  /\ Get (Enter ctx) key = Get ctx key
  /\ (is_Some (Exit ctx).2 <-> depth ctx = 1%nat).
Proof.
  split_and!.
  - apply Get_flatten.
  - by rewrite Exit_sets.
  - intros v. rewrite Get_Set. by rewrite decide_True.
  - apply Get_Enter.
  - unfold Exit, depth. destruct ctx as [[p|] s]; simpl; [|by split; [|by eexists]].
    split; [by intros []|]. destruct p as [[p'|] s']; simpl; lia.
Qed.

(** The context a provider is built with answers its three settings, whatever layers
    are entered on top of it; setting the log file in a layer changes the log file and
    nothing else, until the layer is left. *)
Theorem provider_context_total workingDir logDir logFile latest :
  let ctx := provider_context workingDir logDir logFile in
  WorkingDir (Some ctx) = Ret workingDir /\ LogDir (Some ctx) = Ret logDir
  /\ LogFile (Some ctx) = Ret logFile
  /\ let inner := Some (Set_ _LogFileKey (VStr latest) (Enter ctx)) in
     WorkingDir inner = Ret workingDir /\ LogDir inner = Ret logDir
     /\ LogFile inner = Ret latest /\ ExitContext inner = Ret (Some ctx).
Proof.
  intros ctx.
  assert (Hw : Get ctx _WorkingDirKey = Some (VStr workingDir)) by (unfold ctx, provider_context; by rewrite !Get_Set).
  assert (Hd : Get ctx _LogDirKey = Some (VStr logDir)) by (unfold ctx, provider_context; by rewrite !Get_Set).
  assert (Hf : Get ctx _LogFileKey = Some (VStr logFile)) by (unfold ctx, provider_context; by rewrite !Get_Set).
  unfold WorkingDir, LogDir, LogFile, ctx_get. rewrite Hw, Hd, Hf.
  rewrite !Get_Set, !Get_Enter, Hw, Hd. done.
Qed.

(** Leaving the bottom layer loses the settings. A provider whose context has only the
    bottom layer answers nothing after [ExitContext] but panics, since the error of [Exit]
    is thrown away with the context. *)
Theorem exit_bottom_loses_context ctx :
  depth ctx = 1%nat ->
  ExitContext (Some ctx) = Ret None
  /\ (exists m, LogFile None = Panic m) /\ (exists m, ExitContext None = Panic m).
Proof.
  intros Hd. destruct ctx as [[p|] s].
  - unfold depth in Hd. cbn [layers length] in Hd. destruct p as [[p'|] s']; simpl in Hd; lia.
  - split; [done|]. split; by eexists.
Qed.

Lemma exit_bottom_loses_context_witness :
  ExitContext (Some (provider_context "/data/debian" "/log" "/log/latest.log")) = Ret None.
Proof.
  apply (exit_bottom_loses_context (provider_context "/data/debian" "/log" "/log/latest.log")).
  reflexivity.
Defined.
