(* ===== verification/Schedule.v ===== *)
(** * worker/schedule.go: the queue of jobs waiting for their time

    The queue is a skip list of jobs ordered by instant next to the set of the names it
    believes scheduled.  The skip list (goskiplist) is not part of the repository: it
    is a map whose keys are compared by [timeLessThan], so that two equal instants are
    one key.  [view] reads the queue as a finite map from job names to instants, and the
    specifications below are equations on that map. *)

From S2P Require Import Prelude.

Local Open Scope string_scope.
Local Open Scope list_scope.
Local Open Scope Z_scope.

(** ** The skip list *)

(** [sl_entries] is what its iterator walks: the entries in increasing order of keys. *)
Class SkipList (J L : Type) := {
  sl_entries : L -> list (Z * J);
  sl_empty : L;
  sl_set : Z -> J -> L -> L;
  sl_delete : Z -> L -> L;
  sl_empty_entries : sl_entries sl_empty = [];
  sl_sorted l : StronglySorted Z.lt (sl_entries l).*1;
  sl_set_entries t j l t' j' : (t', j') ∈ sl_entries (sl_set t j l) <->
    (t' = t /\ j' = j) \/ (t' <> t /\ (t', j') ∈ sl_entries l);
  sl_delete_entries t l t' j' : (t', j') ∈ sl_entries (sl_delete t l) <->
    t' <> t /\ (t', j') ∈ sl_entries l
}.

(** A sorted association list, on which the theorems can be run. *)
Section assoc.
Context {J : Type}.

Fixpoint assoc_set (t : Z) (j : J) (l : list (Z * J)) : list (Z * J) :=
  match l with
  | [] => [(t, j)]
  | (t', j') :: l' =>
      if t <? t' then (t, j) :: l
      else if t =? t' then (t, j) :: l'
      else (t', j') :: assoc_set t j l'
  end.

Lemma assoc_set_fst t j l x : x ∈ (assoc_set t j l).*1 -> x = t \/ x ∈ l.*1.
Proof.
  induction l as [|[t' j'] l IH]; cbn [assoc_set].
  - cbn. rewrite !elem_of_cons. auto.
  - destruct (Z.ltb_spec t t'); [|destruct (Z.eqb_spec t t')]; cbn;
      rewrite !elem_of_cons; [tauto|tauto|]. intros [->|Hx]; [tauto|]. apply IH in Hx. tauto.
Qed.

Lemma assoc_set_sorted t j l :
  StronglySorted Z.lt l.*1 -> StronglySorted Z.lt (assoc_set t j l).*1.
Proof.
  induction l as [|[t' j'] l IH]; cbn [assoc_set]; intros Hs.
  - repeat constructor.
  - cbn in Hs. apply StronglySorted_inv in Hs as [Hs Hf].
    destruct (Z.ltb_spec t t'); [|destruct (Z.eqb_spec t t')]; cbn.
    + constructor; [by constructor|]. constructor; [lia|].
      eapply Forall_impl; [exact Hf|]. intros; lia.
    + subst. by constructor.
    + constructor; [by apply IH|]. apply Forall_forall. intros x Hx.
      apply assoc_set_fst in Hx as [->|Hx]; [lia|]. rewrite Forall_forall in Hf. by apply Hf.
Qed.

Lemma assoc_set_spec t j l t' j' : StronglySorted Z.lt l.*1 ->
  (t', j') ∈ assoc_set t j l <-> (t' = t /\ j' = j) \/ (t' <> t /\ (t', j') ∈ l).
Proof.
  induction l as [|[t0 j0] l IH]; cbn [assoc_set]; intros Hs.
  - rewrite list_elem_of_singleton, elem_of_nil.
    split; [intros [= -> ->]; auto|intros [[-> ->]|[_ []]]; done].
  - cbn in Hs. apply StronglySorted_inv in Hs as [Hs Hf]. rewrite Forall_forall in Hf.
    assert (Hlt : (t', j') ∈ l -> t0 < t').
    { intros Hin. apply Hf. by apply (list_elem_of_fmap_2 fst) in Hin. }
    destruct (Z.ltb_spec t t0); [|destruct (Z.eqb_spec t t0)];
      rewrite !elem_of_cons; [| |rewrite IH by done];
      (split; [intros Hx|intros Hx];
       repeat match goal with
       | H : _ \/ _ |- _ => destruct H
       | H : _ /\ _ |- _ => destruct H
       | H : (_, _) = (_, _) |- _ => injection H as H; subst
       end; try tauto; subst; try tauto; try (right; split; [|tauto]; try lia);
       try (specialize (Hlt ltac:(done)); lia); auto).
Qed.

Definition assoc_list : Type := { l : list (Z * J) | StronglySorted Z.lt l.*1 }.

Lemma assoc_filter_sorted t (l : list (Z * J)) :
  StronglySorted Z.lt l.*1 -> StronglySorted Z.lt (filter (fun tj => tj.1 <> t) l).*1.
Proof.
  intros Hs. apply (StronglySorted_sublist _ _ l.*1); [|done].
  clear Hs. induction l as [|x l IH]; [done|]. rewrite filter_cons. case_decide; cbn.
  - by constructor.
  - by constructor.
Qed.

Program Definition assoc_skiplist : SkipList J assoc_list := {|
  sl_entries := proj1_sig;
  sl_empty := [] ↾ _;
  sl_set t j l := assoc_set t j (proj1_sig l) ↾ _;
  sl_delete t l := filter (fun tj => tj.1 <> t) (proj1_sig l) ↾ _ |}.
Next Obligation. constructor. Qed.
Next Obligation. intros t j [l Hl]. by apply assoc_set_sorted. Qed.
Next Obligation. intros t [l Hl]. by apply assoc_filter_sorted. Qed.
Next Obligation. done. Qed.
Next Obligation. by intros [l Hl]. Qed.
Next Obligation. intros t j [l Hl] t' j'. by apply assoc_set_spec. Qed.
Next Obligation. intros t [l Hl] t' j'. simpl. by rewrite list_elem_of_filter. Qed.
End assoc.

(** ** The queue *)

Section schedule.
(** [name] is [mirrorJob.Name]. *)
Context {J L : Type} `{SkipList J L} (name : J -> string).

Record scheduleQueue : Type := MkQueue { q_list : L; q_jobs : gmap string bool }.

Definition newScheduleQueue : scheduleQueue := MkQueue sl_empty ∅.

Record jobScheduleInfo : Type := MkInfo { jobName : string; nextScheduled : Z }.

Fixpoint GetJobs_loop (cur : list (Z * J)) (jobs : list jobScheduleInfo) : list jobScheduleInfo :=
  match cur with
  | [] => jobs
  | (t, cj) :: cur => GetJobs_loop cur (jobs ++ [MkInfo (name cj) t])
  end.

Definition GetJobs (q : scheduleQueue) : list jobScheduleInfo :=
  GetJobs_loop (sl_entries q.(q_list)) [].

(** The loop of [unsafeRemove]: the first entry of the iterator with that name. *)
Fixpoint find_job (n : string) (cur : list (Z * J)) : option Z :=
  match cur with
  | [] => None
  | (t, cj) :: cur => if decide (name cj = n) then Some t else find_job n cur
  end.

Definition unsafeRemove (n : string) (q : scheduleQueue) : bool * scheduleQueue :=
  match find_job n (sl_entries q.(q_list)) with
  | Some t => (true, MkQueue (sl_delete t q.(q_list)) (delete n q.(q_jobs)))
  | None => (false, q)
  end.

Definition Remove (n : string) (q : scheduleQueue) : bool * scheduleQueue := unsafeRemove n q.

Definition AddJob (schedTime : Z) (job : J) (q : scheduleQueue) : scheduleQueue :=
  let q := match q.(q_jobs) !! name job with
           | Some _ => (unsafeRemove (name job) q).2
           | None => q
           end in
  MkQueue (sl_set schedTime job q.(q_list)) (<[name job := true]> q.(q_jobs)).

Definition Pop (now : Z) (q : scheduleQueue) : nilable J * scheduleQueue :=
  match sl_entries q.(q_list) with
  | [] => (None, q)
  | (t, job) :: _ =>
      if t <? now
      then (Some job, MkQueue (sl_delete t q.(q_list)) (delete (name job) q.(q_jobs)))
      else (None, q)
  end.

(** ** The queue as a map from names to instants *)

Definition entries (q : scheduleQueue) : list (Z * J) := sl_entries q.(q_list).

Definition view (q : scheduleQueue) : gmap string Z :=
  list_to_map ((fun tj => (name tj.2, tj.1)) <$> entries q).

(** Every entry is believed scheduled, and no job has two. *)
Record wf (q : scheduleQueue) : Prop := {
  wf_names : NoDup ((fun tj => name tj.2) <$> entries q);
  wf_jobs : forall t j, (t, j) ∈ entries q -> is_Some (q.(q_jobs) !! name j)
}.

Lemma wf_unique q t t' j j' : wf q -> (t, j) ∈ entries q -> (t', j') ∈ entries q ->
  name j = name j' -> t = t' /\ j = j'.
Proof.
  intros [Hnd _] H1 H2 Hn. apply list_elem_of_lookup in H1 as [i H1], H2 as [i' H2].
  assert (i = i') as <-.
  { eapply NoDup_lookup; [exact Hnd| |]; rewrite list_lookup_fmap, ?H1, ?H2; simpl; by rewrite ?Hn. }
  split; congruence.
Qed.

(** One name per entry, stated on the entries so that it can be read off the laws of the
    list. *)
Lemma names_NoDup (q : scheduleQueue) :
  (forall t t' j j', (t, j) ∈ entries q -> (t', j') ∈ entries q -> name j = name j' -> t = t') ->
  NoDup ((fun tj => name tj.2) <$> entries q).
Proof.
  intros Hu. pose proof (StronglySorted_lt_NoDup _ (sl_sorted q.(q_list))) as Hnd.
  fold (entries q) in Hnd. induction (entries q) as [|[t j] l IH]; [constructor|].
  cbn in *. apply NoDup_cons in Hnd as [Ht Hnd]. constructor.
  - intros ([t' j'] & Hn & Hin)%list_elem_of_fmap. simpl in Hn.
    assert (t = t') as -> by (eapply Hu; [by left|by right|done]).
    apply Ht. by apply (list_elem_of_fmap_2 fst) in Hin.
  - apply IH; [|done]. intros. eapply Hu; [by right|by right|done].
Qed.

(** One job per instant. *)
Lemma entry_unique q t j j' : (t, j) ∈ entries q -> (t, j') ∈ entries q -> j = j'.
Proof.
  intros H1 H2. pose proof (StronglySorted_lt_NoDup _ (sl_sorted q.(q_list))) as Hnd.
  apply list_elem_of_lookup in H1 as [i H1], H2 as [i' H2].
  assert (i = i') as <-; [|congruence].
  eapply NoDup_lookup; [exact Hnd| |]; fold (entries q); rewrite list_lookup_fmap, ?H1, ?H2; done.
Qed.

Lemma view_lookup q n t : wf q ->
  view q !! n = Some t <-> exists j, (t, j) ∈ entries q /\ name j = n.
Proof.
  intros Hq. unfold view. rewrite <- elem_of_list_to_map.
  - rewrite list_elem_of_fmap. split.
    + intros ([t' j] & [= -> ->] & Hin). eauto.
    + intros (j & Hin & <-). by exists (t, j).
  - rewrite <- list_fmap_compose. apply Hq.
Qed.

Lemma find_job_spec n q : wf q -> find_job n (entries q) = view q !! n.
Proof.
  intros [Hnd _]. unfold view. induction (entries q) as [|[t j] l IH]; [done|].
  cbn in *. apply NoDup_cons in Hnd as [Hj Hnd]. case_decide as Hn.
  - subst. by rewrite lookup_insert_eq.
  - rewrite lookup_insert_ne by done. by apply IH.
Qed.

Lemma new_wf : wf newScheduleQueue.
Proof.
  split; unfold entries; simpl; rewrite sl_empty_entries; [constructor|].
  by intros t j ?%elem_of_nil.
Qed.

Lemma new_view : view newScheduleQueue = ∅.
Proof. unfold view, entries. simpl. by rewrite sl_empty_entries. Qed.

(** Two well-formed queues with the same entries up to order have the same view; the
    workhorse for the equations below. *)
Lemma view_ext q m : wf q ->
  (forall n t, (exists j, (t, j) ∈ entries q /\ name j = n) <-> m !! n = Some t) -> view q = m.
Proof. intros Hq Hm. apply map_eq. intros n. apply option_eq. intros t. by rewrite view_lookup, Hm. Qed.

Lemma unsafeRemove_spec n q : wf q ->
  let '(ok, q') := unsafeRemove n q in
  wf q' /\ ok = bool_decide (is_Some (view q !! n)) /\ view q' = delete n (view q)
  /\ (forall t j, (t, j) ∈ entries q' <-> (t, j) ∈ entries q /\ name j <> n).
Proof.
  intros Hq. unfold unsafeRemove. fold (entries q). rewrite find_job_spec by done.
  destruct (view q !! n) as [t|] eqn:Hv.
  - apply view_lookup in Hv as (j & Hin & Hn); [|done].
    assert (He : forall t' j', (t', j') ∈ entries (MkQueue (sl_delete t q.(q_list)) (delete n q.(q_jobs)))
                 <-> (t', j') ∈ entries q /\ name j' <> n).
    { intros t' j'. unfold entries. simpl. rewrite sl_delete_entries. fold (entries q). split.
      - intros [Ht Hin']. split; [done|]. intros Hn'. destruct (wf_unique q t t' j j') as [? ?]; congruence.
      - intros [Hin' Hn']. split; [|done]. intros ->. apply Hn'.
        by rewrite (entry_unique q t j' j). }
    assert (Hwf : wf (MkQueue (sl_delete t q.(q_list)) (delete n q.(q_jobs)))).
    { split.
      - apply names_NoDup. intros t1 t2 j1 j2 [H1 _]%He [H2 _]%He Hj.
        by destruct (wf_unique q t1 t2 j1 j2) as [-> _].
      - intros t' j' [Hin' Hn']%He. simpl. rewrite lookup_delete_ne by done. by apply (wf_jobs q Hq t'). }
    split; [done|]. split; [by rewrite bool_decide_true|]. split; [|done].
    apply view_ext; [done|]. intros n' t'. rewrite lookup_delete_Some, view_lookup by done. split.
    + intros (j' & [Hin' Hn']%He & <-). eauto.
    + intros (Hne & j' & Hin' & <-). exists j'. rewrite He. auto.
  - split; [done|]. split; [by rewrite bool_decide_false by (by intros [])|].
    split; [by rewrite delete_id|]. intros t j. split; [|tauto]. intros Hin. split; [done|].
    intros <-. assert (view q !! name j = Some t); [|congruence]. apply view_lookup; [done|eauto].
Qed.

(** Where an instant is already taken by another job, that job loses its place. *)
Definition without_instant (t : Z) (m : gmap string Z) : gmap string Z :=
  filter (fun nt => nt.2 <> t) m.

Lemma AddJob_spec t job q : wf q ->
  wf (AddJob t job q)
  /\ view (AddJob t job q) = <[name job := t]> (without_instant t (view q))
  /\ (forall t' j', (t', j') ∈ entries (AddJob t job q) <->
        (t' = t /\ j' = job) \/ (t' <> t /\ name j' <> name job /\ (t', j') ∈ entries q)).
Proof.
  intros Hq. set (q1 := match q.(q_jobs) !! name job with
                        | Some _ => (unsafeRemove (name job) q).2 | None => q end).
  assert (H1 : wf q1 /\ forall t j, (t, j) ∈ entries q1 <-> (t, j) ∈ entries q /\ name j <> name job).
  { unfold q1. pose proof (unsafeRemove_spec (name job) q Hq) as Hr.
    destruct (unsafeRemove (name job) q) as [ok q']. destruct Hr as (Hw & _ & _ & He).
    destruct (q.(q_jobs) !! name job) eqn:E; [done|]. split; [done|]. intros t0 j0.
    split; [|tauto]. intros Hin. split; [done|]. intros Hn.
    destruct (wf_jobs q Hq t0 j0 Hin) as [b Hb]. congruence. }
  destruct H1 as [Hw1 He1].
  assert (He : forall t' j', (t', j') ∈ entries (AddJob t job q) <->
        (t' = t /\ j' = job) \/ (t' <> t /\ name j' <> name job /\ (t', j') ∈ entries q)).
  { intros t' j'. unfold AddJob. fold q1. unfold entries. simpl. rewrite sl_set_entries.
    fold (entries q1). rewrite He1. fold (entries q). tauto. }
  assert (Hw : wf (AddJob t job q)).
  { split.
    - apply names_NoDup. intros t1 t2 j1 j2 H1%He H2%He Hn.
      destruct H1 as [[-> ->]|(H1 & Hn1 & Hin1)], H2 as [[-> ->]|(H2 & Hn2 & Hin2)]; try done.
      by destruct (wf_unique q t1 t2 j1 j2) as [-> _].
    - intros t' j' H'%He. unfold AddJob. fold q1. simpl.
      destruct (decide (name j' = name job)) as [->|Hn]; [by rewrite lookup_insert_eq|].
      rewrite lookup_insert_ne by done. destruct H' as [[_ ->]|(_ & _ & Hin)]; [done|].
      apply (wf_jobs q1 Hw1 t'). by rewrite He1. }
  split; [done|]. split; [|done]. apply view_ext; [done|]. intros n t'. split.
  - intros (j' & H'%He & <-). destruct H' as [[-> ->]|(Ht & Hn & Hin)]; [by rewrite lookup_insert_eq|].
    rewrite lookup_insert_ne by done. apply map_lookup_filter_Some. split; [|done].
    apply view_lookup; [done|]. eauto.
  - intros [[<- <-]|[Hn [Hv Ht]%map_lookup_filter_Some]]%lookup_insert_Some.
    + exists job. rewrite He. auto.
    + apply view_lookup in Hv as (j' & Hin & <-); [|done]. exists j'. rewrite He. simpl in Ht. auto 6.
Qed.

Lemma AddJob_jobs_self t j q : q_jobs (AddJob t j q) !! name j = Some true.
Proof. unfold AddJob. simpl. by rewrite lookup_insert_eq. Qed.

Lemma AddJob_jobs_other t j q n : name j <> n -> q_jobs (AddJob t j q) !! n = q_jobs q !! n.
Proof.
  intros Hn. unfold AddJob. simpl. rewrite lookup_insert_ne by done. case_match; [|done].
  unfold unsafeRemove. case_match; simpl; [|done]. by rewrite lookup_delete_ne.
Qed.

Lemma Pop_spec now q : wf q ->
  match Pop now q with
  | (Some job, q') => exists t, (t, job) ∈ entries q /\ t < now
      /\ (forall t' j', (t', j') ∈ entries q -> t <= t')
      /\ wf q' /\ view q' = delete (name job) (view q)
  | (None, q') => q' = q /\ forall t' j', (t', j') ∈ entries q -> now <= t'
  end.
Proof.
  intros Hq. unfold Pop. pose proof (sl_sorted q.(q_list)) as Hs.
  destruct (sl_entries q.(q_list)) as [|[t job] l] eqn:E.
  { split; [done|]. unfold entries. rewrite E. by intros t' j' ?%elem_of_nil. }
  cbn in Hs. apply StronglySorted_inv in Hs as [_ Hf]. rewrite Forall_forall in Hf.
  assert (Hmin : forall t' j', (t', j') ∈ entries q -> t <= t').
  { unfold entries. rewrite E. intros t' j' [[= -> ->]|Hin]%elem_of_cons; [done|].
    apply (list_elem_of_fmap_2 fst) in Hin. apply Hf in Hin. simpl in Hin. lia. }
  assert (Hin : (t, job) ∈ entries q) by (unfold entries; rewrite E; by left).
  destruct (Z.ltb_spec t now).
  - exists t. split; [done|]. split; [done|]. split; [done|].
    pose proof (unsafeRemove_spec (name job) q Hq) as Hr. unfold unsafeRemove in Hr.
    fold (entries q) in Hr. rewrite find_job_spec in Hr by done.
    assert (Hv : view q !! name job = Some t) by (apply view_lookup; [done|eauto]).
    rewrite Hv in Hr. tauto.
  - split; [done|]. intros t' j' H'. apply Hmin in H'. lia.
Qed.

Lemma GetJobs_entries q : GetJobs q = (fun tj => MkInfo (name tj.2) tj.1) <$> entries q.
Proof.
  unfold GetJobs. fold (entries q).
  assert (H1 : forall l acc, GetJobs_loop l acc = acc ++ ((fun tj => MkInfo (name tj.2) tj.1) <$> l)).
  { induction l as [|[t j] l IH]; intros acc; cbn [GetJobs_loop]; [by rewrite app_nil_r|].
    by rewrite IH, <- app_assoc. }
  apply H1.
Qed.

(** ** Runs *)

Inductive queue_op : Type := QAdd (t : Z) (j : J) | QRemove (n : string) | QPop (now : Z).

Definition queue_step (o : queue_op) (q : scheduleQueue) : scheduleQueue :=
  match o with
  | QAdd t j => AddJob t j q
  | QRemove n => (Remove n q).2
  | QPop now => (Pop now q).2
  end.

Definition queue_run (ops : list queue_op) (q : scheduleQueue) : scheduleQueue :=
  foldl (fun q o => queue_step o q) q ops.

Lemma queue_run_wf ops q : wf q -> wf (queue_run ops q).
Proof.
  revert q. induction ops as [|o ops IH]; intros q Hq; [done|]. apply IH. destruct o; simpl.
  - by apply AddJob_spec.
  - unfold Remove. pose proof (unsafeRemove_spec n q Hq) as H'. by destruct (unsafeRemove n q), H'.
  - pose proof (Pop_spec now q Hq) as H'. destruct (Pop now q) as [[j|] q'].
    + by destruct H' as (? & _ & _ & _ & ? & _).
    + destruct H' as [-> _]. done.
Qed.

(** The listing is the view, each name once. *)
Lemma GetJobs_view q n t : wf q -> MkInfo n t ∈ GetJobs q <-> view q !! n = Some t.
Proof.
  intros Hq. rewrite GetJobs_entries, view_lookup by done. rewrite list_elem_of_fmap. split.
  - intros ([t' j] & [= -> ->] & Hin). eauto.
  - intros (j & Hin & <-). by exists (t, j).
Qed.

Lemma GetJobs_names q : wf q -> NoDup (jobName <$> GetJobs q).
Proof. intros Hq. rewrite GetJobs_entries, <- list_fmap_compose. exact (wf_names q Hq). Qed.

(** C25: the queue refines a finite map from job names to instants, no two names with the same
    instant, after any sequence of additions, removals and pops. Adding a job gives it the
    new instant, replaces its old one, and drops whichever other job had exactly that
    instant; removing deletes the name and tells whether it was there; a pop returns a job
    exactly when some job's instant has passed, and then the one with the earliest instant
    of all, which alone leaves the queue; [GetJobs] lists the map in the order of instants,
    each job once. *)
Theorem queue_refines_map ops now :
  let q := queue_run ops newScheduleQueue in
  (forall t job, view (AddJob t job q) = <[name job := t]> (without_instant t (view q)))
  /\ (forall n, (Remove n q).1 = bool_decide (is_Some (view q !! n))
                /\ view (Remove n q).2 = delete n (view q))
  /\ match Pop now q with
     | (Some job, q') => exists t, view q !! name job = Some t /\ t < now
         /\ (forall n t', view q !! n = Some t' -> n <> name job -> t < t')
         /\ view q' = delete (name job) (view q)
     | (None, q') => q' = q /\ forall n t', view q !! n = Some t' -> now <= t'
     end
  /\ (forall n n' t, view q !! n = Some t -> view q !! n' = Some t -> n = n')
  /\ (forall n t, MkInfo n t ∈ GetJobs q <-> view q !! n = Some t)
  /\ StronglySorted Z.lt (nextScheduled <$> GetJobs q)
  /\ NoDup (jobName <$> GetJobs q).
Proof.
  intros q. assert (Hq : wf q) by apply queue_run_wf, new_wf.
  assert (Hinj : forall n n' t, view q !! n = Some t -> view q !! n' = Some t -> n = n').
  { intros n n' t (j & Hj & <-)%view_lookup (j' & Hj' & <-)%view_lookup; [|done..].
    f_equal. by eapply entry_unique. }
  split_and!; [| | |done| | |].
  - intros t job. by apply AddJob_spec.
  - intros n. unfold Remove. pose proof (unsafeRemove_spec n q Hq) as H'.
    destruct (unsafeRemove n q). tauto.
  - pose proof (Pop_spec now q Hq) as Hp. destruct (Pop now q) as [[job|] q'].
    + destruct Hp as (t & Hin & Ht & Hmin & _ & Hv).
      assert (Hview : view q !! name job = Some t) by (apply view_lookup; [done|eauto]).
      exists t. split_and!; [done|done| |done].
      intros n t' Hn Hne. assert (t <= t') by (apply view_lookup in Hn as (j' & Hin' & _); eauto).
      destruct (decide (t = t')) as [<-|]; [|lia]. destruct Hne. by eapply Hinj.
    + destruct Hp as [-> Hp]. split; [done|]. intros n t' (j' & Hin' & _)%view_lookup; [|done]. eauto.
  - intros n t. by apply GetJobs_view.
  - rewrite GetJobs_entries, <- list_fmap_compose. exact (sl_sorted q.(q_list)).
  - by apply GetJobs_names.
Qed.

(** A job can be lost. Two jobs added for the same instant leave only the second in
    the queue, while the set of scheduled names still has both: the first is neither
    listed nor ever popped, and removing it answers that it was not there. *)
Theorem same_instant_loses_job t a b :
  name a <> name b ->
  let q := AddJob t b (AddJob t a newScheduleQueue) in
  GetJobs q = [MkInfo (name b) t] /\ q.(q_jobs) !! name a = Some true
  /\ (Remove (name a) q).1 = false /\ forall now, (Pop now q).1 <> Some a.
Proof.
  intros Hne q. destruct (AddJob_spec t a newScheduleQueue new_wf) as (Hw1 & _ & He1).
  destruct (AddJob_spec t b _ Hw1) as (Hw & Hv & He). fold q in Hw, Hv, He.
  assert (Hall : forall t' j', (t', j') ∈ entries q <-> t' = t /\ j' = b).
  { intros t' j'. rewrite He, He1. split; [|auto]. intros [?|(Ht & _ & [[? _]|(_ & _ & Hin)])]; [done|done|].
    unfold entries in Hin. simpl in Hin. rewrite sl_empty_entries in Hin. by apply elem_of_nil in Hin. }
  assert (Hl : entries q = [(t, b)]).
  { pose proof (wf_names q Hw) as Hnd. destruct (entries q) as [|[t1 j1] l].
    - destruct (proj1 (elem_of_nil (t, b))). by apply Hall.
    - destruct (proj1 (Hall t1 j1)) as [-> ->]; [by left|]. destruct l as [|[t2 j2] l]; [done|].
      destruct (proj1 (Hall t2 j2)) as [-> ->]; [right; by left|].
      cbn in Hnd. apply NoDup_cons in Hnd as [Hn _]. destruct Hn. by left. }
  split_and!.
  - by rewrite GetJobs_entries, Hl.
  - unfold q. rewrite AddJob_jobs_other by done. apply AddJob_jobs_self.
  - unfold Remove, unsafeRemove. fold (entries q). rewrite Hl. simpl. by rewrite decide_False.
  - intros now. unfold Pop. fold (entries q). rewrite Hl. case_match; simpl; congruence.
Qed.
End schedule.

Lemma same_instant_loses_job_witness :
  let q := AddJob (H := assoc_skiplist) id 0 "ubuntu"
             (AddJob (H := assoc_skiplist) id 0 "debian" (newScheduleQueue (H := assoc_skiplist))) in
  "debian" <> "ubuntu" /\ GetJobs (H := assoc_skiplist) id q = [MkInfo "ubuntu" 0].
Proof.
  split; [done|].
  by apply (same_instant_loses_job (H := assoc_skiplist) id 0 "debian" "ubuntu").
Defined.

Lemma queue_refines_map_witness :
  let q := queue_run (H := assoc_skiplist) id [QAdd 5 "debian"; QAdd 3 "ubuntu"] (newScheduleQueue (H := assoc_skiplist)) in
  (Pop (H := assoc_skiplist) id 4 q).1 = Some "ubuntu"
  /\ exists t, view (H := assoc_skiplist) id q !! "ubuntu" = Some t /\ t < 4.
Proof.
  intros q. split; [reflexivity|].
  pose proof (queue_refines_map (H := assoc_skiplist) id [QAdd 5 "debian"; QAdd 3 "ubuntu"] 4) as (_ & _ & Hp & _).
  destruct Hp as (t & Hv & Ht & _). exists t. split; [exact Hv|exact Ht].
Defined.
