(* ===== verification/Config.v ===== *)
(** * worker/config.go: the worker's configuration

    The records the TOML decoder fills, and what the code does with them: the base URLs
    of the managers, and the expansion of nested mirror entries, in which a child
    inherits what its parents set.  A field that Go may leave nil is an option, so that
    [reflect.DeepEqual] is equality here; an [int] is an integer.  While the entries are
    expanded the maps [Env] are in a store, since a child starts as a copy of its parent and
    shares the map.  The TOML decoder, the file system and [mergo.Merge] are not part of the
    repository and are parameters. *)

From S2P Require Import Prelude.

Local Open Scope string_scope.
Local Open Scope list_scope.
Local Open Scope Z_scope.

(** ** providerEnum *)

Definition providerEnum : Type := Z.
#[export] Instance providerEnum_eq_dec : EqDecision providerEnum := Z.eq_dec.

Definition provRsync : providerEnum := 0.
Definition provTwoStageRsync : providerEnum := 1.
Definition provCommand : providerEnum := 2.

(** The new value of [*p] and the error. *)
Definition providerEnum_UnmarshalText (text : string) (p : providerEnum) : providerEnum * option error :=
  if decide (text = "command") then (provCommand, None)
  else if decide (text = "rsync") then (provRsync, None)
  else if decide (text = "two-stage-rsync") then (provTwoStageRsync, None)
  else (p, Some "Invalid value to provierEnum").

(** ** The sections of the file *)

Record globalConfig : Type := MkGlobalConfig {
  g_Name : string;
  g_LogDir : string;
  g_MirrorDir : string;
  g_Concurrent : Z;
  g_Interval : Z;
  g_Retry : Z;
  g_Timeout : Z;
  g_RsyncOptions : nilable (list string);
  g_ExecOnSuccess : nilable (list string);
  g_ExecOnFailure : nilable (list string);
  g_SuccessExitCodes : nilable (list Z);
  g_RsyncSuccessExitCodes : nilable (list Z)
}.

Record managerConfig : Type := MkManagerConfig {
  m_APIBase : string;
  m_APIList : nilable (list string);
  m_CACert : string
}.

Definition APIBaseList (mc : managerConfig) : list string :=
  let l := default [] mc.(m_APIList) in
  if (0 <? length l)%nat then l else [mc.(m_APIBase)].

Record serverConfig : Type := MkServerConfig {
  s_Hostname : string;
  s_Addr : string;
  s_Port : Z;
  s_SSLCert : string;
  s_SSLKey : string
}.

Record cgroupConfig : Type := MkCgroupConfig {
  cg_Enable : bool;
  cg_BasePath : string;
  cg_Group : string;
  cg_Subsystem : string
}.

Record dockerConfig : Type := MkDockerConfig {
  d_Enable : bool;
  d_Volumes : nilable (list string);
  d_Options : nilable (list string)
}.

Record zfsConfig : Type := MkZfsConfig { z_Enable : bool; z_Zpool : string }.

Record btrfsSnapshotConfig : Type := MkBtrfsConfig { b_Enable : bool; b_SnapshotPath : string }.

(** The fields of a mirror entry, its children apart. *)
Record mirrorFields : Type := MkMirrorFields {
  Name : string;
  Provider : providerEnum;
  Upstream : string;
  Interval : Z;
  Retry : Z;
  Timeout : Z;
  MirrorDir : string;
  MirrorSubDir : string;
  LogDir : string;
  Env : nilable (gmap string string);
  Role : string;
  ExecOnSuccess : nilable (list string);
  ExecOnFailure : nilable (list string);
  ExecOnSuccessExtra : nilable (list string);
  ExecOnFailureExtra : nilable (list string);
  SuccessExitCodes : nilable (list Z);
  RsyncSuccessExitCodes : nilable (list Z);
  Command : string;
  FailOnMatch : string;
  SizePattern : string;
  UseIPv6 : bool;
  UseIPv4 : bool;
  ExcludeFile : string;
  Username : string;
  Password : string;
  RsyncNoTimeo : bool;
  RsyncTimeout : Z;
  RsyncOptions : nilable (list string);
  RsyncOverride : nilable (list string);
  RsyncOverrideOnly : bool;
  Stage1Profile : string;
  MemoryLimit : Z;
  DockerImage : string;
  DockerVolumes : nilable (list string);
  DockerOptions : nilable (list string);
  SnapshotPath : string
}.

(** [MemBytes], the type of [MemoryLimit]: what units.RAMInBytes reads becomes the value,
    with an error too. *)
Section membytes.
Context (RAMInBytes : string -> Z * option error).

Definition MemBytes_Set (value : string) : Z * option error :=
  let '(val, err) := RAMInBytes value in (val, err).

Definition MemBytes_Type : string := "bytes".

Definition MemBytes_Value (m : Z) : Z := m.

Definition MemBytes_UnmarshalText (s : string) : Z * option error :=
  let '(val, err) := RAMInBytes s in (val, err).
End membytes.

#[export] Instance mirrorFields_eq_dec : EqDecision mirrorFields.
Proof. solve_decision. Defined.

Definition mirrorFields_zero : mirrorFields :=
  MkMirrorFields EmptyString provRsync EmptyString 0 0 0 EmptyString EmptyString EmptyString None
    EmptyString None None None None None None EmptyString EmptyString EmptyString false false
    EmptyString EmptyString EmptyString false 0 None None false EmptyString 0 EmptyString None None
    EmptyString.

(** A mirror entry: its fields and its nested entries, [ChildMirrors]. *)
Inductive mirrorConfig : Type :=
| MkMirrorConfig (fields : mirrorFields) (ChildMirrors : nilable (list mirrorConfig)).

Definition fields (m : mirrorConfig) : mirrorFields :=
  match m with MkMirrorConfig f _ => f end.
Definition ChildMirrors (m : mirrorConfig) : nilable (list mirrorConfig) :=
  match m with MkMirrorConfig _ c => c end.

Definition mirrorConfig_zero : mirrorConfig := MkMirrorConfig mirrorFields_zero None.

(** [mirrorConfig{Name: n}] *)
Definition named_zero (n : string) : mirrorConfig :=
  MkMirrorConfig
    (MkMirrorFields n provRsync EmptyString 0 0 0 EmptyString EmptyString EmptyString None
      EmptyString None None None None None None EmptyString EmptyString EmptyString false false
      EmptyString EmptyString EmptyString false 0 None None false EmptyString 0 EmptyString None None
      EmptyString) None.

Abbreviation mc_Name m := (Name (fields m)).

#[export] Instance mirrorConfig_eq_dec : EqDecision mirrorConfig.
Proof.
  refine (fix go m1 m2 : Decision (m1 = m2) :=
    match m1, m2 with
    | MkMirrorConfig f1 c1, MkMirrorConfig f2 c2 =>
        match decide (f1 = f2) with
        | left Hf =>
            match c1, c2 with
            | None, None => left _
            | Some l1, Some l2 => cast_if (List.list_eq_dec go l1 l2)
            | _, _ => right _
            end
        | right Hf => right _
        end
    end); congruence.
Defined.

(** An entry and its descendants: the measure of recursive definitions. *)
Section mirror_ind.
Variable P : mirrorConfig -> Prop.
Hypothesis HP : forall f c, Forall P (default [] c) -> P (MkMirrorConfig f c).

Fixpoint mirrorConfig_ind' (m : mirrorConfig) : P m :=
  match m with
  | MkMirrorConfig f c =>
      HP f c
        match c return Forall P (default [] c) with
        | None => @List.Forall_nil _ P
        | Some l =>
            (fix go l : Forall P l :=
               match l with
               | [] => @List.Forall_nil _ P
               | x :: l => @List.Forall_cons _ P x l (mirrorConfig_ind' x) (go l)
               end) l
        end
  end.
End mirror_ind.

Record Config : Type := MkConfig {
  Global : globalConfig;
  Manager : managerConfig;
  Server : serverConfig;
  Cgroup : cgroupConfig;
  ZFS : zfsConfig;
  BtrfsSnapshot : btrfsSnapshotConfig;
  Docker : dockerConfig;
  IncludeMirrors : string;
  MirrorsConf : nilable (list mirrorConfig);
  Mirrors : nilable (list mirrorConfig)
}.

Definition set_MirrorsConf (x : nilable (list mirrorConfig)) (c : Config) : Config :=
  MkConfig c.(Global) c.(Manager) c.(Server) c.(Cgroup) c.(ZFS) c.(BtrfsSnapshot) c.(Docker)
    c.(IncludeMirrors) x c.(Mirrors).
Definition set_Mirrors (x : nilable (list mirrorConfig)) (c : Config) : Config :=
  MkConfig c.(Global) c.(Manager) c.(Server) c.(Cgroup) c.(ZFS) c.(BtrfsSnapshot) c.(Docker)
    c.(IncludeMirrors) c.(MirrorsConf) x.

(** [append(s, xs...)]: nil stays nil when nothing is appended. *)
Definition append {A} (s : nilable (list A)) (xs : list A) : nilable (list A) :=
  match s, xs with
  | None, [] => None
  | _, _ => Some (default [] s ++ xs)
  end.

Lemma append_append {A} (s : nilable (list A)) xs ys : append (append s xs) ys = append s (xs ++ ys).
Proof. destruct s as [s|], xs as [|x xs]; simpl; rewrite <- ?app_assoc; done. Qed.

Lemma append_nil {A} (s : nilable (list A)) : append s [] = s.
Proof. destruct s as [s|]; [|done]. simpl. by rewrite app_nil_r. Qed.

Lemma default_append {A} (s : nilable (list A)) xs : default [] (append s xs) = default [] s ++ xs.
Proof. by destruct s, xs. Qed.

(** ** Loading *)

Definition set_Env (e : nilable (gmap string string)) (f : mirrorFields) : mirrorFields :=
  MkMirrorFields f.(Name) f.(Provider) f.(Upstream) f.(Interval) f.(Retry) f.(Timeout) f.(MirrorDir)
    f.(MirrorSubDir) f.(LogDir) e f.(Role) f.(ExecOnSuccess) f.(ExecOnFailure) f.(ExecOnSuccessExtra)
    f.(ExecOnFailureExtra) f.(SuccessExitCodes) f.(RsyncSuccessExitCodes) f.(Command) f.(FailOnMatch)
    f.(SizePattern) f.(UseIPv6) f.(UseIPv4) f.(ExcludeFile) f.(Username) f.(Password) f.(RsyncNoTimeo)
    f.(RsyncTimeout) f.(RsyncOptions) f.(RsyncOverride) f.(RsyncOverrideOnly) f.(Stage1Profile)
    f.(MemoryLimit) f.(DockerImage) f.(DockerVolumes) f.(DockerOptions) f.(SnapshotPath).

Definition set_ChildMirrors (c : nilable (list mirrorConfig)) (m : mirrorConfig) : mirrorConfig :=
  MkMirrorConfig (fields m) c.

(** The maps [Env] of the entries being expanded, by their addresses, and an entry: its
    fields, where [Env] does not count, and its map. *)
Abbreviation envs := (list (gmap string string)).

Record entry : Type := MkEntry { en_mirror : mirrorConfig; en_env : option nat }.

Definition entry_zero : entry := MkEntry mirrorConfig_zero None.

(** An entry as it is read after the expansion. *)
Definition resolve (st : envs) (e : entry) : mirrorConfig :=
  MkMirrorConfig (set_Env (e.(en_env) ≫= fun a => st !! a) (fields e.(en_mirror)))
    (ChildMirrors e.(en_mirror)).

Section load.
(** [mergo.Merge(&dst, src, mergo.WithOverride)]: the maps after it and the new value of
    [dst]. *)
Context (Merge : envs -> entry -> mirrorConfig -> result (envs * entry)).

(** The maps, the mirrors with those it appends to [cfg.Mirrors], and the error that stops
    it.  [curMir = *parent] copies the entry, not its map. *)
Fixpoint recursiveMirrors (st : envs) (mirrors : list entry) (parent : option entry)
    (mirror : mirrorConfig) {struct mirror} : envs * list entry * option error :=
  let curMir := match parent with Some p => p | None => entry_zero end in
  let curMir := MkEntry (set_ChildMirrors None curMir.(en_mirror)) curMir.(en_env) in
  match Merge st curMir mirror with
  | Err err => (st, mirrors, Some err)
  | Ok (st, curMir) =>
      match mirror with
      | MkMirrorConfig _ None => (st, mirrors ++ [curMir], None)
      | MkMirrorConfig _ (Some children) =>
          (fix loop (children : list mirrorConfig) (st : envs) (mirrors : list entry)
              : envs * list entry * option error :=
             match children with
             | [] => (st, mirrors, None)
             | m :: children =>
                 match recursiveMirrors st mirrors (Some curMir) m with
                 | (st, mirrors, Some err) => (st, mirrors, Some err)
                 | (st, mirrors, None) => loop children st mirrors
                 end
             end) children st mirrors
      end
  end.

(** The inner loop, named. *)
Fixpoint recursive_loop (curMir : entry) (children : list mirrorConfig) (st : envs) (mirrors : list entry)
    : envs * list entry * option error :=
  match children with
  | [] => (st, mirrors, None)
  | m :: children =>
      match recursiveMirrors st mirrors (Some curMir) m with
      | (st, mirrors, Some err) => (st, mirrors, Some err)
      | (st, mirrors, None) => recursive_loop curMir children st mirrors
      end
  end.

(** The copy a child starts from. *)
Definition child_of (parent : option entry) : entry :=
  MkEntry (set_ChildMirrors None (default entry_zero parent).(en_mirror)) (default entry_zero parent).(en_env).

Lemma recursiveMirrors_eq st mirrors parent mirror :
  recursiveMirrors st mirrors parent mirror =
  match Merge st (child_of parent) mirror with
  | Err err => (st, mirrors, Some err)
  | Ok (st, curMir) =>
      match ChildMirrors mirror with
      | None => (st, mirrors ++ [curMir], None)
      | Some children => recursive_loop curMir children st mirrors
      end
  end.
Proof.
  assert (Hl : forall curMir children st ms,
    (fix loop (children : list mirrorConfig) (st : envs) (mirrors : list entry)
              : envs * list entry * option error :=
             match children with
             | [] => (st, mirrors, None)
             | m :: children =>
                 match recursiveMirrors st mirrors (Some curMir) m with
                 | (st, mirrors, Some err) => (st, mirrors, Some err)
                 | (st, mirrors, None) => loop children st mirrors
                 end
             end) children st ms = recursive_loop curMir children st ms).
  { intros curMir children. induction children as [|m children IH]; intros st' ms; [done|].
    simpl. destruct (recursiveMirrors st' ms (Some curMir) m) as [[st1 ms'] [e|]]; [done|]. apply IH. }
  unfold child_of. destruct mirror as [f [c|]]; destruct parent; simpl;
    destruct (Merge _ _) as [[st1 cur]|]; try done; apply Hl.
Qed.

(** The environment: [os.Stat], the TOML decoder on the main file and on an included
    one, and [filepath.Glob]. *)
Context (stat : string -> option error) (decode_config : string -> result Config)
        (decode_included : string -> result (nilable (list mirrorConfig)))
        (glob : string -> result (list string)).

Fixpoint include_loop (files : list string) (conf : nilable (list mirrorConfig))
    : result (nilable (list mirrorConfig)) :=
  match files with
  | [] => Ok conf
  | f :: files =>
      included ← decode_included f;
      include_loop files (append conf (default [] included))
  end.

Fixpoint mirrors_loop (conf : list mirrorConfig) (st : envs) (mirrors : list entry)
    : result (envs * list entry) :=
  match conf with
  | [] => Ok (st, mirrors)
  | m :: conf =>
      match recursiveMirrors st mirrors None m with
      | (_, _, Some err) => Err err
      | (st, mirrors, None) => mirrors_loop conf st mirrors
      end
  end.

Definition LoadConfig (cfgFile : string) : result Config :=
  match stat cfgFile with
  | Some err => Err err
  | None =>
      cfg ← decode_config cfgFile;
      conf ← (if decide (cfg.(IncludeMirrors) = EmptyString) then Ok cfg.(MirrorsConf)
              else files ← glob cfg.(IncludeMirrors); include_loop files cfg.(MirrorsConf));
      '(st, mirrors) ← mirrors_loop (default [] conf) [] [];
      Ok (set_Mirrors (append cfg.(Mirrors) (resolve st <$> mirrors)) (set_MirrorsConf conf cfg))
  end.
End load.

(** ** Inheritance *)

(** The paths from an entry down to the leaves below it, in the order of the file. *)
Fixpoint paths (m : mirrorConfig) : list (list mirrorConfig) :=
  match m with
  | MkMirrorConfig _ None => [[m]]
  | MkMirrorConfig _ (Some children) => cons m <$> mjoin (paths <$> children)
  end.

(** The environments of an entry and its descendants, in the order of the file. *)
Fixpoint all_envs (m : mirrorConfig) : list (gmap string string) :=
  option_list (Env (fields m))
  ++ match m with
     | MkMirrorConfig _ None => []
     | MkMirrorConfig _ (Some children) => mjoin (all_envs <$> children)
     end.

Section inheritance.
Context (Merge : envs -> entry -> mirrorConfig -> result (envs * entry)).

(** What [mergo] makes of two maps: the entries of the second override. *)
Context (merge_map : gmap string string -> gmap string string -> gmap string string).

(** A map [dst] has already is written in place, otherwise it gets one of its own. *)
Definition merge_env (st : envs) (dst : option nat) (src : nilable (gmap string string)) : envs * option nat :=
  match src, dst with
  | None, _ => (st, dst)
  | Some e, Some a => (alter (fun d => merge_map d e) a st, Some a)
  | Some e, None => (st ++ [merge_map ∅ e], Some (length st))
  end.

(** Merging two entries cannot fail, since they have the same type. *)
Record mergo_laws : Prop := {
  ml_ok : forall st dst src, exists st' dst', Merge st dst src = Ok (st', dst');
  ml_env : forall st dst src st' dst', Merge st dst src = Ok (st', dst') ->
    (st', dst'.(en_env)) = merge_env st dst.(en_env) (Env (fields src))
}.

(** A setting of any type that is overridden by a child when the child does not leave it
    empty, any field but [Env] and the children. *)
Record setting {A} (get : mirrorConfig -> A) (empty : A -> bool) : Prop := {
  se_merge : forall st dst src st' dst', Merge st dst src = Ok (st', dst') ->
    get dst'.(en_mirror) = if empty (get src) then get dst.(en_mirror) else get src;
  se_children : forall c m, get (set_ChildMirrors c m) = get m;
  se_env : forall e f c, get (MkMirrorConfig (set_Env e f) c) = get (MkMirrorConfig f c)
}.

(** The value a path gives to a setting: the one set closest to the leaf. *)
Definition nearest {A} (get : mirrorConfig -> A) (empty : A -> bool) (path : list mirrorConfig) (v : A) : A :=
  foldl (fun v m => if empty (get m) then v else get m) v path.

(** The environments of the leaves below an entry: the first entry on the way down that has
    a map shares it with all that is below, and each of these merges its own into it. *)
Fixpoint leaf_envs (m : mirrorConfig) : list (nilable (gmap string string)) :=
  match Env (fields m) with
  | Some e => replicate (length (paths m)) (Some (foldl merge_map ∅ (all_envs m)))
  | None =>
      match m with
      | MkMirrorConfig _ None => [None]
      | MkMirrorConfig _ (Some children) => mjoin (leaf_envs <$> children)
      end
  end.

Context (HM : mergo_laws).

(** What the expansion of an entry appends, by a property of what is appended and of the
    change of the maps that holds of the leaves and of one entry after the other. *)
Lemma recursiveMirrors_ind (Q : option entry -> list mirrorConfig -> envs -> envs -> list entry -> Prop) :
  (forall p st, Q p [] st st []) ->
  (forall p m l st1 st2 st3 r1 r2, Q p [m] st1 st2 r1 -> Q p l st2 st3 r2 -> Q p (m :: l) st1 st3 (r1 ++ r2)) ->
  (forall p m st st1 cur, Merge st (child_of p) m = Ok (st1, cur) -> ChildMirrors m = None -> Q p [m] st st1 [cur]) ->
  (forall p m children st st1 st2 cur r, Merge st (child_of p) m = Ok (st1, cur) ->
    ChildMirrors m = Some children -> Q (Some cur) children st1 st2 r -> Q p [m] st st2 r) ->
  forall m p st ms, exists st' r, recursiveMirrors Merge st ms p m = (st', ms ++ r, None) /\ Q p [m] st st' r.
Proof.
  intros Hnil Hcons Hleaf Hnode m. induction m as [f c IH] using mirrorConfig_ind'. intros p st ms.
  rewrite recursiveMirrors_eq. destruct (ml_ok HM st (child_of p) (MkMirrorConfig f c)) as (st1 & cur & Hm).
  rewrite Hm. destruct c as [children|]; cbn [ChildMirrors].
  2: { exists st1, [cur]. split; [done|]. by apply Hleaf. }
  assert (Hl : exists st' r, recursive_loop Merge cur children st1 ms = (st', ms ++ r, None)
    /\ Q (Some cur) children st1 st' r).
  { simpl in IH. clear Hm. revert st1 ms. induction IH as [|m children Hm _ IH]; intros st1 ms; cbn [recursive_loop].
    - exists st1, []. by rewrite app_nil_r.
    - destruct (Hm (Some cur) st1 ms) as (st2 & r1 & -> & H1). destruct (IH st2 (ms ++ r1)) as (st3 & r2 & -> & H2).
      exists st3, (r1 ++ r2). rewrite app_assoc. split; [done|]. by apply Hcons with st2. }
  destruct Hl as (st' & r & -> & Hr). exists st', r. split; [done|]. by apply Hnode with children st1 cur.
Qed.

Lemma mirrors_loop_ind (Q : option entry -> list mirrorConfig -> envs -> envs -> list entry -> Prop) :
  (forall p st, Q p [] st st []) ->
  (forall p m l st1 st2 st3 r1 r2, Q p [m] st1 st2 r1 -> Q p l st2 st3 r2 -> Q p (m :: l) st1 st3 (r1 ++ r2)) ->
  (forall p m st st1 cur, Merge st (child_of p) m = Ok (st1, cur) -> ChildMirrors m = None -> Q p [m] st st1 [cur]) ->
  (forall p m children st st1 st2 cur r, Merge st (child_of p) m = Ok (st1, cur) ->
    ChildMirrors m = Some children -> Q (Some cur) children st1 st2 r -> Q p [m] st st2 r) ->
  forall conf st ms, exists st' r, mirrors_loop Merge conf st ms = Ok (st', ms ++ r) /\ Q None conf st st' r.
Proof.
  intros Hnil Hcons Hleaf Hnode conf. induction conf as [|m conf IH]; intros st ms; cbn [mirrors_loop].
  { exists st, []. by rewrite app_nil_r. }
  destruct (recursiveMirrors_ind Q Hnil Hcons Hleaf Hnode m None st ms) as (st1 & r1 & -> & H1).
  destruct (IH st1 (ms ++ r1)) as (st2 & r2 & -> & H2).
  exists st2, (r1 ++ r2). rewrite app_assoc. split; [done|]. by apply Hcons with st1.
Qed.

Lemma mjoin_app {A} (l1 l2 : list (list A)) : mjoin (l1 ++ l2) = mjoin l1 ++ mjoin l2.
Proof. induction l1 as [|x l1 IH]; [done|]. simpl. by rewrite IH, app_assoc. Qed.

(** The settings of what is appended. *)
Definition settings_ok {A} (get : mirrorConfig -> A) (empty : A -> bool) (p : option entry)
    (l : list mirrorConfig) (st st' : envs) (r : list entry) : Prop :=
  (fun e => get e.(en_mirror)) <$> r
  = (fun path => nearest get empty path (get (default entry_zero p).(en_mirror))) <$> mjoin (paths <$> l).

Lemma expand_settings {A} (get : mirrorConfig -> A) (empty : A -> bool) conf st ms : setting get empty ->
  exists st' r, mirrors_loop Merge conf st ms = Ok (st', ms ++ r) /\ settings_ok get empty None conf st st' r.
Proof.
  intros [Hm Hc _]. apply mirrors_loop_ind; unfold settings_ok.
  - done.
  - intros p m l st1 st2 st3 r1 r2 H1 H2. change (m :: l) with ([m] ++ l).
    by rewrite !fmap_app, mjoin_app, fmap_app, H1, H2.
  - intros p [f c] st0 st1 cur Hmg. cbn [ChildMirrors]. intros ->. simpl. apply Hm in Hmg. rewrite Hmg.
    unfold child_of. cbn [en_mirror]. by rewrite Hc.
  - intros p [f c] children st0 st1 st2 cur r Hmg. cbn [ChildMirrors]. intros -> ->. apply Hm in Hmg.
    cbn [paths fmap list_fmap mjoin list_join default]. rewrite app_nil_r, <- list_fmap_compose.
    apply list_fmap_ext. intros i path _. simpl. rewrite Hmg. unfold child_of. cbn [en_mirror]. by rewrite Hc.
Qed.

(** The maps of what is appended. *)
Definition envs_ok (p : option entry) (l : list mirrorConfig) (st st' : envs) (r : list entry) : Prop :=
  match (default entry_zero p).(en_env) with
  | Some a =>
      st' = alter (fun d => foldl merge_map d (mjoin (all_envs <$> l))) a st
      /\ Forall (fun e => e.(en_env) = Some a) r /\ length r = length (mjoin (paths <$> l))
  | None =>
      st `prefix_of` st'
      /\ forall st'', st' `prefix_of` st'' ->
           (fun e => e.(en_env) ≫= fun a => st'' !! a) <$> r = mjoin (leaf_envs <$> l)
  end.

Lemma alter_nothing (a : nat) (st : envs) : alter (fun d => d) a st = st.
Proof. apply list_alter_id. by intros x. Qed.

Lemma all_envs_eq m : all_envs m
  = option_list (Env (fields m)) ++ mjoin (all_envs <$> default [] (ChildMirrors m)).
Proof. by destruct m as [f [c|]]. Qed.

Lemma paths_length m : length (paths m)
  = match ChildMirrors m with None => 1%nat | Some children => length (mjoin (paths <$> children)) end.
Proof. destruct m as [f [c|]]; [|done]. simpl. by rewrite length_fmap. Qed.

(** All entries with the map [a] read what it holds. *)
Lemma resolve_all (st : envs) a v r : st !! a = Some v -> Forall (fun e => e.(en_env) = Some a) r ->
  (fun e => e.(en_env) ≫= fun a => st !! a) <$> r = replicate (length r) (Some v).
Proof. intros Ha. induction 1 as [|e r He _ IH]; [done|]. simpl. rewrite He. simpl. rewrite Ha. f_equal. exact IH. Qed.

Lemma envs_cons p m l st1 st2 st3 r1 r2 : envs_ok p [m] st1 st2 r1 -> envs_ok p l st2 st3 r2 ->
  envs_ok p (m :: l) st1 st3 (r1 ++ r2).
Proof.
  unfold envs_ok. change (m :: l) with ([m] ++ l). destruct (en_env (default entry_zero p)) as [a|].
  - intros (-> & F1 & L1) (-> & F2 & L2). split_and!; [|by apply Forall_app|].
    + rewrite fmap_app, mjoin_app, list_alter_alter_eq. apply list_alter_ext; [|done].
      intros x _. unfold compose. by rewrite foldl_app.
    + by rewrite fmap_app, mjoin_app, !length_app, L1, L2.
  - intros [P1 H1] [P2 H2]. split; [by transitivity st2|]. intros st'' Hst.
    rewrite !fmap_app, mjoin_app, H1, H2; [done|done|by transitivity st3].
Qed.

(** The first map on the way down. *)
Lemma envs_own m st r e : Env (fields m) = Some e ->
  Forall (fun x => x.(en_env) = Some (length st)) r -> length r = length (paths m) ->
  envs_ok None [m] st (st ++ [foldl merge_map ∅ (all_envs m)]) r.
Proof.
  intros He Hr Hl. split; [by eexists|]. intros st'' [k Hk]. etrans.
  { apply (resolve_all st'' (length st) (foldl merge_map ∅ (all_envs m))); [|done].
    by rewrite Hk, <- app_assoc, lookup_app_r, Nat.sub_diag. }
  simpl. rewrite app_nil_r, Hl. destruct m as [f c]. simpl in *. by rewrite He.
Qed.

Lemma alter_last (f : gmap string string -> gmap string string) (st : envs) x :
  alter f (length st) (st ++ [x]) = st ++ [f x].
Proof. by induction st as [|y st IH]; [|simpl; f_equal]. Qed.

(** One entry: its own map, and what is below. *)
Lemma envs_node p m st st1 st2 cur r : Merge st (child_of p) m = Ok (st1, cur) ->
  match ChildMirrors m with
  | None => st2 = st1 /\ r = [cur]
  | Some children => envs_ok (Some cur) children st1 st2 r
  end -> envs_ok p [m] st st2 r.
Proof.
  intros Hmg Hr. apply (ml_env HM) in Hmg. unfold child_of in Hmg. cbn [en_env] in Hmg.
  pose proof (all_envs_eq m) as Ha. pose proof (paths_length m) as Hp.
  destruct (en_env (default entry_zero p)) as [a|] eqn:Hd.
  - assert (Hcur : en_env cur = Some a
      /\ st1 = alter (fun d => foldl merge_map d (option_list (Env (fields m)))) a st).
    { unfold merge_env in Hmg. destruct (Env (fields m)) as [e|]; injection Hmg as -> ->; simpl; [done|].
      by rewrite alter_nothing. }
    destruct Hcur as [Hc ->]. unfold envs_ok. rewrite Hd. cbn [fmap list_fmap mjoin list_join]. rewrite !app_nil_r, Hp, Ha.
    destruct (ChildMirrors m) as [children|]; simpl.
    + unfold envs_ok in Hr. change (default entry_zero (Some cur)) with cur in Hr. rewrite Hc in Hr. destruct Hr as (-> & F & L). split_and!; [|done|done].
      rewrite list_alter_alter_eq. apply list_alter_ext; [|done]. intros x _. simpl. by rewrite foldl_app.
    + destruct Hr as [-> ->]. rewrite app_nil_r. split_and!; [done| |done]. by repeat constructor.
  - destruct (Env (fields m)) as [e|] eqn:He; unfold merge_env in Hmg; injection Hmg as -> Hc.
    + destruct (ChildMirrors m) as [children|] eqn:Hch; simpl in Ha.
      * unfold envs_ok in Hr. change (default entry_zero (Some cur)) with cur in Hr. rewrite Hc in Hr. destruct Hr as (-> & F & L).
        rewrite alter_last. assert (foldl merge_map (merge_map ∅ e) (mjoin (all_envs <$> children))
          = foldl merge_map ∅ (all_envs m)) as -> by by rewrite Ha.
        assert (Ho : envs_ok None [m] st (st ++ [foldl merge_map ∅ (all_envs m)]) r)
          by (apply envs_own with e; [done|done|congruence]).
        unfold envs_ok in Ho |- *. by rewrite Hd.
      * destruct Hr as [-> ->]. assert (merge_map ∅ e = foldl merge_map ∅ (all_envs m)) as -> by by rewrite Ha.
        assert (Ho : envs_ok None [m] st (st ++ [foldl merge_map ∅ (all_envs m)]) [cur])
          by (apply envs_own with e; [done|by repeat constructor|done]).
        unfold envs_ok in Ho |- *. by rewrite Hd.
    + unfold envs_ok. rewrite Hd. cbn [fmap list_fmap mjoin list_join]. rewrite app_nil_r.
      assert (Hle : leaf_envs m = match ChildMirrors m with None => [None] | Some children => mjoin (leaf_envs <$> children) end)
        by (destruct m as [f [c|]]; simpl in *; by rewrite He).
      rewrite Hle. destruct (ChildMirrors m) as [children|].
      * unfold envs_ok in Hr. change (default entry_zero (Some cur)) with cur in Hr. by rewrite Hc in Hr.
      * destruct Hr as [-> ->]. split; [done|]. intros st'' _. simpl. by rewrite Hc.
Qed.

Lemma expand_envs conf st ms :
  exists st' r, mirrors_loop Merge conf st ms = Ok (st', ms ++ r) /\ envs_ok None conf st st' r.
Proof.
  apply mirrors_loop_ind.
  - intros p st0. unfold envs_ok. destruct (en_env _) as [a|]; simpl; [|done]. by rewrite alter_nothing.
  - apply envs_cons.
  - intros p m st0 st1 cur Hm Hc. eapply envs_node; [done|]. by rewrite Hc.
  - intros p m children st0 st1 st2 cur r Hm Hc Hr. eapply envs_node; [done|]. by rewrite Hc.
Qed.

(** C30: [LoadConfig] expands the nested entries. The mirrors of the configuration are the
    leaves of the entries of the file, in its order, included entries after them. A setting
    of a leaf is the one given closest to the leaf on the path from the root, whatever its
    type, for every field that merging overrides when the child does not leave it empty and
    that is not a map. The environment is a map: the first entry with one on the way down
    shares it with all that is below, and it holds what all of these give, the later over
    the earlier. *)
Theorem LoadConfig_inherits {A} (get : mirrorConfig -> A) (empty : A -> bool)
    stat decode_config decode_included glob file cfg :
  setting get empty ->
  (forall f c, decode_config f = Ok c -> c.(Mirrors) = None) ->
  LoadConfig Merge stat decode_config decode_included glob file = Ok cfg ->
  let conf := default [] cfg.(MirrorsConf) in
  get <$> default [] cfg.(Mirrors)
    = (fun path => nearest get empty path (get mirrorConfig_zero)) <$> mjoin (paths <$> conf)
  /\ (fun m => Env (fields m)) <$> default [] cfg.(Mirrors) = mjoin (leaf_envs <$> conf).
Proof.
  intros Hget Hd. unfold LoadConfig. destruct (stat file) as [|]; [done|]. intros H.
  apply result_bind_ok in H as (c & Hc & H). apply result_bind_ok in H as (conf & _ & H).
  destruct (expand_settings get empty (default [] conf) [] [] Hget) as (st & r & Hl & Hs).
  destruct (expand_envs (default [] conf) [] []) as (st' & r' & Hl' & He).
  rewrite Hl in Hl'. injection Hl' as <- <-. rewrite Hl, (Hd _ _ Hc) in H. cbn [mbind result_bind app] in H.
  pose proof (default_append None (resolve st <$> r)) as Ha.
  generalize dependent (append None (resolve st <$> r)). intros ms H Ha. injection H as <-.
  cbn [Mirrors set_Mirrors set_MirrorsConf MirrorsConf]. rewrite Ha. cbn [default app].
  unfold settings_ok in Hs. unfold envs_ok in He. destruct He as [_ He]. specialize (He st ltac:(done)).
  change (default [] None ++ (resolve st <$> r)) with (resolve st <$> r). rewrite <- !list_fmap_compose. split.
  - etrans; [|exact Hs]. apply list_fmap_ext. intros i e _. unfold compose, resolve.
    rewrite (se_env _ _ Hget). by destruct (en_mirror e).
  - etrans; [|exact He]. by apply list_fmap_ext.
Qed.

(** The loop of [recursiveMirrors] terminates on every entry and stops for no reason but
    a failed merge: it appends one mirror per leaf below the entry and loses none that was
    there. *)
Theorem recursiveMirrors_leaves st mirrors parent m :
  exists st' r, recursiveMirrors Merge st mirrors parent m = (st', mirrors ++ r, None)
  /\ length r = length (paths m)
  /\ (forall children, ChildMirrors m = Some children ->
        length (paths m) = sum_list (length ∘ paths <$> children)).
Proof.
  destruct (recursiveMirrors_ind (fun _ l _ _ r => length r = length (mjoin (paths <$> l)))) with (m := m)
    (p := parent) (st := st) (ms := mirrors) as (st' & r & Hr & Hl).
  - done.
  - intros p m' l st1 st2 st3 r1 r2 H1 H2. change (m' :: l) with ([m'] ++ l).
    by rewrite fmap_app, mjoin_app, !length_app, H1, H2.
  - intros p m' st0 st1 cur _ Hc. simpl. by rewrite app_nil_r, paths_length, Hc.
  - intros p m' children st0 st1 st2 cur r _ Hc ->. simpl. by rewrite app_nil_r, paths_length, Hc.
  - exists st', r. split; [done|]. simpl in Hl. rewrite app_nil_r in Hl. split; [done|].
    intros children Hc. rewrite paths_length, Hc. clear. induction children as [|m l IH]; [done|].
    change (mjoin (paths <$> m :: l)) with (paths m ++ mjoin (paths <$> l)).
    by rewrite length_app, IH.
Qed.
End inheritance.

(** *** Witnesses *)

(** A merge that knows names and environments. *)
Definition ex_merge (st : envs) (dst : entry) (src : mirrorConfig) : result (envs * entry) :=
  let n := if decide (mc_Name src = EmptyString) then mc_Name dst.(en_mirror) else mc_Name src in
  let '(st, a) := merge_env (fun d e => e ∪ d) st dst.(en_env) (Env (fields src)) in
  Ok (st, MkEntry (MkMirrorConfig (fields (named_zero n)) (ChildMirrors src)) a).

Definition ex_empty (s : string) : bool := bool_decide (s = EmptyString).

Lemma ex_merge_laws : mergo_laws ex_merge (fun d e => e ∪ d).
Proof.
  split; unfold ex_merge.
  - intros st dst src. destruct (merge_env _ _ _ _) as [st' a]. by eexists _, _.
  - intros st dst src st' dst'. destruct (merge_env _ _ _ _) as [st1 a]. by intros [= <- <-].
Qed.

Lemma ex_name_setting : setting ex_merge (fun m => mc_Name m) ex_empty.
Proof.
  split; [|done|done]. intros st dst src st' dst'. unfold ex_merge, ex_empty.
  destruct (merge_env _ _ _ _) as [st1 a]. intros [= <- <-]. simpl. by case_decide; case_bool_decide.
Qed.

(** An entry with two children that set the same variable. *)
Definition ex_env (n x : string) (c : nilable (list mirrorConfig)) : mirrorConfig :=
  MkMirrorConfig (set_Env (Some {["X" := x]}) (fields (named_zero n))) c.

Definition ex_conf : mirrorConfig :=
  ex_env "debian-all" "0" (Some [ex_env "debian" "1" None; ex_env EmptyString "2" None]).

Definition ex_config : Config :=
  MkConfig (MkGlobalConfig "w" EmptyString EmptyString 1 1 1 1 None None None None None)
    (MkManagerConfig "http://m" None EmptyString) (MkServerConfig EmptyString EmptyString 0 EmptyString EmptyString)
    (MkCgroupConfig false EmptyString EmptyString EmptyString) (MkZfsConfig false EmptyString)
    (MkBtrfsConfig false EmptyString) (MkDockerConfig false None None) EmptyString (Some [ex_conf]) None.

Definition ex_load : result Config :=
  LoadConfig ex_merge (fun _ => None) (fun _ => Ok ex_config) (fun _ => Ok None) (fun _ => Ok []) "worker.conf".

Lemma LoadConfig_inherits_witness :
  exists cfg, ex_load = Ok cfg
    /\ (fun m => mc_Name m) <$> default [] cfg.(Mirrors)
       = (fun path => nearest (fun m => mc_Name m) ex_empty path EmptyString)
           <$> mjoin (paths <$> default [] cfg.(MirrorsConf))
    /\ (fun m => mc_Name m) <$> default [] cfg.(Mirrors) = ["debian"; "debian-all"].
Proof.
  eexists. split; [reflexivity|]. split; [|reflexivity].
  apply (LoadConfig_inherits ex_merge (fun d e => e ∪ d) ex_merge_laws (fun m => mc_Name m) ex_empty
      (fun _ => None) (fun _ => Ok ex_config) (fun _ => Ok None) (fun _ => Ok []) "worker.conf");
    [exact ex_name_setting| |reflexivity]. by intros f c [= <-].
Defined.

(** The variable the first child sets is not the one it runs with: its sibling, which
    comes later, writes into the map both share with their parent. *)
Theorem sibling_env_leaks :
  exists cfg, ex_load = Ok cfg
  /\ (fun m => (mc_Name m, Env (fields m) ≫= (fun e => e !! "X"))) <$> default [] cfg.(Mirrors)
     = [("debian", Some "2"); ("debian-all", Some "2")]
  /\ (fun m => Env (fields m) ≫= (fun e => e !! "X")) <$> default [] (ChildMirrors ex_conf) = [Some "1"; Some "2"].
Proof. eexists. split; [reflexivity|]. split; reflexivity. Qed.

Lemma recursiveMirrors_leaves_witness :
  length (paths ex_conf) = sum_list (length ∘ paths <$> default [] (ChildMirrors ex_conf)).
Proof.
  destruct (recursiveMirrors_leaves ex_merge (fun d e => e ∪ d) ex_merge_laws [] [] None ex_conf)
    as (st & r & _ & _ & H). by apply H.
Defined.
