(* ===== verification/ConfigDiff.v ===== *)
(** * worker/config_diff.go: what changes between two configurations

    [diffMirrorConfig] sorts both lists by name, appends a sentinel greater than every
    name and walks the two in step.  [sort.Sort] is not stable, so it is a parameter
    that promises a sorted permutation and nothing about equal names. *)

From S2P Require Import Prelude Config.

Local Open Scope string_scope.
Local Open Scope list_scope.
Local Open Scope Z_scope.

Definition diffDelete : Z := 0.
Definition diffAdd : Z := 1.
Definition diffModify : Z := 2.

Record mirrorCfgTrans : Type := MkTrans { diffOp : Z; mirCfg : mirrorConfig }.

Definition mirrorCfgTrans_String (t : mirrorCfgTrans) : string :=
  let op := if decide (t.(diffOp) = diffDelete) then "Del" else "Add" in
  "{" +:+ op +:+ ", " +:+ mc_Name t.(mirCfg) +:+ "}".

(** [sortableMirrorList.Less] *)
Definition Less (a b : mirrorConfig) : bool := str_ltb (mc_Name a) (mc_Name b).

Class MirrorSort := {
  sort_mirrors : list mirrorConfig -> list mirrorConfig;
  sort_perm l : sort_mirrors l ≡ₚ l;
  sort_sorted l : StronglySorted (fun a b => Less b a = false) (sort_mirrors l)
}.

(** The walk over both lists, by their remainders. *)
Fixpoint diff_loop (oList : list mirrorConfig) : list mirrorConfig -> list mirrorCfgTrans :=
  fix diff_new nList :=
    match oList, nList with
    | o :: oRest, n :: nRest =>
        if Less n o then MkTrans diffAdd n :: diff_new nRest
        else if Less o n then MkTrans diffDelete o :: diff_loop oRest nList
        else (if decide (o = n) then [] else [MkTrans diffModify n]) ++ diff_loop oRest nRest
    | _, _ => []
    end.

Definition diffMirrorConfig `{MirrorSort} (oldList newList : list mirrorConfig)
    : comp (list mirrorCfgTrans) :=
  let oList := sort_mirrors oldList in
  let nList := sort_mirrors newList in
  match last oList, last nList with
  | Some lastOld, Some lastNew =>
      let maxName := if Less lastOld lastNew then mc_Name lastNew else mc_Name lastOld in
      let Nil := named_zero ("~" +:+ maxName) in
      if negb (str_ltb maxName (mc_Name Nil))
      then Panic "Nil.Name should be larger than maxName"
      else Ret (diff_loop (oList ++ [Nil]) (nList ++ [Nil]))
  | _, _ =>
      Ret ((MkTrans diffDelete <$> oList) ++ (MkTrans diffAdd <$> nList))
  end.

(** The diff a caller may read off the two lists. *)
Definition wanted (o n : list mirrorConfig) (t : mirrorCfgTrans) : Prop :=
  let m := t.(mirCfg) in
  (t.(diffOp) = diffDelete /\ m ∈ o /\ forall y, y ∈ n -> mc_Name y <> mc_Name m)
  \/ (t.(diffOp) = diffAdd /\ m ∈ n /\ forall x, x ∈ o -> mc_Name x <> mc_Name m)
  \/ (t.(diffOp) = diffModify /\ m ∈ n /\ exists x, x ∈ o /\ mc_Name x = mc_Name m /\ x <> m).

(** Strictly increasing names. *)
Definition increasing : list mirrorConfig -> Prop := StronglySorted (fun a b => Less a b = true).

Lemma Less_irrefl m : Less m m = false.
Proof. apply str_ltb_irrefl. Qed.

Lemma Less_ne a b : Less a b = true -> mc_Name a <> mc_Name b.
Proof. unfold Less. intros H He. rewrite He in H. by rewrite str_ltb_irrefl in H. Qed.

Lemma Less_trans a b c : Less a b = true -> Less b c = true -> Less a c = true.
Proof. apply str_ltb_trans. Qed.

Lemma Less_eq a b : Less a b = false -> Less b a = false -> mc_Name a = mc_Name b.
Proof.
  unfold Less. intros H1 H2. destruct (str_ltb_trichotomy (mc_Name a) (mc_Name b)) as [[?|?]|?]; congruence.
Qed.

Lemma sorted_increasing l :
  StronglySorted (fun a b => Less b a = false) l -> NoDup ((fun m => mc_Name m) <$> l) -> increasing l.
Proof.
  induction 1 as [|x l Hl IH Hf]; intros Hnd; [constructor|].
  rewrite fmap_cons in Hnd. apply NoDup_cons in Hnd as [Hx Hnd]. constructor; [by apply IH|].
  rewrite Forall_forall in *. intros y Hy. specialize (Hf y Hy).
  destruct (Less x y) eqn:E; [done|]. destruct Hx. rewrite (Less_eq x y) by done.
  by apply (list_elem_of_fmap_2 (fun m => mc_Name m)).
Qed.

Lemma increasing_cons_inv x l : increasing (x :: l) ->
  increasing l /\ forall y, y ∈ l -> Less x y = true.
Proof. intros [H Hf]%StronglySorted_inv. by rewrite Forall_forall in Hf. Qed.

(** The names the walk has still to see are above the one it is at. *)
Lemma above x l y : increasing (x :: l) -> y ∈ x :: l -> y = x \/ Less x y = true.
Proof. intros [_ H]%increasing_cons_inv [->|Hy]%elem_of_cons; auto. Qed.

#[local] Ltac names :=
  match goal with
  | H : Less ?a ?b = true |- _ => exfalso; apply Less_ne in H; congruence
  end.

(** One step of the walk: the wanted operations split into the one it emits and those of
    the remainders. *)
Lemma wanted_add o y n t : (forall x, x ∈ o -> Less y x = true) -> increasing (y :: n) ->
  wanted o (y :: n) t <-> t = MkTrans diffAdd y \/ wanted o n t.
Proof.
  intros Ho [_ Hn]%increasing_cons_inv. destruct t as [op m]. unfold wanted. simpl. split.
  - intros [(-> & Hm & Hno)|[(-> & [->|Hm]%elem_of_cons & Hno)|(-> & [->|Hm]%elem_of_cons & x & Hx & He & Hne)]].
    + right. left. split_and!; [done|done|]. intros y' Hy'. apply Hno. by right.
    + by left.
    + right. right. left. done.
    + apply Ho in Hx. names.
    + right. right. right. split_and!; [done|done|]. by eexists.
  - intros [[= -> ->]|[(-> & Hm & Hno)|[(-> & Hm & Hno)|(-> & Hm & x & Hx & He & Hne)]]].
    + right. left. split_and!; [done|by left|]. intros x Hx He. apply Ho in Hx. names.
    + left. split_and!; [done|done|]. intros y' [->|Hy']%elem_of_cons; [|by apply Hno].
      intros He. apply Ho in Hm. names.
    + right. left. split_and!; [done|by right|done].
    + right. right. split_and!; [done|by right|by eexists].
Qed.

Lemma wanted_delete x o n t : (forall y, y ∈ n -> Less x y = true) -> increasing (x :: o) ->
  wanted (x :: o) n t <-> t = MkTrans diffDelete x \/ wanted o n t.
Proof.
  intros Hn [_ Ho]%increasing_cons_inv. destruct t as [op m]. unfold wanted. simpl. split.
  - intros [(-> & [->|Hm]%elem_of_cons & Hno)|[(-> & Hm & Hno)|(-> & Hm & x' & [->|Hx]%elem_of_cons & He & Hne)]].
    + by left.
    + right. left. done.
    + right. right. left. split_and!; [done|done|]. intros x' Hx'. apply Hno. by right.
    + apply Hn in Hm. names.
    + right. right. right. split_and!; [done|done|]. by eexists.
  - intros [[= -> ->]|[(-> & Hm & Hno)|[(-> & Hm & Hno)|(-> & Hm & x' & Hx & He & Hne)]]].
    + left. split_and!; [done|by left|]. intros y Hy He. apply Hn in Hy. names.
    + left. split_and!; [done|by right|done].
    + right. left. split_and!; [done|done|]. intros x' [->|Hx']%elem_of_cons; [|by apply Hno].
      intros He. apply Hn in Hm. names.
    + right. right. split_and!; [done|done|]. exists x'. by split; [right|].
Qed.

Lemma wanted_same x o y n t : mc_Name x = mc_Name y -> increasing (x :: o) -> increasing (y :: n) ->
  wanted (x :: o) (y :: n) t <-> (x <> y /\ t = MkTrans diffModify y) \/ wanted o n t.
Proof.
  intros Hxy [_ Ho]%increasing_cons_inv [_ Hn]%increasing_cons_inv. destruct t as [op m].
  unfold wanted. simpl.
  assert (Hox : forall z, z ∈ o -> mc_Name z <> mc_Name x) by (intros z Hz%Ho He; names).
  assert (Hny : forall z, z ∈ n -> mc_Name z <> mc_Name y) by (intros z Hz%Hn He; names).
  split.
  - intros [(-> & Hm & Hno)|[(-> & Hm & Hno)|(-> & Hm & x' & Hx & He & Hne)]].
    + right. left. apply elem_of_cons in Hm as [->|Hm].
      { destruct (Hno y); [by left|done]. }
      split_and!; [done|done|]. intros y' Hy'. apply Hno. by right.
    + right. right. left. apply elem_of_cons in Hm as [->|Hm].
      { destruct (Hno x); [by left|done]. }
      split_and!; [done|done|]. intros x' Hx'. apply Hno. by right.
    + apply elem_of_cons in Hm as [->|Hm], Hx as [->|Hx]; [by left| | |].
      * destruct (Hox _ Hx). congruence.
      * destruct (Hny _ Hm). congruence.
      * right. right. right. split_and!; [done|done|]. by eexists.
  - intros [[Hne [= -> ->]]|[(-> & Hm & Hno)|[(-> & Hm & Hno)|(-> & Hm & x' & Hx & He & Hne)]]].
    + right. right. split_and!; [done|by left|]. exists x. by split; [left|].
    + left. split_and!; [done|by right|]. intros y' [->|Hy']%elem_of_cons; [|by apply Hno].
      intros He. destruct (Hox _ Hm). congruence.
    + right. left. split_and!; [done|by right|]. intros x' [->|Hx']%elem_of_cons; [|by apply Hno].
      intros He. destruct (Hny _ Hm). congruence.
    + right. right. split_and!; [done|by right|]. exists x'. by split; [right|].
Qed.

Lemma wanted_in o n t : wanted o n t -> t.(mirCfg) ∈ o \/ t.(mirCfg) ∈ n.
Proof. intros [(_ & ? & _)|[(_ & ? & _)|(_ & ? & _)]]; auto. Qed.

Lemma wanted_nil t : ~ wanted [] [] t.
Proof. intros [Hm|Hm]%wanted_in; by apply elem_of_nil in Hm. Qed.

(** The last element is the greatest. *)
Lemma last_above x l N : increasing (x :: l) -> last (x :: l) = Some N ->
  (l = [] /\ x = N) \/ (last l = Some N /\ Less x N = true).
Proof.
  intros [_ Ha]%increasing_cons_inv Hl. destruct l as [|y l]; [left; by injection Hl|].
  right. split; [done|]. apply Ha. by apply last_Some_elem_of.
Qed.

Lemma last_cons_ne (x : mirrorConfig) l : last (x :: l) <> None.
Proof. by rewrite last_None. Qed.

Lemma diff_loop_cons o oRest n nRest :
  diff_loop (o :: oRest) (n :: nRest) =
  if Less n o then MkTrans diffAdd n :: diff_loop (o :: oRest) nRest
  else if Less o n then MkTrans diffDelete o :: diff_loop oRest (n :: nRest)
  else (if decide (o = n) then [] else [MkTrans diffModify n]) ++ diff_loop oRest nRest.
Proof. done. Qed.

(** The walk over two lists with the same greatest element. *)
Lemma diff_loop_spec o : forall n, increasing o -> increasing n -> last o = last n ->
  (forall t, t ∈ diff_loop o n <-> wanted o n t)
  /\ StronglySorted (fun a b => Less a.(mirCfg) b.(mirCfg) = true) (diff_loop o n).
Proof.
  induction o as [|x o IHo].
  { intros [|y n] _ _ Hl; [|by destruct (last_cons_ne y n)].
    split; [|constructor]. intros t. split; [by intros ?%elem_of_nil|by intros ?%wanted_nil]. }
  induction n as [|y n IHn]; intros Ho Hn Hl.
  { by destruct (last_cons_ne x o). }
  destruct (proj2 (last_is_Some (x :: o)) ltac:(done)) as [N HN].
  pose proof (last_above x o N Ho HN) as HxN. rewrite Hl in HN.
  pose proof (last_above y n N Hn HN) as HyN.
  pose proof (increasing_cons_inv x o Ho) as [Ho' Hox]. pose proof (increasing_cons_inv y n Hn) as [Hn' Hny].
  rewrite diff_loop_cons. destruct (Less y x) eqn:Hyx; [|destruct (Less x y) eqn:Hxy].
  - assert (Hya : forall z, z ∈ x :: o -> Less y z = true).
    { intros z [->|Hz]%(above x o z Ho); [done|by eapply Less_trans]. }
    destruct (IHn Ho Hn') as [Hw Hs].
    { rewrite Hl. destruct HyN as [[-> ->]|[-> _]]; [|done]. exfalso.
      destruct HxN as [[_ ->]|[_ HxN]]; [by rewrite Less_irrefl in Hyx|].
      pose proof (Less_trans _ _ _ Hyx HxN). by rewrite Less_irrefl in *. }
    split.
    + intros t. rewrite wanted_add, elem_of_cons, Hw; done.
    + constructor; [done|]. apply Forall_forall. intros t [Ht|Ht]%Hw%wanted_in; simpl; auto.
  - assert (Hxa : forall z, z ∈ y :: n -> Less x z = true).
    { intros z [->|Hz]%(above y n z Hn); [done|by eapply Less_trans]. }
    destruct (IHo (y :: n) Ho' Hn) as [Hw Hs].
    { rewrite HN. destruct HxN as [[-> ->]|[-> _]]; [|done]. exfalso.
      destruct HyN as [[_ ->]|[_ HyN]]; [by rewrite Less_irrefl in Hxy|].
      pose proof (Less_trans _ _ _ Hxy HyN). by rewrite Less_irrefl in *. }
    split.
    + intros t. rewrite wanted_delete, elem_of_cons, Hw; done.
    + constructor; [done|]. apply Forall_forall. intros t [Ht|Ht]%Hw%wanted_in; simpl; auto.
  - pose proof (Less_eq x y Hxy Hyx) as Heq.
    destruct (IHo n Ho' Hn') as [Hw Hs].
    { destruct HxN as [[-> ->]|[-> HxN]], HyN as [[-> ->]|[-> HyN]]; try done; names. }
    split.
    + intros t. rewrite wanted_same, elem_of_app, Hw by done.
      case_decide; [rewrite elem_of_nil|rewrite list_elem_of_singleton]; tauto.
    + case_decide; [done|]. constructor; [done|]. apply Forall_forall.
      intros t [Ht|Ht]%Hw%wanted_in; simpl; [|by apply Hny].
      apply Hox in Ht. unfold Less in *. congruence.
Qed.

(** ** Applying a diff *)

(** A configuration as a map from names. *)
Definition by_name (l : list mirrorConfig) : gmap string mirrorConfig :=
  list_to_map ((fun m => (mc_Name m, m)) <$> l).

Definition apply_op (m : gmap string mirrorConfig) (t : mirrorCfgTrans) : gmap string mirrorConfig :=
  if decide (t.(diffOp) = diffDelete) then delete (mc_Name t.(mirCfg)) m
  else <[mc_Name t.(mirCfg) := t.(mirCfg)]> m.

Definition distinct_names (l : list mirrorConfig) : Prop := NoDup ((fun m => mc_Name m) <$> l).

Lemma by_name_lookup l n m : distinct_names l -> by_name l !! n = Some m <-> m ∈ l /\ mc_Name m = n.
Proof.
  intros Hnd. unfold by_name. rewrite <- elem_of_list_to_map.
  - rewrite list_elem_of_fmap. split.
    + by intros (m' & [= -> ->] & Hin).
    + intros [Hin <-]. by exists m.
  - rewrite <- list_fmap_compose. exact Hnd.
Qed.

Lemma by_name_unique l m m' : distinct_names l -> m ∈ l -> m' ∈ l -> mc_Name m = mc_Name m' -> m = m'.
Proof.
  intros Hnd Hm Hm' He. by apply (NoDup_fmap_unique (fun m => mc_Name m) l).
Qed.

Lemma by_name_none l n : by_name l !! n = None <-> forall m, m ∈ l -> mc_Name m <> n.
Proof.
  unfold by_name. rewrite <- not_elem_of_list_to_map, <- list_fmap_compose, list_elem_of_fmap. split.
  - intros Hno m Hin <-. apply Hno. by exists m.
  - intros Hno (m & -> & Hin). by apply (Hno m).
Qed.

(** Operations on distinct names act one by one. *)
Lemma apply_ops_lookup ops m n :
  NoDup ((fun t => mc_Name t.(mirCfg)) <$> ops) ->
  foldl apply_op m ops !! n
  = match list_find (fun t => mc_Name t.(mirCfg) = n) ops with
    | Some (_, t) => if decide (t.(diffOp) = diffDelete) then None else Some t.(mirCfg)
    | None => m !! n
    end.
Proof.
  revert m. induction ops as [|t ops IH]; intros m Hnd; [done|].
  rewrite fmap_cons in Hnd. apply NoDup_cons in Hnd as [Ht Hnd]. simpl. rewrite IH by done.
  case_decide as Hn.
  - assert (list_find (fun t => mc_Name t.(mirCfg) = n) ops = None) as ->.
    { apply list_find_None, Forall_forall. intros t' Hin He. apply Ht. rewrite Hn, <- He.
      by apply (list_elem_of_fmap_2 (fun t => mc_Name t.(mirCfg))). }
    simpl. unfold apply_op. rewrite Hn.
    case_decide; [by rewrite lookup_delete_eq|by rewrite lookup_insert_eq].
  - destruct (list_find _ ops) as [[i t']|]; simpl; [done|].
    unfold apply_op. case_decide; [by rewrite lookup_delete_ne|by rewrite lookup_insert_ne].
Qed.

(** ** The sentinel *)

Definition tilde : Ascii.ascii := Ascii.ascii_of_nat 126.

(** Names whose bytes are at most '~': those of printable ASCII. *)
Fixpoint plain (s : string) : bool :=
  match s with
  | EmptyString => true
  | String c s' => negb (match Ascii.compare c tilde with Gt => true | _ => false end) && plain s'
  end.

Lemma sentinel_above s : plain s = true -> str_ltb s (String tilde s) = true.
Proof.
  induction s as [|c s IH]; [done|]. cbn [plain]. intros [Hc Hs]%andb_true_iff.
  rewrite str_ltb_cons. destruct (Ascii.compare c tilde) eqn:E; [|done|done].
  apply Ascii.compare_eq_iff in E. subst. by apply IH.
Qed.

Lemma app_increasing l N : increasing l -> (forall m, m ∈ l -> Less m N = true) -> increasing (l ++ [N]).
Proof.
  intros Hl HN. apply StronglySorted_app_2; [|done|repeat constructor].
  intros x1 x2 H1 H2%list_elem_of_singleton. subst. by apply HN.
Qed.

Lemma wanted_snoc o n N t :
  (forall m, m ∈ o -> Less m N = true) -> (forall m, m ∈ n -> Less m N = true) ->
  wanted (o ++ [N]) (n ++ [N]) t <-> wanted o n t.
Proof.
  intros Ho Hn. destruct t as [op m]. unfold wanted. cbn [diffOp mirCfg].
  assert (Hi : forall l x, x ∈ l ++ [N] <-> x ∈ l \/ x = N).
  { intros l x. by rewrite elem_of_app, list_elem_of_singleton. }
  setoid_rewrite Hi. split.
  - intros [(-> & [Hm| ->] & Hno)|[(-> & [Hm| ->] & Hno)|(-> & Hm & x & Hx & He & Hne)]].
    + left. eauto.
    + destruct (Hno N); auto.
    + right. left. eauto 6.
    + destruct (Hno N); auto.
    + right. right. destruct Hm as [Hm| ->], Hx as [Hx| ->]; [by eauto 7| | |done].
      * apply Hn in Hm. names.
      * apply Ho in Hx. names.
  - intros [(-> & Hm & Hno)|[(-> & Hm & Hno)|(-> & Hm & x & Hx & He & Hne)]].
    + left. split_and!; [done|by left|]. intros y [Hy| ->]; [by apply Hno|].
      intros He. apply Ho in Hm. names.
    + right. left. split_and!; [done|by left|]. intros y [Hy| ->]; [by apply Hno|].
      intros He. apply Hn in Hm. names.
    + right. right. split_and!; [done|by left|]. exists x. auto.
Qed.

Lemma sorted_last l N m : increasing l -> last l = Some N -> m ∈ l -> m = N \/ Less m N = true.
Proof.
  intros Hl HN Hm. induction l as [|x l IH]; [by apply elem_of_nil in Hm|].
  pose proof (last_above x l N Hl HN) as Hx. pose proof (increasing_cons_inv x l Hl) as [Hl' _].
  apply elem_of_cons in Hm as [->|Hm].
  - destruct Hx as [[_ ->]|[_ Hx]]; auto.
  - destruct Hx as [[-> _]|[HN' _]]; [by apply elem_of_nil in Hm|by apply IH].
Qed.

(** The last of a sorted list, and the greater of two of them. *)
Lemma sorted_last_max l x y : StronglySorted (fun a b => Less b a = false) l -> last l = Some x ->
  y ∈ l -> Less x y = false.
Proof.
  intros Hs. induction Hs as [|z l Hl IH Hf]; intros Hx Hy; [done|]. destruct l as [|z' l].
  - injection Hx as <-. apply list_elem_of_singleton in Hy as ->. apply Less_irrefl.
  - apply elem_of_cons in Hy as [->|Hy]; [|by apply IH].
    rewrite Forall_forall in Hf. apply Hf. by apply last_Some_elem_of.
Qed.

Lemma greater_max a b m : Less a m = false \/ Less b m = false ->
  str_ltb (if Less a b then mc_Name b else mc_Name a) (mc_Name m) = false.
Proof.
  unfold Less. intros Hm. apply not_true_is_false. intros H.
  destruct (str_ltb (mc_Name a) (mc_Name b)) eqn:E.
  - destruct Hm as [Hm|Hm]; [|congruence]. pose proof (str_ltb_trans _ _ _ E H). congruence.
  - destruct Hm as [Hm|Hm]; [congruence|].
    destruct (str_ltb_trichotomy (mc_Name b) (mc_Name a)) as [[H3|H3]|H3]; [|congruence|congruence].
    pose proof (str_ltb_trans _ _ _ H3 H). congruence.
Qed.

Section diff.
Context `{MirrorSort}.

Lemma sort_increasing l : distinct_names l -> increasing (sort_mirrors l).
Proof.
  intros Hl. apply sorted_increasing; [apply sort_sorted|]. unfold distinct_names in Hl.
  by rewrite sort_perm.
Qed.

Lemma wanted_perm o o' n n' t : o ≡ₚ o' -> n ≡ₚ n' -> wanted o n t <-> wanted o' n' t.
Proof. intros Ho Hn. unfold wanted. setoid_rewrite Ho. setoid_rewrite Hn. done. Qed.

(** When one of the lists is empty. *)
Lemma wanted_nil_r old l t : l ≡ₚ old -> t ∈ MkTrans diffDelete <$> l <-> wanted old [] t.
Proof.
  intros Hp. destruct t as [op m]. rewrite list_elem_of_fmap. setoid_rewrite Hp. unfold wanted. simpl. split.
  - intros (x & [= -> ->] & Hx). left. split_and!; [done|done|]. by intros y ?%elem_of_nil.
  - intros [(-> & Hm & _)|[(_ & []%elem_of_nil & _)|(_ & []%elem_of_nil & _)]]. by exists m.
Qed.

Lemma wanted_nil_l new l t : l ≡ₚ new -> t ∈ MkTrans diffAdd <$> l <-> wanted [] new t.
Proof.
  intros Hp. destruct t as [op m]. rewrite list_elem_of_fmap. setoid_rewrite Hp. unfold wanted. simpl. split.
  - intros (x & [= -> ->] & Hx). right. left. split_and!; [done|done|]. by intros y ?%elem_of_nil.
  - intros [(_ & []%elem_of_nil & _)|[(-> & Hm & _)|(_ & _ & x & []%elem_of_nil & _)]]. by exists m.
Qed.

(** The whole comparison, on lists without repeated names. *)
Lemma diff_spec old new :
  distinct_names old -> distinct_names new ->
  (forall m, m ∈ old \/ m ∈ new -> plain (mc_Name m) = true) ->
  exists ops, diffMirrorConfig old new ⇓ ops
    /\ (forall t, t ∈ ops <-> wanted old new t)
    /\ NoDup ((fun t => mc_Name t.(mirCfg)) <$> ops).
Proof.
  intros Hdo Hdn Hplain. unfold diffMirrorConfig.
  pose proof (sort_increasing old Hdo) as Hio. pose proof (sort_increasing new Hdn) as Hin.
  pose proof (sort_perm old) as Hpo. pose proof (sort_perm new) as Hpn.
  destruct (last (sort_mirrors old)) as [lo|] eqn:Elo; [destruct (last (sort_mirrors new)) as [ln|] eqn:Eln|].
  - set (maxName := if Less lo ln then mc_Name ln else mc_Name lo). set (N := named_zero ("~" +:+ maxName)).
    assert (Hlo : lo ∈ old) by (rewrite <- Hpo; by apply last_Some_elem_of).
    assert (Hln : ln ∈ new) by (rewrite <- Hpn; by apply last_Some_elem_of).
    assert (Hmax : str_ltb maxName (mc_Name N) = true).
    { apply (sentinel_above maxName). unfold maxName. case_match; apply Hplain; auto. }
    assert (Hbelow : forall m, mc_Name m = maxName \/ str_ltb (mc_Name m) maxName = true -> Less m N = true).
    { intros m [Hm|Hm]; unfold Less; [by rewrite Hm|by eapply str_ltb_trans]. }
    assert (Ho : forall m, m ∈ sort_mirrors old -> Less m N = true).
    { intros m Hm. apply Hbelow. unfold maxName.
      destruct (sorted_last _ _ m Hio Elo Hm) as [->|Hml], (Less lo ln) eqn:E; auto.
      right. by apply (Less_trans m lo ln). }
    assert (Hn : forall m, m ∈ sort_mirrors new -> Less m N = true).
    { intros m Hm. apply Hbelow. unfold maxName.
      destruct (sorted_last _ _ m Hin Eln Hm) as [->|Hml], (Less lo ln) eqn:E; auto.
      - destruct (Less ln lo) eqn:E'; [by right|left]. by rewrite (Less_eq lo ln).
      - right. destruct (Less ln lo) eqn:E'; [by apply (Less_trans m ln lo)|].
        by rewrite (Less_eq lo ln). }
    rewrite Hmax. simpl. eexists. split; [done|].
    destruct (diff_loop_spec (sort_mirrors old ++ [N]) (sort_mirrors new ++ [N])) as [Hw Hs].
    + by apply app_increasing.
    + by apply app_increasing.
    + by rewrite !last_snoc.
    + split.
      * intros t. rewrite Hw, wanted_snoc by done. by apply wanted_perm.
      * clear -Hs. induction Hs as [|t l Hl IH Hf]; [constructor|]. rewrite fmap_cons. constructor; [|done].
        intros (t' & He & Hin)%list_elem_of_fmap. rewrite Forall_forall in Hf. apply Hf in Hin.
        by apply Less_ne in Hin.
  - apply last_None in Eln. rewrite Eln in *. simpl. rewrite app_nil_r. eexists. split; [done|].
    apply Permutation_nil_l in Hpn. subst new. split.
    + intros t. by apply wanted_nil_r.
    + rewrite <- list_fmap_compose. unfold distinct_names in Hdo. rewrite <- Hpo in Hdo. exact Hdo.
  - apply last_None in Elo. rewrite Elo in *. apply Permutation_nil_l in Hpo. subst old.
    eexists. split; [done|]. simpl. split.
    + intros t. by apply wanted_nil_l.
    + rewrite <- list_fmap_compose. unfold distinct_names in Hdn. rewrite <- Hpn in Hdn. exact Hdn.
Qed.

(** Applying the wanted operations. *)
Lemma apply_wanted old new ops :
  distinct_names old -> distinct_names new ->
  (forall t, t ∈ ops <-> wanted old new t) -> NoDup ((fun t => mc_Name t.(mirCfg)) <$> ops) ->
  foldl apply_op (by_name old) ops = by_name new.
Proof.
  intros Hdo Hdn Hw Hnd. apply map_eq. intros n. rewrite apply_ops_lookup by done.
  destruct (list_find _ ops) as [[i t]|] eqn:Ef.
  - apply list_find_Some in Ef as (Hi & <- & _). apply list_elem_of_lookup_2 in Hi.
    apply Hw in Hi. destruct t as [op m]. unfold wanted in Hi. simpl in *.
    destruct Hi as [(-> & _ & Hno)|[(-> & Hm & _)|(-> & Hm & _)]]; simpl.
    + symmetry. by apply by_name_none.
    + symmetry. by apply by_name_lookup.
    + symmetry. by apply by_name_lookup.
  - apply list_find_None in Ef. rewrite Forall_forall in Ef.
    destruct (by_name old !! n) as [x|] eqn:Ex; symmetry.
    + apply by_name_lookup in Ex as [Hx <-]; [|done]. apply by_name_lookup; [done|].
      destruct (by_name new !! mc_Name x) as [y|] eqn:Ey.
      * apply by_name_lookup in Ey as [Hy He]; [|done]. destruct (decide (x = y)) as [->|Hne]; [done|].
        destruct (Ef (MkTrans diffModify y)); [|done]. apply Hw. right. right. simpl. split_and!; [done|done|]. by exists x.
      * destruct (Ef (MkTrans diffDelete x)); [|done]. apply Hw. left. simpl. split_and!; [done|done|].
        by apply by_name_none.
    + apply by_name_none. intros y Hy He. destruct (Ef (MkTrans diffAdd y)); [|done].
      apply Hw. right. left. simpl. split_and!; [done|done|]. rewrite He. by apply by_name_none.
Qed.

(** C10: [diffMirrorConfig] finds the difference. Between two configurations without repeated
    names it returns exactly the wanted operations, one per name at most: the deletion of
    the mirrors whose name is gone, the addition of those whose name is new, and the
    modification of those that differ under the same name. Applied to the old configuration
    they give the new one, in whatever order the configurations list their mirrors. *)
Theorem diff_applies old new :
  distinct_names old -> distinct_names new ->
  (forall m, m ∈ old \/ m ∈ new -> plain (mc_Name m) = true) ->
  exists ops, diffMirrorConfig old new ⇓ ops
    /\ (forall t, t ∈ ops <-> wanted old new t)
    /\ NoDup ((fun t => mc_Name t.(mirCfg)) <$> ops)
    /\ foldl apply_op (by_name old) ops = by_name new.
Proof.
  intros Hdo Hdn Hp. destruct (diff_spec old new Hdo Hdn Hp) as (ops & He & Hw & Hnd).
  exists ops. split_and!; [done|done|done|]. by apply apply_wanted.
Qed.

(** The sentinel. When one of the names, the greatest, starts with a byte above '~', as
    a name outside ASCII does, the comparison of two non-empty configurations panics. *)
Theorem diff_panics old new m c s :
  old <> [] -> new <> [] -> m ∈ old ++ new ->
  (forall m', m' ∈ old ++ new -> str_ltb (mc_Name m) (mc_Name m') = false) ->
  mc_Name m = String c s -> Ascii.compare c tilde = Gt ->
  diffMirrorConfig old new ↯ "Nil.Name should be larger than maxName".
Proof.
  intros Hold Hnew Hm Hmax Hname Hc. unfold diffMirrorConfig.
  pose proof (sort_perm old) as Hpo. pose proof (sort_perm new) as Hpn.
  destruct (last (sort_mirrors old)) as [lo|] eqn:Elo.
  2: { apply last_None in Elo. rewrite Elo in Hpo. by apply Permutation_nil_l in Hpo. }
  destruct (last (sort_mirrors new)) as [ln|] eqn:Eln.
  2: { apply last_None in Eln. rewrite Eln in Hpn. by apply Permutation_nil_l in Hpn. }
  set (maxName := if Less lo ln then mc_Name ln else mc_Name lo).
  assert (Hlo : lo ∈ old ++ new) by (rewrite <- Hpo; apply elem_of_app; left; by apply last_Some_elem_of).
  assert (Hln : ln ∈ old ++ new) by (rewrite <- Hpn; apply elem_of_app; right; by apply last_Some_elem_of).
  assert (Heq : maxName = mc_Name m).
  { assert (Hge : str_ltb (mc_Name m) maxName = false) by (unfold maxName; case_match; by apply Hmax).
    assert (Hle : str_ltb maxName (mc_Name m) = false).
    { apply elem_of_app in Hm. rewrite <- Hpo, <- Hpn in Hm. apply greater_max.
      destruct Hm as [Hm|Hm]; [left|right]; by eapply sorted_last_max; [apply sort_sorted|..]. }
    destruct (str_ltb_trichotomy maxName (mc_Name m)) as [[?|?]|?]; congruence. }
  assert (Hn : str_ltb maxName (mc_Name (named_zero ("~" +:+ maxName))) = false).
  { rewrite Heq, Hname. change (mc_Name (named_zero ("~" +:+ String c s))) with (String tilde (String c s)).
    rewrite str_ltb_cons. by rewrite Hc. }
  by rewrite Hn.
Qed.
End diff.

(** *** Witnesses *)

Definition not_above (a b : mirrorConfig) : Prop := Less b a = false.

#[export] Instance not_above_dec : RelDecision not_above.
Proof. intros a b. unfold not_above. apply _. Defined.

#[export] Instance not_above_total : Total not_above.
Proof.
  intros a b. unfold not_above, Less. destruct (str_ltb (mc_Name b) (mc_Name a)) eqn:E; [right|by left].
  by apply str_ltb_asymm.
Qed.

#[export] Instance not_above_trans : Transitive not_above.
Proof. intros a b c. unfold not_above, Less. rewrite <- !str_le_ltb. by etrans. Qed.

#[export] Program Instance merge_sort_mirrors : MirrorSort := {| sort_mirrors := merge_sort not_above |}.
Next Obligation. intros l. apply merge_sort_Permutation. Qed.
Next Obligation. intros l. apply (StronglySorted_merge_sort not_above). Qed.

Definition ex_mirror (n u : string) : mirrorConfig :=
  MkMirrorConfig (MkMirrorFields n provRsync u 0 0 0 EmptyString EmptyString EmptyString None
      EmptyString None None None None None None EmptyString EmptyString EmptyString false false
      EmptyString EmptyString EmptyString false 0 None None false EmptyString 0 EmptyString None None
      EmptyString) None.

Definition ex_old : list mirrorConfig := [ex_mirror "ubuntu" "rsync://u/"; ex_mirror "debian" "rsync://d/"].
Definition ex_new : list mirrorConfig := [ex_mirror "fedora" "rsync://f/"; ex_mirror "debian" "rsync://d2/"].

Lemma diff_applies_witness :
  diffMirrorConfig ex_old ex_new
  = Ret [MkTrans diffModify (ex_mirror "debian" "rsync://d2/"); MkTrans diffAdd (ex_mirror "fedora" "rsync://f/");
         MkTrans diffDelete (ex_mirror "ubuntu" "rsync://u/")]
  /\ exists ops, diffMirrorConfig ex_old ex_new = Ret ops /\ foldl apply_op (by_name ex_old) ops = by_name ex_new.
Proof.
  split; [vm_compute; reflexivity|].
  destruct (diff_applies ex_old ex_new) as (ops & He & _ & _ & Ha).
  - apply (bool_decide_unpack _). vm_compute. exact I.
  - apply (bool_decide_unpack _). vm_compute. exact I.
  - intros m Hm. unfold ex_old, ex_new in Hm. rewrite !elem_of_cons, !elem_of_nil in Hm.
    destruct_or! Hm; try done; subst; reflexivity.
  - exists ops. split; [exact He|exact Ha].
Defined.

(** U+00E9 in UTF-8 starts with the byte 195. *)
Definition accented : string := String (Ascii.ascii_of_nat 195) (String (Ascii.ascii_of_nat 169) "mirror").

Lemma diff_panics_witness :
  diffMirrorConfig [ex_mirror "debian" EmptyString] [ex_mirror accented EmptyString]
  = Panic "Nil.Name should be larger than maxName".
Proof.
  apply (diff_panics [ex_mirror "debian" EmptyString] [ex_mirror accented EmptyString]
    (ex_mirror accented EmptyString) (Ascii.ascii_of_nat 195)
    (String (Ascii.ascii_of_nat 169) "mirror")); try done.
  - right. by left.
  - intros m' Hm. simpl in Hm. rewrite !elem_of_cons, elem_of_nil in Hm.
    destruct_or! Hm; subst; done.
Defined.
