(* ===== verification/Job.v ===== *)
(** * worker/job.go: one mirror job

    [runJobWrapper] is a function of the job's surroundings: the hooks, which act on a
    state of the world, and for each attempt what the two [select]s receive, whether
    [Terminate] fails and the state of the job when it is read.  It returns the messages
    sent to the manager channel in order, the world, the size and the error.  The main
    loop of [Run], its goroutine and the channels between them are the step relation of
    the file [JobLoop]. *)

From S2P Require Import Prelude Json Msg.

Local Open Scope string_scope.
Local Open Scope list_scope.
Local Open Scope Z_scope.

(** ** Constants and messages *)

Inductive ctrlAction : Type :=
| jobStart
| jobStop
| jobDisable
| jobRestart
| jobPing
| jobHalt
| jobForceStart.

#[export] Instance ctrlAction_eq_dec : EqDecision ctrlAction.
Proof. solve_decision. Defined.

Definition stateNone : Z := 0.
Definition stateReady : Z := 1.
Definition statePaused : Z := 2.
Definition stateDisabled : Z := 3.
Definition stateHalting : Z := 4.

Record jobMessage : Type := MkJobMessage {
  jm_status : SyncStatus;
  jm_name : string;
  jm_msg : string;
  jm_schedule : bool
}.

#[export] Instance jobMessage_eq_dec : EqDecision jobMessage.
Proof. solve_decision. Defined.

(** ** Hooks *)

(** The interface [jobHook]: five actions on the state of the world. *)
Record jobHook (W : Type) : Type := MkHook {
  preJob : W -> W * option error;
  preExec : W -> W * option error;
  postExec : W -> W * option error;
  postSuccess : W -> W * option error;
  postFail : W -> W * option error
}.
Arguments MkHook {W}.
Arguments preJob {W}. Arguments preExec {W}. Arguments postExec {W}.
Arguments postSuccess {W}. Arguments postFail {W}.

(** [emptyHook]: what a hook that defines fewer actions embeds. *)
Definition nothing {W} (w : W) : W * option error := (w, None).
Definition emptyHook (W : Type) : jobHook W := MkHook nothing nothing nothing nothing nothing.

(** ** One attempt *)

(** The first [select]: the provider's goroutine ended, or reported that it started. *)
Inductive first_event : Type :=
| SyncDoneFirst (err : option error)
| StartedFirst.

(** The second: the goroutine ended; the timer fired or the job was killed, and then what
    [Terminate] answered. *)
Inductive second_event : Type :=
| SyncDone (err : option error)
| TimedOut (termErr : option error)
| Killed (termErr : option error).

Record attempt (W : Type) : Type := MkAttempt {
  at_first : first_event;
  at_second : second_event;
  (** what the run of the provider does to the world *)
  at_effect : W -> W;
  (** [m.State()] when the last message of the attempt is made *)
  at_state : Z
}.
Arguments MkAttempt {W}.
Arguments at_first {W}. Arguments at_second {W}. Arguments at_effect {W}. Arguments at_state {W}.

(** [syncDone] has room for one error and it is put back: the second [select] can only
    receive the one that the first did. *)
Definition attempt_ok {W} (a : attempt W) : Prop :=
  match a.(at_first), a.(at_second) with
  | SyncDoneFirst e, SyncDone e' => e' = e
  | _, _ => True
  end.

(** The goroutine ended without an error before its start was seen: [err.Error()] on nil. *)
Definition nil_error_call : string := "runtime error: invalid memory address or nil pointer dereference".

Section wrapper.
Context {W : Type}.

(** The provider, as far as the job asks it. *)
Record jobProvider : Type := MkJobProvider {
  p_Name : string;
  p_Hooks : list (jobHook W);
  p_Retry : Z;
  p_DataSize : W -> string;
  (** the error of a timeout, "<name> timeout after <duration>" *)
  p_timeoutErr : error
}.

Context (p : jobProvider).

(** World, messages sent so far, and the job's [size]. *)
Record wstate : Type := MkW { ws_world : W; ws_msgs : list jobMessage; ws_size : string }.

Definition send (m : jobMessage) (s : wstate) : wstate :=
  MkW s.(ws_world) (s.(ws_msgs) ++ [m]) s.(ws_size).
Definition set_world (w : W) (s : wstate) : wstate := MkW w s.(ws_msgs) s.(ws_size).
Definition set_size (x : string) (s : wstate) : wstate := MkW s.(ws_world) s.(ws_msgs) x.

Fixpoint runHooks (Hooks : list (jobHook W)) (action : jobHook W -> W -> W * option error)
    (hookname : string) (s : wstate) : wstate * option error :=
  match Hooks with
  | [] => (s, None)
  | hook :: Hooks =>
      let '(w, err) := action hook s.(ws_world) in
      let s := set_world w s in
      match err with
      | Some e =>
          (send (MkJobMessage Status.Failed p.(p_Name)
                   ("error exec hook " +:+ hookname +:+ ": " +:+ e) true) s, Some e)
      | None => runHooks Hooks action hookname s
      end
  end.

(** One turn of the retry loop: the state, and what it makes of the loop. *)
Inductive turn : Type :=
| Continue
| Return (err : option error).

(** Lines 198 to 239, once the provider has stopped: the post hooks, the verdict and the
    message.  [state] is what [m.State()] answers then. *)
Definition finish_attempt (retry : Z) (state : Z) (syncErr : option error) (stopASAP : bool)
    (s : wstate) : wstate * turn :=
  let rHooks := rev p.(p_Hooks) in
  let '(s, herr) := runHooks rHooks postExec "post-exec" s in
  match herr with
  | Some e => (s, Return (Some e))
  | None =>
      let '(s, err) :=
        match syncErr with
        | None => runHooks rHooks postSuccess "post-success" s
        | Some _ => runHooks rHooks postFail "post-fail" s
        end in
      match err with
      | Some e => (s, Return (Some e))
      | None =>
          match syncErr with
          | None =>
              let s := set_size (p.(p_DataSize) s.(ws_world)) s in
              (send (MkJobMessage Status.Success p.(p_Name) EmptyString (state =? stateReady)) s,
               Return None)
          | Some e =>
              let s := send (MkJobMessage Status.Failed p.(p_Name) e
                         ((retry =? p.(p_Retry) - 1) && (state =? stateReady))) s in
              (s, if stopASAP then Return None else Continue)
          end
      end
  end.

Definition run_attempt (retry : Z) (a : attempt W) (s : wstate) : comp (wstate * turn) :=
  let '(s, err) := runHooks p.(p_Hooks) preExec "pre-exec" s in
  match err with
  | Some e => Ret (s, Return (Some e))
  | None =>
      let s := send (MkJobMessage Status.Syncing p.(p_Name) EmptyString false) s in
      let s := set_world (a.(at_effect) s.(ws_world)) s in
      match a.(at_first) with
      | SyncDoneFirst None => Panic nil_error_call
      | _ =>
          let '(syncErr, termErr, stopASAP) :=
            match a.(at_second) with
            | SyncDone e => (e, None, false)
            | TimedOut t => (Some p.(p_timeoutErr), t, false)
            | Killed t => (Some "killed by manager", t, true)
            end in
          match termErr with
          | Some e => Ret (s, Return (Some e))
          | None => Ret (finish_attempt retry a.(at_state) syncErr stopASAP s)
          end
      end
  end.

(** [n] turns are left: [for retry := 0; retry < provider.Retry(); retry++]. *)
Fixpoint retry_loop (env : Z -> attempt W) (n : nat) (retry : Z) (s : wstate)
    : comp (wstate * option error) :=
  match n with
  | O => Ret (s, None)
  | S n =>
      '(s, t) ← run_attempt retry (env retry) s;
      match t with
      | Return err => Ret (s, err)
      | Continue => retry_loop env n (retry + 1) s
      end
  end.

Definition runJobWrapper (env : Z -> attempt W) (w : W) (size : string) : comp (wstate * option error) :=
  let s := send (MkJobMessage Status.PreSyncing p.(p_Name) EmptyString false) (MkW w [] size) in
  let '(s, err) := runHooks p.(p_Hooks) preJob "pre-job" s in
  match err with
  | Some e => Ret (s, Some e)
  | None => retry_loop env (Z.to_nat p.(p_Retry)) 0 s
  end.

(** ** What one turn does *)

Definition quiet (m : jobMessage) : Prop := m.(jm_schedule) = false.
Definition named (m : jobMessage) : Prop := m.(jm_name) = p.(p_Name).

(** [new] continues [old] by messages that do not ask for a new schedule. *)
Definition quiet_after (old new : list jobMessage) : Prop :=
  exists q, new = old ++ q /\ Forall quiet q.
(** ... and then one that does. *)
Definition scheduled_after (old new : list jobMessage) : Prop :=
  exists q m, new = old ++ q ++ [m] /\ Forall quiet q /\ m.(jm_schedule) = true.

Lemma quiet_after_refl l : quiet_after l l.
Proof. exists []. rewrite app_nil_r. by split; [|constructor]. Qed.

Lemma quiet_after_send l l' m : quiet_after l l' -> quiet m -> quiet_after l (l' ++ [m]).
Proof.
  intros (q & -> & Hq) Hm. exists (q ++ [m]). rewrite app_assoc. split; [done|].
  apply Forall_app. split; [done|by constructor; [|constructor]].
Qed.

Lemma scheduled_after_send l l' m : quiet_after l l' -> m.(jm_schedule) = true ->
  scheduled_after l (l' ++ [m]).
Proof. intros (q & -> & Hq) Hm. exists q, m. by rewrite app_assoc. Qed.

Lemma quiet_after_trans l1 l2 l3 : quiet_after l1 l2 -> quiet_after l2 l3 -> quiet_after l1 l3.
Proof.
  intros (q1 & -> & H1) (q2 & -> & H2). exists (q1 ++ q2). rewrite app_assoc.
  by split; [|apply Forall_app].
Qed.

Lemma quiet_scheduled_trans l1 l2 l3 :
  quiet_after l1 l2 -> scheduled_after l2 l3 -> scheduled_after l1 l3.
Proof.
  intros (q1 & -> & H1) (q2 & m & -> & H2 & Hm). exists (q1 ++ q2), m.
  rewrite <- !app_assoc. by split_and!; [|apply Forall_app|].
Qed.

(** A failing hook has its say; the others none. *)
Lemma runHooks_msgs hooks action name s :
  let '(s', err) := runHooks hooks action name s in
  s'.(ws_size) = s.(ws_size) /\
  match err with
  | None => s'.(ws_msgs) = s.(ws_msgs)
  | Some e => s'.(ws_msgs) = s.(ws_msgs) ++
      [MkJobMessage Status.Failed p.(p_Name) ("error exec hook " +:+ name +:+ ": " +:+ e) true]
  end.
Proof.
  revert s. induction hooks as [|h hooks IH]; intros s; cbn [runHooks]; [done|].
  destruct (action h (ws_world s)) as [w [e|]]; [done|]. specialize (IH (set_world w s)).
  by destruct (runHooks hooks action name (set_world w s)).
Qed.

(** Case analysis on a run of hooks: it passes with the messages untouched, or the turn
    ends with its message. *)
Ltac hooks_run H :=
  match goal with
  | |- context [runHooks ?l ?a ?n ?s] =>
      pose proof (runHooks_msgs l a n s) as H;
      destruct (runHooks l a n s) as [? [?|]]; destruct H as [_ H]
  end.

(** The attempt is not killed, its termination works and the job stays ready. *)
Definition undisturbed (a : attempt W) : Prop :=
  a.(at_first) <> SyncDoneFirst None /\ a.(at_state) = stateReady /\
  match a.(at_second) with
  | SyncDone _ => True
  | TimedOut t => t = None
  | Killed _ => False
  end.

(** What a turn that comes to its end asks of the schedule. *)
Definition turn_schedules (retry : Z) (l : list jobMessage) (st : wstate * turn) : Prop :=
  match st.2 with
  | Return _ => scheduled_after l st.1.(ws_msgs)
  | Continue => if decide (retry = p.(p_Retry) - 1) then scheduled_after l st.1.(ws_msgs)
                else quiet_after l st.1.(ws_msgs)
  end.

Lemma finish_attempt_schedule retry syncErr s l : quiet_after l s.(ws_msgs) ->
  turn_schedules retry l (finish_attempt retry stateReady syncErr false s).
Proof.
  intros Hl. unfold finish_attempt, turn_schedules. hooks_run H2.
  { simpl. rewrite H2. by apply scheduled_after_send. }
  destruct syncErr as [e|]; hooks_run H3.
  - simpl. rewrite H3, H2. by apply scheduled_after_send.
  - simpl. rewrite H3, H2. case_decide as Hr.
    + apply scheduled_after_send; [done|]. simpl. by rewrite Hr, Z.eqb_refl.
    + apply quiet_after_send; [done|]. unfold quiet. simpl. apply Z.eqb_neq in Hr. by rewrite Hr.
  - simpl. rewrite H3, H2. by apply scheduled_after_send.
  - simpl. rewrite H3, H2. by apply scheduled_after_send.
Qed.

Lemma run_attempt_schedule retry a s : undisturbed a ->
  returns (run_attempt retry a s) (turn_schedules retry s.(ws_msgs)).
Proof.
  intros (Hf & Hst & Hsec). unfold run_attempt. hooks_run H1.
  { apply returns_ret. unfold turn_schedules. simpl. rewrite H1.
    apply scheduled_after_send; [apply quiet_after_refl|done]. }
  rewrite Hst. set (s1 := set_world _ _).
  assert (Hs1 : quiet_after s.(ws_msgs) s1.(ws_msgs)).
  { unfold s1. simpl. rewrite H1. apply quiet_after_send; [apply quiet_after_refl|done]. }
  destruct (at_first a) as [[e|]|]; [|done|]; destruct (at_second a) as [e'|t|t]; try done; subst;
    by apply returns_ret, finish_attempt_schedule.
Qed.

Lemma retry_loop_schedule env n : forall retry s, (0 < n)%nat -> retry + Z.of_nat n = p.(p_Retry) ->
  (forall i, undisturbed (env i)) ->
  returns (retry_loop env n retry s) (fun '(s', _) => scheduled_after s.(ws_msgs) s'.(ws_msgs)).
Proof.
  induction n as [|n IH]; intros retry s Hn Hr Henv; [lia|]. cbn [retry_loop].
  eapply returns_bind; [by apply run_attempt_schedule|]. intros [s1 [|err]]; unfold turn_schedules; simpl.
  - case_decide as Hlast.
    + assert (n = 0%nat) as -> by lia. intros H1. by apply returns_ret.
    + intros H1. eapply returns_mono; [apply IH; [lia|lia|done]|].
      intros [s2 e2]. by apply quiet_scheduled_trans.
  - intros H1. by auto with tunasync.
Qed.

(** However a turn goes: a message that asks for a schedule is its last, and ends the loop
    or is that of the last attempt. *)
Definition ends (old new : list jobMessage) : Prop := quiet_after old new \/ scheduled_after old new.

Definition turn_ends (retry : Z) (l : list jobMessage) (st : wstate * turn) : Prop :=
  match st.2 with
  | Return _ => ends l st.1.(ws_msgs)
  | Continue => quiet_after l st.1.(ws_msgs) \/ retry = p.(p_Retry) - 1 /\ scheduled_after l st.1.(ws_msgs)
  end.

Lemma ends_send l l' m : quiet_after l l' -> ends l (l' ++ [m]).
Proof.
  intros H. destruct (jm_schedule m) eqn:E; [right; by apply scheduled_after_send|].
  left. by apply quiet_after_send.
Qed.

Lemma finish_attempt_ends retry state syncErr stop s l : quiet_after l s.(ws_msgs) ->
  turn_ends retry l (finish_attempt retry state syncErr stop s).
Proof.
  intros Hl. unfold finish_attempt, turn_ends. hooks_run H2; [simpl; rewrite H2; by apply ends_send|].
  destruct syncErr as [e|]; hooks_run H3; simpl; rewrite H3, H2; try by apply ends_send.
  destruct stop; [by apply ends_send|]. destruct (retry =? p_Retry p - 1) eqn:Hr; simpl.
  - apply Z.eqb_eq in Hr. destruct (ends_send l (ws_msgs s) (MkJobMessage Status.Failed (p_Name p) e (state =? stateReady)) Hl);
      [by left|by right].
  - left. by apply quiet_after_send.
Qed.

Lemma run_attempt_ends retry a s s' t : run_attempt retry a s = Ret (s', t) ->
  turn_ends retry s.(ws_msgs) (s', t).
Proof.
  unfold run_attempt. hooks_run H1.
  { intros [= <- <-]. unfold turn_ends. simpl. rewrite H1. apply ends_send, quiet_after_refl. }
  set (s1 := set_world _ _). assert (Hs1 : quiet_after s.(ws_msgs) s1.(ws_msgs)).
  { unfold s1. simpl. rewrite H1. apply quiet_after_send; [apply quiet_after_refl|done]. }
  clearbody s1.
  assert (Hfin : forall r, r = (s', t) -> turn_ends retry s.(ws_msgs) r -> turn_ends retry s.(ws_msgs) (s', t))
    by by intros r ->.
  destruct (at_first a) as [[e|]|]; [|done|]; destruct (at_second a) as [e'|[t'|]|[t'|]]; intros Heq;
    injection Heq as Heq; first [by subst; left | eapply Hfin; [exact Heq|]; by apply finish_attempt_ends].
Qed.

Lemma retry_loop_ends env n : forall retry s s' err, retry + Z.of_nat n = p.(p_Retry) ->
  retry_loop env n retry s = Ret (s', err) -> ends s.(ws_msgs) s'.(ws_msgs).
Proof.
  induction n as [|n IH]; intros retry s s' err Hr; cbn [retry_loop].
  { intros [= <- _]. left. apply quiet_after_refl. }
  destruct (run_attempt retry (env retry) s) as [[s1 t]|] eqn:E; [|done]. cbn [mbind comp_bind].
  apply run_attempt_ends in E. destruct t as [|err']; unfold turn_ends in E; simpl in E.
  2: { by intros [= <- _]. }
  intros Hl. destruct E as [Hq|[Hlast Hs]].
  - destruct (IH (retry + 1) s1 s' err ltac:(lia) Hl) as [H|H]; [left|right].
    + by apply quiet_after_trans with (ws_msgs s1).
    + by apply quiet_scheduled_trans with (ws_msgs s1).
  - assert (n = 0%nat) as -> by lia. cbn [retry_loop] in Hl. injection Hl as <- _. by right.
Qed.

(** ** Runs in which nothing goes wrong around the provider *)

(** What an attempt amounts to when the hooks pass and [Terminate] works: the error of the
    synchronisation and whether it was killed. *)
Definition verdict (a : attempt W) : option error * bool :=
  match a.(at_second) with
  | SyncDone e => (e, false)
  | TimedOut _ => (Some p.(p_timeoutErr), false)
  | Killed _ => (Some "killed by manager", true)
  end.

Definition smooth (a : attempt W) : Prop :=
  a.(at_first) <> SyncDoneFirst None /\
  match a.(at_second) with SyncDone _ => True | TimedOut t | Killed t => t = None end.

(** The messages of the attempts from [retry] on, [n] being left. *)
Fixpoint attempt_messages (env : Z -> attempt W) (n : nat) (retry : Z) : list jobMessage :=
  match n with
  | O => []
  | S n =>
      let a := env retry in
      MkJobMessage Status.Syncing p.(p_Name) EmptyString false ::
      match verdict a with
      | (None, _) => [MkJobMessage Status.Success p.(p_Name) EmptyString (a.(at_state) =? stateReady)]
      | (Some e, killed) =>
          MkJobMessage Status.Failed p.(p_Name) e
            ((retry =? p.(p_Retry) - 1) && (a.(at_state) =? stateReady))
          :: if killed then [] else attempt_messages env n (retry + 1)
      end
  end.

(** The world as the hooks and the provider leave it, when no hook fails. *)
Definition run_all (hooks : list (jobHook W)) (action : jobHook W -> W -> W * option error) (w : W) : W :=
  foldl (fun w h => (action h w).1) w hooks.

Definition attempt_world (a : attempt W) (w : W) : W :=
  let w := a.(at_effect) (run_all p.(p_Hooks) preExec w) in
  let w := run_all (rev p.(p_Hooks)) postExec w in
  match (verdict a).1 with
  | None => run_all (rev p.(p_Hooks)) postSuccess w
  | Some _ => run_all (rev p.(p_Hooks)) postFail w
  end.

Fixpoint attempts_world (env : Z -> attempt W) (n : nat) (retry : Z) (w : W) : W :=
  match n with
  | O => w
  | S n =>
      let w := attempt_world (env retry) w in
      match verdict (env retry) with
      | (None, _) | (Some _, true) => w
      | (Some _, false) => attempts_world env n (retry + 1) w
      end
  end.

Definition never_fails (h : jobHook W) : Prop :=
  forall w, (preJob h w).2 = None /\ (preExec h w).2 = None /\ (postExec h w).2 = None
    /\ (postSuccess h w).2 = None /\ (postFail h w).2 = None.

Lemma runHooks_pass hooks action name s :
  (forall h w, h ∈ hooks -> (action h w).2 = None) ->
  runHooks hooks action name s = (set_world (run_all hooks action s.(ws_world)) s, None).
Proof.
  revert s. induction hooks as [|h hooks IH]; intros s Hh; [by destruct s|]. cbn [runHooks].
  pose proof (Hh h (ws_world s) ltac:(by left)) as He. destruct (action h (ws_world s)) as [w e] eqn:E.
  simpl in He. subst e. rewrite IH; [|intros; apply Hh; by right]. simpl. by rewrite E.
Qed.

Context (Hpass : forall h, h ∈ p.(p_Hooks) -> never_fails h).

Lemma pass_fwd (action : jobHook W -> W -> W * option error) :
  (forall h, never_fails h -> forall w, (action h w).2 = None) ->
  forall h w, h ∈ p.(p_Hooks) -> (action h w).2 = None.
Proof. intros Ha h w Hin. by apply Ha, Hpass. Qed.

Lemma pass_rev (action : jobHook W -> W -> W * option error) :
  (forall h, never_fails h -> forall w, (action h w).2 = None) ->
  forall h w, h ∈ rev p.(p_Hooks) -> (action h w).2 = None.
Proof.
  intros Ha h w Hin. apply Ha, Hpass. apply list_elem_of_In. apply In_rev. by apply list_elem_of_In.
Qed.

Lemma run_attempt_smooth retry a s : smooth a ->
  exists s' t, run_attempt retry a s = Ret (s', t)
    /\ s'.(ws_world) = attempt_world a s.(ws_world)
    /\ s'.(ws_msgs) = s.(ws_msgs) ++ MkJobMessage Status.Syncing p.(p_Name) EmptyString false ::
         [match (verdict a).1 with
          | None => MkJobMessage Status.Success p.(p_Name) EmptyString (a.(at_state) =? stateReady)
          | Some e => MkJobMessage Status.Failed p.(p_Name) e
                        ((retry =? p.(p_Retry) - 1) && (a.(at_state) =? stateReady))
          end]
    /\ t = match verdict a with (None, _) | (Some _, true) => Return None | (Some _, false) => Continue end.
Proof.
  intros [Hf Hsec]. unfold run_attempt.
  rewrite runHooks_pass by (apply pass_fwd; intros h Hh w; apply (Hh w)). cbn [set_world send ws_world ws_msgs].
  assert (He : forall syncErr stop, verdict a = (syncErr, stop) ->
    exists s' t, finish_attempt retry a.(at_state) syncErr stop
      (MkW (at_effect a (run_all p.(p_Hooks) preExec (ws_world s)))
         (ws_msgs s ++ [MkJobMessage Status.Syncing p.(p_Name) EmptyString false]) (ws_size s)) = (s', t)
    /\ s'.(ws_world) = attempt_world a s.(ws_world)
    /\ s'.(ws_msgs) = s.(ws_msgs) ++ MkJobMessage Status.Syncing p.(p_Name) EmptyString false ::
         [match (verdict a).1 with
          | None => MkJobMessage Status.Success p.(p_Name) EmptyString (a.(at_state) =? stateReady)
          | Some e => MkJobMessage Status.Failed p.(p_Name) e
                        ((retry =? p.(p_Retry) - 1) && (a.(at_state) =? stateReady))
          end]
    /\ t = match verdict a with (None, _) | (Some _, true) => Return None | (Some _, false) => Continue end).
  { intros syncErr stop Hv. unfold finish_attempt, attempt_world. rewrite Hv. simpl.
    rewrite runHooks_pass by (apply pass_rev; intros h Hh w; apply (Hh w)).
    destruct syncErr as [e|]; rewrite runHooks_pass by (apply pass_rev; intros h Hh w; apply (Hh w));
      simpl; eexists _, _; (split; [done|]); simpl; rewrite <- app_assoc; by split_and!. }
  unfold verdict in *.
  destruct (at_first a) as [[e|]|]; [|done|]; destruct (at_second a) as [e'|t|t]; subst;
    destruct (He _ _ eq_refl) as (s' & t' & Hfin & H1 & H2 & H3);
    exists s', t'; (split; [exact (f_equal Ret Hfin)|done]).
Qed.

Lemma retry_loop_smooth env n : forall retry s, (forall i, smooth (env i)) ->
  exists s', retry_loop env n retry s = Ret (s', None)
    /\ s'.(ws_world) = attempts_world env n retry s.(ws_world)
    /\ s'.(ws_msgs) = s.(ws_msgs) ++ attempt_messages env n retry.
Proof.
  induction n as [|n IH]; intros retry s Henv; cbn [retry_loop attempts_world attempt_messages].
  { exists s. by rewrite app_nil_r. }
  destruct (run_attempt_smooth retry (env retry) s (Henv retry)) as (s1 & t & -> & Hw & Hm & ->).
  simpl. destruct (verdict (env retry)) as [[e|] killed] eqn:Hv; simpl in Hm.
  - destruct killed.
    + exists s1. done.
    + destruct (IH (retry + 1) s1 Henv) as (s' & -> & Hw' & Hm'). exists s'. split; [done|].
      rewrite Hw', Hw. split; [done|]. rewrite Hm', Hm. by rewrite <- app_assoc.
  - exists s1. done.
Qed.
End wrapper.
Arguments jobProvider : clear implicits.
Arguments wstate : clear implicits.

(** ** Counting the attempts *)

Section growth.
Context {W : Type} (p : jobProvider W).

Definition syncs (l : list jobMessage) : nat :=
  length (filter (fun m => m.(jm_status) = Status.Syncing) l).
Definition all_named (l : list jobMessage) : Prop := Forall (fun m => m.(jm_name) = p.(p_Name)) l.

(** At most [k] attempts were announced, and only messages of this job. *)
Definition grows (k : nat) (s s' : wstate W) : Prop :=
  (syncs s'.(ws_msgs) <= syncs s.(ws_msgs) + k)%nat
  /\ (all_named s.(ws_msgs) -> all_named s'.(ws_msgs)).

Lemma grows_refl k s : grows k s s.
Proof. split; [lia|done]. Qed.

Lemma grows_trans k1 k2 s1 s2 s3 : grows k1 s1 s2 -> grows k2 s2 s3 -> grows (k1 + k2) s1 s3.
Proof. intros [H1 F1] [H2 F2]. split; [lia|tauto]. Qed.

Lemma grows_mono k1 k2 s s' : (k1 <= k2)%nat -> grows k1 s s' -> grows k2 s s'.
Proof. intros Hk [H F]. split; [lia|done]. Qed.

Lemma grows_send (m : jobMessage) s : m.(jm_name) = p.(p_Name) ->
  grows (if decide (m.(jm_status) = Status.Syncing) then 1 else 0) s (send m s).
Proof.
  intros Hm. split; simpl.
  - unfold syncs. rewrite filter_app, length_app, filter_cons. by case_decide.
  - intros Hf. apply Forall_app. split; [done|by repeat constructor].
Qed.

Lemma grows_hooks hooks action name s : grows 0 s (runHooks p hooks action name s).1.
Proof.
  pose proof (runHooks_msgs p hooks action name s) as H.
  destruct (runHooks p hooks action name s) as [s1 [e|]]; destruct H as [_ H]; simpl.
  - unfold grows. rewrite H.
    apply (grows_send (MkJobMessage Status.Failed p.(p_Name) ("error exec hook " +:+ name +:+ ": " +:+ e) true) s).
    done.
  - unfold grows. rewrite H. split; [lia|done].
Qed.

Ltac hooks_grow H :=
  match goal with
  | |- context [runHooks ?p ?l ?a ?n ?s] =>
      pose proof (grows_hooks l a n s) as H; destruct (runHooks p l a n s) as [? [?|]]; simpl in H
  end.

Lemma grows_finish retry st e stop s : grows 0 s (finish_attempt p retry st e stop s).1.
Proof.
  unfold finish_attempt. hooks_grow H1; [done|]. destruct e as [e|]; hooks_grow H2; simpl.
  - by eapply (grows_trans 0 0).
  - eapply (grows_trans 0 0); [eapply (grows_trans 0 0); [exact H1|exact H2]|].
    by apply (grows_send (MkJobMessage Status.Failed _ _ _)).
  - by eapply (grows_trans 0 0).
  - eapply (grows_trans 0 0); [eapply (grows_trans 0 0); [exact H1|exact H2]|].
    set (s' := set_size _ _). by apply (grows_send (MkJobMessage Status.Success _ _ _) s').
Qed.

Lemma grows_attempt retry a s s' t : run_attempt p retry a s = Ret (s', t) -> grows 1 s s'.
Proof.
  unfold run_attempt. hooks_grow H1.
  { intros [= <- <-]. by eapply grows_mono; [|exact H1]; lia. }
  set (s2 := set_world _ _).
  assert (H2 : grows 1 s s2).
  { eapply (grows_trans 0 1); [exact H1|].
    apply (grows_send (MkJobMessage Status.Syncing p.(p_Name) EmptyString false)). done. }
  clearbody s2.
  assert (Hend : forall r, r = (s', t) -> grows 0 s2 r.1 -> grows 1 s s').
  { intros r -> Hr. by eapply (grows_trans 1 0). }
  destruct (at_first a) as [[e|]|]; [|done|]; destruct (at_second a) as [e'|[t'|]|[t'|]];
    intros Heq; injection Heq as Heq; try (by subst);
    (eapply Hend; [exact Heq|]; apply grows_finish).
Qed.

Lemma grows_loop env n : forall retry s s' e, retry_loop p env n retry s = Ret (s', e) -> grows n s s'.
Proof.
  induction n as [|n IH]; intros retry s s' e; cbn [retry_loop].
  { intros [= <- <-]. apply grows_refl. }
  destruct (run_attempt p retry (env retry) s) as [[s1 t]|] eqn:E; [|done]. cbn [mbind comp_bind].
  apply grows_attempt in E. destruct t.
  - intros H%IH. by eapply (grows_trans 1 n).
  - intros [= <- <-]. by eapply grows_mono; [|exact E]; lia.
Qed.
End growth.

(** ** What a run of a job promises *)

Section properties.
Context {W : Type} (p : jobProvider W).


Lemma runJobWrapper_smooth env w size :
  (forall h, h ∈ p.(p_Hooks) -> never_fails h) -> (forall i, smooth (env i)) ->
  let n := Z.to_nat p.(p_Retry) in
  exists s, runJobWrapper p env w size ⇓ (s, None)
    /\ s.(ws_msgs) = MkJobMessage Status.PreSyncing p.(p_Name) EmptyString false
                     :: attempt_messages p env n 0
    /\ s.(ws_world) = attempts_world p env n 0 (run_all p.(p_Hooks) preJob w).
Proof.
  intros Hpass Henv n. unfold runJobWrapper.
  rewrite runHooks_pass by (apply pass_fwd; [done|]; intros h Hh w'; apply (Hh w')).
  destruct (retry_loop_smooth p Hpass env n 0
    (set_world (run_all p.(p_Hooks) preJob w)
       (send (MkJobMessage Status.PreSyncing p.(p_Name) EmptyString false) (MkW w [] size))) Henv)
    as (s' & He & Hw & Hm).
  exists s'. split; [exact He|]. rewrite Hm, Hw. done.
Qed.

(** The messages and the hooks of a run in which no hook fails and [Terminate] works.
    The manager is told of the pre-syncing once, then of each attempt's start and end, up
    to the first success, the kill or the last attempt; the hooks run pre-job once, and
    around each attempt in their order before it and in the reverse order after it, with
    the success or the failure hooks as the attempt went. *)
Theorem wrapper_messages env w size :
  (forall h, h ∈ p.(p_Hooks) -> never_fails h) -> (forall i, smooth (env i)) ->
  let n := Z.to_nat p.(p_Retry) in
  exists s, runJobWrapper p env w size ⇓ (s, None)
    /\ s.(ws_msgs) = MkJobMessage Status.PreSyncing p.(p_Name) EmptyString false
                     :: attempt_messages p env n 0
    /\ s.(ws_world) = attempts_world p env n 0 (run_all p.(p_Hooks) preJob w).
Proof. apply runJobWrapper_smooth. Qed.

(** The number of attempts. However the attempts and the hooks go, a run starts the
    provider at most [Retry] times and says nothing under another name. *)
Theorem wrapper_bounded env w size s err :
  runJobWrapper p env w size ⇓ (s, err) ->
  (syncs s.(ws_msgs) <= Z.to_nat p.(p_Retry))%nat /\ all_named p s.(ws_msgs).
Proof.
  unfold runJobWrapper. set (s0 := send _ _). intros H.
  assert (Hg : grows p (Z.to_nat p.(p_Retry)) s0 s).
  { pose proof (grows_hooks p p.(p_Hooks) preJob "pre-job" s0) as H1.
    destruct (runHooks p p.(p_Hooks) preJob "pre-job" s0) as [s1 [e1|]]; simpl in H1.
    - injection H as <- <-. by eapply grows_mono; [|exact H1]; lia.
    - apply grows_loop in H. by eapply (grows_trans p 0). }
  destruct Hg as [Hn Hf]. split; [exact Hn|]. apply Hf. by repeat constructor.
Qed.

(** A failure of [Terminate] loses the job. When the first attempt times out, or is
    killed, and [Terminate] fails, the run ends with the error and none of its messages
    asks for the next schedule: nothing starts the job again. *)
Theorem terminate_error_not_scheduled env w size e :
  0 < p.(p_Retry) -> (forall h, h ∈ p.(p_Hooks) -> never_fails h) ->
  (env 0).(at_first) <> SyncDoneFirst None ->
  (env 0).(at_second) = TimedOut (Some e) \/ (env 0).(at_second) = Killed (Some e) ->
  exists s, runJobWrapper p env w size ⇓ (s, Some e)
    /\ ws_msgs s = [MkJobMessage Status.PreSyncing p.(p_Name) EmptyString false;
                    MkJobMessage Status.Syncing p.(p_Name) EmptyString false].
Proof.
  intros Hr Hpass Hf Ht. unfold runJobWrapper.
  rewrite runHooks_pass by (apply pass_fwd; [done|]; intros h Hh w'; apply (Hh w')).
  destruct (Z.to_nat p.(p_Retry)) as [|n] eqn:E; [lia|]. cbn [retry_loop].
  unfold run_attempt.
  rewrite runHooks_pass by (apply pass_fwd; [done|]; intros h Hh w'; apply (Hh w')).
  destruct (at_first (env 0)) as [[e0|]|]; [|done|]; destruct Ht as [-> | ->]; by eexists.
Qed.

(** A provider that ends well too quickly kills the worker. When the first [select] sees
    the end of the provider before its start and the end is without an error, the message
    it logs reads a nil error: the process panics. *)
Theorem fast_success_panics env w size :
  0 < p.(p_Retry) -> (forall h, h ∈ p.(p_Hooks) -> never_fails h) ->
  (env 0).(at_first) = SyncDoneFirst None ->
  runJobWrapper p env w size ↯ nil_error_call.
Proof.
  intros Hr Hpass Hf. unfold runJobWrapper.
  rewrite runHooks_pass by (apply pass_fwd; [done|]; intros h Hh w'; apply (Hh w')).
  destruct (Z.to_nat p.(p_Retry)) as [|n] eqn:E; [lia|]. cbn [retry_loop].
  unfold run_attempt.
  rewrite runHooks_pass by (apply pass_fwd; [done|]; intros h Hh w'; apply (Hh w')).
  by rewrite Hf.
Qed.
End properties.

(** *** Witnesses: two hooks that log the phase, one retry after a failure *)

Definition log_hook (i : nat) : jobHook (list string) :=
  let say s w := (w ++ [s +:+ pretty i], None) in
  MkHook (say "pre-job ") (say "pre-exec ") (say "post-exec ") (say "post-success ") (say "post-fail ").

Definition ex_provider (retry : Z) : jobProvider (list string) :=
  MkJobProvider "debian" [log_hook 0; log_hook 1] retry (fun _ => "1T") "debian timeout after 1s".

Lemma ex_hooks_pass retry h : h ∈ p_Hooks (ex_provider retry) -> never_fails h.
Proof. simpl. rewrite !elem_of_cons, elem_of_nil. by intros [->|[->|[]]] w. Qed.

(** The first attempt fails, the second succeeds. *)
Definition ex_env (i : Z) : attempt (list string) :=
  MkAttempt StartedFirst (SyncDone (if decide (i = 0) then Some "exit status 23" else None))
    (fun w => w ++ ["sync"]) stateReady.


Lemma wrapper_messages_witness :
  exists s, runJobWrapper (ex_provider 2) ex_env [] EmptyString = Ret (s, None)
    /\ s.(ws_msgs) = [MkJobMessage Status.PreSyncing "debian" EmptyString false;
         MkJobMessage Status.Syncing "debian" EmptyString false;
         MkJobMessage Status.Failed "debian" "exit status 23" false;
         MkJobMessage Status.Syncing "debian" EmptyString false;
         MkJobMessage Status.Success "debian" EmptyString true]
    /\ s.(ws_world) = ["pre-job 0"; "pre-job 1";
         "pre-exec 0"; "pre-exec 1"; "sync"; "post-exec 1"; "post-exec 0"; "post-fail 1"; "post-fail 0";
         "pre-exec 0"; "pre-exec 1"; "sync"; "post-exec 1"; "post-exec 0"; "post-success 1"; "post-success 0"].
Proof.
  destruct (wrapper_messages (ex_provider 2) ex_env [] EmptyString) as (s & He & Hm & Hw).
  - apply ex_hooks_pass.
  - intros i. by split.
  - exists s. split; [exact He|]. rewrite Hm, Hw. split; vm_compute; reflexivity.
Defined.

Lemma wrapper_bounded_witness :
  exists s e, runJobWrapper (ex_provider 2) ex_env [] EmptyString = Ret (s, e)
    /\ (syncs s.(ws_msgs) <= 2)%nat.
Proof.
  destruct (runJobWrapper (ex_provider 2) ex_env [] EmptyString) as [[s e]|m] eqn:He.
  - exists s, e. split; [reflexivity|]. apply (wrapper_bounded (ex_provider 2) ex_env [] EmptyString s e He).
  - vm_compute in He. discriminate He.
Defined.

Definition ex_stuck (i : Z) : attempt (list string) :=
  MkAttempt StartedFirst (TimedOut (Some "operation not permitted")) (fun w => w) stateReady.

Lemma terminate_error_not_scheduled_witness :
  exists s, runJobWrapper (ex_provider 2) ex_stuck [] EmptyString = Ret (s, Some "operation not permitted")
    /\ length (ws_msgs s) = 2%nat.
Proof.
  destruct (terminate_error_not_scheduled (ex_provider 2) ex_stuck [] EmptyString "operation not permitted")
    as (s & He & Hm); try done.
  - apply ex_hooks_pass.
  - by left.
  - exists s. split; [exact He|]. by rewrite Hm.
Defined.

Lemma fast_success_panics_witness :
  runJobWrapper (ex_provider 2)
    (fun _ => MkAttempt (SyncDoneFirst None) (SyncDone None) (fun w => w) stateReady) [] EmptyString
  = Panic nil_error_call.
Proof. apply fast_success_panics; [done|apply ex_hooks_pass|done]. Defined.
