(* ===== verification/JobLoop.v ===== *)
(** * worker/job.go: the main loop of a job

    [mirrorJob.Run] as a step relation.  A job has its loop ([parent]), at most one
    current goroutine running [runJob] ([cur]), and goroutines it no longer waits for
    ([others]): those that have closed [jobDone] and still have to give back their
    semaphore token, and those abandoned by the [default] branch.  The channels are the
    one-place [ctrlChan] and [bypassSemaphore], the [kill] and [jobDone] of each
    goroutine, and the semaphore shared by all the jobs of the worker.

    A job has one loop here: [Run] is called when it is not running ([worker_step]).  The
    jobs with more loops are in Loops. *)

From S2P Require Import Prelude Job.

Local Open Scope list_scope.
Local Open Scope Z_scope.

(** ** One goroutine of [runJob] *)

Inductive child_pc : Type :=
(** at the [select] of [runJob] *)
| CAcquire
(** in [runJobWrapper]; [held]: with a semaphore token *)
| CRun (held : bool)
(** [jobDone] closed; [held]: the deferred release has not run yet *)
| CClosed (held : bool)
(** killed before it started, at [jobDone <- empty{}] *)
| CSendDone.

#[export] Instance child_pc_eq_dec : EqDecision child_pc.
Proof. solve_decision. Defined.

Record child : Type := MkChild { c_pc : child_pc; c_killed : bool }.

#[export] Instance child_eq_dec : EqDecision child.
Proof. solve_decision. Defined.

Definition set_pc (pc : child_pc) (c : child) : child := MkChild pc c.(c_killed).
Definition kill (c : child) : child := MkChild c.(c_pc) true.

(** The goroutine holds a token of the semaphore. *)
Definition holds (c : child) : bool :=
  match c.(c_pc) with CRun true | CClosed true => true | _ => false end.

(** The provider may be running. *)
Definition running (c : child) : bool :=
  match c.(c_pc) with CRun _ => true | _ => false end.

(** ** The loop *)

(** What the loop does once the goroutine it killed is done. *)
Inductive after_kill : Type := ToCtrl | ToReturn | ToTop.

Inductive parent_pc : Type :=
(** [Run] is not running: never started, or returned *)
| PReturned
(** the head of the loop *)
| PTop
(** [_wait_for_job] *)
| PWait
(** [<-jobDone] after [close(kill)] *)
| PWaitDone (k : after_kill)
(** [ctrl := <-m.ctrlChan] at the bottom of the loop *)
| PCtrl.

#[export] Instance after_kill_eq_dec : EqDecision after_kill.
Proof. solve_decision. Defined.
#[export] Instance parent_pc_eq_dec : EqDecision parent_pc.
Proof. solve_decision. Defined.

Record job : Type := MkJob {
  j_state : Z;
  j_ctrl : option ctrlAction;
  j_bypass : bool;
  j_pc : parent_pc;
  j_cur : option child;
  j_others : list child
}.

Definition set_state (x : Z) (j : job) : job :=
  MkJob x j.(j_ctrl) j.(j_bypass) j.(j_pc) j.(j_cur) j.(j_others).
Definition set_ctrl (x : option ctrlAction) (j : job) : job :=
  MkJob j.(j_state) x j.(j_bypass) j.(j_pc) j.(j_cur) j.(j_others).
Definition set_bypass (x : bool) (j : job) : job :=
  MkJob j.(j_state) j.(j_ctrl) x j.(j_pc) j.(j_cur) j.(j_others).
Definition set_jpc (x : parent_pc) (j : job) : job :=
  MkJob j.(j_state) j.(j_ctrl) j.(j_bypass) x j.(j_cur) j.(j_others).
Definition set_cur (x : option child) (j : job) : job :=
  MkJob j.(j_state) j.(j_ctrl) j.(j_bypass) j.(j_pc) x j.(j_others).
Definition set_others (x : list child) (j : job) : job :=
  MkJob j.(j_state) j.(j_ctrl) j.(j_bypass) j.(j_pc) j.(j_cur) x.

(** [newMirrorJob] *)
Definition newMirrorJob : job := MkJob stateNone None false PReturned None [].

(** The call of [Run]: a new [bypassSemaphore], the head of the loop. *)
Definition start_run (j : job) : job := set_jpc PTop (set_bypass false j).

(** The head of the loop. *)
Definition top_step (j : job) : job :=
  if j.(j_state) =? stateReady
  then set_jpc PWait (set_cur (Some (MkChild CAcquire false)) j)
  else set_jpc PCtrl j.

(** [close(kill)] *)
Definition close_kill (j : job) : job := set_cur (kill <$> j.(j_cur)) j.

(** A control action received at [_wait_for_job]. *)
Definition on_ctrl_wait (ctrl : ctrlAction) (j : job) : job :=
  match ctrl with
  | jobStop => set_jpc (PWaitDone ToCtrl) (close_kill (set_state statePaused j))
  | jobDisable => set_jpc (PWaitDone ToReturn) (close_kill (set_state stateDisabled j))
  | jobRestart => set_jpc (PWaitDone ToTop) (close_kill (set_state stateReady j))
  | jobForceStart => set_state stateReady (set_bypass true j)
  | jobStart => set_state stateReady j
  | jobHalt => set_jpc (PWaitDone ToReturn) (close_kill (set_state stateHalting j))
  | jobPing =>
      (* close(kill) and return: nobody waits for the goroutine any more *)
      set_jpc PReturned (set_cur None
        (set_others (j.(j_others) ++ option_list (kill <$> j.(j_cur))) j))
  end.

(** A control action received at the bottom of the loop. *)
Definition on_ctrl_idle (ctrl : ctrlAction) (j : job) : job :=
  match ctrl with
  | jobStop => set_jpc PTop (set_state statePaused j)
  | jobDisable => set_jpc PReturned (set_state stateDisabled j)
  | jobForceStart => set_jpc PTop (set_state stateReady (set_bypass true j))
  | jobRestart | jobStart => set_jpc PTop (set_state stateReady j)
  | jobPing | jobHalt => set_jpc PReturned j
  end.

(** Where the loop goes after [<-jobDone]. *)
Definition after_done (k : after_kill) : parent_pc :=
  match k with ToCtrl => PCtrl | ToReturn => PReturned | ToTop => PTop end.

(** The goroutine has closed [jobDone], or offers its value: the loop stops waiting for it,
    and the rest of a closed one is its release. *)
Definition receive_done (c : child) (pc : parent_pc) (j : job) : job :=
  let j := set_jpc pc (set_cur None j) in
  match c.(c_pc) with
  | CClosed true => set_others (j.(j_others) ++ [c]) j
  | _ => j
  end.

Definition done_ready (c : child) : bool :=
  match c.(c_pc) with CClosed _ | CSendDone => true | _ => false end.

(** ** The worker: jobs and the shared semaphore *)

Record system : Type := MkSystem { sy_sem : Z; sy_jobs : gmap string job }.

(** What a goroutine does by itself: its new program counter and the change of the
    number of tokens taken, for a semaphore of capacity [cap] with [sem] taken. *)
Inductive child_step (cap : Z) : Z -> child -> Z -> child -> Prop :=
| c_acquire sem c : c.(c_pc) = CAcquire -> sem < cap ->
    child_step cap sem c (sem + 1) (set_pc (CRun true) c)
| c_kill sem c : c.(c_pc) = CAcquire -> c.(c_killed) = true ->
    child_step cap sem c sem (set_pc CSendDone c)
| c_finish sem c held : c.(c_pc) = CRun held ->
    child_step cap sem c sem (set_pc (CClosed held) c)
| c_release sem c : c.(c_pc) = CClosed true ->
    child_step cap sem c (sem - 1) (set_pc (CClosed false) c).

(** The steps a job takes by itself. *)
Inductive job_step (cap : Z) : Z -> job -> Z -> job -> Prop :=
| j_top sem j : j.(j_pc) = PTop -> job_step cap sem j sem (top_step j)
| j_done sem j c : j.(j_pc) = PWait -> j.(j_cur) = Some c -> done_ready c = true ->
    job_step cap sem j sem (receive_done c PCtrl j)
| j_ctrl_wait sem j ctrl : j.(j_pc) = PWait -> j.(j_ctrl) = Some ctrl ->
    job_step cap sem j sem (on_ctrl_wait ctrl (set_ctrl None j))
| j_killed sem j c k : j.(j_pc) = PWaitDone k -> j.(j_cur) = Some c -> done_ready c = true ->
    job_step cap sem j sem (receive_done c (after_done k) j)
| j_ctrl_idle sem j ctrl : j.(j_pc) = PCtrl -> j.(j_ctrl) = Some ctrl ->
    job_step cap sem j sem (on_ctrl_idle ctrl (set_ctrl None j))
| j_bypass_take sem j c : j.(j_cur) = Some c -> c.(c_pc) = CAcquire -> j.(j_bypass) = true ->
    job_step cap sem j sem (set_bypass false (set_cur (Some (set_pc (CRun false) c)) j))
| j_cur_step sem sem' j c c' : j.(j_cur) = Some c -> child_step cap sem c sem' c' ->
    job_step cap sem j sem' (set_cur (Some c') j)
| j_other_step sem sem' j l1 c l2 c' : j.(j_others) = l1 ++ c :: l2 ->
    child_step cap sem c sem' c' ->
    job_step cap sem j sem' (set_others (l1 ++ c' :: l2) j).

(** What the worker does to a job: it puts a control action into an empty [ctrlChan]
    ([jobPing] is never sent), and when [Run] is not running it sets the state and may
    call [Run].  This is the domain of the relation, jobs with one loop at a time; the worker
    itself only tests the state, and can call [Run] on a job that was just started: what
    such a job does is in Loops, where [mstep] calls [Run] at any time. *)
Inductive worker_step : job -> job -> Prop :=
| w_send j ctrl : ctrl <> jobPing -> j.(j_ctrl) = None -> worker_step j (set_ctrl (Some ctrl) j)
| w_set j st : j.(j_pc) = PReturned -> worker_step j (set_state st j)
| w_run j : j.(j_pc) = PReturned -> worker_step j (start_run j).

(** The jobs are named by their creation, so that a job added by a reload is a new one and
    a deleted one keeps its goroutines. *)
Inductive step (cap : Z) : system -> system -> Prop :=
| s_job sy n j sem' j' : sy.(sy_jobs) !! n = Some j -> job_step cap sy.(sy_sem) j sem' j' ->
    step cap sy (MkSystem sem' (<[n := j']> sy.(sy_jobs)))
| s_worker sy n j j' : sy.(sy_jobs) !! n = Some j -> worker_step j j' ->
    step cap sy (MkSystem sy.(sy_sem) (<[n := j']> sy.(sy_jobs)))
| s_new sy n : sy.(sy_jobs) !! n = None ->
    step cap sy (MkSystem sy.(sy_sem) (<[n := newMirrorJob]> sy.(sy_jobs))).

(** The worker as it is built: no token taken, no job yet. *)
Definition initial : system := MkSystem 0 ∅.

Definition reachable (cap : Z) (sy : system) : Prop := rtc (step cap) initial sy.

(** ** The semaphore *)

Definition held_child (c : child) : Z := if holds c then 1 else 0.
Definition held_list (l : list child) : Z := foldr (fun c z => held_child c + z) 0 l.
Definition held_job (j : job) : Z := held_list (option_list j.(j_cur)) + held_list j.(j_others).
Definition held_all (m : gmap string job) : Z := map_fold (fun _ j z => held_job j + z) 0 m.

Lemma held_list_app l1 l2 : held_list (l1 ++ l2) = held_list l1 + held_list l2.
Proof. induction l1 as [|c l1 IH]; [done|]. simpl. rewrite IH. lia. Qed.

Lemma held_all_fresh m n j : m !! n = None -> held_all (<[n := j]> m) = held_job j + held_all m.
Proof. intros Hn. unfold held_all. rewrite map_fold_insert_L; [done|intros; lia|done]. Qed.

Lemma held_all_insert m n j j' : m !! n = Some j ->
  held_all (<[n := j']> m) = held_all m - held_job j + held_job j'.
Proof.
  intros Hn. rewrite <- (insert_delete_id m n j) at 2 by done. rewrite <- insert_delete_eq.
  rewrite !held_all_fresh by apply lookup_delete_eq. lia.
Qed.

Lemma held_child_step cap sem c sem' c' : child_step cap sem c sem' c' ->
  held_child c' - held_child c = sem' - sem /\ (sem <= cap -> sem' <= cap).
Proof.
  intros H. destruct H as [sem c Hp Hc|sem c Hp Hk|sem c held Hp|sem c Hp]; unfold held_child, holds;
    rewrite Hp; simpl; try destruct held; split; lia.
Qed.

Lemma held_cur c j : j.(j_cur) = Some c -> held_job j = held_child c + held_list j.(j_others).
Proof. intros Hc. unfold held_job. rewrite Hc. simpl. lia. Qed.

Lemma held_kill o : held_list (option_list (kill <$> o)) = held_list (option_list o).
Proof. by destruct o. Qed.

Lemma held_receive c pc j : j.(j_cur) = Some c -> done_ready c = true ->
  held_job (receive_done c pc j) = held_job j.
Proof.
  intros Hc Hd. rewrite (held_cur c j) by done. unfold receive_done, held_job, done_ready in *.
  destruct (c_pc c) as [|held|[]|] eqn:Hp; simpl in *; try done;
    rewrite ?held_list_app; simpl; unfold held_child, holds; rewrite Hp; lia.
Qed.

Lemma held_ctrl_wait ctrl j : held_job (on_ctrl_wait ctrl (set_ctrl None j)) = held_job j.
Proof.
  destruct ctrl; unfold held_job, on_ctrl_wait, close_kill; simpl; rewrite ?held_list_app, ?held_kill;
    simpl; try lia.
Qed.

Lemma held_ctrl_idle ctrl j : held_job (on_ctrl_idle ctrl (set_ctrl None j)) = held_job j.
Proof. by destruct ctrl. Qed.

(** A goroutine is only started by a loop that waits for none. *)
Definition top_free (j : job) : Prop := j.(j_pc) = PTop -> j.(j_cur) = None.

Lemma held_job_step cap sem j sem' j' : top_free j -> job_step cap sem j sem' j' ->
  held_job j' - held_job j = sem' - sem /\ (sem <= cap -> sem' <= cap).
Proof.
  intros Ht H. destruct H as [sem j Hp|sem j c Hp Hc Hd|sem j ctrl Hp Hc|sem j c k Hp Hc Hd
    |sem j ctrl Hp Hc|sem j c Hc Hp Hb|sem sem' j c c' Hc Hs|sem sem' j l1 c l2 c' Ho Hs].
  - split; [|lia]. unfold top_step. case_match; [|unfold held_job; simpl; lia].
    unfold held_job. simpl. rewrite (Ht Hp). simpl. unfold held_child. simpl. lia.
  - rewrite held_receive by done. lia.
  - rewrite held_ctrl_wait. lia.
  - rewrite held_receive by done. lia.
  - rewrite held_ctrl_idle. lia.
  - rewrite (held_cur c j) by done. unfold held_job. simpl. unfold held_child, holds. rewrite Hp. simpl. lia.
  - rewrite (held_cur c j) by done. apply held_child_step in Hs. unfold held_job. simpl. lia.
  - apply held_child_step in Hs. unfold held_job. simpl. rewrite Ho, !held_list_app. simpl. lia.
Qed.

(** ** The invariant of a job *)

Definition waits (pc : parent_pc) : bool :=
  match pc with PWait | PWaitDone _ => true | _ => false end.

Record job_inv (j : job) : Prop := {
  (** the loop waits exactly while it has a goroutine *)
  ji_cur : waits j.(j_pc) = bool_decide (is_Some j.(j_cur));
  (** and has killed it exactly when it waits for its end *)
  ji_killed : forall c, j.(j_cur) = Some c ->
    c.(c_killed) = match j.(j_pc) with PWaitDone _ => true | _ => false end
    /\ (c.(c_pc) = CSendDone -> c.(c_killed) = true);
  (** the goroutines it has left have closed [jobDone] *)
  ji_others : Forall (fun c => exists held, c.(c_pc) = CClosed held) j.(j_others);
  (** a job is synchronised in state Ready only, until it is killed *)
  ji_state : match j.(j_pc) with
    | PWait => j.(j_state) = stateReady
    | PWaitDone ToReturn => j.(j_state) = stateDisabled \/ j.(j_state) = stateHalting
    | PWaitDone ToCtrl => j.(j_state) = statePaused
    | PWaitDone ToTop => j.(j_state) = stateReady
    | _ => True
    end;
  ji_ctrl : j.(j_ctrl) <> Some jobPing
}.

Lemma inv_free j : job_inv j -> waits j.(j_pc) = false -> j.(j_cur) = None.
Proof.
  intros Hi Hw. pose proof (ji_cur j Hi) as H. rewrite Hw in H.
  destruct (j_cur j); [|done]. by rewrite bool_decide_true in H by by eexists.
Qed.

Lemma inv_top_free j : job_inv j -> top_free j.
Proof. intros Hi Hp. apply inv_free; [done|by rewrite Hp]. Qed.

Lemma new_inv : job_inv newMirrorJob.
Proof. by split. Qed.

Lemma child_step_killed cap sem c sem' c' : child_step cap sem c sem' c' ->
  c'.(c_killed) = c.(c_killed) /\ (c'.(c_pc) = CSendDone -> c'.(c_killed) = true).
Proof. by destruct 1. Qed.

Lemma receive_fields c pc j : 
  j_pc (receive_done c pc j) = pc /\ j_cur (receive_done c pc j) = None
  /\ j_state (receive_done c pc j) = j.(j_state) /\ j_ctrl (receive_done c pc j) = j.(j_ctrl)
  /\ j_bypass (receive_done c pc j) = j.(j_bypass).
Proof. unfold receive_done. by destruct (c_pc c) as [|?|[]|]. Qed.

Lemma receive_inv c pc j : job_inv j -> waits pc = false -> job_inv (receive_done c pc j).
Proof.
  intros [_ _ Ho _ Hc] Hw. destruct (receive_fields c pc j) as (Ep & Eu & Es & Ec & _).
  split; rewrite ?Ep, ?Eu, ?Es, ?Ec; try done.
  - unfold receive_done. destruct (c_pc c) as [|held|[]|] eqn:Hp; try done.
    apply Forall_app. split; [done|]. constructor; [|constructor]. by eexists.
  - by destruct pc.
Qed.

Lemma ctrl_wait_inv ctrl j : job_inv j -> j.(j_pc) = PWait -> ctrl <> jobPing ->
  job_inv (on_ctrl_wait ctrl (set_ctrl None j)).
Proof.
  intros Hi Hp Hping. pose proof (ji_cur j Hi) as Hcur. rewrite Hp in Hcur. simpl in Hcur.
  destruct (j_cur j) as [c|] eqn:Ec; [|by rewrite bool_decide_false in Hcur by by intros []].
  destruct (ji_killed j Hi c Ec) as [Hk Hsd]. rewrite Hp in Hk.
  destruct Hi as [_ _ Ho Hs _]. rewrite Hp in Hs.
  destruct ctrl; try done; unfold on_ctrl_wait, close_kill; split; simpl; rewrite ?Ec, ?Hp; simpl; auto;
    try (by rewrite bool_decide_true by by eexists).
  all: by intros c' [= <-]; simpl.
Qed.

Lemma ctrl_idle_inv ctrl j : job_inv j -> j.(j_pc) = PCtrl ->
  job_inv (on_ctrl_idle ctrl (set_ctrl None j)).
Proof.
  intros Hi Hp. assert (Hc : j.(j_cur) = None) by (apply inv_free; [done|by rewrite Hp]).
  destruct Hi as [_ _ Ho _ _]. destruct ctrl; split; simpl; rewrite ?Hc; done.
Qed.

Lemma top_inv j : job_inv j -> j.(j_pc) = PTop -> job_inv (top_step j).
Proof.
  intros Hi Hp. assert (Hc : j.(j_cur) = None) by (apply inv_free; [done|by rewrite Hp]).
  destruct Hi as [_ _ Ho _ Hct]. unfold top_step. destruct (Z.eqb_spec (j_state j) stateReady); split; simpl; auto.
  - intros c [= <-]. done.
  - by rewrite Hc.
  - by rewrite Hc.
Qed.

Lemma cur_inv j c c' : job_inv j -> j.(j_cur) = Some c -> c'.(c_killed) = c.(c_killed) ->
  (c'.(c_pc) = CSendDone -> c'.(c_killed) = true) -> job_inv (set_cur (Some c') j).
Proof.
  intros [Hcur Hk Ho Hs Hct] Hc Hk' Hsd. rewrite Hc in Hcur. destruct (Hk c Hc) as [Hk1 _].
  split; simpl; auto. intros c0 [= <-]. split; [congruence|done].
Qed.

Lemma others_inv j l : job_inv j -> Forall (fun c => exists held, c.(c_pc) = CClosed held) l ->
  job_inv (set_others l j).
Proof. by intros [Hcur Hk Ho Hs Hct] Hl; split. Qed.

Lemma job_step_inv cap sem j sem' j' : job_inv j -> job_step cap sem j sem' j' -> job_inv j'.
Proof.
  intros Hi H. destruct H as [sem j Hp|sem j c Hp Hc Hd|sem j ctrl Hp Hc|sem j c k Hp Hc Hd
    |sem j ctrl Hp Hc|sem j c Hc Hp Hb|sem sem' j c c' Hc Hs|sem sem' j l1 c l2 c' Ho Hs].
  - by apply top_inv.
  - by apply receive_inv.
  - apply ctrl_wait_inv; [done|done|]. intros ->. by apply (ji_ctrl j Hi).
  - apply receive_inv; [done|]. by destruct k.
  - by apply ctrl_idle_inv.
  - assert (Hi' : job_inv (set_cur (Some (set_pc (CRun false) c)) j)) by by apply (cur_inv j c).
    by destruct Hi' as [Hcur Hk Ho Hs Hct]; split.
  - destruct (child_step_killed _ _ _ _ _ Hs). by apply (cur_inv j c).
  - apply others_inv; [done|]. pose proof (ji_others j Hi) as Hf. rewrite Ho in Hf.
    apply Forall_app in Hf as [H1 H2]. apply Forall_cons in H2 as [[held Hh] H2].
    apply Forall_app. split; [done|]. apply Forall_cons. split; [|done].
    destruct Hs as [sem c Hp|sem c Hp|sem c held' Hp|sem c Hp]; rewrite Hh in Hp; try done.
    by eexists.
Qed.

Lemma worker_step_inv j j' : job_inv j -> worker_step j j' -> job_inv j'.
Proof.
  intros Hi H. destruct H as [j ctrl Hping Hn|j st Hp|j Hp].
  - destruct Hi as [Hcur Hk Ho Hs Hct]. split; simpl; auto. congruence.
  - destruct Hi as [Hcur Hk Ho Hs Hct]. split; simpl; auto. by rewrite Hp.
  - assert (Hc : j.(j_cur) = None) by (apply inv_free; [done|by rewrite Hp]).
    destruct Hi as [Hcur Hk Ho Hs Hct]. split; simpl; auto; by rewrite Hc.
Qed.

(** ** The invariant of the worker *)

Record sys_inv (cap : Z) (sy : system) : Prop := {
  si_jobs : forall n j, sy.(sy_jobs) !! n = Some j -> job_inv j;
  si_sem : sy.(sy_sem) = held_all sy.(sy_jobs);
  si_cap : sy.(sy_sem) <= cap
}.

Lemma step_inv cap sy sy' : sys_inv cap sy -> step cap sy sy' -> sys_inv cap sy'.
Proof.
  intros [Hj Hs Hc] H. destruct H as [sy n j sem' j' Hn Hst|sy n j j' Hn Hst|sy n Hn].
  - pose proof (Hj n j Hn) as Hi.
    destruct (held_job_step cap _ j sem' j' (inv_top_free j Hi) Hst) as [Hh Hcap].
    split; simpl.
    + intros n' j0 [[<- <-]|[_ Hl]]%lookup_insert_Some; [by eapply job_step_inv|eauto].
    + rewrite (held_all_insert _ n j) by done. lia.
    + lia.
  - pose proof (Hj n j Hn) as Hi. split; simpl.
    + intros n' j0 [[<- <-]|[_ Hl]]%lookup_insert_Some; [by eapply worker_step_inv|eauto].
    + rewrite (held_all_insert _ n j) by done.
      assert (held_job j' = held_job j) by by destruct Hst. lia.
    + done.
  - split; simpl.
    + intros n' j0 [[<- <-]|[_ Hl]]%lookup_insert_Some; [apply new_inv|eauto].
    + rewrite held_all_fresh by done. unfold held_job. simpl. lia.
    + done.
Qed.

Lemma reachable_inv cap sy : 0 <= cap -> reachable cap sy -> sys_inv cap sy.
Proof.
  intros Hc Hr. assert (H0 : sys_inv cap initial).
  { split; simpl; [|done|done]. intros n j. by rewrite lookup_empty. }
  unfold reachable in Hr. revert H0. induction Hr as [|sy1 sy2 sy3 Hst Hr IH]; [done|].
  intros H0. apply IH. by eapply step_inv.
Qed.

(** ** Running goroutines *)

(** The goroutines of a job in which the provider may be running. *)
Definition running_of (j : job) : list child := filter (fun c => running c = true) (option_list j.(j_cur) ++ j.(j_others)).

Lemma running_cur j : job_inv j ->
  running_of j = match j.(j_cur) with Some c => if running c then [c] else [] | None => [] end.
Proof.
  intros Hi. unfold running_of. rewrite filter_app.
  assert (filter (fun c => running c = true) (j_others j) = []) as ->.
  { pose proof (ji_others j Hi) as Ho. induction Ho as [|c l [held Hh] Hl IH]; [done|].
    rewrite filter_cons, decide_False; [done|]. unfold running. by rewrite Hh. }
  rewrite app_nil_r. destruct (j_cur j) as [c|]; [|done]. simpl. rewrite filter_cons.
  by destruct (running c).
Qed.

(** ** Inevitability

    [inevitable P j]: whatever the semaphore allows and whatever control actions arrive,
    the job by its own steps comes to satisfy [P]: it is never stuck before, and every
    sequence of steps gets there. *)

Inductive jstep (cap : Z) : job -> job -> Prop :=
| js_job sem sem' j j' : job_step cap sem j sem' j' -> jstep cap j j'
| js_ctrl j ctrl : ctrl <> jobPing -> j.(j_ctrl) = None -> jstep cap j (set_ctrl (Some ctrl) j).

Inductive inevitable (cap : Z) (P : job -> Prop) : job -> Prop :=
| in_now j : P j -> inevitable cap P j
| in_later j : (forall sem, exists sem' j', job_step cap sem j sem' j') ->
    (forall j', jstep cap j j' -> inevitable cap P j') -> inevitable cap P j.

Definition rank (c : child) : nat :=
  match c.(c_pc) with CAcquire => 4 | CRun _ => 3 | CClosed true => 2 | CClosed false => 1 | CSendDone => 1 end.

Definition job_rank (j : job) : nat :=
  sum_list (rank <$> option_list j.(j_cur)) + sum_list (rank <$> j.(j_others))
  + match j.(j_ctrl) with None => 1 | Some _ => 0 end.

Lemma child_step_rank cap sem c sem' c' : child_step cap sem c sem' c' -> (rank c' < rank c)%nat.
Proof.
  intros H. destruct H as [sem c Hp|sem c Hp|sem c held Hp|sem c Hp]; unfold rank; rewrite Hp; simpl; try lia.
  destruct held; lia.
Qed.

Lemma rank_app l1 l2 : sum_list (rank <$> l1 ++ l2) = (sum_list (rank <$> l1) + sum_list (rank <$> l2))%nat.
Proof. rewrite fmap_app. induction (rank <$> l1) as [|x l IH]; [done|]. simpl. rewrite IH. lia. Qed.

(** A job that waits for the goroutine it killed has a step to take... *)
Lemma killed_progress cap j k : job_inv j -> j.(j_pc) = PWaitDone k ->
  forall sem, exists sem' j', job_step cap sem j sem' j'.
Proof.
  intros Hi Hp sem. pose proof (ji_cur j Hi) as Hc. rewrite Hp in Hc. simpl in Hc.
  destruct (j_cur j) as [c|] eqn:Ec; [|by rewrite bool_decide_false in Hc by by intros []].
  destruct (ji_killed j Hi c Ec) as [Hk _]. rewrite Hp in Hk.
  destruct (c_pc c) as [|held|held|] eqn:Hpc.
  - eexists _, _. eapply j_cur_step; [done|]. by apply c_kill.
  - eexists _, _. eapply j_cur_step; [done|]. by eapply c_finish.
  - eexists _, _. eapply j_killed; [done|done|]. unfold done_ready. by rewrite Hpc.
  - eexists _, _. eapply j_killed; [done|done|]. unfold done_ready. by rewrite Hpc.
Qed.

(** ... and each of its steps ends the wait or makes the rest smaller. *)
Lemma killed_step cap j k j' : job_inv j -> j.(j_pc) = PWaitDone k -> jstep cap j j' ->
  (j'.(j_pc) = after_done k /\ j'.(j_cur) = None /\ j'.(j_state) = j.(j_state))
  \/ (job_inv j' /\ j'.(j_pc) = PWaitDone k /\ j'.(j_state) = j.(j_state) /\ (job_rank j' < job_rank j)%nat).
Proof.
  intros Hi Hp H. destruct H as [sem sem' j j' Hst|j ctrl Hping Hn].
  - pose proof (job_step_inv cap sem j sem' j' Hi Hst) as Hi'.
    destruct Hst as [sem j Hp'|sem j c Hp' Hc Hd|sem j ctrl Hp' Hc|sem j c k' Hp' Hc Hd
      |sem j ctrl Hp' Hc|sem j c Hc Hp' Hb|sem sem' j c c' Hc Hs|sem sem' j l1 c l2 c' Ho Hs];
      try congruence.
    + left. rewrite Hp in Hp'. injection Hp' as <-.
      by destruct (receive_fields c (after_done k) j) as (-> & -> & -> & _).
    + right. split_and!; [done|done|done|]. unfold job_rank. simpl. rewrite Hc. simpl.
      assert (rank c = 4%nat) as -> by (unfold rank; by rewrite Hp'). simpl. lia.
    + right. split_and!; [done|done|done|]. unfold job_rank. simpl. rewrite Hc. simpl.
      apply child_step_rank in Hs. lia.
    + right. split_and!; [done|done|done|]. unfold job_rank. simpl. rewrite Ho, !rank_app. simpl.
      apply child_step_rank in Hs. lia.
  - right. pose proof (worker_step_inv j _ Hi (w_send j ctrl Hping Hn)) as Hi'.
    split_and!; [done|done|done|]. unfold job_rank. simpl. rewrite Hn. lia.
Qed.

Lemma killed_inevitable cap j k : job_inv j -> j.(j_pc) = PWaitDone k ->
  inevitable cap (fun j' => j'.(j_pc) = after_done k /\ j'.(j_cur) = None /\ j'.(j_state) = j.(j_state)) j.
Proof.
  intros Hi Hp. remember (j_state j) as st eqn:Hst.
  remember (job_rank j) as r eqn:Hr. revert j Hi Hp Hst Hr.
  induction (lt_wf r) as [r _ IH]. intros j Hi Hp Hst Hr.
  apply in_later; [by eapply killed_progress|]. intros j' Hs.
  destruct (killed_step cap j k j' Hi Hp Hs) as [Hdone|(Hi' & Hp' & Hst' & Hlt)].
  - apply in_now. by rewrite Hst.
  - apply (IH (job_rank j')); [lia|done|done|congruence|done].
Qed.

(** ** What the loop promises *)

(** C1: the concurrency limit. In every reachable state the tokens of the semaphore are
    those the goroutines hold, never more than the capacity, and none is lost: a worker
    whose goroutines have all ended has the whole semaphore free. *)
Theorem semaphore_bound cap sy :
  0 <= cap -> reachable cap sy ->
  sy.(sy_sem) = held_all sy.(sy_jobs) /\ sy.(sy_sem) <= cap
  /\ ((forall n j, sy.(sy_jobs) !! n = Some j -> j.(j_cur) = None /\ j.(j_others) = []) ->
      sy.(sy_sem) = 0).
Proof.
  intros Hc Hr. destruct (reachable_inv cap sy Hc Hr) as [_ Hs Hcap]. split_and!; [done|done|].
  intros Hq. rewrite Hs. clear -Hq. induction (sy_jobs sy) as [|n j m Hn _ IH] using map_first_key_ind; [done|].
  rewrite held_all_fresh by done. destruct (Hq n j) as [Hcur Hoth]; [by rewrite lookup_insert_eq|].
  unfold held_job. rewrite Hcur, Hoth. simpl. apply IH. intros n' j' Hl. apply (Hq n').
  rewrite lookup_insert_ne; [done|]. by intros ->; rewrite Hn in Hl.
Qed.

(** A job with one loop is never synchronised twice at once. In every reachable state at most one
    goroutine of a job runs the provider; while one runs and was not killed the job is
    Ready; and when the loop is idle, or [Run] has returned, none runs. *)
Theorem one_sync_per_job cap sy n j :
  0 <= cap -> reachable cap sy -> sy.(sy_jobs) !! n = Some j ->
  (length (running_of j) <= 1)%nat
  /\ (forall c, c ∈ running_of j -> c.(c_killed) = false -> j.(j_state) = stateReady)
  /\ (j.(j_pc) = PReturned \/ j.(j_pc) = PCtrl \/ j.(j_pc) = PTop -> running_of j = []).
Proof.
  intros Hc Hr Hn. destruct (reachable_inv cap sy Hc Hr) as [Hj _ _]. pose proof (Hj n j Hn) as Hi.
  rewrite running_cur by done. split_and!.
  - destruct (j_cur j) as [c|]; [destruct (running c)|]; simpl; lia.
  - intros c Hin Hk. destruct (j_cur j) as [c0|] eqn:Ec; [|by apply elem_of_nil in Hin].
    destruct (running c0); [|by apply elem_of_nil in Hin]. apply list_elem_of_singleton in Hin as ->.
    destruct (ji_killed j Hi c0 Ec) as [Hk0 _]. rewrite Hk in Hk0.
    pose proof (ji_state j Hi) as Hst. pose proof (ji_cur j Hi) as Hw. rewrite Ec in Hw.
    rewrite bool_decide_true in Hw by by eexists.
    destruct (j_pc j); try done.
  - intros Hp. rewrite (inv_free j Hi); [done|]. by destruct Hp as [->|[->| ->]].
Qed.

(** Stopping works. When a stop, a disable, a halt or a restart reaches a job that has
    a goroutine, the state is set and the goroutine is killed at once, and it is inevitable
    that the loop gets past its wait: whatever the semaphore and whatever is sent
    meanwhile, no step is ever missing and the goroutine is gone in the end, with [Run]
    returned after a disable or a halt.  A run ends here in one step;
    Channels.stop_ends_with_room has its messages, which need room. *)
Theorem stop_is_inevitable cap sy n j ctrl k :
  0 <= cap -> reachable cap sy -> sy.(sy_jobs) !! n = Some j ->
  j.(j_pc) = PWait -> j.(j_ctrl) = Some ctrl ->
  (on_ctrl_wait ctrl (set_ctrl None j)).(j_pc) = PWaitDone k ->
  inevitable cap (fun j' => j'.(j_pc) = after_done k /\ j'.(j_cur) = None
      /\ j'.(j_state) = match ctrl with
                        | jobStop => statePaused | jobDisable => stateDisabled
                        | jobHalt => stateHalting | _ => stateReady end)
    (on_ctrl_wait ctrl (set_ctrl None j)).
Proof.
  intros Hc Hr Hn Hp Hctrl Hk. destruct (reachable_inv cap sy Hc Hr) as [Hj _ _].
  pose proof (Hj n j Hn) as Hi.
  assert (Hi' : job_inv (on_ctrl_wait ctrl (set_ctrl None j))).
  { apply ctrl_wait_inv; [done|done|]. intros ->. by apply (ji_ctrl j Hi). }
  pose proof (killed_inevitable cap _ k Hi' Hk) as H.
  destruct ctrl; simpl in *; try congruence; exact H.
Qed.

(** A forced start can be spent later. A token put in the bypass channel while the job
    gets its turn at the semaphore stays there: the next ordinary start of an idle job with
    such a token may run without the semaphore, full as it may be. *)
Theorem stale_bypass_ignores_limit cap sem j :
  j.(j_pc) = PCtrl -> j.(j_cur) = None -> j.(j_ctrl) = Some jobStart -> j.(j_bypass) = true ->
  exists j', rtc (fun a b => job_step cap sem a sem b) j j'
    /\ j'.(j_cur) = Some (MkChild (CRun false) false) /\ j'.(j_bypass) = false.
Proof.
  intros Hp Hc Hct Hb. eexists. split.
  - eapply rtc_l; [by apply (j_ctrl_idle cap sem j jobStart)|].
    eapply rtc_l; [by apply j_top|].
    eapply rtc_l; [|apply rtc_refl]. by eapply j_bypass_take.
  - done.
Qed.

(** *** Witnesses: a worker with one token and two jobs *)

Lemma path_job cap sem n j m sem1 j1 sem' j' sy' :
  job_step cap sem j sem1 j1 -> (sem1, j1) = (sem', j') ->
  rtc (step cap) (MkSystem sem' (<[n := j']> m)) sy' -> rtc (step cap) (MkSystem sem (<[n := j]> m)) sy'.
Proof.
  intros Hs [= -> ->] Hr. eapply rtc_l; [eapply (s_job _ _ n)|].
  - apply lookup_insert_eq.
  - exact Hs.
  - cbn [sy_jobs]. by rewrite insert_insert_eq.
Qed.

Lemma path_worker cap sem n j m j1 j' sy' :
  worker_step j j1 -> j1 = j' ->
  rtc (step cap) (MkSystem sem (<[n := j']> m)) sy' -> rtc (step cap) (MkSystem sem (<[n := j]> m)) sy'.
Proof.
  intros Hs -> Hr. eapply rtc_l; [eapply (s_worker _ _ n)|].
  - apply lookup_insert_eq.
  - exact Hs.
  - cbn [sy_jobs sy_sem]. by rewrite insert_insert_eq.
Qed.

Lemma path_new cap sem n m sy' : m !! n = None ->
  rtc (step cap) (MkSystem sem (<[n := newMirrorJob]> m)) sy' -> rtc (step cap) (MkSystem sem m) sy'.
Proof. intros Hn Hr. eapply rtc_l; [by apply (s_new _ (MkSystem sem m) n)|exact Hr]. Qed.

Ltac job_move tac := eapply path_job; [tac|vm_compute; reflexivity|].
Ltac worker_move tac := eapply path_worker; [tac|vm_compute; reflexivity|].

(** A new job whose [Run] is waiting for its first control action. *)
Ltac boot n :=
  apply (path_new _ _ n); [done|];
  worker_move ltac:(by apply w_run);
  job_move ltac:(by apply j_top).

(** A start up to the goroutine running with a token of the semaphore. *)
Ltac run_with_token ctrl :=
  worker_move ltac:(by apply (w_send _ ctrl));
  job_move ltac:(by eapply j_ctrl_idle);
  job_move ltac:(by apply j_top);
  job_move ltac:(eapply j_cur_step; [reflexivity|]; by apply c_acquire).

(** One job runs with the token, forced though it was; the other waits. *)
Lemma ex_forced : exists sy j, reachable 1 sy /\ sy.(sy_jobs) !! "debian"%string = Some j
  /\ sy.(sy_sem) = 1 /\ j.(j_pc) = PWait /\ j.(j_bypass) = true /\ j.(j_ctrl) = Some jobDisable
  /\ running_of j = [MkChild (CRun true) false].
Proof.
  eexists _, _. split.
  { unfold reachable, initial. boot "debian"%string. run_with_token jobForceStart.
    worker_move ltac:(by apply (w_send _ jobDisable)). apply rtc_refl. }
  cbn [sy_jobs sy_sem]. rewrite lookup_insert_eq. split_and!; reflexivity.
Qed.

(** The forced job is done and keeps its token in the bypass channel; the other job has
    taken the semaphore; an ordinary start is sent to the first. *)
Lemma ex_stale : exists sy j, reachable 1 sy /\ sy.(sy_jobs) !! "debian"%string = Some j
  /\ sy.(sy_sem) = 1 /\ j.(j_pc) = PCtrl /\ j.(j_cur) = None /\ j.(j_ctrl) = Some jobStart
  /\ j.(j_bypass) = true.
Proof.
  eexists _, _. split.
  { unfold reachable, initial. boot "debian"%string. run_with_token jobForceStart.
    job_move ltac:(eapply j_cur_step; [reflexivity|by eapply c_finish]).
    job_move ltac:(by eapply j_done).
    job_move ltac:(eapply (j_other_step _ _ _ _ []); [reflexivity|by apply c_release]).
    worker_move ltac:(by apply (w_send _ jobStart)).
    boot "ubuntu"%string. run_with_token jobStart. apply rtc_refl. }
  cbn [sy_jobs sy_sem]. rewrite lookup_insert_ne, lookup_insert_eq by done. split_and!; reflexivity.
Qed.

Lemma semaphore_bound_witness :
  exists sy, reachable 1 sy /\ sy.(sy_sem) = 1 /\ sy.(sy_sem) = held_all sy.(sy_jobs).
Proof.
  destruct ex_forced as (sy & j & Hr & _ & Hs & _). exists sy.
  destruct (semaphore_bound 1 sy ltac:(done) Hr) as [Heq _]. split_and!; [exact Hr|exact Hs|exact Heq].
Defined.

Lemma one_sync_per_job_witness :
  exists sy j, reachable 1 sy /\ sy.(sy_jobs) !! "debian"%string = Some j
    /\ running_of j <> [] /\ (length (running_of j) <= 1)%nat.
Proof.
  destruct ex_forced as (sy & j & Hr & Hn & _ & _ & _ & _ & Hrun). exists sy, j.
  destruct (one_sync_per_job 1 sy "debian" j ltac:(done) Hr Hn) as [Hl _].
  split_and!; [exact Hr|exact Hn|by rewrite Hrun|exact Hl].
Defined.

Lemma stop_is_inevitable_witness :
  exists sy j, reachable 1 sy /\ sy.(sy_jobs) !! "debian"%string = Some j
    /\ inevitable 1 (fun j' => j'.(j_pc) = PReturned /\ j'.(j_cur) = None /\ j'.(j_state) = stateDisabled)
         (on_ctrl_wait jobDisable (set_ctrl None j)).
Proof.
  destruct ex_forced as (sy & j & Hr & Hn & _ & Hp & _ & Hc & _). exists sy, j.
  split; [exact Hr|]. split; [exact Hn|].
  apply (stop_is_inevitable 1 sy "debian" j jobDisable ToReturn ltac:(done) Hr Hn Hp Hc). reflexivity.
Defined.

Lemma stale_bypass_ignores_limit_witness :
  exists sy j j', reachable 1 sy /\ sy.(sy_jobs) !! "debian"%string = Some j /\ sy.(sy_sem) = 1
    /\ rtc (fun a b => job_step 1 1 a 1 b) j j' /\ j'.(j_cur) = Some (MkChild (CRun false) false).
Proof.
  destruct ex_stale as (sy & j & Hr & Hn & Hs & Hp & Hc & Hct & Hb).
  destruct (stale_bypass_ignores_limit 1 1 j Hp Hc Hct Hb) as (j' & Hj & Hcur & _).
  exists sy, j, j'. split_and!; [exact Hr|exact Hn|exact Hs|exact Hj|exact Hcur].
Defined.
