(* ===== verification/Provider.v ===== *)
(** * worker/provider.go and the three providers: how a mirror is synchronised

    [newMirrorProvider] turns a mirror entry and the configuration into a provider: its
    directories, its options, its hooks in order and the exit codes it forgives.  The
    shell lexer (go-shlex), the template engine and the regular expressions are
    parameters; [filepath.Join] is written out.  A [time.Duration] is an int64 and its
    multiplication wraps. *)

From S2P Require Import Prelude Json Context Config.

Local Open Scope string_scope.
Local Open Scope list_scope.
Local Open Scope Z_scope.

(** ** Machine integers *)

(** Two's complement in 64 bits. *)
Definition wrap64 (z : Z) : Z := (z + 2 ^ 63) mod 2 ^ 64 - 2 ^ 63.

Definition in_int64 (z : Z) : Prop := - 2 ^ 63 <= z < 2 ^ 63.

Lemma wrap64_id z : in_int64 z -> wrap64 z = z.
Proof. unfold in_int64, wrap64. intros H. rewrite Z.mod_small; lia. Qed.

Lemma wrap64_range z : in_int64 (wrap64 z).
Proof. unfold in_int64, wrap64. pose proof (Z.mod_pos_bound (z + 2 ^ 63) (2 ^ 64)). lia. Qed.

(** ** path/filepath *)


Fixpoint join_with (sep : string) (l : list string) : string :=
  match l with
  | [] => EmptyString
  | [s] => s
  | s :: l => s +:+ sep +:+ join_with sep l
  end.

(** The components of a path: the empty ones and "." dropped, ".." taking back the one
    before it, or kept at the start of a relative path.  [out] is reversed. *)
Fixpoint clean_loop (rooted : bool) (comps out : list string) : list string :=
  match comps with
  | [] => rev out
  | c :: comps =>
      if decide (c = EmptyString \/ c = ".") then clean_loop rooted comps out
      else if decide (c = "..") then
        match out with
        | [] => clean_loop rooted comps (if rooted then [] else [".."])
        | x :: out' =>
            if decide (x = "..") then clean_loop rooted comps (".." :: out)
            else clean_loop rooted comps out'
        end
      else clean_loop rooted comps (c :: out)
  end.

Definition Clean (path : string) : string :=
  match path with
  | EmptyString => "."
  | String c _ =>
      let rooted := bool_decide (c = slash) in
      let comps := clean_loop rooted (split_char slash path) [] in
      if rooted then String slash (join_with "/" comps)
      else match comps with [] => "." | _ => join_with "/" comps end
  end.

Fixpoint Join (elem : list string) : string :=
  match elem with
  | [] => EmptyString
  | e :: rest => if decide (e = EmptyString) then Join rest else Clean (join_with "/" elem)
  end.

Example Join_1 : Join ["/srv/mirror"; EmptyString; "debian"] = "/srv/mirror/debian".
Proof. reflexivity. Qed.
Example Join_2 : Join ["logs/"; "../x"; "latest.log"] = "x/latest.log".
Proof. reflexivity. Qed.

(** ** Hooks *)

Definition execOnSuccess : Z := 0.
Definition execOnFailure : Z := 1.

Record dockerHook : Type := MkDockerHook {
  dk_image : string;
  dk_volumes : list string;
  dk_options : list string;
  dk_memoryLimit : Z
}.

Inductive hook : Type :=
| LogLimiter
| ZfsHook (zpool : string)
| BtrfsHook (mirrorSnapshotPath : string)
| DockerHook (d : dockerHook)
| CgroupHook (memLimit : Z)
| ExecPostHook (execOn : Z) (command : list string).

Definition newDockerHook (gCfg : dockerConfig) (mCfg : mirrorFields) : dockerHook :=
  let volumes := default [] gCfg.(d_Volumes) ++ default [] mCfg.(DockerVolumes) in
  let volumes :=
    if decide (mCfg.(ExcludeFile) = EmptyString) then volumes
    else volumes ++ [mCfg.(ExcludeFile) +:+ ":" +:+ mCfg.(ExcludeFile) +:+ ":ro"] in
  MkDockerHook mCfg.(DockerImage) volumes
    (default [] gCfg.(d_Options) ++ default [] mCfg.(DockerOptions)) mCfg.(MemoryLimit).

Definition newBtrfsSnapshotHook (name snapshotPath : string) (mirror : mirrorFields) : hook :=
  BtrfsHook (if decide (mirror.(SnapshotPath) = EmptyString) then Join [snapshotPath; name]
             else mirror.(SnapshotPath)).

(** ** Providers *)

Definition defaultMaxRetry : Z := 2.

Record cmdConfig : Type := MkCmdConfig {
  cc_upstreamURL : string; cc_command : string; cc_env : nilable (gmap string string);
  cc_failOnMatch : string; cc_sizePattern : string
}.

Record rsyncConfig : Type := MkRsyncConfig {
  rc_rsyncCmd : string;
  rc_upstreamURL : string; rc_username : string; rc_password : string; rc_excludeFile : string;
  rc_extraOptions : nilable (list string);
  rc_globalOptions : nilable (list string);
  rc_overriddenOptions : nilable (list string);
  rc_useOverrideOnly : bool;
  rc_rsyncNeverTimeout : bool;
  rc_rsyncTimeoutValue : Z;
  rc_rsyncEnv : nilable (gmap string string);
  rc_useIPv6 : bool; rc_useIPv4 : bool
}.

Record twoStageRsyncConfig : Type := MkTwoStageConfig {
  tc_rsyncCmd : string;
  tc_stage1Profile : string;
  tc_upstreamURL : string; tc_username : string; tc_password : string; tc_excludeFile : string;
  tc_extraOptions : nilable (list string);
  tc_rsyncNeverTimeout : bool;
  tc_rsyncTimeoutValue : Z;
  tc_rsyncEnv : nilable (gmap string string);
  tc_useIPv6 : bool; tc_useIPv4 : bool
}.

(** The fields of [baseProvider] fixed at construction or by [AddHook]. *)
Record baseProvider : Type := MkBase {
  bp_name : string;
  bp_ctx : Context;
  bp_interval : Z;
  bp_retry : Z;
  bp_timeout : Z;
  bp_isMaster : bool;
  bp_successExitCodes : nilable (list Z);
  bp_hooks : list hook
}.

Definition new_base (name workingDir logDir logFile : string) (interval retry timeout : Z) : baseProvider :=
  MkBase name (provider_context workingDir logDir logFile) interval
    (if decide (retry = 0) then defaultMaxRetry else retry) timeout false None [].

Definition set_isMaster (x : bool) (b : baseProvider) : baseProvider :=
  MkBase b.(bp_name) b.(bp_ctx) b.(bp_interval) b.(bp_retry) b.(bp_timeout) x
    b.(bp_successExitCodes) b.(bp_hooks).
Definition AddHook (h : hook) (b : baseProvider) : baseProvider :=
  MkBase b.(bp_name) b.(bp_ctx) b.(bp_interval) b.(bp_retry) b.(bp_timeout) b.(bp_isMaster)
    b.(bp_successExitCodes) (b.(bp_hooks) ++ [h]).
Definition SetSuccessExitCodes (codes : nilable (list Z)) (b : baseProvider) : baseProvider :=
  MkBase b.(bp_name) b.(bp_ctx) b.(bp_interval) b.(bp_retry) b.(bp_timeout) b.(bp_isMaster)
    (Some (default [] codes)) b.(bp_hooks).
Definition GetSuccessExitCodes (b : baseProvider) : list Z := default [] b.(bp_successExitCodes).

(** [p.docker] and [p.cgroup]: the last hook of the kind that was added. *)
Definition base_docker (b : baseProvider) : option dockerHook :=
  foldl (fun d h => match h with DockerHook x => Some x | _ => d end) None b.(bp_hooks).
Definition base_cgroup (b : baseProvider) : bool :=
  existsb (fun h => match h with CgroupHook _ => true | _ => false end) b.(bp_hooks).

Section providers.
(** A compiled regular expression. *)
Context {R : Type} (shlex : string -> result (list string)) (compile : string -> result R).

Inductive providerImpl : Type :=
| Cmd (c : cmdConfig) (command : list string) (failOnMatch sizePattern : nilable R)
| Rsync (c : rsyncConfig) (rsyncCmd : string) (rsyncEnv : gmap string string) (options : list string)
| TwoStage (c : twoStageRsyncConfig) (rsyncCmd : string) (rsyncEnv : gmap string string)
    (stage1Options stage2Options : list string).

Record mirrorProvider : Type := MkProvider { pv_base : baseProvider; pv_impl : providerImpl }.

Definition newExecPostHook (execOn : Z) (command : string) : result hook :=
  cmd ← shlex command;
  if decide (execOn <> execOnSuccess /\ execOn <> execOnFailure)
  then Err ("Invalid option for exec-on: " +:+ pretty execOn)
  else Ok (ExecPostHook execOn cmd).

Definition newCmdProvider (c : cmdConfig) : result providerImpl :=
  cmd ← shlex c.(cc_command);
  failOnMatch ← (if decide (c.(cc_failOnMatch) = EmptyString) then Ok None
    else match compile c.(cc_failOnMatch) with
         | Ok r => Ok (Some r)
         | Err e => Err ("fail-on-match regexp error: " +:+ e)
         end);
  sizePattern ← (if decide (c.(cc_sizePattern) = EmptyString) then Ok None
    else match compile c.(cc_sizePattern) with
         | Ok r => Ok (Some r)
         | Err e => Err ("size-pattern regexp error: " +:+ e)
         end);
  Ok (Cmd c cmd failOnMatch sizePattern).

(** The environment both rsync providers build: [USER] and [RSYNC_PASSWORD] added to the
    configured one. *)
Definition rsync_env (env : nilable (gmap string string)) (username password : string)
    : gmap string string :=
  let env := default ∅ env in
  let env := if decide (username = EmptyString) then env else <["USER" := username]> env in
  if decide (password = EmptyString) then env else <["RSYNC_PASSWORD" := password]> env.

Definition default_options : list string :=
  ["-aHvh"; "--no-o"; "--no-g"; "--stats";
   "--filter"; "risk .~tmp~/"; "--exclude"; ".~tmp~/";
   "--delete"; "--delete-after"; "--delay-updates";
   "--safe-links"].

Definition timeout_option (never : bool) (value : Z) : list string :=
  if never then []
  else ["--timeout=" +:+ pretty (if 0 <? value then value else 120)].

Definition ip_option (v6 v4 : bool) : list string :=
  if v6 then ["-6"] else if v4 then ["-4"] else [].

Definition exclude_option (excludeFile : string) : list string :=
  if decide (excludeFile = EmptyString) then [] else ["--exclude-from"; excludeFile].

Definition newRsyncProvider (c : rsyncConfig) : result providerImpl :=
  if negb (has_suffix c.(rc_upstreamURL) "/")
  then Err "rsync upstream URL should ends with /"
  else
    let rsyncCmd := if decide (c.(rc_rsyncCmd) = EmptyString) then "rsync" else c.(rc_rsyncCmd) in
    let rsyncEnv := rsync_env c.(rc_rsyncEnv) c.(rc_username) c.(rc_password) in
    let options := default default_options c.(rc_overriddenOptions) in
    if c.(rc_useOverrideOnly) then
      match c.(rc_overriddenOptions) with
      | None => Err "rsync_override_only is set but no rsync_override provided"
      | Some _ => Ok (Rsync c rsyncCmd rsyncEnv options)
      end
    else
      let options := options ++ timeout_option c.(rc_rsyncNeverTimeout) c.(rc_rsyncTimeoutValue) in
      let options := options ++ ip_option c.(rc_useIPv6) c.(rc_useIPv4) in
      let options := options ++ exclude_option c.(rc_excludeFile) in
      let options := options ++ default [] c.(rc_globalOptions) in
      let options := options ++ default [] c.(rc_extraOptions) in
      Ok (Rsync c rsyncCmd rsyncEnv options).

Definition rsyncStage1Profiles : gmap string (list string) :=
  list_to_map [("debian",
    ["--include=*.diff/"; "--include=by-hash/"; "--exclude=*.diff/Index"; "--exclude=Contents*";
     "--exclude=Packages*"; "--exclude=Sources*"; "--exclude=Release*"; "--exclude=InRelease";
     "--exclude=i18n/*"; "--exclude=dep11/*"; "--exclude=installer-*/current"; "--exclude=ls-lR*"]);
   ("debian-oldstyle",
    ["--exclude=Packages*"; "--exclude=Sources*"; "--exclude=Release*";
     "--exclude=InRelease"; "--exclude=i18n/*"; "--exclude=ls-lR*"; "--exclude=dep11/*"])].

Definition newTwoStageRsyncProvider (c : twoStageRsyncConfig) : result providerImpl :=
  if negb (has_suffix c.(tc_upstreamURL) "/")
  then Err "rsync upstream URL should ends with /"
  else
    Ok (TwoStage c
      (if decide (c.(tc_rsyncCmd) = EmptyString) then "rsync" else c.(tc_rsyncCmd))
      (rsync_env c.(tc_rsyncEnv) c.(tc_username) c.(tc_password))
      ["-aHvh"; "--no-o"; "--no-g"; "--stats";
       "--filter"; "risk .~tmp~/"; "--exclude"; ".~tmp~/";
       "--safe-links"]
      default_options).

(** [twoStageRsyncProvider.Options] *)
Definition Options (c : twoStageRsyncConfig) (stage1Options stage2Options : list string) (stage : Z)
    : result (list string) :=
  options ←
    (if stage =? 1 then
       match rsyncStage1Profiles !! c.(tc_stage1Profile) with
       | None => Err "Invalid Stage 1 Profile"
       | Some stage1Profile => Ok (stage1Options ++ stage1Profile)
       end
     else if stage =? 2 then Ok (stage2Options ++ default [] c.(tc_extraOptions))
     else Err ("Invalid stage: " +:+ pretty stage));
  let options := options ++ timeout_option c.(tc_rsyncNeverTimeout) c.(tc_rsyncTimeoutValue) in
  let options := options ++ ip_option c.(tc_useIPv6) c.(tc_useIPv4) in
  Ok (options ++ exclude_option c.(tc_excludeFile)).

(** ** newMirrorProvider *)

(** [template.New(...).Parse(logDir)] executed on the mirror entry. *)
Context (formatTemplate : string -> mirrorFields -> result string).

Definition of_result {A} (r : result A) : comp A :=
  match r with Ok a => Ret a | Err e => Panic e end.

(** [mirror.Interval], [Retry] and [Timeout] are replaced by the global ones when zero. *)
Definition or_global (x g : Z) : Z := if x =? 0 then g else x.

Definition is_rsync (p : providerEnum) : bool :=
  bool_decide (p = provRsync) || bool_decide (p = provTwoStageRsync).

(** [addHookFromCmdList] *)
Fixpoint addHookFromCmdList (cmdList : list string) (execOn : Z) (b : baseProvider) : comp baseProvider :=
  match cmdList with
  | [] => Ret b
  | cmd :: cmdList =>
      h ← of_result (newExecPostHook execOn cmd);
      addHookFromCmdList cmdList execOn (AddHook h b)
  end.

(** The mirror's own list when it is not empty, else the global one. *)
Definition cmds_or_global (own glob : nilable (list string)) : list string :=
  match default [] own with [] => default [] glob | l => l end.

(** Lines 255 to 289: the exit codes, duplicates removed. *)
Fixpoint dedup_loop (codes : list Z) (seen : gset Z) (out : list Z) : list Z :=
  match codes with
  | [] => out
  | code :: codes =>
      if decide (code ∈ seen) then dedup_loop codes seen out
      else dedup_loop codes ({[code]} ∪ seen) (out ++ [code])
  end.

Definition success_exit_codes (mirror : mirrorFields) (g : globalConfig) : list Z :=
  let codes := default [] g.(g_SuccessExitCodes) ++ default [] mirror.(SuccessExitCodes) in
  let codes :=
    if is_rsync mirror.(Provider)
    then codes ++ default [] g.(g_RsyncSuccessExitCodes) ++ default [] mirror.(RsyncSuccessExitCodes)
    else codes in
  if (1 <? length codes)%nat then dedup_loop codes ∅ [] else codes.

Definition newProviderImpl (mirror : mirrorFields) (g : globalConfig) : comp providerImpl :=
  if decide (mirror.(Provider) = provCommand) then
    of_result (newCmdProvider (MkCmdConfig mirror.(Upstream) mirror.(Command) mirror.(Env)
      mirror.(FailOnMatch) mirror.(SizePattern)))
  else if decide (mirror.(Provider) = provRsync) then
    of_result (newRsyncProvider (MkRsyncConfig mirror.(Command) mirror.(Upstream) mirror.(Username)
      mirror.(Password) mirror.(ExcludeFile) mirror.(RsyncOptions) g.(g_RsyncOptions)
      mirror.(RsyncOverride) mirror.(RsyncOverrideOnly) mirror.(RsyncNoTimeo) mirror.(RsyncTimeout)
      mirror.(Env) mirror.(UseIPv6) mirror.(UseIPv4)))
  else if decide (mirror.(Provider) = provTwoStageRsync) then
    of_result (newTwoStageRsyncProvider (MkTwoStageConfig mirror.(Command) mirror.(Stage1Profile)
      mirror.(Upstream) mirror.(Username) mirror.(Password) mirror.(ExcludeFile) mirror.(RsyncOptions)
      mirror.(RsyncNoTimeo) mirror.(RsyncTimeout) mirror.(Env) mirror.(UseIPv6) mirror.(UseIPv4)))
  else Panic "Invalid mirror provider".

(** The entry as its local copy stands when the directories are computed. *)
Definition with_defaults (mirror : mirrorFields) (g : globalConfig) : mirrorFields :=
  MkMirrorFields mirror.(Name) mirror.(Provider) mirror.(Upstream)
    (or_global mirror.(Interval) g.(g_Interval)) (or_global mirror.(Retry) g.(g_Retry))
    (or_global mirror.(Timeout) g.(g_Timeout)) mirror.(MirrorDir) mirror.(MirrorSubDir)
    mirror.(LogDir) mirror.(Env) mirror.(Role) mirror.(ExecOnSuccess) mirror.(ExecOnFailure)
    mirror.(ExecOnSuccessExtra) mirror.(ExecOnFailureExtra) mirror.(SuccessExitCodes)
    mirror.(RsyncSuccessExitCodes) mirror.(Command) mirror.(FailOnMatch) mirror.(SizePattern)
    mirror.(UseIPv6) mirror.(UseIPv4) mirror.(ExcludeFile) mirror.(Username) mirror.(Password)
    mirror.(RsyncNoTimeo) mirror.(RsyncTimeout) mirror.(RsyncOptions) mirror.(RsyncOverride)
    mirror.(RsyncOverrideOnly) mirror.(Stage1Profile) mirror.(MemoryLimit) mirror.(DockerImage)
    mirror.(DockerVolumes) mirror.(DockerOptions) mirror.(SnapshotPath).

(** The hooks that do not run a command, in the order they are added. *)
Definition system_hooks (mirror : mirrorFields) (cfg : Config.Config) : list hook :=
  [LogLimiter]
  ++ (if cfg.(ZFS).(z_Enable) then [ZfsHook cfg.(ZFS).(z_Zpool)] else [])
  ++ (if cfg.(BtrfsSnapshot).(b_Enable)
      then [newBtrfsSnapshotHook mirror.(Name) cfg.(BtrfsSnapshot).(b_SnapshotPath) mirror] else [])
  ++ (if cfg.(Docker).(d_Enable) && negb (bool_decide (mirror.(DockerImage) = EmptyString))
      then [DockerHook (newDockerHook cfg.(Docker) mirror)]
      else if cfg.(Cgroup).(cg_Enable) then [CgroupHook mirror.(MemoryLimit)] else []).

Definition newMirrorProvider (mirror : mirrorFields) (cfg : Config.Config) : comp mirrorProvider :=
  let g := cfg.(Global) in
  let logDir := if decide (mirror.(LogDir) = EmptyString) then g.(g_LogDir) else mirror.(LogDir) in
  let mirrorDir :=
    if decide (mirror.(MirrorDir) = EmptyString)
    then Join [g.(g_MirrorDir); mirror.(MirrorSubDir); mirror.(Name)] else mirror.(MirrorDir) in
  let mirror := with_defaults mirror g in
  logDir ← of_result (formatTemplate logDir mirror);
  let isMaster := negb (bool_decide (mirror.(Role) = "slave")) in
  impl ← newProviderImpl mirror g;
  let b := set_isMaster isMaster
    (new_base mirror.(Name) mirrorDir logDir (Join [logDir; "latest.log"])
       (wrap64 (mirror.(Interval) * minute)) mirror.(Retry) (wrap64 (mirror.(Timeout) * second))) in
  let b := foldl (fun b h => AddHook h b) b (system_hooks mirror cfg) in
  b ← addHookFromCmdList (cmds_or_global mirror.(ExecOnSuccess) g.(g_ExecOnSuccess)) execOnSuccess b;
  b ← addHookFromCmdList (default [] mirror.(ExecOnSuccessExtra)) execOnSuccess b;
  b ← addHookFromCmdList (cmds_or_global mirror.(ExecOnFailure) g.(g_ExecOnFailure)) execOnFailure b;
  b ← addHookFromCmdList (default [] mirror.(ExecOnFailureExtra)) execOnFailure b;
  let codes := success_exit_codes mirror g in
  let b := if (0 <? length codes)%nat then SetSuccessExitCodes (Some codes) b else b in
  Ret (MkProvider b impl).
End providers.

(** ** Deduplication *)

Lemma dedup_loop_spec codes : forall seen out,
  (forall c, c ∈ seen <-> c ∈ out) -> NoDup out ->
  NoDup (dedup_loop codes seen out) /\ (forall c, c ∈ dedup_loop codes seen out <-> c ∈ out \/ c ∈ codes)
  /\ out `prefix_of` dedup_loop codes seen out.
Proof.
  induction codes as [|x codes IH]; intros seen out Hs Hnd; cbn [dedup_loop].
  { split; [done|]. split; [|done]. intros c. rewrite elem_of_nil. tauto. }
  case_decide as Hx.
  - destruct (IH seen out Hs Hnd) as (H1 & H2 & H3). split_and!; [done| |done].
    intros c. rewrite H2, elem_of_cons. split; [tauto|]. intros [|[->|]]; [tauto| |tauto].
    left. by apply Hs.
  - destruct (IH ({[x]} ∪ seen) (out ++ [x])) as (H1 & H2 & H3).
    + intros c. rewrite elem_of_union, elem_of_singleton, elem_of_app, list_elem_of_singleton, Hs. tauto.
    + apply NoDup_app. split_and!; [done| |apply NoDup_singleton].
      intros c Hc ->%list_elem_of_singleton. apply Hx. by apply Hs.
    + split_and!; [done| |].
      * intros c. rewrite H2, elem_of_app, list_elem_of_singleton, elem_of_cons. tauto.
      * etrans; [|exact H3]. by exists [x].
Qed.

Lemma dedup_NoDup codes : NoDup (if (1 <? length codes)%nat then dedup_loop codes ∅ [] else codes)
  /\ forall c, c ∈ (if (1 <? length codes)%nat then dedup_loop codes ∅ [] else codes) <-> c ∈ codes.
Proof.
  destruct (Nat.ltb_spec 1 (length codes)).
  - destruct (dedup_loop_spec codes ∅ []) as (H1 & H2 & _); [set_solver|constructor|].
    split; [done|]. intros c. rewrite H2, elem_of_nil. tauto.
  - split; [|done]. destruct codes as [|x [|y codes]]; [constructor|apply NoDup_singleton|simpl in *; lia].
Qed.

(** ** What is built *)

Section properties.
Context {R : Type} (shlex : string -> result (list string)) (compile : string -> result R)
        (formatTemplate : string -> mirrorFields -> result string).

Definition exec_hook (execOn : Z) (h : hook) : Prop := exists cmd, h = ExecPostHook execOn cmd.

Definition with_hooks (hs : list hook) (b : baseProvider) : baseProvider :=
  MkBase b.(bp_name) b.(bp_ctx) b.(bp_interval) b.(bp_retry) b.(bp_timeout) b.(bp_isMaster)
    b.(bp_successExitCodes) (b.(bp_hooks) ++ hs).

Lemma with_hooks_app h1 h2 b : with_hooks h2 (with_hooks h1 b) = with_hooks (h1 ++ h2) b.
Proof. unfold with_hooks. simpl. by rewrite <- app_assoc. Qed.

Lemma foldl_AddHook hs b : foldl (fun b h => AddHook h b) b hs = with_hooks hs b.
Proof.
  revert b. induction hs as [|h hs IH]; intros b; simpl.
  - unfold with_hooks. rewrite app_nil_r. by destruct b.
  - rewrite IH. change (AddHook h b) with (with_hooks [h] b). by rewrite with_hooks_app.
Qed.

Lemma addHookFromCmdList_spec cmds execOn b b' :
  addHookFromCmdList shlex cmds execOn b = Ret b' ->
  exists hs, b' = with_hooks hs b /\ Forall (exec_hook execOn) hs /\ length hs = length cmds.
Proof.
  revert b. induction cmds as [|cmd cmds IH]; intros b; cbn [addHookFromCmdList].
  - intros [= <-]. exists []. split_and!; [|constructor|done]. unfold with_hooks.
    rewrite app_nil_r. by destruct b.
  - unfold newExecPostHook. destruct (shlex cmd) as [c|]; [|done]. simpl.
    case_decide; [done|]. simpl. intros H'. apply IH in H' as (hs & -> & Hf & Hl).
    exists (ExecPostHook execOn c :: hs). split_and!.
    + change (AddHook (ExecPostHook execOn c) b) with (with_hooks [ExecPostHook execOn c] b).
      by rewrite with_hooks_app.
    + constructor; [by eexists|done].
    + simpl. by rewrite Hl.
Qed.

Lemma comp_bind_ret {A B} (c : comp A) (f : A -> comp B) b :
  (c ≫= f) = Ret b <-> exists a, c = Ret a /\ f a = Ret b.
Proof.
  split; [destruct c; [by eexists|done]|]. by intros (a & -> & ?).
Qed.

(** The commands run after a success and after a failure. *)
Definition success_cmds (m : mirrorFields) (g : globalConfig) : list string :=
  cmds_or_global m.(ExecOnSuccess) g.(g_ExecOnSuccess) ++ default [] m.(ExecOnSuccessExtra).
Definition failure_cmds (m : mirrorFields) (g : globalConfig) : list string :=
  cmds_or_global m.(ExecOnFailure) g.(g_ExecOnFailure) ++ default [] m.(ExecOnFailureExtra).

Lemma newMirrorProvider_base m cfg p : newMirrorProvider shlex compile formatTemplate m cfg ⇓ p ->
  exists mirrorDir logDir succ fail,
    let b := MkBase m.(Name) (provider_context mirrorDir logDir (Join [logDir; "latest.log"]))
      (wrap64 (or_global m.(Interval) cfg.(Global).(g_Interval) * minute))
      (let r := or_global m.(Retry) cfg.(Global).(g_Retry) in if decide (r = 0) then defaultMaxRetry else r)
      (wrap64 (or_global m.(Timeout) cfg.(Global).(g_Timeout) * second))
      (negb (bool_decide (m.(Role) = "slave"))) None (system_hooks m cfg ++ succ ++ fail) in
    pv_base p = (if (0 <? length (success_exit_codes m cfg.(Global)))%nat
                 then SetSuccessExitCodes (Some (success_exit_codes m cfg.(Global))) b else b)
    /\ Forall (exec_hook execOnSuccess) succ /\ length succ = length (success_cmds m cfg.(Global))
    /\ Forall (exec_hook execOnFailure) fail /\ length fail = length (failure_cmds m cfg.(Global)).
Proof.
  unfold newMirrorProvider. set (mirrorDir := if decide (MirrorDir m = EmptyString) then _ else _).
  intros H. apply comp_bind_ret in H as (logDir & _ & H). apply comp_bind_ret in H as (impl & _ & H).
  rewrite foldl_AddHook in H.
  change (system_hooks (with_defaults m cfg.(Global)) cfg) with (system_hooks m cfg) in H.
  generalize dependent (system_hooks m cfg). intros sys H.
  apply comp_bind_ret in H as (b1 & H1 & H). apply addHookFromCmdList_spec in H1 as (h1 & -> & F1 & L1).
  apply comp_bind_ret in H as (b2 & H2 & H). apply addHookFromCmdList_spec in H2 as (h2 & -> & F2 & L2).
  apply comp_bind_ret in H as (b3 & H3 & H). apply addHookFromCmdList_spec in H3 as (h3 & -> & F3 & L3).
  apply comp_bind_ret in H as (b4 & H4 & H). apply addHookFromCmdList_spec in H4 as (h4 & -> & F4 & L4).
  rewrite !with_hooks_app in H. injection H as <-.
  exists mirrorDir, logDir, (h1 ++ h2), (h3 ++ h4). cbn [pv_base]. split_and!.
  - rewrite <- !app_assoc. done.
  - by apply Forall_app.
  - unfold success_cmds. by rewrite !length_app, L1, L2.
  - by apply Forall_app.
  - unfold failure_cmds. by rewrite !length_app, L3, L4.
Qed.

(** The hooks that start the command in another way. *)
Definition container (h : hook) : bool :=
  match h with DockerHook _ | CgroupHook _ => true | _ => false end.

(** Whether the mirror runs in a container. *)
Definition in_docker (m : mirrorFields) (cfg : Config.Config) : Prop :=
  cfg.(Docker).(d_Enable) = true /\ m.(DockerImage) <> EmptyString.

Lemma system_hooks_spec m cfg h : h ∈ system_hooks m cfg <->
  h = LogLimiter
  \/ (cfg.(ZFS).(z_Enable) = true /\ h = ZfsHook cfg.(ZFS).(z_Zpool))
  \/ (cfg.(BtrfsSnapshot).(b_Enable) = true
      /\ h = newBtrfsSnapshotHook m.(Name) cfg.(BtrfsSnapshot).(b_SnapshotPath) m)
  \/ (in_docker m cfg /\ h = DockerHook (newDockerHook cfg.(Docker) m))
  \/ (~ in_docker m cfg /\ cfg.(Cgroup).(cg_Enable) = true /\ h = CgroupHook m.(MemoryLimit)).
Proof.
  assert (Hif : forall (b : bool) x, h ∈ (if b then [x] else []) <-> b = true /\ h = x).
  { intros [] x; [rewrite list_elem_of_singleton|rewrite elem_of_nil]; by split; [|intros [? ?]]. }
  unfold system_hooks. rewrite !elem_of_app, list_elem_of_singleton, !Hif.
  destruct (d_Enable (Docker cfg) && _) eqn:E.
  - apply andb_true_iff in E as [E1 E2%negb_true_iff%bool_decide_eq_false]. rewrite list_elem_of_singleton.
    assert (in_docker m cfg) by done. tauto.
  - assert (~ in_docker m cfg).
    { intros [E1 E2]. by rewrite E1, bool_decide_false in E. }
    rewrite Hif. tauto.
Qed.

(** The hooks of a provider. The log limiter comes first; the ZFS and the Btrfs hook are
    there when they are enabled; a mirror with an image, where docker is enabled, runs in a
    container, and any other in its control group where those are enabled, so that there is
    at most one of the two; the commands to run after a success come before those to
    run after a failure, the mirror's extra ones after the mirror's own or, when it has
    none, the global ones; and nothing else is hooked. *)
Theorem provider_hooks m cfg p : newMirrorProvider shlex compile formatTemplate m cfg ⇓ p ->
  exists sys succ fail, bp_hooks (pv_base p) = sys ++ succ ++ fail
    /\ head sys = Some LogLimiter
    /\ (forall h, h ∈ sys <-> h = LogLimiter
         \/ (cfg.(ZFS).(z_Enable) = true /\ h = ZfsHook cfg.(ZFS).(z_Zpool))
         \/ (cfg.(BtrfsSnapshot).(b_Enable) = true
             /\ h = newBtrfsSnapshotHook m.(Name) cfg.(BtrfsSnapshot).(b_SnapshotPath) m)
         \/ (in_docker m cfg /\ h = DockerHook (newDockerHook cfg.(Docker) m))
         \/ (~ in_docker m cfg /\ cfg.(Cgroup).(cg_Enable) = true /\ h = CgroupHook m.(MemoryLimit)))
    /\ Forall (exec_hook execOnSuccess) succ /\ length succ = length (success_cmds m cfg.(Global))
    /\ Forall (exec_hook execOnFailure) fail /\ length fail = length (failure_cmds m cfg.(Global))
    /\ (length (filter (fun h => container h = true) (bp_hooks (pv_base p))) <= 1)%nat.
Proof.
  intros H. apply newMirrorProvider_base in H as (mirrorDir & logDir & succ & fail & Hb & F1 & L1 & F2 & L2).
  exists (system_hooks m cfg), succ, fail.
  assert (Hh : bp_hooks (pv_base p) = system_hooks m cfg ++ succ ++ fail).
  { rewrite Hb. by case_match. }
  rewrite Hh. split_and!; [done|done|apply system_hooks_spec|done|done|done|done|].
  assert (Hn : forall on hs, Forall (exec_hook on) hs -> filter (fun h => container h = true) hs = []).
  { intros on hs. induction 1 as [|h hs [c ->] _ IH]; [done|]. by rewrite filter_cons, decide_False. }
  rewrite !filter_app, (Hn _ _ F1), (Hn _ _ F2), !app_nil_r. unfold system_hooks.
  rewrite !filter_app. repeat case_match; simpl; lia.
Qed.

(** The forgiven exit codes. They are the global and the mirror's ones, with the two
    rsync lists for a provider that runs rsync and for no other, each code once. *)
Theorem provider_exit_codes m cfg p : newMirrorProvider shlex compile formatTemplate m cfg ⇓ p ->
  NoDup (GetSuccessExitCodes (pv_base p))
  /\ forall c, c ∈ GetSuccessExitCodes (pv_base p) <->
       c ∈ default [] cfg.(Global).(g_SuccessExitCodes) \/ c ∈ default [] m.(SuccessExitCodes)
       \/ (is_rsync m.(Provider) = true /\
           (c ∈ default [] cfg.(Global).(g_RsyncSuccessExitCodes) \/ c ∈ default [] m.(RsyncSuccessExitCodes))).
Proof.
  intros H. apply newMirrorProvider_base in H as (mirrorDir & logDir & succ & fail & Hb & _).
  assert (Hc : GetSuccessExitCodes (pv_base p) = success_exit_codes m cfg.(Global)).
  { rewrite Hb. destruct (success_exit_codes m cfg.(Global)); done. }
  rewrite Hc. unfold success_exit_codes. set (codes := if is_rsync m.(Provider) then _ else _).
  destruct (dedup_NoDup codes) as [H1 H2]. split; [done|]. intros c. rewrite H2. unfold codes.
  destruct (is_rsync m.(Provider)); rewrite !elem_of_app; [tauto|]. split; [tauto|].
  intros [?|[?|[? _]]]; [tauto|tauto|done].
Qed.

(** The interval is a number of minutes in an int64 of nanoseconds. Up to 153722867
    minutes it is exact; beyond, the product wraps, and 153722868 minutes give a negative
    duration: the next run is scheduled in the past. *)
Theorem provider_interval m cfg p : newMirrorProvider shlex compile formatTemplate m cfg ⇓ p ->
  let i := or_global m.(Interval) cfg.(Global).(g_Interval) in
  (0 <= i <= 153722867 -> bp_interval (pv_base p) = i * minute)
  /\ (i = 153722868 -> bp_interval (pv_base p) < 0)
  /\ in_int64 (bp_interval (pv_base p)).
Proof.
  intros H. apply newMirrorProvider_base in H as (mirrorDir & logDir & succ & fail & Hb & _).
  intros i.
  assert (Hi : bp_interval (pv_base p) = wrap64 (i * minute)) by (rewrite Hb; by case_match).
  rewrite Hi. split_and!.
  - intros Hr. apply wrap64_id. unfold in_int64, minute, second. lia.
  - intros ->. vm_compute. reflexivity.
  - apply wrap64_range.
Qed.
End properties.

(** The options of an rsync mirror. The provider is refused exactly when the upstream
    does not end with a slash, or only overridden options are asked for and there are none;
    otherwise the options are the default or overriding ones, followed, unless only those
    are asked for, by the timeout, the address family, the exclude file, the global options
    and last the mirror's own, so that the most specific come last. *)
Theorem rsync_provider_options {R : Type} (c : rsyncConfig) :
  let base := default default_options c.(rc_overriddenOptions) in
  match newRsyncProvider (R := R) c with
  | Err _ => has_suffix c.(rc_upstreamURL) "/" = false
             \/ (c.(rc_useOverrideOnly) = true /\ c.(rc_overriddenOptions) = None)
  | Ok (Rsync c' _ env options) => c' = c /\ has_suffix c.(rc_upstreamURL) "/" = true
      /\ (c.(rc_useOverrideOnly) = true -> options = base)
      /\ (c.(rc_useOverrideOnly) = false -> exists mid,
            options = base ++ mid ++ default [] c.(rc_globalOptions) ++ default [] c.(rc_extraOptions)
            /\ mid = timeout_option c.(rc_rsyncNeverTimeout) c.(rc_rsyncTimeoutValue)
                     ++ ip_option c.(rc_useIPv6) c.(rc_useIPv4) ++ exclude_option c.(rc_excludeFile))
      /\ (c.(rc_password) <> EmptyString -> env !! "RSYNC_PASSWORD" = Some c.(rc_password))
      /\ (c.(rc_username) <> EmptyString -> env !! "USER" = Some c.(rc_username))
  | Ok _ => False
  end.
Proof.
  assert (Henv : (c.(rc_password) <> EmptyString ->
       rsync_env c.(rc_rsyncEnv) c.(rc_username) c.(rc_password) !! "RSYNC_PASSWORD" = Some c.(rc_password))
      /\ (c.(rc_username) <> EmptyString ->
       rsync_env c.(rc_rsyncEnv) c.(rc_username) c.(rc_password) !! "USER" = Some c.(rc_username))).
  { unfold rsync_env. split; intros Hne.
    - rewrite (decide_False _ _ Hne). by rewrite lookup_insert_eq.
    - rewrite (decide_False (P := rc_username c = EmptyString)) by done. case_decide; [by rewrite lookup_insert_eq|].
      by rewrite lookup_insert_ne, lookup_insert_eq. }
  unfold newRsyncProvider. destruct (has_suffix c.(rc_upstreamURL) "/"); simpl; [|by left].
  destruct (rc_useOverrideOnly c); [destruct (rc_overriddenOptions c)|]; simpl.
  - by split_and!; try apply Henv.
  - by right.
  - split_and!; try apply Henv; try done. intros _. eexists. split; [|done].
    by rewrite <- !app_assoc.
Qed.

(** C36: the first stage of a two-stage mirror deletes nothing. For either profile and every
    configuration whose exclude file is not itself spelt as a delete option, no option of
    the stage starts with "--delete"; the second stage has the deletions, and is the only
    one the mirror's own options reach. *)
Theorem stage1_deletes_nothing {R : Type} (c : twoStageRsyncConfig) cmd env s1 s2 options :
  newTwoStageRsyncProvider (R := R) c = Ok (TwoStage c cmd env s1 s2) ->
  has_prefix c.(tc_excludeFile) "--delete" = false ->
  Options c s1 s2 1 = Ok options ->
  (forall o, o ∈ options -> has_prefix o "--delete" = false)
  /\ (exists o2, Options c s1 s2 2 = Ok o2 /\ "--delete" ∈ o2
        /\ forall o, o ∈ default [] c.(tc_extraOptions) -> o ∈ o2).
Proof.
  unfold newTwoStageRsyncProvider. destruct (has_suffix _ _); simpl; [|done].
  intros [= <- <- <- <-] Hex. unfold Options. simpl.
  destruct (rsyncStage1Profiles !! c.(tc_stage1Profile)) as [prof|] eqn:Hprof; [|done]. simpl.
  intros [= <-]. split.
  - assert (Hp : forall o, o ∈ prof -> has_prefix o "--delete" = false).
    { unfold rsyncStage1Profiles in Hprof. apply elem_of_list_to_map_2 in Hprof.
      rewrite !elem_of_cons, elem_of_nil in Hprof.
      destruct Hprof as [Hp|[Hp|[]]]; injection Hp as _ ->; intros o Ho;
        rewrite !elem_of_cons, elem_of_nil in Ho; by destruct_or! Ho; subst. }
    intros o Ho. rewrite !elem_of_cons, !elem_of_app in Ho.
    destruct Ho as [->|[->|[->|[->|[->|[->|[->|[->|[->|[[[Ho|Ho]|Ho]|Ho]]]]]]]]]]; try done.
    + by apply Hp.
    + unfold timeout_option in Ho. destruct (tc_rsyncNeverTimeout c); [by apply elem_of_nil in Ho|].
      by apply list_elem_of_singleton in Ho as ->.
    + unfold ip_option in Ho. destruct (tc_useIPv6 c), (tc_useIPv4 c);
        rewrite ?list_elem_of_singleton, ?elem_of_nil in Ho; by subst.
    + unfold exclude_option in Ho. case_decide; [by apply elem_of_nil in Ho|].
      rewrite !elem_of_cons, elem_of_nil in Ho. by destruct Ho as [->|[->|[]]].
  - eexists. split; [done|]. split.
    + do 8 right. by left.
    + intros o Ho. do 12 right. rewrite !elem_of_app. tauto.
Qed.

(** *** Witnesses *)

Definition ex_global : globalConfig :=
  MkGlobalConfig "worker" "/var/log/{{.Name}}" "/srv" 10 240 2 0 None (Some ["touch done"]) None
    (Some [0; 24]) (Some [24]).

Definition ex_cfg : Config.Config :=
  MkConfig ex_global
    (MkManagerConfig "http://m" None EmptyString) (MkServerConfig EmptyString EmptyString 0 EmptyString EmptyString)
    (MkCgroupConfig true EmptyString EmptyString EmptyString) (MkZfsConfig false EmptyString)
    (MkBtrfsConfig true "/snap") (MkDockerConfig false None None) EmptyString None None.

(** The lexer and the compiler of expressions accept everything here. *)
Definition ex_shlex (s : string) : result (list string) := Ok (split_char (Ascii.ascii_of_nat 32) s).
Definition ex_compile (s : string) : result string := Ok s.
Definition ex_template (s : string) (m : mirrorFields) : result string := Ok s.

Definition ex_fields (interval : Z) : mirrorFields :=
  MkMirrorFields "debian" provRsync "rsync://d/debian/" interval 0 0 EmptyString EmptyString EmptyString None
    "slave" None None None None (Some [24; 23]) None EmptyString EmptyString EmptyString false false
    EmptyString EmptyString "secret" false 0 None None false EmptyString 0 EmptyString None None
    EmptyString.

Definition ex_built (interval : Z) : comp (mirrorProvider (R := string)) :=
  newMirrorProvider ex_shlex ex_compile ex_template (ex_fields interval) ex_cfg.

Lemma provider_hooks_witness :
  exists p, ex_built 0 = Ret p
    /\ bp_hooks (pv_base p) = [LogLimiter; BtrfsHook "/snap/debian"; CgroupHook 0;
                               ExecPostHook execOnSuccess ["touch"; "done"]]
    /\ (length (filter (fun h => container h = true) (bp_hooks (pv_base p))) <= 1)%nat.
Proof.
  destruct (ex_built 0) as [p|] eqn:E; [|vm_compute in E; discriminate E].
  exists p. split; [reflexivity|].
  destruct (provider_hooks ex_shlex ex_compile ex_template (ex_fields 0) ex_cfg p E)
    as (sys & succ & fail & _ & _ & _ & _ & _ & _ & _ & Hh).
  split; [|exact Hh]. vm_compute in E. injection E as <-. reflexivity.
Defined.

Lemma provider_exit_codes_witness :
  exists p, ex_built 0 = Ret p /\ NoDup (GetSuccessExitCodes (pv_base p))
    /\ GetSuccessExitCodes (pv_base p) = [0; 24; 23].
Proof.
  destruct (ex_built 0) as [p|] eqn:E; [|vm_compute in E; discriminate E].
  exists p. split; [reflexivity|].
  destruct (provider_exit_codes ex_shlex ex_compile ex_template (ex_fields 0) ex_cfg p E) as [Hn _].
  split; [exact Hn|]. vm_compute in E. injection E as <-. reflexivity.
Defined.

Lemma provider_interval_witness :
  exists p p', ex_built 0 = Ret p /\ bp_interval (pv_base p) = 240 * minute
    /\ ex_built 153722868 = Ret p' /\ bp_interval (pv_base p') < 0.
Proof.
  destruct (ex_built 0) as [p|] eqn:E; [|vm_compute in E; discriminate E].
  destruct (ex_built 153722868) as [p'|] eqn:E'; [|vm_compute in E'; discriminate E'].
  exists p, p'. split; [reflexivity|]. split.
  - apply (provider_interval ex_shlex ex_compile ex_template (ex_fields 0) ex_cfg p E).
    vm_compute. split; discriminate.
  - split; [reflexivity|].
    apply (provider_interval ex_shlex ex_compile ex_template (ex_fields 153722868) ex_cfg p' E').
    reflexivity.
Defined.

Lemma rsync_provider_options_witness :
  exists cmd env options,
    let c := MkRsyncConfig EmptyString "rsync://d/debian/" EmptyString "secret" EmptyString
      (Some ["--bwlimit=100"]) (Some ["--contimeout=60"]) None false false 0 None true true in
    newRsyncProvider (R := string) c = Ok (Rsync c cmd env options)
    /\ env !! "RSYNC_PASSWORD" = Some "secret"
    /\ options = default_options ++ ["--timeout=120"; "-6"; "--contimeout=60"; "--bwlimit=100"].
Proof.
  eexists _, _, _. intros c. split; [reflexivity|].
  pose proof (rsync_provider_options (R := string) c) as H. simpl in H.
  destruct H as (_ & _ & _ & _ & Hp & _). split; [by apply Hp|reflexivity].
Defined.

Lemma stage1_deletes_nothing_witness :
  let c := MkTwoStageConfig EmptyString "debian" "rsync://d/debian/" EmptyString EmptyString
    "/etc/exclude" (Some ["--delete-excluded"]) false 0 None false false in
  exists cmd env s1 s2 options, newTwoStageRsyncProvider (R := string) c = Ok (TwoStage c cmd env s1 s2)
    /\ Options c s1 s2 1 = Ok options
    /\ forall o, o ∈ options -> has_prefix o "--delete" = false.
Proof.
  intros c. eexists _, _, _, _, _. split; [reflexivity|]. split; [reflexivity|].
  eapply (stage1_deletes_nothing (R := string) c); reflexivity.
Defined.
