(* ===== verification/Worker.v ===== *)
(** * worker/worker.go: the worker

    The handlers and loops of the worker as functions of its state: the configured
    mirrors, the jobs by name, the schedule, and a log of what the worker does to the
    outside in order: goroutines started, control actions sent, statuses posted.  A
    provider is known by the part of the interface [mirrorProvider] the worker uses, so
    that the theorems hold for any provider; the file ends with the instance for the
    providers of [newMirrorProvider].  The lock [w.L] makes each handler of a command and
    each reload one step.  The schedule loop takes it only to find a job: [on_job_message] and
    [on_tick] are its steps with nothing in between, [run_step] those steps one by one, with
    the handlers coming between them (the running worker).
    What a job does between the steps is the relation of the file [JobLoop]; where the steps
    block on one another is in [Channels]. *)

From S2P Require Import Prelude Json Msg Job Schedule Config ConfigDiff Provider.

Local Open Scope string_scope.
Local Open Scope list_scope.
Local Open Scope Z_scope.

(** ** The provider, as the worker sees it *)

Class WorkerProvider (P : Type) := {
  wp_Name : P -> string;
  wp_Interval : P -> Z;
  wp_IsMaster : P -> bool;
  wp_Upstream : P -> string
}.

(** ** State *)

(** What the worker does to the outside.  [alive] tells whether a goroutine was in [Run]
    when a control action was sent to the job. *)
Inductive action : Type :=
| StartRun (n : string)
| SendCtrl (n : string) (ctrl : ctrlAction) (alive : bool)
| AwaitDisabled (n : string)
| Sighup
| PostRegister (url : string) (w : WorkerStatus)
| PostStatus (url : string) (m : MirrorStatus)
| PostSchedules (url : string) (s : nilable (list MirrorSchedule)).

(** [w.URL()] *)
Definition URL (cfg : serverConfig) : string :=
  let proto :=
    if decide (cfg.(s_SSLCert) = EmptyString /\ cfg.(s_SSLKey) = EmptyString)
    then "http" else "https" in
  proto +:+ "://" +:+ cfg.(s_Hostname) +:+ ":" +:+ pretty cfg.(s_Port) +:+ "/".

(** [runHTTPServer] listens: the address and whether it speaks TLS. *)
Definition runHTTPServer (cfg : serverConfig) : string * bool :=
  (cfg.(s_Addr) +:+ ":" +:+ pretty cfg.(s_Port),
   negb (bool_decide (cfg.(s_SSLCert) = EmptyString /\ cfg.(s_SSLKey) = EmptyString))).

(** The URL the worker registers speaks the protocol its server does, on the port it listens
    on, whatever the two host names are. *)
Lemma registered_url_is_served cfg :
  URL cfg = (if (runHTTPServer cfg).2 then "https" else "http") +:+ "://" +:+ cfg.(s_Hostname)
            +:+ ":" +:+ pretty cfg.(s_Port) +:+ "/"
  /\ (runHTTPServer cfg).1 = cfg.(s_Addr) +:+ ":" +:+ pretty cfg.(s_Port).
Proof. split; [|done]. unfold URL, runHTTPServer. simpl. by case_decide; case_bool_decide. Qed.

Section worker.
Context {P L : Type} {WP : WorkerProvider P} {SL : SkipList string L} {MS : MirrorSort}.

(** A job, and whether a goroutine is in its [Run]. *)
Record mirrorJob : Type := MkMirrorJob {
  mj_provider : P;
  mj_state : Z;
  mj_size : string;
  mj_running : bool
}.

Definition set_mj_state (x : Z) (j : mirrorJob) : mirrorJob :=
  MkMirrorJob j.(mj_provider) x j.(mj_size) j.(mj_running).
Definition set_mj_running (x : bool) (j : mirrorJob) : mirrorJob :=
  MkMirrorJob j.(mj_provider) j.(mj_state) j.(mj_size) x.
Definition set_mj_provider (x : P) (j : mirrorJob) : mirrorJob :=
  MkMirrorJob x j.(mj_state) j.(mj_size) j.(mj_running).

Definition newJob (p : P) : mirrorJob := MkMirrorJob p stateNone EmptyString false.

(** [SetProvider] *)
Definition SetProvider (p : P) (j : mirrorJob) : mirrorJob * option error :=
  if decide (j.(mj_state) <> stateNone /\ j.(mj_state) <> stateDisabled)
  then (j, Some ("Provider cannot be switched when job state is " +:+ pretty j.(mj_state)))
  else (set_mj_provider p j, None).

(** The queue's jobs are named by themselves. *)
Abbreviation queue := (scheduleQueue (L := L)).

Record Worker : Type := MkWorker {
  w_mirrors : list mirrorConfig;
  w_jobs : gmap string mirrorJob;
  w_schedule : queue;
  w_log : list action
}.

Definition set_w_mirrors (x : list mirrorConfig) (w : Worker) : Worker :=
  MkWorker x w.(w_jobs) w.(w_schedule) w.(w_log).
Definition set_w_jobs (x : gmap string mirrorJob) (w : Worker) : Worker :=
  MkWorker w.(w_mirrors) x w.(w_schedule) w.(w_log).
Definition set_w_schedule (x : queue) (w : Worker) : Worker :=
  MkWorker w.(w_mirrors) w.(w_jobs) x w.(w_log).
Definition log (a : action) (w : Worker) : Worker :=
  MkWorker w.(w_mirrors) w.(w_jobs) w.(w_schedule) (w.(w_log) ++ [a]).

(** ** Steps on one job *)

Definition put_job (n : string) (j : mirrorJob) (w : Worker) : Worker :=
  set_w_jobs (<[n := j]> w.(w_jobs)) w.

(** [go job.Run(w.managerChan, w.semaphore)] *)
Definition start_job (n : string) (j : mirrorJob) (w : Worker) : Worker :=
  log (StartRun n) (put_job n (set_mj_running true j) w).

(** [job.ctrlChan <- ctrl] *)
Definition send_ctrl (n : string) (j : mirrorJob) (ctrl : ctrlAction) (w : Worker) : Worker :=
  log (SendCtrl n ctrl j.(mj_running)) w.

Definition unschedule (n : string) (w : Worker) : Worker :=
  set_w_schedule (Remove id n w.(w_schedule)).2 w.

Definition reschedule (t : Z) (n : string) (w : Worker) : Worker :=
  set_w_schedule (AddJob id t n w.(w_schedule)) w.

(** Waiting for [job.disabled] lasts until [Run] returns, in state Disabled
    (JobLoop.stop_is_inevitable). *)
Definition disableJob (n : string) (j : mirrorJob) (w : Worker) : Worker :=
  let w := unschedule n w in
  if decide (j.(mj_state) <> stateDisabled)
  then put_job n (set_mj_running false (set_mj_state stateDisabled j))
         (log (AwaitDisabled n) (send_ctrl n j jobDisable w))
  else w.

(** ** The control server *)

Definition StatusOK : Z := 200.
Definition StatusBadRequest : Z := 400.
Definition StatusNotFound : Z := 404.
Definition StatusNotAcceptable : Z := 406.

Definition starts (c : CmdVerb) : bool := bool_decide (c = CmdStart) || bool_decide (c = CmdRestart).

(** [cmd.Options["force"]] *)
Definition force (cmd : WorkerCmd) : bool :=
  default false (default ∅ cmd.(wc_Options) !! "force").

(** The commands of one job, lines 206 to 248. *)
Definition job_command (cmd : WorkerCmd) (w : Worker) : Worker * (Z * string) :=
  let n := cmd.(wc_MirrorID) in
  match w.(w_jobs) !! n with
  | None => (w, (StatusNotFound, "Mirror ``" +:+ n +:+ "'' not found"))
  | Some job =>
      let w := unschedule n w in
      let '(job, w) :=
        if starts cmd.(wc_Cmd) && bool_decide (job.(mj_state) = stateDisabled)
        then (set_mj_running true job, start_job n job w) else (job, w) in
      if decide (cmd.(wc_Cmd) = CmdStart) then
        (send_ctrl n job (if force cmd then jobForceStart else jobStart) w, (StatusOK, "OK"))
      else if decide (cmd.(wc_Cmd) = CmdRestart) then (send_ctrl n job jobRestart w, (StatusOK, "OK"))
      else if decide (cmd.(wc_Cmd) = CmdStop) then
        (if decide (job.(mj_state) <> stateDisabled) then send_ctrl n job jobStop w else w,
         (StatusOK, "OK"))
      else if decide (cmd.(wc_Cmd) = CmdDisable) then (disableJob n job w, (StatusOK, "OK"))
      else if decide (cmd.(wc_Cmd) = CmdPing) then (w, (StatusOK, "OK"))
      else (w, (StatusNotAcceptable, "Invalid Command"))
  end.

(** The handler of POST /. *)
Definition handle_command (doc : json) (w : Worker) : Worker * (Z * string) :=
  match unmarshal_WorkerCmd doc WorkerCmd_zero with
  | (_, Some _) => (w, (StatusBadRequest, "Invalid request"))
  | (cmd, None) =>
      if decide (cmd.(wc_MirrorID) = EmptyString) then
        if decide (cmd.(wc_Cmd) = CmdReload) then job_command cmd (log Sighup w)
        else (w, (StatusNotAcceptable, "Invalid Command"))
      else job_command cmd w
  end.

(** ** Reloading *)

(** [newMirrorProvider] on an entry with the worker's configuration. *)
Context (make_provider : mirrorConfig -> comp P).

(** Lines 112 to 139, for one operation that is not an addition. *)
Definition reload_change (now : Z) (op : mirrorCfgTrans) (w : Worker) : comp Worker :=
  let name := mc_Name op.(mirCfg) in
  match w.(w_jobs) !! name with
  | None => Ret w
  | Some job =>
      if decide (op.(diffOp) = diffDelete) then
        let w := disableJob name job w in
        Ret (set_w_jobs (delete name w.(w_jobs)) w)
      else if decide (op.(diffOp) = diffModify) then
        let jobState := job.(mj_state) in
        let w := disableJob name job w in
        provider ← make_provider op.(mirCfg);
        let job := default job (w.(w_jobs) !! name) in
        match SetProvider provider job with
        | (_, Some _) => Ret w
        | (job, None) =>
            if decide (jobState = stateDisabled) then
              Ret (put_job name (set_mj_state stateDisabled job) w)
            else if decide (jobState = statePaused) then
              Ret (start_job name (set_mj_state statePaused job) w)
            else
              Ret (reschedule now name (start_job name (set_mj_state stateNone job) w))
        end
      else Ret w
  end.

Fixpoint reload_changes (clock : nat -> Z) (ops : list mirrorCfgTrans) (w : Worker) : comp Worker :=
  match ops with
  | [] => Ret w
  | op :: ops =>
      if decide (op.(diffOp) = diffAdd) then reload_changes clock ops w
      else w ← reload_change (clock (length ops)) op w; reload_changes clock ops w
  end.

Definition reload_add (now : Z) (op : mirrorCfgTrans) (w : Worker) : comp Worker :=
  provider ← make_provider op.(mirCfg);
  let n := wp_Name provider in
  let job := set_mj_state stateNone (newJob provider) in
  Ret (reschedule now n (start_job n job w)).

Fixpoint reload_adds (clock : nat -> Z) (ops : list mirrorCfgTrans) (w : Worker) : comp Worker :=
  match ops with
  | [] => Ret w
  | op :: ops =>
      if decide (op.(diffOp) <> diffAdd) then reload_adds clock ops w
      else w ← reload_add (clock (length ops)) op w; reload_adds clock ops w
  end.

(** [clock1] and [clock2] give the readings of [time.Now()] in the two loops. *)
Definition ReloadMirrorConfig (clock1 clock2 : nat -> Z) (newMirrors : list mirrorConfig) (w : Worker)
    : comp Worker :=
  difference ← diffMirrorConfig w.(w_mirrors) newMirrors;
  w ← reload_changes clock1 difference w;
  w ← reload_adds clock2 difference w;
  Ret (set_w_mirrors newMirrors w).

(** [initJobs] *)
Fixpoint initJobs_loop (mirrors : list mirrorConfig) (w : Worker) : comp Worker :=
  match mirrors with
  | [] => Ret w
  | mirror :: mirrors =>
      provider ← make_provider mirror;
      initJobs_loop mirrors (put_job (wp_Name provider) (newJob provider) w)
  end.

Definition initJobs (w : Worker) : comp Worker := initJobs_loop w.(w_mirrors) w.

(** ** The schedule loop *)

(** One job the manager knows, lines 288 to 302. *)
Definition init_one (m : MirrorStatus) (job : mirrorJob) (w : Worker) : Worker :=
  let n := m.(ms_Name) in
  if decide (m.(ms_Status) = Status.Disabled) then put_job n (set_mj_state stateDisabled job) w
  else if decide (m.(ms_Status) = Status.Paused) then start_job n (set_mj_state statePaused job) w
  else
    let stime := m.(ms_LastUpdate) + wp_Interval job.(mj_provider) in
    reschedule stime n (start_job n (set_mj_state stateNone job) w).

Fixpoint init_known (mirrorList : list MirrorStatus) (unset : gmap string bool) (w : Worker)
    : gmap string bool * Worker :=
  match mirrorList with
  | [] => (unset, w)
  | m :: mirrorList =>
      match w.(w_jobs) !! m.(ms_Name) with
      | None => init_known mirrorList unset w
      | Some job => init_known mirrorList (delete m.(ms_Name) unset) (init_one m job w)
      end
  end.

(** The others, in the order of the map. *)
Fixpoint init_unset (clock : nat -> Z) (names : list string) (w : Worker) : Worker :=
  match names with
  | [] => w
  | n :: names =>
      match w.(w_jobs) !! n with
      | None => init_unset clock names w
      | Some job =>
          init_unset clock names
            (reschedule (clock (length names)) n (start_job n (set_mj_state stateNone job) w))
      end
  end.

Context {RO : RangeOrder}.

Definition init_schedule (clock : nat -> Z) (mirrorList : list MirrorStatus) (w : Worker) : Worker :=
  let unset := (fun _ => true) <$> w.(w_jobs) in
  let '(unset, w) := init_known mirrorList unset w in
  init_unset clock (range_list unset).*1 w.

(** ** Reporting *)

(** [w.Name()], [w.cfg.Global.Name] and [w.cfg.Manager.APIBaseList()]. *)
Context (worker_name : string) (roots : list string).

Definition status_message (job : mirrorJob) (jobMsg : jobMessage) : MirrorStatus :=
  MkMirrorStatus jobMsg.(jm_name) worker_name (wp_IsMaster job.(mj_provider)) jobMsg.(jm_status)
    time_zero time_zero time_zero time_zero (wp_Upstream job.(mj_provider))
    (if decide (job.(mj_size) = EmptyString) then "unknown" else job.(mj_size))
    jobMsg.(jm_msg).

Definition updateStatus (job : mirrorJob) (jobMsg : jobMessage) (w : Worker) : Worker :=
  let smsg := status_message job jobMsg in
  foldl (fun w root =>
      log (PostStatus (root +:+ "/workers/" +:+ worker_name +:+ "/jobs/" +:+ jobMsg.(jm_name)) smsg) w)
    w roots.

(** [append] of nothing leaves the slice nil. *)
Definition schedule_message (schedInfo : list jobScheduleInfo) : nilable (list MirrorSchedule) :=
  append None ((fun i => MkMirrorSchedule i.(jobName) i.(nextScheduled)) <$> schedInfo).

Definition updateSchedInfo (schedInfo : list jobScheduleInfo) (w : Worker) : Worker :=
  foldl (fun w root =>
      log (PostSchedules (root +:+ "/workers/" +:+ worker_name +:+ "/schedules")
             (schedule_message schedInfo)) w)
    w roots.

(** Reporting a message and scheduling the job, lines 342 to 357: [job] was found before
    under the lock, which is free here. *)
Definition report_message (now : Z) (jobMsg : jobMessage) (job : mirrorJob) (w : Worker) : Worker :=
  let w := updateStatus job jobMsg w in
  let w :=
    if jobMsg.(jm_schedule)
    then reschedule (now + wp_Interval job.(mj_provider)) jobMsg.(jm_name) w else w in
  updateSchedInfo (GetJobs id w.(w_schedule)) w.

(** A message received from a job, lines 323 to 357. *)
Definition on_job_message (now : Z) (jobMsg : jobMessage) (w : Worker) : Worker :=
  match w.(w_jobs) !! jobMsg.(jm_name) with
  | None => w
  | Some job =>
      if decide (job.(mj_state) <> stateReady /\ job.(mj_state) <> stateHalting) then w
      else report_message now jobMsg job w
  end.

(** A tick, lines 359 to 363. *)
Definition on_tick (now : Z) (w : Worker) : Worker :=
  match Pop id now w.(w_schedule) with
  | (Some n, q) =>
      let w := set_w_schedule q w in
      match w.(w_jobs) !! n with
      | Some job => send_ctrl n job jobStart w
      | None => w
      end
  | (None, _) => w
  end.

(** The messages still in the channel when the worker exits, lines 368 to 382. *)
Fixpoint on_exit (pending : list jobMessage) (w : Worker) : Worker :=
  match pending with
  | [] => w
  | jobMsg :: pending =>
      match w.(w_jobs) !! jobMsg.(jm_name) with
      | None => on_exit pending w
      | Some job =>
          if decide (jobMsg.(jm_status) = Status.Failed \/ jobMsg.(jm_status) = Status.Success)
          then on_exit pending (updateStatus job jobMsg w)
          else on_exit pending w
      end
  end.

(** [Halt], up to [jobsDone.Wait()]. *)
Definition Halt (w : Worker) : Worker :=
  foldl (fun w nj =>
      if decide ((nj : string * mirrorJob).2.(mj_state) <> stateDisabled)
      then send_ctrl nj.1 nj.2 jobHalt w else w)
    w (range_list w.(w_jobs)).

(** ** Registration *)

Context (worker_url : string).

(** [post url i] is whether the [i]-th post to the manager at [url] succeeds; [retry] of
    the ten attempts are left. *)
Fixpoint register_root (post : string -> nat -> bool) (root : string) (retry : nat) (w : Worker) : Worker :=
  match retry with
  | O => w
  | S r =>
      let url := root +:+ "/workers" in
      let w := log (PostRegister url
                 (MkWorkerStatus worker_name worker_url EmptyString time_zero time_zero)) w in
      if post url (10 - retry)%nat then w else register_root post root r w
  end.

Definition registerWorker (post : string -> nat -> bool) (w : Worker) : Worker :=
  foldl (fun w root => register_root post root 10 w) w roots.

(** ** Sound states

    Every job that is not disabled has its loop, and only jobs with a loop are scheduled, but
    for the names in [late]: then a control action always finds a loop to receive it. *)

Section soundness.
Context {late : gset string}.

Record sound_in (w : Worker) : Prop := {
  so_queue : wf id w.(w_schedule);
  so_loop : forall n j, w.(w_jobs) !! n = Some j -> j.(mj_state) <> stateDisabled -> j.(mj_running) = true;
  so_sched : forall n t, view id w.(w_schedule) !! n = Some t ->
    n ∈ late \/ exists j, w.(w_jobs) !! n = Some j /\ j.(mj_running) = true
}.

(** The actions a step adds to the log. *)
Definition logs (w w' : Worker) (acts : list action) : Prop := w'.(w_log) = w.(w_log) ++ acts.

Definition alive_sends (acts : list action) : Prop :=
  Forall (fun a => match a with SendCtrl _ _ alive => alive = true | _ => True end) acts.

Lemma logs_nil w w' : w'.(w_log) = w.(w_log) -> exists acts, logs w w' acts /\ alive_sends acts.
Proof. intros Hl. exists []. unfold logs. rewrite app_nil_r. by split; [|constructor]. Qed.

Lemma logs_app w1 w2 w3 :
  (exists acts, logs w1 w2 acts /\ alive_sends acts) -> (exists acts, logs w2 w3 acts /\ alive_sends acts) ->
  exists acts, logs w1 w3 acts /\ alive_sends acts.
Proof.
  intros (a1 & H1 & F1) (a2 & H2 & F2). exists (a1 ++ a2). unfold logs in *.
  rewrite H2, H1, app_assoc. by split; [|apply Forall_app].
Qed.

(** A step that keeps the state sound and talks to no dead loop. *)
Definition good_in (w w' : Worker) : Prop :=
  sound_in w' /\ exists acts, logs w w' acts /\ alive_sends acts.

Lemma good_refl w : sound_in w -> good_in w w.
Proof. intros Hw. split; [done|]. by apply logs_nil. Qed.

Lemma good_trans w1 w2 w3 : good_in w1 w2 -> good_in w2 w3 -> good_in w1 w3.
Proof. intros [_ H1] [Hs H2]. split; [done|]. by eapply logs_app. Qed.

Lemma good_log a w : sound_in w -> (forall n c alive, a = SendCtrl n c alive -> alive = true) -> good_in w (log a w).
Proof.
  intros [Hq Hl Hs] Ha. split; [by split|]. exists [a]. split; [done|]. constructor; [|constructor].
  destruct a; try done. by eapply Ha.
Qed.

Lemma unschedule_view n w : sound_in w ->
  wf id (unschedule n w).(w_schedule)
  /\ view id (unschedule n w).(w_schedule) = delete n (view id w.(w_schedule)).
Proof.
  intros [Hq _ _]. unfold unschedule, Remove. cbn [w_schedule set_w_schedule].
  pose proof (unsafeRemove_spec id n w.(w_schedule) Hq) as H'.
  destruct (unsafeRemove id n w.(w_schedule)) as [ok q]. tauto.
Qed.

Lemma good_unschedule n w : sound_in w -> good_in w (unschedule n w).
Proof.
  intros Hw. destruct (unschedule_view n w Hw) as [Hq Hv]. destruct Hw as [_ Hl Hs].
  split; [split; [done|done|]|].
  - intros n' t. rewrite Hv, lookup_delete_Some. intros [_ Hn]. eauto.
  - by apply logs_nil.
Qed.

(** A job replaced by one with a loop. *)
Lemma good_put n j w : sound_in w -> j.(mj_running) = true -> good_in w (put_job n j w).
Proof.
  intros [Hq Hl Hs] Hr. split; [split; [done| |]|].
  - intros n' j'. simpl. intros [[<- <-]|[_ Hn]]%lookup_insert_Some; [done|eauto].
  - intros n' t Hn. simpl. destruct (decide (n = n')) as [->|Hne].
    + right. exists j. by rewrite lookup_insert_eq.
    + rewrite lookup_insert_ne by done. eauto.
  - by apply logs_nil.
Qed.

(** A job disabled after it left the schedule. *)
Lemma good_put_disabled n j w : sound_in w -> view id w.(w_schedule) !! n = None ->
  j.(mj_state) = stateDisabled -> good_in w (put_job n j w).
Proof.
  intros [Hq Hl Hs] Hv Hd. split; [split; [done| |]|].
  - intros n' j'. simpl. intros [[<- <-]|[_ Hn]]%lookup_insert_Some; [done|eauto].
  - intros n' t Hn. simpl in *. rewrite lookup_insert_ne by congruence. eauto.
  - by apply logs_nil.
Qed.

Lemma good_start n j w : sound_in w -> good_in w (start_job n j w).
Proof.
  intros Hw. unfold start_job. eapply good_trans; [by apply (good_put n (set_mj_running true j))|].
  apply good_log; [|done]. by apply (good_put n (set_mj_running true j)).
Qed.

Lemma good_send n j c w : sound_in w -> j.(mj_running) = true -> good_in w (send_ctrl n j c w).
Proof. intros Hw Hr. apply good_log; [done|]. intros n' c' alive [= <- <- <-]. done. Qed.

Lemma good_reschedule t n j w : sound_in w -> w.(w_jobs) !! n = Some j -> j.(mj_running) = true ->
  good_in w (reschedule t n w).
Proof.
  intros [Hq Hl Hs] Hn Hr. destruct (AddJob_spec id t n w.(w_schedule) Hq) as (Hq' & Hv & _).
  split; [split; [done|done|]|].
  - intros n' t'. unfold reschedule. simpl. rewrite Hv.
    intros [[<- <-]|[_ [Hv' _]%map_lookup_filter_Some]]%lookup_insert_Some; [eauto|eauto].
  - by apply logs_nil.
Qed.

(** A late job may be scheduled whatever has become of it. *)
Lemma good_reschedule_late t n w : sound_in w -> n ∈ late -> good_in w (reschedule t n w).
Proof.
  intros [Hq Hl Hs] Hn. destruct (AddJob_spec id t n w.(w_schedule) Hq) as (Hq' & Hv & _).
  split; [split; [done|done|]|].
  - intros n' t'. unfold reschedule. simpl. rewrite Hv.
    intros [[<- <-]|[_ [Hv' _]%map_lookup_filter_Some]]%lookup_insert_Some; [by left|eauto].
  - by apply logs_nil.
Qed.

Lemma good_disable n j w : sound_in w -> w.(w_jobs) !! n = Some j -> good_in w (disableJob n j w).
Proof.
  intros Hw Hn. unfold disableJob. pose proof (good_unschedule n w Hw) as Hu.
  destruct (unschedule_view n w Hw) as [_ Hv]. case_decide as Hd; [|done].
  assert (Hr : j.(mj_running) = true) by by eapply so_loop.
  eapply good_trans; [exact Hu|]. eapply good_trans; [by apply good_send; [apply Hu|]|].
  eapply good_trans; [apply (good_log (AwaitDisabled n)); [by apply good_send; [apply Hu|]|done]|].
  apply good_put_disabled; [|change (view id (w_schedule (unschedule n w)) !! n = None);
    by rewrite Hv, lookup_delete_eq|done].
  apply (good_log (AwaitDisabled n)); [|done]. by apply good_send; [apply Hu|].
Qed.

Lemma good_command cmd w : sound_in w -> good_in w (job_command cmd w).1.
Proof.
  intros Hw. unfold job_command. set (n := wc_MirrorID cmd).
  destruct (w_jobs w !! n) as [job|] eqn:Hn; [|by apply good_refl].
  pose proof (good_unschedule n w Hw) as Hu.
  set (w1 := unschedule n w) in *. assert (Hn1 : w_jobs w1 !! n = Some job) by done.
  destruct (starts (wc_Cmd cmd) && bool_decide (mj_state job = stateDisabled)) eqn:Hst.
  - (* the loop is started first *)
    apply andb_true_iff in Hst as [Hst _].
    assert (Hs1 : good_in w (start_job n job w1)).
    { eapply good_trans; [exact Hu|]. apply good_start, Hu. }
    unfold starts in Hst. destruct (decide (wc_Cmd cmd = CmdStart)) as [|Hc1].
    { eapply good_trans; [exact Hs1|]. by apply good_send; [apply Hs1|]. }
    destruct (decide (wc_Cmd cmd = CmdRestart)) as [|Hc2].
    { eapply good_trans; [exact Hs1|]. by apply good_send; [apply Hs1|]. }
    by rewrite !bool_decide_false in Hst.
  - assert (Halive : mj_state job <> stateDisabled -> mj_running job = true) by by eapply so_loop.
    assert (Hsend : forall c, mj_state job <> stateDisabled -> good_in w (send_ctrl n job c w1)).
    { intros c Hd. eapply good_trans; [exact Hu|]. apply good_send; [apply Hu|auto]. }
    unfold starts in Hst. apply andb_false_iff in Hst.
    destruct (decide (wc_Cmd cmd = CmdStart)) as [Hc|Hc1].
    { apply Hsend. destruct Hst as [Hst|Hst]; [|by apply bool_decide_eq_false in Hst].
      by rewrite bool_decide_true in Hst. }
    destruct (decide (wc_Cmd cmd = CmdRestart)) as [Hc|Hc2].
    { apply Hsend. destruct Hst as [Hst|Hst]; [|by apply bool_decide_eq_false in Hst].
      by rewrite (bool_decide_true (wc_Cmd cmd = CmdRestart)), orb_true_r in Hst. }
    destruct (decide (wc_Cmd cmd = CmdStop)) as [|Hc3].
    { cbn [fst]. destruct (decide (mj_state job <> stateDisabled)) as [Hd|Hd]; [by apply Hsend|exact Hu]. }
    destruct (decide (wc_Cmd cmd = CmdDisable)) as [|Hc4].
    { simpl. eapply good_trans; [exact Hu|]. apply good_disable; [apply Hu|done]. }
    by destruct (decide (wc_Cmd cmd = CmdPing)).
Qed.

Lemma good_delete n w : sound_in w -> view id w.(w_schedule) !! n = None ->
  good_in w (set_w_jobs (delete n w.(w_jobs)) w).
Proof.
  intros [Hq Hl Hs] Hv. split; [split; [done| |]|].
  - intros n' j'. simpl. intros [_ Hn]%lookup_delete_Some. eauto.
  - intros n' t Hn. simpl in *. rewrite lookup_delete_ne by congruence. eauto.
  - by apply logs_nil.
Qed.

(** What [disableJob] leaves. *)
Lemma disableJob_view n j w : sound_in w -> view id (disableJob n j w).(w_schedule) = delete n (view id w.(w_schedule)).
Proof.
  intros Hw. destruct (unschedule_view n w Hw) as [_ Hv]. rewrite <- Hv.
  unfold disableJob. by case_decide.
Qed.

Lemma disableJob_job n j w : w.(w_jobs) !! n = Some j ->
  exists j', (disableJob n j w).(w_jobs) = <[n := j']> w.(w_jobs) /\ j'.(mj_state) = stateDisabled
    /\ j'.(mj_provider) = j.(mj_provider).
Proof.
  intros Hn. unfold disableJob. case_decide as Hd.
  - by exists (set_mj_running false (set_mj_state stateDisabled j)).
  - exists j. simpl. by rewrite insert_id.
Qed.

Lemma good_start_scheduled t n j w : sound_in w -> good_in w (reschedule t n (start_job n j w)).
Proof.
  intros Hw. pose proof (good_start n j w Hw) as Hs. eapply good_trans; [exact Hs|].
  eapply (good_reschedule t n (set_mj_running true j)); [apply Hs| |done]. simpl. by rewrite lookup_insert_eq.
Qed.

Lemma good_change now op w w' : sound_in w -> reload_change now op w = Ret w' -> good_in w w'.
Proof.
  intros Hw. unfold reload_change. set (n := mc_Name (mirCfg op)).
  destruct (w_jobs w !! n) as [job|] eqn:Hn; [|intros [= <-]; by apply good_refl].
  pose proof (good_disable n job w Hw Hn) as Hd. pose proof (disableJob_view n job w Hw) as Hv.
  destruct (disableJob_job n job w Hn) as (job' & Hj & Hst & _).
  assert (Hno : view id (w_schedule (disableJob n job w)) !! n = None) by by rewrite Hv, lookup_delete_eq.
  case_decide as Hc1.
  { intros [= <-]. eapply good_trans; [exact Hd|]. apply good_delete; [apply Hd|done]. }
  case_decide as Hc2; [|intros [= <-]; by apply good_refl].
  destruct (make_provider (mirCfg op)) as [provider|] eqn:Hp; [|done]. simpl.
  rewrite Hj, lookup_insert_eq. simpl. unfold SetProvider.
  rewrite (decide_False (P := _ /\ _)) by (rewrite Hst; tauto).
  case_decide as Hx; [|case_decide as Hx2]; intros [= <-]; (eapply good_trans; [exact Hd|]).
  - apply good_put_disabled; [apply Hd|done|done].
  - apply good_start, Hd.
  - apply good_start_scheduled, Hd.
Qed.

Lemma good_changes clock ops w w' : sound_in w -> reload_changes clock ops w = Ret w' -> good_in w w'.
Proof.
  revert w. induction ops as [|op ops IH]; intros w Hw; simpl; [intros [= <-]; by apply good_refl|].
  case_decide; [by apply IH|]. destruct (reload_change _ op w) as [w1|] eqn:H1; [|done]. simpl. intros H2.
  apply good_change in H1; [|done]. eapply good_trans; [exact H1|]. apply IH; [apply H1|done].
Qed.

Lemma good_adds clock ops w w' : sound_in w -> reload_adds clock ops w = Ret w' -> good_in w w'.
Proof.
  revert w. induction ops as [|op ops IH]; intros w Hw; simpl; [intros [= <-]; by apply good_refl|].
  case_decide; [by apply IH|]. unfold reload_add.
  destruct (make_provider (mirCfg op)) as [p|] eqn:H1; [|done]. simpl. intros H2.
  assert (Hg : good_in w (reschedule (clock (length ops)) (wp_Name p)
    (start_job (wp_Name p) (set_mj_state stateNone (newJob p)) w))) by by apply good_start_scheduled.
  eapply good_trans; [exact Hg|]. apply IH; [apply Hg|done].
Qed.

Lemma good_reload clock1 clock2 new w w' : sound_in w -> ReloadMirrorConfig clock1 clock2 new w ⇓ w' -> good_in w w'.
Proof.
  intros Hw. unfold ReloadMirrorConfig. destruct (diffMirrorConfig _ new) as [d|]; [|done]. simpl.
  destruct (reload_changes clock1 d w) as [w1|] eqn:H1; [|done]. simpl.
  destruct (reload_adds clock2 d w1) as [w2|] eqn:H2; [|done]. intros [= <-].
  apply good_changes in H1; [|done]. apply good_adds in H2; [|apply H1].
  apply (good_trans w w2); [by eapply good_trans|]. destruct H2 as [[Hq Hl Hs] _]. split; [by split|].
  by apply logs_nil.
Qed.

Lemma good_handle doc w : sound_in w -> good_in w (handle_command doc w).1.
Proof.
  intros Hw. unfold handle_command. destruct (unmarshal_WorkerCmd doc WorkerCmd_zero) as [cmd [e|]].
  { by apply good_refl. }
  case_decide; [case_decide|]; [|by apply good_refl|by apply good_command].
  assert (Hl : good_in w (log Sighup w)) by by apply good_log.
  eapply good_trans; [exact Hl|]. apply good_command, Hl.
Qed.

(** Posting to each manager. *)
Lemma posts_log (f : string -> action) rs w :
  foldl (fun w r => log (f r) w) w rs
  = MkWorker w.(w_mirrors) w.(w_jobs) w.(w_schedule) (w.(w_log) ++ (f <$> rs)).
Proof.
  revert w. induction rs as [|r rs IH]; intros w; simpl; [rewrite app_nil_r; by destruct w|].
  rewrite IH. simpl. by rewrite <- app_assoc.
Qed.

Lemma good_posts (f : string -> action) w : sound_in w -> (forall r n c a, f r <> SendCtrl n c a) ->
  good_in w (foldl (fun w r => log (f r) w) w roots).
Proof.
  intros [Hq Hl Hs] Hf. rewrite posts_log. split; [by split|]. exists (f <$> roots). split; [done|].
  apply Forall_fmap, Forall_true. intros r. simpl. specialize (Hf r).
  destruct (f r); try done. by edestruct Hf.
Qed.

Lemma good_updateStatus job m w : sound_in w -> good_in w (updateStatus job m w).
Proof. intros Hw. by apply good_posts. Qed.

Lemma good_updateSchedInfo i w : sound_in w -> good_in w (updateSchedInfo i w).
Proof. intros Hw. by apply good_posts. Qed.

Lemma updateStatus_jobs job m w : (updateStatus job m w).(w_jobs) = w.(w_jobs).
Proof. unfold updateStatus. by rewrite posts_log. Qed.

Lemma good_report now m j w : sound_in w -> w.(w_jobs) !! m.(jm_name) = Some j -> j.(mj_running) = true ->
  good_in w (report_message now m j w).
Proof.
  intros Hw Hn Hr. unfold report_message. pose proof (good_updateStatus j m w Hw) as Hu.
  assert (Hg : good_in w (if jm_schedule m
    then reschedule (now + wp_Interval (mj_provider j)) (jm_name m) (updateStatus j m w) else updateStatus j m w)).
  { destruct (jm_schedule m); [|done]. eapply good_trans; [exact Hu|].
    eapply good_reschedule; [apply Hu| |done]. by rewrite updateStatus_jobs. }
  eapply good_trans; [exact Hg|]. apply good_updateSchedInfo, Hg.
Qed.
End soundness.
Arguments sound_in : clear implicits.
Arguments good_in : clear implicits.

(** When a message is dealt with, or a job popped and started, with nothing in between. *)
Abbreviation sound := (sound_in ∅).
Abbreviation good := (good_in ∅).

Lemma good_message now m w : sound w -> good w (on_job_message now m w).
Proof.
  intros Hw. unfold on_job_message. destruct (w_jobs w !! jm_name m) as [j|] eqn:Hn; [|by apply good_refl].
  case_decide as Hd; [by apply good_refl|]. apply good_report; [done|done|].
  eapply so_loop; [done|done|]. intros Hx. apply Hd. by rewrite Hx.
Qed.

Lemma good_tick now w : sound w -> good w (on_tick now w).
Proof.
  intros Hw. destruct Hw as [Hq Hl Hs]. unfold on_tick.
  pose proof (Pop_spec id now w.(w_schedule) Hq) as HP.
  destruct (Pop id now (w_schedule w)) as [[n|] q]; [|by apply good_refl].
  destruct HP as (t & Hin & _ & _ & Hq' & Hv).
  assert (Hw' : sound (set_w_schedule q w)).
  { split; [done|done|]. intros n' t'. simpl. rewrite Hv. intros [_ Hx]%lookup_delete_Some. eauto. }
  assert (Hg : good w (set_w_schedule q w)).
  { split; [done|]. by apply logs_nil. }
  destruct (Hs n t) as [[]%not_elem_of_empty|(j & Hn & Hr)]; [apply view_lookup; [done|]; by exists n|].
  simpl. rewrite Hn. eapply good_trans; [exact Hg|]. by apply good_send.
Qed.

(** ** Starting *)

(** Sound but for the jobs in [U], whose loops are not started yet. *)
Record sound_but (U : gmap string bool) (w : Worker) : Prop := {
  sb_queue : wf id w.(w_schedule);
  sb_loop : forall n j, U !! n = None -> w.(w_jobs) !! n = Some j -> j.(mj_state) <> stateDisabled ->
    j.(mj_running) = true;
  sb_sched : forall n t, view id w.(w_schedule) !! n = Some t ->
    exists j, w.(w_jobs) !! n = Some j /\ j.(mj_running) = true
}.

Definition good_but (U U' : gmap string bool) (w w' : Worker) : Prop :=
  sound_but U' w' /\ exists acts, logs w w' acts /\ alive_sends acts.

Lemma good_but_trans U1 U2 U3 w1 w2 w3 : good_but U1 U2 w1 w2 -> good_but U2 U3 w2 w3 -> good_but U1 U3 w1 w3.
Proof. intros [_ H1] [Hs H2]. split; [done|]. by eapply logs_app. Qed.

Lemma but_disabled U n j w : sound_but U w -> w.(w_jobs) !! n = Some j ->
  good_but U (delete n U) w (put_job n (set_mj_state stateDisabled j) w).
Proof.
  intros [Hq Hl Hs] Hn. split; [split; [done| |]|].
  - intros n' j'. simpl. rewrite lookup_delete_None.
    intros HU [[<- <-]|[Hne Hj]]%lookup_insert_Some Hd; [done|]. destruct HU; [done|eauto].
  - intros n' t Ht. simpl in *. destruct (Hs n' t Ht) as (j0 & Hj0 & Hr).
    destruct (decide (n = n')) as [->|]; [|rewrite lookup_insert_ne; eauto].
    exists (set_mj_state stateDisabled j). rewrite lookup_insert_eq. split; [done|]. simpl. congruence.
  - by apply logs_nil.
Qed.

Lemma but_start U n j w : sound_but U w -> good_but U (delete n U) w (start_job n j w).
Proof.
  intros [Hq Hl Hs]. split; [split; [done| |]|].
  - intros n' j'. simpl. rewrite lookup_delete_None.
    intros HU [[<- <-]|[Hne Hj]]%lookup_insert_Some Hd; [done|]. destruct HU; [done|eauto].
  - intros n' t Ht. simpl in *. destruct (decide (n = n')) as [->|]; [|rewrite lookup_insert_ne; eauto].
    exists (set_mj_running true j). by rewrite lookup_insert_eq.
  - exists [StartRun n]. split; [done|]. by repeat constructor.
Qed.

Lemma but_start_scheduled U t n j w : sound_but U w ->
  good_but U (delete n U) w (reschedule t n (start_job n j w)).
Proof.
  intros Hw. destruct (but_start U n j w Hw) as [[Hq Hl Hs] Hacts]. split; [|exact Hacts].
  destruct (AddJob_spec id t n w.(w_schedule) Hq) as (Hq' & Hv & _). split; [done|done|].
  intros n' t'. unfold reschedule. simpl. rewrite Hv.
  intros [[<- <-]|[_ [Hv' _]%map_lookup_filter_Some]]%lookup_insert_Some; [|eauto].
  exists (set_mj_running true j). by rewrite lookup_insert_eq.
Qed.

Lemma init_known_good l U w U' w' : sound_but U w -> init_known l U w = (U', w') -> good_but U U' w w'.
Proof.
  revert U w. induction l as [|m l IH]; intros U w Hw; simpl.
  - intros [= <- <-]. split; [done|]. by apply logs_nil.
  - destruct (w_jobs w !! ms_Name m) as [job|] eqn:Hn; [|by apply IH]. intros Hi.
    assert (Hg : good_but U (delete (ms_Name m) U) w (init_one m job w)).
    { unfold init_one. case_decide; [by apply but_disabled|]. case_decide; [by apply but_start|by apply but_start_scheduled]. }
    eapply good_but_trans; [exact Hg|]. apply IH; [apply Hg|done].
Qed.

Lemma init_unset_good clock names U w : sound_but U w -> (forall n, is_Some (U !! n) -> n ∈ names) ->
  good_but U ∅ w (init_unset clock names w).
Proof.
  revert U w. induction names as [|n names IH]; intros U w Hw HU; simpl.
  - assert (U = ∅) as ->.
    { apply map_empty. intros n. destruct (U !! n) eqn:E; [|done]. assert (n ∈ []) by eauto. set_solver. }
    split; [done|]. by apply logs_nil.
  - destruct (w_jobs w !! n) as [job|] eqn:Hn.
    + pose proof (but_start_scheduled U (clock (length names)) n (set_mj_state stateNone job) w Hw) as Hg.
      eapply good_but_trans; [exact Hg|]. apply IH; [apply Hg|].
      intros n' [x [Hne Hx]%lookup_delete_Some]. assert (n' ∈ n :: names) by eauto. set_solver.
    + assert (Hg : good_but U (delete n U) w w).
      { destruct Hw as [Hq Hl Hs]. split; [split; [done| |done]|].
        - intros n' j. rewrite lookup_delete_None. intros [<-|HU'] Hj; [congruence|eauto].
        - by apply logs_nil. }
      eapply good_but_trans; [exact Hg|]. apply IH; [apply Hg|].
      intros n' [x [Hne Hx]%lookup_delete_Some]. assert (n' ∈ n :: names) by eauto. set_solver.
Qed.

Lemma initJobs_loop_parts mirrors w w' : initJobs_loop mirrors w = Ret w' ->
  w'.(w_schedule) = w.(w_schedule) /\ w'.(w_log) = w.(w_log).
Proof.
  revert w. induction mirrors as [|m mirrors IH]; intros w; simpl; [by intros [= <-]|].
  destruct (make_provider m) as [p|]; [|done]. simpl. intros H'. by apply IH in H'.
Qed.

(** [NewTUNASyncWorker], then [runSchedule] up to its loop. *)
Definition newWorker (mirrors : list mirrorConfig) : Worker := MkWorker mirrors ∅ newScheduleQueue [].

Definition start_worker (clock : nat -> Z) (mirrorList : list MirrorStatus) (mirrors : list mirrorConfig)
    : comp Worker :=
  w ← initJobs (newWorker mirrors);
  let w := init_schedule clock mirrorList w in
  Ret (updateSchedInfo (GetJobs id w.(w_schedule)) w).

(** Whatever the manager knows, the first schedule leaves a sound worker. *)
Lemma init_schedule_good clock mirrorList w : wf id w.(w_schedule) -> view id w.(w_schedule) = ∅ ->
  good w (init_schedule clock mirrorList w).
Proof.
  intros Hq Hv. unfold init_schedule. set (U := (fun _ => true) <$> w_jobs w).
  assert (Hw1 : sound_but U w).
  { split; [done| |].
    - intros n j HU Hj. unfold U in HU. by rewrite lookup_fmap, Hj in HU.
    - intros n t. by rewrite Hv, lookup_empty. }
  destruct (init_known mirrorList U w) as [U' w2] eqn:H2.
  pose proof (init_known_good _ _ _ _ _ Hw1 H2) as G1.
  assert (G2 : good_but U' ∅ w2 (init_unset clock (range_list U').*1 w2)).
  { apply init_unset_good; [apply G1|]. intros n [x Hx]. apply elem_of_range in Hx.
    by apply (list_elem_of_fmap_2 fst) in Hx. }
  pose proof (good_but_trans _ _ _ _ _ _ G1 G2) as [[Gq Gl Gs] Hacts].
  split; [|done]. split; [done|intros n j; by apply Gl|]. intros n t Ht. right. by eapply Gs.
Qed.

Lemma start_worker_good clock mirrorList mirrors w :
  start_worker clock mirrorList mirrors ⇓ w -> sound w /\ alive_sends w.(w_log).
Proof.
  unfold start_worker, initJobs. cbn [w_mirrors newWorker].
  destruct (initJobs_loop mirrors _) as [w1|] eqn:H1; [|done]. simpl. intros [= <-].
  apply initJobs_loop_parts in H1 as [Hq Hl].
  destruct (init_schedule_good clock mirrorList w1) as [S3 (acts & Ha & Fa)];
    [rewrite Hq; apply new_wf|rewrite Hq; apply new_view|].
  set (w3 := init_schedule clock mirrorList w1) in *.
  destruct (good_updateSchedInfo (GetJobs id (w_schedule w3)) w3 S3) as [S4 (acts' & Ha' & Fa')].
  split; [done|]. rewrite Ha', Ha, Hl. by apply Forall_app.
Qed.

(** ** The running worker

    The control server and the reload work under the lock [w.L], the schedule loop only looks
    jobs up under it: between the look-up and what it does with the job a handler may run.
    [phase] is where the loop is in its [select], with the name of the job whose pointer it
    holds and whether that job has left [w.jobs] since. *)
Inductive phase : Type :=
| Waiting
| Found (m : jobMessage) (out : bool)
| Passed (m : jobMessage) (out : bool)
| Posted (m : jobMessage) (out : bool)
| Scheduled
| Popped (n : string) (out : bool).

(** [r_late]: the names of the jobs a handler disabled or removed while the loop held them. *)
Record running : Type := MkRunning {
  r_worker : Worker;
  r_phase : phase;
  r_late : gset string
}.

Definition held (ph : phase) : option (string * bool) :=
  match ph with
  | Waiting | Scheduled => None
  | Found m out | Passed m out | Posted m out => Some (m.(jm_name), out)
  | Popped n out => Some (n, out)
  end.

Definition set_out (out : bool) (ph : phase) : phase :=
  match ph with
  | Waiting | Scheduled => ph
  | Found m _ => Found m out
  | Passed m _ => Passed m out
  | Posted m _ => Posted m out
  | Popped n _ => Popped n out
  end.

Definition present (n : string) (w : Worker) : bool := match w.(w_jobs) !! n with Some _ => true | None => false end.
Definition has_loop (n : string) (w : Worker) : bool :=
  match w.(w_jobs) !! n with Some j => j.(mj_running) | None => false end.

(** A handler that disabled the job on its way, or left it without its loop, or removed it. *)
Definition taken (n : string) (w w' : Worker) : bool :=
  existsb (fun a => match a with AwaitDisabled n' => bool_decide (n' = n) | _ => false end)
    (drop (length w.(w_log)) w'.(w_log))
  || (has_loop n w && negb (has_loop n w')) || (present n w && negb (present n w')).

Definition handled (w' : Worker) (r : running) : running :=
  match held r.(r_phase) with
  | None => MkRunning w' r.(r_phase) r.(r_late)
  | Some (n, out) =>
      MkRunning w' (set_out (out || negb (present n w')) r.(r_phase))
        (if taken n r.(r_worker) w' then {[n]} ∪ r.(r_late) else r.(r_late))
  end.

(** More loops of the job have been started than disabled. *)
Definition spare_loop (n : string) (w : Worker) : bool :=
  let count f := length (filter (fun a => f a = true) w.(w_log)) in
  (count (fun a => match a with AwaitDisabled n' => bool_decide (n' = n) | _ => false end)
   <? count (fun a => match a with StartRun n' => bool_decide (n' = n) | _ => false end))%nat.

(** What the loop reads through the pointer it holds: the job of that name, or [j] once that
    job has left the map. *)
Definition read (n : string) (out : bool) (j : mirrorJob) (w : Worker) : option mirrorJob :=
  if out then Some j else w.(w_jobs) !! n.

(** The steps: the two handlers; a loop of a job setting the state of its job, to anything
    but Disabled while it runs, or the size; and those of the schedule loop. *)
Inductive run_event : Type :=
| EvCommand (doc : json)
| EvReload (clock1 clock2 : nat -> Z) (new : list mirrorConfig)
| EvLoop (n : string) (x : Z) (size : string)
| EvReceive (m : jobMessage)
| EvCheck (j : mirrorJob)
| EvPost (j : mirrorJob)
| EvSchedule (now : Z) (j : mirrorJob)
| EvList
| EvPop (now : Z) (out : bool)
| EvSend (alive : bool).

Definition run_step (ev : run_event) (r : running) : option running :=
  let w := r.(r_worker) in
  let goto w ph := Some (MkRunning w ph r.(r_late)) in
  match ev, r.(r_phase) with
  | EvCommand doc, _ => Some (handled (handle_command doc w).1 r)
  | EvReload clock1 clock2 new, _ =>
      match ReloadMirrorConfig clock1 clock2 new w with
      | Ret w' => Some (handled w' r)
      | Panic _ => None
      end
  | EvLoop n x size, ph =>
      j ← w.(w_jobs) !! n;
      if (j.(mj_running) || spare_loop n w) && negb (bool_decide (x = stateDisabled))
      then goto (put_job n (MkMirrorJob j.(mj_provider) x size true) w) ph else None
  | EvReceive m, Waiting =>
      match w.(w_jobs) !! m.(jm_name) with
      | None => goto w Waiting
      | Some _ => goto w (Found m false)
      end
  | EvCheck j, Found m out =>
      job ← read m.(jm_name) out j w;
      if decide (job.(mj_state) <> stateReady /\ job.(mj_state) <> stateHalting)
      then goto w Waiting else goto w (Passed m out)
  | EvPost j, Passed m out =>
      job ← read m.(jm_name) out j w;
      goto (updateStatus job m w) (Posted m out)
  | EvSchedule now j, Posted m out =>
      job ← read m.(jm_name) out j w;
      goto (if m.(jm_schedule) then reschedule (now + wp_Interval job.(mj_provider)) m.(jm_name) w else w)
        Scheduled
  | EvList, Scheduled => goto (updateSchedInfo (GetJobs id w.(w_schedule)) w) Waiting
  | EvPop now out, Waiting =>
      match Pop id now w.(w_schedule) with
      | (Some n, q) =>
          (* the entry of a late job may be that of a job no longer in the map *)
          if negb out || bool_decide (n ∈ r.(r_late)) then goto (set_w_schedule q w) (Popped n out) else None
      | (None, _) => goto w Waiting
      end
  | EvSend alive, Popped n out =>
      (* nor is it told whether a late job still has its loop *)
      if bool_decide (n ∈ r.(r_late)) || (negb out && Bool.eqb alive (has_loop n w))
      then goto (log (SendCtrl n jobStart alive) w) Waiting else None
  | _, _ => None
  end.

Fixpoint run_steps (evs : list run_event) (r : running) : option running :=
  match evs with
  | [] => Some r
  | ev :: evs => r ← run_step ev r; run_steps evs r
  end.

(** With nothing in between, a message is dealt with and a job popped as
    [on_job_message] and [on_tick] say. *)
Lemma message_uninterrupted now m w late j :
  w.(w_jobs) !! m.(jm_name) = Some j -> j.(mj_state) = stateReady \/ j.(mj_state) = stateHalting ->
  run_steps [EvReceive m; EvCheck j; EvPost j; EvSchedule now j; EvList] (MkRunning w Waiting late)
  = Some (MkRunning (on_job_message now m w) Waiting late).
Proof.
  intros Hn Hs. unfold on_job_message. rewrite Hn, decide_False by tauto.
  simpl. rewrite Hn. simpl. rewrite Hn. simpl. rewrite decide_False by tauto. simpl. rewrite Hn. simpl.
  rewrite updateStatus_jobs, Hn. done.
Qed.

Lemma tick_uninterrupted now w late n q j :
  Pop id now w.(w_schedule) = (Some n, q) -> w.(w_jobs) !! n = Some j ->
  run_steps [EvPop now false; EvSend j.(mj_running)] (MkRunning w Waiting late)
  = Some (MkRunning (on_tick now w) Waiting late).
Proof.
  intros Hp Hn. unfold on_tick. rewrite Hp. simpl. rewrite Hp. simpl. unfold has_loop. simpl. rewrite Hn.
  by rewrite Bool.eqb_reflx, orb_true_r.
Qed.

(** *** What every step keeps *)

(** A control action goes to a job with a loop, or it is the start of a late job. *)
Definition send_ok (late : gset string) (a : action) : Prop :=
  match a with
  | SendCtrl n c alive => alive = true \/ (c = jobStart /\ n ∈ late)
  | _ => True
  end.

(** The job held is late, or still in the map; and once its state has been checked, or it has
    been popped, it has its loop. *)
Definition held_ok (r : running) : Prop :=
  match held r.(r_phase) with
  | None => True
  | Some (n, out) => n ∈ r.(r_late)
      \/ (out = false /\ present n r.(r_worker) = true
          /\ match r.(r_phase) with Found _ _ => True | _ => has_loop n r.(r_worker) = true end)
  end.

Record running_ok (r : running) : Prop := {
  ro_sound : sound_in r.(r_late) r.(r_worker);
  ro_held : held_ok r;
  ro_log : Forall (send_ok r.(r_late)) r.(r_worker).(w_log)
}.

Lemma sound_in_mono late late' w : late ⊆ late' -> sound_in late w -> sound_in late' w.
Proof. intros Hl [Hq Hlp Hs]. split; [done|done|]. intros n t Ht. destruct (Hs n t Ht); auto. Qed.

Lemma send_ok_mono late late' l : late ⊆ late' -> Forall (send_ok late) l -> Forall (send_ok late') l.
Proof.
  intros Hl Hf. eapply Forall_impl; [exact Hf|]. intros a Ha. destruct a; try done. destruct Ha as [|[? ?]]; [by left|right; auto].
Qed.

Lemma log_good late w w' : good_in late w w' -> Forall (send_ok late) w.(w_log) -> Forall (send_ok late) w'.(w_log).
Proof.
  intros [_ (acts & Ha & Fa)] Hf. rewrite Ha. apply Forall_app. split; [done|].
  eapply Forall_impl; [exact Fa|]. intros a. destruct a; try done. by left.
Qed.

Lemma handled_ok r w' : good_in r.(r_late) r.(r_worker) w' -> running_ok r -> running_ok (handled w' r).
Proof.
  intros Hg [_ Hh Hf]. pose proof (log_good _ _ _ Hg Hf) as Hf'. destruct Hg as [Hs _].
  unfold handled. unfold held_ok in Hh. destruct (held (r_phase r)) as [[n out]|] eqn:E.
  2: { split; [done| |done]. unfold held_ok. simpl. by rewrite E. }
  set (late := if taken _ _ _ then _ else _). assert (Hsub : r_late r ⊆ late).
  { unfold late. destruct (taken _ _ _); set_solver. }
  split; simpl; [by eapply sound_in_mono| |by eapply send_ok_mono].
  assert (E' : forall o, held (set_out o (r_phase r)) = Some (n, o))
    by (intros o; destruct (r_phase r); simpl in *; congruence).
  unfold held_ok. simpl. rewrite E'. destruct Hh as [Hin|(-> & Hp & Hl)]; [left; auto|].
  destruct (taken n (r_worker r) w') eqn:Ht; [left; unfold late; set_solver|right].
  unfold taken in Ht. rewrite Hp in Ht. apply orb_false_iff in Ht as [Ht Hpr]. simpl in Hpr.
  apply negb_false_iff in Hpr. rewrite Hpr. split_and!; [done|done|].
  apply orb_false_iff in Ht as [_ Ht].
  destruct (r_phase r); simpl in *; try done; rewrite Hl in Ht; by apply negb_false_iff in Ht.
Qed.

(** A step that goes on from a held job, or to a phase that holds none. *)
Lemma step_ok r w' ph : running_ok r -> good_in r.(r_late) r.(r_worker) w' ->
  held_ok (MkRunning w' ph r.(r_late)) -> running_ok (MkRunning w' ph r.(r_late)).
Proof. intros [_ _ Hf] Hg Hh. split; [apply Hg|done|by eapply log_good]. Qed.

Lemma run_step_ok ev r r' : run_step ev r = Some r' -> running_ok r -> running_ok r'.
Proof.
  intros He Hr. pose proof Hr as [Hs Hh Hf]. destruct r as [w ph late]. simpl in Hs, Hf.
  destruct ev as [doc|clock1 clock2 new|n x size|m|j|j|now j| |now out|alive]; cbn [run_step r_worker r_phase r_late] in He.
  - injection He as <-. apply handled_ok; [by apply good_handle|done].
  - destruct (ReloadMirrorConfig _ _ _ w) as [w'|] eqn:E; [|done]. injection He as <-.
    apply handled_ok; [by eapply good_reload|done].
  - destruct (w_jobs w !! n) as [j|] eqn:Hn; [|done]. simpl in He.
    destruct (_ && _); [|done]. injection He as <-.
    apply (step_ok (MkRunning w ph late)); [done|by apply good_put|].
    unfold held_ok in *. simpl in *. destruct (held ph) as [[n' out]|]; [|done].
    destruct Hh as [|(Ho & Hp & Hl)]; [by left|right]. split_and!; [done| |].
    + unfold present in *. simpl. destruct (decide (n = n')) as [->|];
        [by rewrite lookup_insert_eq|by rewrite lookup_insert_ne].
    + destruct ph; try done; unfold has_loop in *; simpl;
        (destruct (decide (n = n')) as [->|]; [by rewrite lookup_insert_eq|by rewrite lookup_insert_ne]).
  - destruct ph; try done. destruct (w_jobs w !! jm_name m) as [j|] eqn:Hn; injection He as <-; [|done].
    apply (step_ok (MkRunning w Waiting late)); [done|by apply good_refl|]. right. unfold present. simpl. by rewrite Hn.
  - destruct ph as [|m out| | | |]; try done. destruct (read _ _ _ _) as [job|] eqn:Hj; [|done]. simpl in He.
    destruct (decide _) as [Hst|Hst] in He; injection He as <-;
      (apply (step_ok (MkRunning w (Found m out) late)); [done|by apply good_refl|]); [done|].
    unfold held_ok in *. simpl in *. destruct Hh as [|(-> & Hp & _)]; [by left|right]. split_and!; [done|done|].
    simpl in Hj. unfold has_loop. rewrite Hj. eapply (so_loop _ Hs); [exact Hj|].
    intros Hd. apply Hst. by rewrite Hd.
  - destruct ph as [| |m out| | |]; try done. destruct (read _ _ _ _) as [job|] eqn:Hj; [|done]. simpl in He.
    injection He as <-. apply (step_ok (MkRunning w (Passed m out) late)); [done|by apply good_updateStatus|].
    unfold held_ok, present, has_loop in *. simpl in *. by rewrite updateStatus_jobs.
  - destruct ph as [| | |m out| |]; try done. destruct (read _ _ _ _) as [job|] eqn:Hj; [|done]. simpl in He.
    injection He as <-. apply (step_ok (MkRunning w (Posted m out) late)); [done| |done].
    destruct (jm_schedule m); [|by apply good_refl]. unfold held_ok in Hh. simpl in Hh.
    destruct Hh as [Hin|(-> & Hp & Hl)]; [by apply good_reschedule_late|].
    simpl in Hj. unfold has_loop in Hl. rewrite Hj in Hl. by eapply good_reschedule.
  - destruct ph; try done. injection He as <-.
    apply (step_ok (MkRunning w Scheduled late)); [done|by apply good_updateSchedInfo|done].
  - destruct ph; try done. pose proof (Pop_spec id now w.(w_schedule) (so_queue _ Hs)) as HP.
    destruct (Pop id now (w_schedule w)) as [[n|] q]; [|by injection He as <-].
    destruct (negb out || _) eqn:Ho; [|done]. injection He as <-.
    destruct HP as (t & Hin & _ & _ & Hq' & Hv).
    apply (step_ok (MkRunning w Waiting late)); [done| |].
    + split; [|by apply logs_nil]. destruct Hs as [Hq Hl Hsc]. split; [done|done|].
      intros n' t'. simpl. rewrite Hv. intros [_ Hx]%lookup_delete_Some. eauto.
    + unfold held_ok. simpl. destruct (so_sched _ Hs n t) as [Hin'|(j & Hn & Hj)];
        [apply view_lookup; [apply Hs|]; by exists n|by left|].
      apply orb_true_iff in Ho as [Ho|Ho%bool_decide_eq_true]; [right|by left].
      unfold present, has_loop. simpl. rewrite Hn. by destruct out.
  - destruct ph as [| | | | |n out]; try done. destruct (_ || _) eqn:Ha; [|done]. injection He as <-.
    split; simpl; [destruct Hs; by split|done|]. apply Forall_app. split; [done|].
    constructor; [|constructor]. simpl. unfold held_ok in Hh. simpl in Hh.
    destruct (decide (n ∈ late)) as [Hin|Hin]; [|left]; [|].
    { destruct alive; [by left|by right]. }
    destruct Hh as [|(-> & _ & Hl)]; [done|]. rewrite bool_decide_false in Ha by done. simpl in Ha.
    rewrite Hl in Ha. by apply Bool.eqb_prop in Ha.
Qed.

(** C2: whatever commands, reloads, job messages and ticks a started worker handles, in any
    order, between any steps of the loops of its jobs, and with the handlers coming between
    any two steps the schedule loop makes outside the lock: every job that is not disabled
    has its loop; every job in the schedule has its loop, and a control action is only sent
    to a job with a loop to receive it, but for the late jobs, those a handler disabled or
    removed while the schedule loop held them. To one of these, only a start is sent in
    vain. *)
Theorem worker_stays_sound clock mirrorList mirrors w evs r :
  start_worker clock mirrorList mirrors ⇓ w ->
  run_steps evs (MkRunning w Waiting ∅) = Some r ->
  (forall n j, r.(r_worker).(w_jobs) !! n = Some j -> j.(mj_state) <> stateDisabled -> j.(mj_running) = true)
  /\ (forall n t, view id r.(r_worker).(w_schedule) !! n = Some t -> n ∉ r.(r_late) -> has_loop n r.(r_worker) = true)
  /\ (forall n c, SendCtrl n c false ∈ r.(r_worker).(w_log) -> c = jobStart /\ n ∈ r.(r_late)).
Proof.
  intros [Hw Hlog]%start_worker_good Hr.
  assert (H0 : running_ok (MkRunning w Waiting ∅)).
  { split; [done|done|]. simpl. eapply Forall_impl; [exact Hlog|]. intros a. destruct a; try done. by left. }
  assert (Hall : forall evs r, running_ok r -> forall r', run_steps evs r = Some r' -> running_ok r').
  { clear. induction evs as [|ev evs IH]; intros r Hr r'; simpl; [by intros [= <-]|].
    destruct (run_step ev r) as [r1|] eqn:E; [|done]. simpl. apply IH. by eapply run_step_ok. }
  destruct (Hall _ _ H0 _ Hr) as [Hs _ Hf]. split_and!.
  - apply Hs.
  - intros n t Ht Hn. destruct (so_sched _ Hs n t Ht) as [|(j & Hj & Hj')]; [done|]. unfold has_loop. by rewrite Hj.
  - intros n c Hin. rewrite Forall_forall in Hf. by destruct (Hf _ Hin).
Qed.

(** ** Reloading, by name

    A provider bears the name of its mirror, and those of the new configuration are made
    without failing. *)
Context (provider_named : forall m p, make_provider m = Ret p -> wp_Name p = mc_Name m).
Context (provider_of : mirrorConfig -> P).

Definition built (m : mirrorConfig) : Prop := make_provider m = Ret (provider_of m).

(** A job given a new provider: it keeps being disabled or paused, otherwise it starts
    over. *)
Definition modified (p : P) (j : mirrorJob) : mirrorJob :=
  if decide (j.(mj_state) = stateDisabled) then MkMirrorJob p stateDisabled j.(mj_size) j.(mj_running)
  else MkMirrorJob p (if decide (j.(mj_state) = statePaused) then statePaused else stateNone) j.(mj_size) true.

Definition added (m : mirrorConfig) : mirrorJob := set_mj_running true (newJob (provider_of m)).

Definition op_job (t : mirrorCfgTrans) (j : option mirrorJob) : option mirrorJob :=
  if decide (t.(diffOp) = diffAdd) then Some (added t.(mirCfg))
  else if decide (t.(diffOp) = diffDelete) then None
  else if decide (t.(diffOp) = diffModify) then modified (provider_of t.(mirCfg)) <$> j
  else j.

(** What a reload makes of the job of one name, from the entry of that name in the old
    configuration and in the new one. *)
Definition reload_job (o n : option mirrorConfig) (j : option mirrorJob) : option mirrorJob :=
  match o, n with
  | Some _, None => None
  | None, Some m => Some (added m)
  | Some m0, Some m => if decide (m0 = m) then j else modified (provider_of m) <$> j
  | None, None => j
  end.

Abbreviation op_name t := (mc_Name t.(mirCfg)).

Lemma reload_change_lookup now t w : t.(diffOp) <> diffAdd ->
  (t.(diffOp) <> diffDelete -> built t.(mirCfg)) ->
  exists w', reload_change now t w = Ret w'
    /\ w'.(w_jobs) !! op_name t = op_job t (w.(w_jobs) !! op_name t)
    /\ forall n, n <> op_name t -> w'.(w_jobs) !! n = w.(w_jobs) !! n.
Proof.
  intros Hadd Hb. unfold reload_change, op_job. rewrite decide_False by done. set (n := op_name t).
  destruct (w_jobs w !! n) as [job|] eqn:Hn.
  2: { exists w. split_and!; [done| |done]. rewrite Hn. by repeat case_decide. }
  destruct (disableJob_job n job w Hn) as (job' & Hj & Hst & Hp).
  assert (Hj' : job' = MkMirrorJob (mj_provider job) stateDisabled (mj_size job)
    (if decide (mj_state job = stateDisabled) then mj_running job else false)).
  { unfold disableJob in Hj. apply (f_equal (.!! n)) in Hj. rewrite lookup_insert_eq in Hj.
    destruct (decide (mj_state job <> stateDisabled)) as [Hd|Hd%dec_stable]; simpl in Hj.
    - rewrite lookup_insert_eq in Hj. injection Hj as <-. by rewrite decide_False.
    - rewrite Hn in Hj. injection Hj as <-. rewrite decide_True by done. rewrite <- Hd. by destruct job. }
  destruct (decide (diffOp t = diffDelete)) as [Hd|Hd].
  { eexists. split; [done|]. simpl. rewrite lookup_delete_eq, Hj. split; [done|]. intros n' Hne.
    by rewrite lookup_delete_ne, lookup_insert_ne. }
  destruct (decide (diffOp t = diffModify)) as [Hm|Hm]; [|by exists w].
  rewrite (Hb Hd). simpl. rewrite Hj, lookup_insert_eq. simpl. unfold SetProvider.
  rewrite (decide_False (P := _ /\ _)) by (rewrite Hst; tauto). unfold modified. subst job'.
  assert (Hput : forall x (f : gmap string mirrorJob), (forall n', n' <> n -> f !! n' = w_jobs w !! n') ->
    forall n', n' <> n -> <[n := x]> f !! n' = w_jobs w !! n').
  { intros x f Hf n' Hne. rewrite lookup_insert_ne by done. by apply Hf. }
  destruct (decide (mj_state job = stateDisabled)) as [Hd1|Hd1];
    [|destruct (decide (mj_state job = statePaused)) as [Hd2|Hd2]];
    (eexists; split; [done|]); simpl; rewrite lookup_insert_eq; (split; [done|]);
    apply Hput; rewrite Hj; apply Hput; done.
Qed.

Lemma reload_changes_lookup clock ops w : NoDup ((fun t => op_name t) <$> ops) ->
  (forall t, t ∈ ops -> t.(diffOp) <> diffDelete -> built t.(mirCfg)) ->
  exists w', reload_changes clock ops w = Ret w'
    /\ (forall t, t ∈ ops -> t.(diffOp) <> diffAdd ->
          w'.(w_jobs) !! op_name t = op_job t (w.(w_jobs) !! op_name t))
    /\ (forall n, (forall t, t ∈ ops -> t.(diffOp) <> diffAdd -> op_name t <> n) ->
          w'.(w_jobs) !! n = w.(w_jobs) !! n).
Proof.
  revert w. induction ops as [|t ops IH]; intros w Hnd Hb; simpl.
  { exists w. split_and!; [done| |done]. by intros t ?%elem_of_nil. }
  rewrite fmap_cons in Hnd. apply NoDup_cons in Hnd as [Ht Hnd].
  assert (Hb' : forall t, t ∈ ops -> diffOp t <> diffDelete -> built (mirCfg t)) by (intros; apply Hb; [by right|done]).
  assert (Hfresh : forall t', t' ∈ ops -> op_name t' <> op_name t).
  { intros t' Hin He. apply Ht. rewrite <- He. by apply (list_elem_of_fmap_2 (fun t => op_name t)). }
  case_decide as Hadd.
  - destruct (IH w Hnd Hb') as (w' & He & Hin & Hout). exists w'. split_and!; [done| |].
    + intros t' [->|Hx]%elem_of_cons; [done|by apply Hin].
    + intros n Hn. apply Hout. intros t' Hx. apply Hn. by right.
  - destruct (reload_change_lookup (clock (length ops)) t w Hadd (Hb t ltac:(by left))) as (w1 & -> & Hs & Ho). simpl.
    destruct (IH w1 Hnd Hb') as (w' & He & Hin & Hout). exists w'. split_and!; [done| |].
    + intros t' [->|Hx]%elem_of_cons Ha.
      * rewrite Hout; [done|]. intros t' Hx _. by apply Hfresh.
      * rewrite Hin, Ho; [done|by apply Hfresh|done|done].
    + intros n Hn. rewrite Hout, Ho; [done| |].
      * intros ->. apply (Hn t); [by left|done..].
      * intros t' Hx. apply Hn. by right.
Qed.

Lemma reload_adds_lookup clock ops w : NoDup ((fun t => op_name t) <$> ops) ->
  (forall t, t ∈ ops -> t.(diffOp) <> diffDelete -> built t.(mirCfg)) ->
  exists w', reload_adds clock ops w = Ret w'
    /\ (forall t, t ∈ ops -> t.(diffOp) = diffAdd ->
          w'.(w_jobs) !! op_name t = op_job t (w.(w_jobs) !! op_name t))
    /\ (forall n, (forall t, t ∈ ops -> t.(diffOp) = diffAdd -> op_name t <> n) ->
          w'.(w_jobs) !! n = w.(w_jobs) !! n).
Proof.
  revert w. induction ops as [|t ops IH]; intros w Hnd Hb; simpl.
  { exists w. split_and!; [done| |done]. by intros t ?%elem_of_nil. }
  rewrite fmap_cons in Hnd. apply NoDup_cons in Hnd as [Ht Hnd].
  assert (Hb' : forall t, t ∈ ops -> diffOp t <> diffDelete -> built (mirCfg t)) by (intros; apply Hb; [by right|done]).
  assert (Hfresh : forall t', t' ∈ ops -> op_name t' <> op_name t).
  { intros t' Hin He. apply Ht. rewrite <- He. by apply (list_elem_of_fmap_2 (fun t => op_name t)). }
  destruct (decide (diffOp t <> diffAdd)) as [Hadd|Hadd%dec_stable].
  - destruct (IH w Hnd Hb') as (w' & He & Hin & Hout). exists w'. split_and!; [done| |].
    + intros t' [->|Hx]%elem_of_cons; [done|by apply Hin].
    + intros n Hn. apply Hout. intros t' Hx. apply Hn. by right.
  - unfold reload_add.
    assert (Hbt : built (mirCfg t)) by (apply Hb; [by left|by rewrite Hadd]).
    rewrite Hbt. simpl. rewrite (provider_named (mirCfg t)) by done.
    match goal with |- exists w', reload_adds _ _ ?x = _ /\ _ => set (w1 := x) end.
    assert (Hs : w_jobs w1 = <[op_name t := added (mirCfg t)]> (w_jobs w)) by done.
    destruct (IH w1 Hnd Hb') as (w' & He & Hin & Hout). exists w'. split_and!; [done| |].
    + intros t' [->|Hx]%elem_of_cons Ha.
      * rewrite Hout, Hs, lookup_insert_eq; [|intros t' Hx _; by apply Hfresh].
        unfold op_job. by rewrite decide_True.
      * rewrite Hin, Hs, lookup_insert_ne; [done|by apply not_eq_sym, Hfresh|done|done].
    + intros n Hn. rewrite Hout, Hs, lookup_insert_ne; [done| |].
      * apply (Hn t); [by left|done..].
      * intros t' Hx. apply Hn. by right.
Qed.

Lemma reload_lookup clock1 clock2 new w :
  distinct_names w.(w_mirrors) -> distinct_names new ->
  (forall m, m ∈ w.(w_mirrors) \/ m ∈ new -> plain (mc_Name m) = true) ->
  (forall m, m ∈ new -> built m) ->
  exists w' (ops : list mirrorCfgTrans), ReloadMirrorConfig clock1 clock2 new w ⇓ w' /\ w'.(w_mirrors) = new
    /\ (forall t, t ∈ ops <-> wanted w.(w_mirrors) new t)
    /\ (forall t, t ∈ ops -> w'.(w_jobs) !! op_name t = op_job t (w.(w_jobs) !! op_name t))
    /\ (forall n, (forall t, t ∈ ops -> op_name t <> n) -> w'.(w_jobs) !! n = w.(w_jobs) !! n).
Proof.
  intros Hdo Hdn Hp Hnew. destruct (diff_spec _ new Hdo Hdn Hp) as (ops & He & Hw & Hnd).
  unfold ReloadMirrorConfig. rewrite He. simpl.
  assert (Hb : forall t, t ∈ ops -> diffOp t <> diffDelete -> built (mirCfg t)).
  { intros t Ht%Hw Hd. apply Hnew. destruct Ht as [(? & _)|[(_ & Hm & _)|(_ & Hm & _)]]; done. }
  destruct (reload_changes_lookup clock1 ops w Hnd Hb) as (w1 & -> & Hin1 & Hout1). simpl.
  destruct (reload_adds_lookup clock2 ops w1 Hnd Hb) as (w2 & -> & Hin2 & Hout2). simpl.
  eexists _, ops. split_and!; [done|done|done| |]; simpl.
  - intros t Ht.
    assert (Hsame : forall t', t' ∈ ops -> op_name t' = op_name t -> t' = t).
    { intros t' Ht' E. by apply (NoDup_fmap_unique (fun t => op_name t) ops). }
    destruct (decide (diffOp t = diffAdd)) as [Ha|Ha].
    + rewrite Hin2, Hout1; [done| |done|done]. intros t' Ht' Ha' E. by rewrite (Hsame t') in Ha'.
    + rewrite Hout2, Hin1; [done|done|done|]. intros t' Ht' Ha' E. by rewrite (Hsame t') in Ha'.
  - intros n Hn. rewrite Hout2, Hout1; [done| |]; intros t Ht _; by apply Hn.
Qed.

(** The job of each name after a reload. *)
Lemma reload_jobs clock1 clock2 new w :
  distinct_names w.(w_mirrors) -> distinct_names new ->
  (forall m, m ∈ w.(w_mirrors) \/ m ∈ new -> plain (mc_Name m) = true) ->
  (forall m, m ∈ new -> built m) ->
  exists w', ReloadMirrorConfig clock1 clock2 new w ⇓ w' /\ w'.(w_mirrors) = new
    /\ forall n, w'.(w_jobs) !! n
         = reload_job (by_name w.(w_mirrors) !! n) (by_name new !! n) (w.(w_jobs) !! n).
Proof.
  intros Hdo Hdn Hp Hb. destruct (reload_lookup clock1 clock2 new w Hdo Hdn Hp Hb) as (w' & ops & -> & Hm & Hw & Hin & Hout).
  exists w'. split_and!; [done|done|]. intros n.
  assert (Hop : forall op m, mc_Name m = n -> wanted (w_mirrors w) new (MkTrans op m) ->
    w_jobs w' !! n = op_job (MkTrans op m) (w_jobs w !! n)).
  { intros op m <- Hwant. apply Hw in Hwant. exact (Hin (MkTrans op m) Hwant). }
  destruct (by_name (w_mirrors w) !! n) as [m0|] eqn:E0, (by_name new !! n) as [m1|] eqn:E1; simpl.
  - apply by_name_lookup in E0 as [Hm0 Hn0], E1 as [Hm1 Hn1]; try done.
    destruct (decide (m0 = m1)) as [->|Hne].
    + apply Hout. intros [op m] Ht%Hw Hn. simpl in Hn. unfold wanted in Ht. simpl in Ht.
      destruct Ht as [(_ & _ & Hno)|[(_ & _ & Hno)|(_ & Hm' & x & Hx & Hxn & Hxm)]].
      * apply (Hno m1 Hm1). congruence.
      * apply (Hno m1 Hm0). congruence.
      * apply Hxm. transitivity m1; [|symmetry].
        -- apply (by_name_unique (w_mirrors w)); [done..|congruence].
        -- apply (by_name_unique new); [done..|congruence].
    + apply (Hop diffModify m1); [done|]. right. right. split_and!; [done|done|]. simpl. exists m0. split_and!; congruence.
  - apply by_name_lookup in E0 as [Hm0 Hn0]; [|done]. rewrite by_name_none in E1.
    rewrite (Hop diffDelete m0); [done|done|]. left. split_and!; [done|done|]. simpl. rewrite Hn0. done.
  - apply by_name_lookup in E1 as [Hm1 Hn1]; [|done]. rewrite by_name_none in E0.
    apply (Hop diffAdd m1); [done|]. right. left. split_and!; [done|done|]. simpl. rewrite Hn1. done.
  - rewrite by_name_none in E0, E1. apply Hout. intros [op m] Ht%Hw Hn. simpl in Hn.
    apply wanted_in in Ht as [Ht|Ht]; simpl in Ht; [by apply (E0 m)|by apply (E1 m)].
Qed.

(** C26: a reload, by name. It always succeeds on configurations without repeated names,
    all in printable ASCII, whose
    providers can be made; afterwards the new configuration is in force, and the job of
    each name is as follows: gone when its mirror is, fresh and running when its mirror is
    new, untouched when its mirror did not change, and otherwise given the new provider
    and restarted, unless it was disabled or paused, which it stays. *)
Theorem reload_by_name clock1 clock2 new w :
  distinct_names w.(w_mirrors) -> distinct_names new ->
  (forall m, m ∈ w.(w_mirrors) \/ m ∈ new -> plain (mc_Name m) = true) ->
  (forall m, m ∈ new -> built m) ->
  exists w', ReloadMirrorConfig clock1 clock2 new w ⇓ w' /\ w'.(w_mirrors) = new
    /\ forall n, w'.(w_jobs) !! n
         = reload_job (by_name w.(w_mirrors) !! n) (by_name new !! n) (w.(w_jobs) !! n).
Proof. by apply reload_jobs. Qed.

(** ** What a command does *)

(** The actions a command causes, what becomes of its job and the status of the answer. *)
Definition command_spec (cmd : WorkerCmd) (job : mirrorJob) : list action * mirrorJob * Z :=
  let n := cmd.(wc_MirrorID) in
  let disabled := bool_decide (job.(mj_state) = stateDisabled) in
  let wake := if disabled then [StartRun n] else [] in
  let woken := if disabled then set_mj_running true job else job in
  if decide (cmd.(wc_Cmd) = CmdStart) then
    (wake ++ [SendCtrl n (if force cmd then jobForceStart else jobStart) true], woken, StatusOK)
  else if decide (cmd.(wc_Cmd) = CmdRestart) then
    (wake ++ [SendCtrl n jobRestart true], woken, StatusOK)
  else if decide (cmd.(wc_Cmd) = CmdStop) then
    (if disabled then [] else [SendCtrl n jobStop true], job, StatusOK)
  else if decide (cmd.(wc_Cmd) = CmdDisable) then
    if disabled then ([], job, StatusOK)
    else ([SendCtrl n jobDisable true; AwaitDisabled n],
          set_mj_running false (set_mj_state stateDisabled job), StatusOK)
  else ([], job, if decide (cmd.(wc_Cmd) = CmdPing) then StatusOK else StatusNotAcceptable).

Lemma job_command_exact cmd w job : sound w -> w.(w_jobs) !! cmd.(wc_MirrorID) = Some job ->
  let n := cmd.(wc_MirrorID) in
  let '(acts, job', code) := command_spec cmd job in
  let '(w', (code', _)) := job_command cmd w in
  code' = code
  /\ w'.(w_log) = w.(w_log) ++ acts
  /\ w'.(w_jobs) = <[n := job']> w.(w_jobs)
  /\ view id w'.(w_schedule) = delete n (view id w.(w_schedule)).
Proof.
  intros Hw Hn n. fold n in Hn. destruct (unschedule_view n w Hw) as [Hq Hv].
  destruct (unschedule_view (late := ∅) n (unschedule n w)) as [_ Hv2]; [apply good_unschedule, Hw|].
  rewrite Hv, delete_delete_eq in Hv2.
  assert (Hr : mj_state job <> stateDisabled -> mj_running job = true) by by eapply so_loop.
  assert (Hid : <[n := job]> (w_jobs w) = w_jobs w) by by apply insert_id.
  unfold job_command, command_spec, starts, disableJob, send_ctrl. fold n. rewrite Hn, !bool_decide_decide.
  destruct (decide (mj_state job = stateDisabled)) as [Hd|Hd];
    destruct (decide (wc_Cmd cmd = CmdStart)) as [E|E];
    [|destruct (decide (wc_Cmd cmd = CmdRestart)) as [E1|E1];
      [|destruct (decide (wc_Cmd cmd = CmdStop)) as [E2|E2];
        [|destruct (decide (wc_Cmd cmd = CmdDisable)) as [E3|E3];
          [|destruct (decide (wc_Cmd cmd = CmdPing))]]]..];
    cbn [andb orb].
all: rewrite ?(decide_True (P := mj_state job <> stateDisabled)), ?(decide_False (P := mj_state job <> stateDisabled)) by tauto.
all: simpl; split_and!; try done; rewrite <- ?app_assoc, ?app_nil_r, ?Hr by done; try done.
Qed.

(** C9: a command on a job of a sound worker. It always takes the job out of the schedule;
    the actions it causes, the new state of the job and the answer are those of
    [command_spec]: start and restart wake a disabled loop first, stop and disable do
    nothing to a disabled job, and each control action finds a loop; no other job
    changes. *)
Theorem job_command_effect cmd w job :
  sound w -> w.(w_jobs) !! cmd.(wc_MirrorID) = Some job ->
  let n := cmd.(wc_MirrorID) in
  let '(acts, job', code) := command_spec cmd job in
  let '(w', (code', _)) := job_command cmd w in
  code' = code
  /\ w'.(w_log) = w.(w_log) ++ acts
  /\ w'.(w_jobs) = <[n := job']> w.(w_jobs)
  /\ view id w'.(w_schedule) = delete n (view id w.(w_schedule)).
Proof. intros Hw Hn. by apply job_command_exact. Qed.

(** The command to reload is answered 404. The worker sends itself the signal, then
    falls through to the lookup of a job with no name. *)
Theorem reload_answers_404 doc cmd w :
  unmarshal_WorkerCmd doc WorkerCmd_zero = (cmd, None) ->
  cmd.(wc_Cmd) = CmdReload -> cmd.(wc_MirrorID) = EmptyString ->
  w.(w_jobs) !! EmptyString = None ->
  handle_command doc w = (log Sighup w, (StatusNotFound, "Mirror ``'' not found")).
Proof.
  intros Hdoc Hc Hid Hn. unfold handle_command. rewrite Hdoc, Hid, Hc. simpl.
  unfold job_command. rewrite Hid. simpl. by rewrite Hn.
Qed.

(** Two starts race. When two commands to start a disabled job arrive before its loop
    takes the first action, two goroutines enter [Run] on the same job, which the bound
    of one sync per job rests on not happening. *)
Theorem two_starts_two_loops cmd w job :
  sound w -> w.(w_jobs) !! cmd.(wc_MirrorID) = Some job -> job.(mj_state) = stateDisabled ->
  cmd.(wc_Cmd) = CmdStart ->
  let n := cmd.(wc_MirrorID) in
  let act := SendCtrl n (if force cmd then jobForceStart else jobStart) true in
  (job_command cmd (job_command cmd w).1).1.(w_log)
  = w.(w_log) ++ [StartRun n; act; StartRun n; act].
Proof.
  intros Hw Hn Hd Hc n act. pose proof (job_command_exact cmd w job Hw Hn) as H1.
  pose proof (good_command cmd w Hw) as [Hw1 _].
  destruct (job_command cmd w) as [w1 [c1 m1]] eqn:E1. unfold command_spec in H1.
  rewrite decide_True, bool_decide_true in H1 by done. destruct H1 as (_ & Hl1 & Hj1 & _).
  assert (Hn1 : w1.(w_jobs) !! wc_MirrorID cmd = Some (set_mj_running true job)) by by rewrite Hj1, lookup_insert_eq.
  pose proof (job_command_exact cmd w1 _ Hw1 Hn1) as H2. cbn [fst].
  destruct (job_command cmd w1) as [w2 [c2 m2]] eqn:E2. unfold command_spec in H2.
  rewrite decide_True, bool_decide_true in H2 by done. destruct H2 as (_ & Hl2 & _ & _).
  cbn [fst]. rewrite Hl2, Hl1. by rewrite <- app_assoc.
Qed.

(** ** What a message does *)

Definition status_posts (job : mirrorJob) (m : jobMessage) : list action :=
  (fun root => PostStatus (root +:+ "/workers/" +:+ worker_name +:+ "/jobs/" +:+ m.(jm_name)) {|
       ms_Name := m.(jm_name);
       ms_Worker := worker_name;
       ms_IsMaster := wp_IsMaster job.(mj_provider);
       ms_Status := m.(jm_status);
       ms_LastUpdate := time_zero;
       ms_LastStarted := time_zero;
       ms_LastEnded := time_zero;
       ms_Scheduled := time_zero;
       ms_Upstream := wp_Upstream job.(mj_provider);
       ms_Size := if decide (job.(mj_size) = EmptyString) then "unknown" else job.(mj_size);
       ms_ErrorMsg := m.(jm_msg)
     |}) <$> roots.

Definition schedule_posts (q : queue) : list action :=
  (fun root => PostSchedules (root +:+ "/workers/" +:+ worker_name +:+ "/schedules")
                 (schedule_message (GetJobs id q))) <$> roots.

Lemma report_message_exact now m job w : wf id w.(w_schedule) ->
  let w' := report_message now m job w in
  let t := now + wp_Interval job.(mj_provider) in
  w'.(w_jobs) = w.(w_jobs) /\ w'.(w_mirrors) = w.(w_mirrors)
  /\ wf id w'.(w_schedule)
  /\ view id w'.(w_schedule)
     = (if m.(jm_schedule) then <[m.(jm_name) := t]> (without_instant t (view id w.(w_schedule)))
        else view id w.(w_schedule))
  /\ w'.(w_log) = w.(w_log) ++ status_posts job m ++ schedule_posts w'.(w_schedule).
Proof.
  intros Hq w' t.
  destruct (AddJob_spec id t (jm_name m) w.(w_schedule) Hq) as (Hq' & Hv & _).
  subst w'. unfold report_message, updateSchedInfo, updateStatus. rewrite !posts_log.
  destruct (jm_schedule m); simpl; by rewrite <- app_assoc.
Qed.

(** C29: a message from a job. One whose job is neither ready nor halting changes nothing.
    Otherwise its status is posted to every manager with what the worker knows of the
    mirror, then the schedule is; and only a message that asks for it schedules the job,
    one interval from now. *)
Theorem message_effect now m w job :
  wf id w.(w_schedule) -> w.(w_jobs) !! m.(jm_name) = Some job ->
  let w' := on_job_message now m w in
  let t := now + wp_Interval job.(mj_provider) in
  if bool_decide (job.(mj_state) = stateReady \/ job.(mj_state) = stateHalting) then
    w'.(w_jobs) = w.(w_jobs)
    /\ view id w'.(w_schedule)
       = (if m.(jm_schedule) then <[m.(jm_name) := t]> (without_instant t (view id w.(w_schedule)))
          else view id w.(w_schedule))
    /\ w'.(w_log) = w.(w_log) ++ status_posts job m ++ schedule_posts w'.(w_schedule)
  else w' = w.
Proof.
  intros Hq Hn w' t. unfold w', on_job_message. rewrite Hn. case_bool_decide as Hs.
  - rewrite decide_False by tauto. destruct (report_message_exact now m job w Hq) as (H1 & _ & _ & H2 & H3). done.
  - by rewrite decide_True by tauto.
Qed.

(** The schedule loop works outside the lock. When a job is disabled between the moment
    its final message is found to come from a ready job and the moment the message is
    acted upon, the disabled job is scheduled all the same; the next tick to pop it sends
    it a control action although no loop receives. *)
Theorem late_message_schedules_disabled now now' m cmd w job q' :
  sound w -> w.(w_jobs) !! m.(jm_name) = Some job -> job.(mj_state) = stateReady ->
  m.(jm_schedule) = true -> cmd.(wc_Cmd) = CmdDisable -> cmd.(wc_MirrorID) = m.(jm_name) ->
  let n := m.(jm_name) in
  let w' := report_message now m job (job_command cmd w).1 in
  Pop id now' w'.(w_schedule) = (Some n, q') ->
  (exists j, w'.(w_jobs) !! n = Some j /\ j.(mj_state) = stateDisabled)
  /\ view id w'.(w_schedule) !! n = Some (now + wp_Interval job.(mj_provider))
  /\ (on_tick now' w').(w_log) = w'.(w_log) ++ [SendCtrl n jobStart false].
Proof.
  intros Hw Hn Hs Hm Hc Hid n w' Hpop. rewrite <- Hid in Hn.
  pose proof (job_command_exact cmd w job Hw Hn) as H1. pose proof (good_command cmd w Hw) as [Hw1 _].
  subst w'. destruct (job_command cmd w) as [w1 [c1 m1]]. cbn [fst] in *. unfold command_spec in H1.
  rewrite Hc, Hs in H1. simpl in H1. destruct H1 as (_ & _ & Hj1 & _).
  destruct (report_message_exact now m job w1 (so_queue _ Hw1)) as (Hj & _ & _ & Hv & _). rewrite Hm in Hv.
  set (w2 := report_message now m job w1) in *. rewrite Hj1, Hid in Hj. fold n in Hj, Hv.
  split_and!.
  - rewrite Hj, lookup_insert_eq. by eexists.
  - by rewrite Hv, lookup_insert_eq.
  - unfold on_tick. rewrite Hpop. simpl. by rewrite Hj, lookup_insert_eq.
Qed.

(** ** Equal instants at the start *)

Definition due (m : MirrorStatus) (job : mirrorJob) : Z :=
  m.(ms_LastUpdate) + wp_Interval job.(mj_provider).

Lemma init_one_spec m job w : wf id w.(w_schedule) ->
  wf id (init_one m job w).(w_schedule)
  /\ (forall n, n <> ms_Name m -> (init_one m job w).(w_jobs) !! n = w.(w_jobs) !! n)
  /\ forall n t, view id (init_one m job w).(w_schedule) !! n = Some t ->
       view id w.(w_schedule) !! n = Some t \/ (n = ms_Name m /\ t = due m job).
Proof.
  intros Hq. destruct (AddJob_spec id (due m job) (ms_Name m) w.(w_schedule) Hq) as (Hq' & Hv & _).
  unfold init_one. case_decide; [|case_decide]; (split; [done|]); split; simpl.
  - intros n Hn. by rewrite lookup_insert_ne.
  - auto.
  - intros n Hn. by rewrite lookup_insert_ne.
  - auto.
  - intros n Hn. by rewrite lookup_insert_ne.
  - intros n t. fold (due m job). rewrite Hv.
    intros [[<- <-]|[_ [Hn _]%map_lookup_filter_Some]]%lookup_insert_Some; auto.
Qed.

Lemma init_known_times l U w U' w' : wf id w.(w_schedule) -> init_known l U w = (U', w') ->
  NoDup ((fun m => ms_Name m) <$> l) ->
  wf id w'.(w_schedule)
  /\ (forall n t, view id w'.(w_schedule) !! n = Some t -> view id w.(w_schedule) !! n = Some t
       \/ exists m job, m ∈ l /\ ms_Name m = n /\ w.(w_jobs) !! n = Some job /\ t = due m job)
  /\ (forall n, U' !! n = None <-> U !! n = None
       \/ exists m, m ∈ l /\ ms_Name m = n /\ is_Some (w.(w_jobs) !! n)).
Proof.
  revert U w. induction l as [|m l IH]; intros U w Hq; simpl.
  { intros [= <- <-] _. split_and!; [done|auto|]. intros n. split; [auto|]. intros [?|(m & []%elem_of_nil & _)]; done. }
  intros Hi Hnd. apply NoDup_cons in Hnd as [Hm Hnd].
  assert (Hne : forall m', m' ∈ l -> ms_Name m' <> ms_Name m).
  { intros m' Hin He. apply Hm. rewrite <- He. by apply (list_elem_of_fmap_2 (fun m => ms_Name m)). }
  destruct (w_jobs w !! ms_Name m) as [job|] eqn:Hn.
  - destruct (init_one_spec m job w Hq) as (Hq1 & Hj1 & Hv1).
    destruct (IH _ _ Hq1 Hi Hnd) as (Hq' & Hv & HU). split_and!; [done| |].
    + intros n t [[Ht|[-> ->]]%Hv1|(m' & job' & Hin & He & Hj & ->)]%Hv; [by left| |]; right.
      * exists m, job. split_and!; [by left|done|done|done].
      * exists m', job'. split_and!; [by right|done| |done]. rewrite <- Hj. symmetry. apply Hj1.
        rewrite <- He. by apply Hne.
    + intros n. rewrite HU, lookup_delete_None. split.
      * intros [[<-|HU0]|(m' & Hin & He & Hs)]; [right|by left|right].
        -- exists m. split_and!; [by left|done|by eexists].
        -- exists m'. split_and!; [by right|done|]. by rewrite Hj1 in Hs by (rewrite <- He; by apply Hne).
      * intros [HU0|(m' & [->|Hin]%elem_of_cons & He & Hs)]; [by left; right|by left; left|right].
        exists m'. split_and!; [done|done|]. by rewrite Hj1 by (rewrite <- He; by apply Hne).
  - destruct (IH _ _ Hq Hi Hnd) as (Hq' & Hv & HU). split_and!; [done| |].
    + intros n t [Ht|(m' & job' & Hin & He & Hj & ->)]%Hv; [by left|]; right.
      exists m', job'. split_and!; [by right|done|done|done].
    + intros n. rewrite HU. split.
      * intros [HU0|(m' & Hin & He & Hs)]; [by left|right]. exists m'. split_and!; [by right|done|done].
      * intros [HU0|(m' & [->|Hin]%elem_of_cons & He & Hs)]; [by left| |right; by exists m'].
        rewrite <- He, Hn in Hs. by destruct Hs.
Qed.

Lemma init_unset_other clock names w n : wf id w.(w_schedule) -> n ∉ names ->
  wf id (init_unset clock names w).(w_schedule)
  /\ forall t, view id (init_unset clock names w).(w_schedule) !! n = Some t ->
       view id w.(w_schedule) !! n = Some t.
Proof.
  revert w. induction names as [|n0 names IH]; intros w Hq Hn; simpl; [done|].
  apply not_elem_of_cons in Hn as [Hne Hn]. destruct (w_jobs w !! n0) as [job|]; [|by apply IH].
  set (t0 := clock (length names)).
  destruct (AddJob_spec id t0 n0 w.(w_schedule) Hq) as (Hq' & Hv & _).
  match goal with |- context [init_unset _ _ ?x] => destruct (IH x Hq' Hn) as [Hw Hx] end.
  split; [done|]. intros t Ht%Hx. simpl in Ht. rewrite Hv in Ht.
  rewrite lookup_insert_ne in Ht by done. by apply map_lookup_filter_Some in Ht as [? _].
Qed.

(** Mirrors lost at the start. When the manager reports two mirrors that are due at the
    same instant, as two that never succeeded and have the same interval are, at most one
    of them is scheduled, and the other is never synced until someone commands it. *)
Theorem equal_dues_lose_mirror clock mirrorList w a b ja jb :
  w.(w_schedule) = newScheduleQueue -> NoDup ((fun m => ms_Name m) <$> mirrorList) ->
  a ∈ mirrorList -> b ∈ mirrorList -> ms_Name a <> ms_Name b ->
  w.(w_jobs) !! ms_Name a = Some ja -> w.(w_jobs) !! ms_Name b = Some jb ->
  due a ja = due b jb ->
  let q := (init_schedule clock mirrorList w).(w_schedule) in
  view id q !! ms_Name a = None \/ view id q !! ms_Name b = None.
Proof.
  intros Hq Hnd Ha Hb Hne Hja Hjb Hdue q.
  assert (Hw : wf id (w_schedule w)) by (rewrite Hq; apply new_wf).
  subst q. unfold init_schedule. set (U := (fun _ => true) <$> w_jobs w).
  destruct (init_known mirrorList U w) as [U' w1] eqn:E.
  destruct (init_known_times _ _ _ _ _ Hw E Hnd) as (Hw1 & Hv & HU).
  assert (Hout : forall m j, m ∈ mirrorList -> w_jobs w !! ms_Name m = Some j -> ms_Name m ∉ (range_list U').*1).
  { intros m j Hm Hj ([n x] & He & Hin)%list_elem_of_fmap. simpl in He. apply elem_of_range in Hin.
    assert (U' !! n = None); [|congruence]. apply HU. right. exists m. split_and!; [done|done|]. rewrite <- He. by eexists. }
  assert (Htime : forall m j t, m ∈ mirrorList -> w_jobs w !! ms_Name m = Some j ->
    view id (w_schedule (init_unset clock (range_list U').*1 w1)) !! ms_Name m = Some t -> t = due m j).
  { intros m j t Hm Hj Ht. apply init_unset_other in Ht; [|done|by eapply Hout].
    apply Hv in Ht as [Ht|(m' & j' & Hm' & He & Hj' & ->)]; [by rewrite Hq, new_view in Ht|].
    assert (m' = m) as ->; [|congruence].
    by apply (NoDup_fmap_unique (fun m => ms_Name m) mirrorList). }
  destruct (init_unset_other clock (range_list U').*1 w1 (ms_Name a) Hw1 (Hout a ja Ha Hja)) as [Hw2 _].
  set (w2 := init_unset _ _ w1) in *.
  destruct (view id (w_schedule w2) !! ms_Name a) as [ta|] eqn:Ea; [|by left].
  destruct (view id (w_schedule w2) !! ms_Name b) as [tb|] eqn:Eb; [|by right]. exfalso.
  pose proof (Htime a ja ta Ha Hja Ea) as ->. pose proof (Htime b jb tb Hb Hjb Eb) as ->.
  apply view_lookup in Ea as (x & Hx & Hxn), Eb as (y & Hy & Hyn); [|done..].
  rewrite Hdue in Hx. pose proof (entry_unique _ _ _ _ Hx Hy) as ->. apply Hne. unfold id in *. congruence.
Qed.
End worker.
Arguments Worker : clear implicits.
Abbreviation sound w := (sound_in (late := ∅) w).

(** ** The providers of [newMirrorProvider] *)

#[export] Instance provider_worker {R} : WorkerProvider (mirrorProvider (R := R)) := {|
  wp_Name p := p.(pv_base).(bp_name);
  wp_Interval p := p.(pv_base).(bp_interval);
  wp_IsMaster p := p.(pv_base).(bp_isMaster);
  wp_Upstream p :=
    match p.(pv_impl) with
    | Cmd c _ _ _ => c.(cc_upstreamURL)
    | Rsync c _ _ _ => c.(rc_upstreamURL)
    | TwoStage c _ _ _ _ => c.(tc_upstreamURL)
    end
|}.

(** The law the reload rests on. *)
Lemma newMirrorProvider_named {R} shlex (compile : string -> result R) template cfg m p :
  newMirrorProvider shlex compile template (fields m) cfg = Ret p -> wp_Name p = mc_Name m.
Proof.
  intros (mirrorDir & logDir & succ & fail & Hb & _)%newMirrorProvider_base. simpl. rewrite Hb.
  by destruct (0 <? length _)%nat.
Qed.

(** *** Witnesses *)

#[local] Existing Instance assoc_skiplist.
#[local] Existing Instance sorted_range.

Definition ex_make (m : mirrorConfig) : comp (mirrorProvider (R := string)) :=
  newMirrorProvider ex_shlex ex_compile ex_template (fields m) ex_cfg.

Definition ex_roots : list string := ["http://m"].

Abbreviation ex_Worker := (Worker (mirrorProvider (R := string)) (assoc_list (J := string))).

Definition ex_start (l : list MirrorStatus) (mirrors : list mirrorConfig) : comp ex_Worker :=
  start_worker ex_make "worker" ex_roots
    (fun i => 1000 + Z.of_nat i) l mirrors.

Definition ex_mirrors : list mirrorConfig := [ex_mirror "debian" "rsync://d/"; ex_mirror "ubuntu" "rsync://u/"].

Definition ex_status (n : string) (s : SyncStatus) : MirrorStatus :=
  MkMirrorStatus n "worker" true s 0 0 0 0 EmptyString EmptyString EmptyString.

Definition ex_command (v : CmdVerb) (n : string) : WorkerCmd := MkWorkerCmd v n None None.

Definition ex_provider : mirrorProvider (R := string) :=
  MkProvider (new_base "ubuntu" "/srv" "/log" "/log/latest.log" (60 * minute) 0 0)
    (Cmd (MkCmdConfig "rsync://u/" "true" None EmptyString EmptyString) ["true"] None None).

(** One job, in a given state, with its loop unless it is disabled. *)
Definition ex_one (x : Z) : ex_Worker :=
  MkWorker [] {["ubuntu" := MkMirrorJob ex_provider x EmptyString (negb (bool_decide (x = stateDisabled)))]}
    (newScheduleQueue) [].

Lemma ex_one_sound x : sound (ex_one x).
Proof.
  split.
  - apply (new_wf).
  - intros n j Hn. unfold ex_one in Hn. simpl in Hn. apply lookup_singleton_Some in Hn as [_ <-]. simpl. intros Hx. by rewrite bool_decide_false.
  - intros n t. simpl. by rewrite (new_view), lookup_empty.
Qed.

Lemma job_command_effect_witness :
  w_log (job_command (ex_command CmdDisable "ubuntu") (ex_one stateReady)).1
  = [SendCtrl "ubuntu" jobDisable true; AwaitDisabled "ubuntu"].
Proof.
  pose proof (job_command_effect (ex_command CmdDisable "ubuntu") (ex_one stateReady) _
    (ex_one_sound _) (lookup_singleton_eq _ _)) as H.
  destruct (job_command _ _) as [w' [code msg]]. apply H.
Defined.

Lemma reload_answers_404_witness :
  handle_command (marshal_WorkerCmd (ex_command CmdReload EmptyString)) (ex_one stateReady)
  = (log Sighup (ex_one stateReady), (404, "Mirror ``'' not found")).
Proof.
  apply (reload_answers_404 _ (ex_command CmdReload EmptyString)); reflexivity.
Defined.

Lemma two_starts_two_loops_witness :
  let cmd := ex_command CmdStart "ubuntu" in
  w_log (job_command cmd (job_command cmd (ex_one stateDisabled)).1).1
  = [StartRun "ubuntu"; SendCtrl "ubuntu" jobStart true; StartRun "ubuntu"; SendCtrl "ubuntu" jobStart true].
Proof.
  exact (two_starts_two_loops (ex_command CmdStart "ubuntu") (ex_one stateDisabled) _
    (ex_one_sound _) (lookup_singleton_eq _ _) eq_refl eq_refl).
Defined.

Definition ex_message : jobMessage := MkJobMessage Status.Success "ubuntu" EmptyString true.

(** The job is disabled between the check and the scheduling of its last message: it stays in
    the schedule, and the tick that pops it starts it in vain. *)
Definition ex_late : list run_event :=
  [EvLoop "ubuntu" stateReady EmptyString; EvPop 2000 false; EvSend true;
   EvReceive ex_message; EvCheck (newJob ex_provider); EvPost (newJob ex_provider);
   EvCommand (marshal_WorkerCmd (ex_command CmdDisable "ubuntu"));
   EvSchedule 2000 (newJob ex_provider); EvList; EvPop (2000 + 1000 * minute) false; EvSend false].

Lemma worker_stays_sound_witness :
  exists w r, ex_start [ex_status "debian" Status.Disabled] ex_mirrors = Ret w
    /\ run_steps ex_make "worker" ex_roots ex_late (MkRunning w Waiting ∅) = Some r
    /\ SendCtrl "ubuntu" jobStart false ∈ r.(r_worker).(w_log) /\ "ubuntu" ∈ r.(r_late).
Proof.
  destruct (ex_start [ex_status "debian" Status.Disabled] ex_mirrors) as [w|] eqn:E; [|vm_compute in E; discriminate E].
  destruct (run_steps ex_make "worker" ex_roots ex_late (MkRunning w Waiting ∅)) as [r|] eqn:Er.
  2: { exfalso. vm_compute in E. injection E as <-. vm_compute in Er. discriminate Er. }
  exists w, r. split; [reflexivity|]. split; [exact Er|].
  assert (Hin : SendCtrl "ubuntu" jobStart false ∈ r.(r_worker).(w_log)).
  { vm_compute in E. injection E as <-. vm_compute in Er. injection Er as <-. cbn [r_worker w_log].
    repeat first [apply list_elem_of_here | apply list_elem_of_further]. }
  split; [exact Hin|].
  eapply (worker_stays_sound ex_make "worker" ex_roots); [exact E|exact Er|exact Hin].
Defined.

Lemma message_effect_witness :
  let w' := on_job_message "worker" ex_roots 0 ex_message (ex_one stateReady) in
  view id w'.(w_schedule) !! "ubuntu" = Some (60 * minute).
Proof.
  intros w'.
  pose proof (message_effect "worker" ex_roots 0 ex_message (ex_one stateReady) _
    (so_queue _ (ex_one_sound stateReady)) (lookup_singleton_eq _ _)) as (_ & H & _).
  unfold w'. rewrite H. apply lookup_insert_eq.
Defined.

Lemma late_message_schedules_disabled_witness :
  let w' := report_message "worker" ex_roots 0 ex_message
    (MkMirrorJob ex_provider stateReady EmptyString true)
    (job_command (ex_command CmdDisable "ubuntu") (ex_one stateReady)).1 in
  (on_tick (61 * minute) w').(w_log) = w'.(w_log) ++ [SendCtrl "ubuntu" jobStart false].
Proof.
  intros w'. destruct (Pop id (61 * minute) (w_schedule w')) as [o q'] eqn:E.
  assert (o = Some "ubuntu") as ->.
  { replace o with (Pop id (61 * minute) (w_schedule w')).1 by by rewrite E.
    vm_compute. reflexivity. }
  apply (late_message_schedules_disabled "worker" ex_roots 0 (61 * minute) ex_message
    (ex_command CmdDisable "ubuntu") (ex_one stateReady) _ q'
    (ex_one_sound _) (lookup_singleton_eq _ _) eq_refl eq_refl eq_refl eq_refl). exact E.
Defined.

(** Two mirrors that never succeeded. *)
Lemma equal_dues_lose_mirror_witness :
  let w : ex_Worker :=
    MkWorker [] {["debian" := newJob ex_provider; "ubuntu" := newJob ex_provider]}
      (newScheduleQueue) [] in
  let l := [ex_status "debian" Status.Failed; ex_status "ubuntu" Status.Failed] in
  let q := (init_schedule (fun _ => 1000) l w).(w_schedule) in
  view id q !! "debian" = None \/ view id q !! "ubuntu" = None.
Proof.
  intros w l.
  apply (equal_dues_lose_mirror (fun _ => 1000) l w
    (ex_status "debian" Status.Failed) (ex_status "ubuntu" Status.Failed) (newJob ex_provider) (newJob ex_provider));
    [reflexivity|apply (bool_decide_unpack _); vm_compute; exact I|by left|by right; left|done|reflexivity|reflexivity|reflexivity].
Defined.

Definition ex_provider_of (m : mirrorConfig) : mirrorProvider (R := string) :=
  match ex_make m with Ret p => p | Panic _ => ex_provider end.

Lemma reload_by_name_witness :
  let w : ex_Worker :=
    MkWorker ex_old {["debian" := newJob ex_provider; "ubuntu" := newJob ex_provider]}
      (newScheduleQueue) [] in
  exists w', ReloadMirrorConfig ex_make (fun _ => 1) (fun _ => 2) ex_new w = Ret w'
    /\ w'.(w_jobs) !! "ubuntu" = None
    /\ mj_running <$> w'.(w_jobs) !! "fedora" = Some true.
Proof.
  intros w.
  destruct (reload_by_name ex_make
    (fun m p => newMirrorProvider_named ex_shlex ex_compile ex_template ex_cfg m p)
    ex_provider_of (fun _ => 1) (fun _ => 2) ex_new w) as (w' & Hr & _ & Hj).
  - apply (bool_decide_unpack _). vm_compute. exact I.
  - apply (bool_decide_unpack _). vm_compute. exact I.
  - intros m Hm. simpl in Hm. unfold ex_old, ex_new in Hm. rewrite !elem_of_cons, !elem_of_nil in Hm.
    destruct_or! Hm; try done; subst; reflexivity.
  - intros m Hm. unfold ex_new in Hm. rewrite !elem_of_cons, elem_of_nil in Hm. unfold built, ex_provider_of.
    destruct (ex_make m) eqn:E; [reflexivity|]. destruct_or! Hm; try done; subst m; vm_compute in E; discriminate E.
  - exists w'. split; [exact Hr|]. rewrite !Hj. split; reflexivity.
Defined.
