(* ===== verification/Stages.v ===== *)
(** * worker/job.go: the stages of a run

    [runJobWrapper] as a step relation between the places where it sends a message to the
    manager's channel or asks the hooks and the provider, for the files in which a run
    interleaves with the rest of the worker.  The file ends with the proof that the
    messages of [Job.runJobWrapper] are those of a path of stages. *)

From S2P Require Import Prelude Json Msg Job.

Local Open Scope string_scope.
Local Open Scope list_scope.
Local Open Scope Z_scope.

(** ** One run of a job, up to its messages *)

(** Where [runJobWrapper] is; [r] counts the attempts. *)
Inductive stage : Type :=
| SendPre
| PreJob
| PreExec (r : Z)
| SendSync (r : Z)
| InProvider (r : Z)
| PostExec (r : Z) (ok stopASAP : bool)
| SendVerdict (r : Z) (ok stopASAP : bool)
(** a hook has failed: its message, then the end *)
| SendHook
| Finished.

#[export] Instance stage_eq_dec : EqDecision stage.
Proof. solve_decision. Defined.

(** The head of the retry loop. *)
Definition attempt_or_end (Retry r : Z) : stage := if r <? Retry then PreExec r else Finished.

Definition verdict (ok : bool) : SyncStatus := if ok then Status.Success else Status.Failed.

(** The message a stage is about to send. *)
Definition sends (s : stage) : option SyncStatus :=
  match s with
  | SendPre => Some Status.PreSyncing
  | SendSync _ => Some Status.Syncing
  | SendVerdict _ ok _ => Some (verdict ok)
  | SendHook => Some Status.Failed
  | _ => None
  end.

(** One move of a run, with the message it sends; [killed]: the channel [kill] is closed.
    (A provider that succeeds before its start is seen makes the worker panic,
    Job.fast_success_panics; here such a run goes on.) *)
Inductive run_step (Retry : Z) (killed : bool) : stage -> option SyncStatus -> stage -> Prop :=
| r_pre : run_step Retry killed SendPre (Some Status.PreSyncing) PreJob
| r_job : run_step Retry killed PreJob None (attempt_or_end Retry 0)
| r_job_fail : run_step Retry killed PreJob None SendHook
| r_exec r : run_step Retry killed (PreExec r) None (SendSync r)
| r_exec_fail r : run_step Retry killed (PreExec r) None SendHook
| r_sync r : run_step Retry killed (SendSync r) (Some Status.Syncing) (InProvider r)
(** the provider is done, or timed out and was terminated *)
| r_done r ok : run_step Retry killed (InProvider r) None (PostExec r ok false)
| r_kill r : killed = true -> run_step Retry killed (InProvider r) None (PostExec r false true)
(** [Terminate] has failed *)
| r_term_fail r : run_step Retry killed (InProvider r) None Finished
| r_post r ok st : run_step Retry killed (PostExec r ok st) None (SendVerdict r ok st)
| r_post_fail r ok st : run_step Retry killed (PostExec r ok st) None SendHook
| r_verdict r ok st : run_step Retry killed (SendVerdict r ok st) (Some (verdict ok))
    (if ok || st then Finished else attempt_or_end Retry (r + 1))
| r_hook : run_step Retry killed SendHook (Some Status.Failed) Finished.

(** The [schedule] field of that message, in state [state] of the job. *)
Definition asks (Retry state : Z) (s : stage) : bool :=
  match s with
  | SendHook => true
  | SendVerdict r ok _ => (ok || (r =? Retry - 1)) && (state =? stateReady)
  | _ => false
  end.

(** The moves from a stage to another with the messages sent; the kill may come at any
    time and stays. *)
Inductive run_path (Retry : Z) : bool -> stage -> list SyncStatus -> stage -> Prop :=
| rp_nil killed s : run_path Retry killed s [] s
| rp_step killed s o s' l s'' : run_step Retry killed s o s' -> run_path Retry killed s' l s'' ->
    run_path Retry killed s (option_list o ++ l) s''
| rp_kill s l s' : run_path Retry true s l s' -> run_path Retry false s l s'.

(** ** Progress and termination of a run *)

Lemma run_step_sends R killed s o s' : run_step R killed s o s' -> o = sends s.
Proof. by destruct 1. Qed.

Lemma run_progress R killed s : s <> Finished -> exists s', run_step R killed s (sends s) s'.
Proof.
  destruct s; intros H; try done; eexists; simpl; econstructor.
  Unshelve. exact true.
Qed.

(** What remains of a run. *)
Definition left_of (R r : Z) : nat := (6 * Z.to_nat (R - 1 - r))%nat.

Definition stage_rank (R : Z) (s : stage) : nat :=
  match s with
  | SendPre => 6 * Z.to_nat R + 9
  | PreJob => 6 * Z.to_nat R + 8
  | PreExec r => left_of R r + 7
  | SendSync r => left_of R r + 6
  | InProvider r => left_of R r + 5
  | PostExec r _ _ => left_of R r + 4
  | SendVerdict r _ _ => left_of R r + 3
  | SendHook => 1
  | Finished => 0
  end.

Lemma run_step_rank R killed s o s' : run_step R killed s o s' -> (stage_rank R s' < stage_rank R s)%nat.
Proof.
  destruct 1; simpl; unfold attempt_or_end, left_of; try lia.
  - destruct (Z.ltb_spec 0 R); simpl; unfold left_of; lia.
  - destruct (ok || st); simpl; [lia|]. destruct (Z.ltb_spec (r + 1) R); simpl; unfold left_of; lia.
Qed.

(** ** The stages are those of the wrapper *)

Section wrapper.
Context {W : Type} (p : jobProvider W).

(** The statuses sent between two states. *)
Definition sent_between (s s' : wstate W) (l : list SyncStatus) : Prop :=
  jm_status <$> s'.(ws_msgs) = (jm_status <$> s.(ws_msgs)) ++ l.

Lemma sent_trans s1 s2 s3 l1 l2 : sent_between s1 s2 l1 -> sent_between s2 s3 l2 -> sent_between s1 s3 (l1 ++ l2).
Proof. unfold sent_between. intros H1 H2. by rewrite H2, H1, app_assoc. Qed.

Lemma sent_send m s : sent_between s (send m s) [jm_status m].
Proof. unfold sent_between. simpl. by rewrite fmap_app. Qed.

Lemma hooks_grow hooks action name s s' err : runHooks p hooks action name s = (s', err) ->
  sent_between s s' (match err with None => [] | Some _ => [Status.Failed] end).
Proof.
  intros H. pose proof (runHooks_msgs p hooks action name s) as Hm. rewrite H in Hm. unfold sent_between.
  destruct Hm as [_ Hm]. destruct err; rewrite Hm; [by rewrite fmap_app|by rewrite app_nil_r].
Qed.

(** What is left after a turn that ended with [t]. *)
Definition turn_end (retry : Z) (t : turn) (l : list SyncStatus) : Prop :=
  match t with
  | Return _ => l = []
  | Continue => run_path p.(p_Retry) false (attempt_or_end p.(p_Retry) (retry + 1)) l Finished
  end.

Lemma path_silent R killed s s' l : run_step R killed s None s' -> run_path R killed s' l Finished ->
  run_path R killed s l Finished.
Proof. intros H1 H2. exact (rp_step R killed s None s' l Finished H1 H2). Qed.

Lemma path_send R killed s m s' l : run_step R killed s (Some m) s' -> run_path R killed s' l Finished ->
  run_path R killed s (m :: l) Finished.
Proof. intros H1 H2. exact (rp_step R killed s (Some m) s' l Finished H1 H2). Qed.

Lemma path_hook R killed s : run_step R killed s None SendHook -> run_path R killed s [Status.Failed] Finished.
Proof. intros H. eapply path_silent; [exact H|]. eapply path_send; [constructor|constructor]. Qed.

Lemma finish_path retry st syncErr killed s s' t :
  finish_attempt p retry st syncErr killed s = (s', t) -> (killed = true -> syncErr <> None) ->
  exists l, sent_between s s' l /\ forall l', turn_end retry t l' ->
    run_path p.(p_Retry) killed (PostExec retry (bool_decide (syncErr = None)) killed) (l ++ l') Finished.
Proof.
  unfold finish_attempt. intros He Hk.
  destruct (runHooks p (rev (p_Hooks p)) postExec "post-exec" s) as [s1 herr] eqn:H1. apply hooks_grow in H1.
  destruct herr as [e|]; [injection He as <- <-; eexists; split; [exact H1|]; intros l' ->; by apply path_hook, r_post_fail|].
  destruct (match syncErr with None => _ | Some _ => _ end) as [s2 err] eqn:H2.
  assert (sent_between s1 s2 (match err with None => [] | Some _ => [Status.Failed] end)) as H2'
    by (destruct syncErr; by apply hooks_grow in H2). clear H2.
  pose proof (sent_trans _ _ _ _ _ H1 H2') as H. simpl in H.
  destruct err as [e|]; [injection He as <- <-; eexists; split; [exact H|]; intros l' ->; by apply path_hook, r_post_fail|].
  assert (Hend : forall ok l', (if ok || killed then Finished else attempt_or_end p.(p_Retry) (retry + 1)) = Finished
      /\ l' = [] \/ ok = false /\ killed = false /\
      run_path p.(p_Retry) false (attempt_or_end p.(p_Retry) (retry + 1)) l' Finished ->
      run_path p.(p_Retry) killed (PostExec retry ok killed) (verdict ok :: l') Finished).
  { intros ok l' Hl. eapply path_silent; [constructor|]. eapply path_send; [constructor|].
    destruct Hl as [[-> ->]|(-> & -> & Hp)]; [constructor|done]. }
  destruct syncErr as [e|]; injection He as <- <-.
  - eexists. split; [exact (sent_trans _ _ _ _ _ H (sent_send _ _))|]. intros l' Hl.
    apply (Hend false). destruct killed; [by left|by right].
  - eexists. split; [exact (sent_trans _ _ _ _ _ (H : sent_between s (set_size _ s2) _) (sent_send _ _))|].
    intros l' ->. apply (Hend true). by left.
Qed.

Lemma attempt_path retry a s s' t : run_attempt p retry a s = Ret (s', t) ->
  exists l, sent_between s s' l /\ forall l', turn_end retry t l' ->
    run_path p.(p_Retry) false (PreExec retry) (l ++ l') Finished.
Proof.
  unfold run_attempt. intros He. destruct (runHooks p (p_Hooks p) preExec "pre-exec" s) as [s1 err] eqn:H1.
  apply hooks_grow in H1.
  destruct err as [e|]; [injection He as <- <-; eexists; split; [exact H1|]; intros l' ->; by apply path_hook, r_exec_fail|].
  set (s2 := set_world _ _) in He.
  assert (sent_between s s2 [Status.Syncing]) as H2 by exact (sent_trans _ _ _ _ _ H1 (sent_send _ _)).
  assert (Hstart : forall l, run_path p.(p_Retry) false (InProvider retry) l Finished ->
    run_path p.(p_Retry) false (PreExec retry) (Status.Syncing :: l) Finished).
  { intros l Hl. eapply path_silent; [constructor|]. by eapply path_send; [constructor|]. }
  destruct (match at_second a with SyncDone _ => _ | TimedOut _ => _ | Killed _ => _ end)
    as [[syncErr termErr] stopASAP] eqn:Hsec.
  assert (Hgo : match termErr with Some e => Ret (s2, Return (Some e))
    | None => Ret (finish_attempt p retry (at_state a) syncErr stopASAP s2) end = Ret (s', t))
    by (by destruct (at_first a) as [[]|]). clear He.
  destruct termErr as [e|].
  - injection Hgo as <- <-. eexists. split; [exact H2|]. intros l' ->. apply Hstart.
    eapply path_silent; [apply r_term_fail|constructor].
  - injection Hgo as Hf. destruct (finish_path _ _ _ _ _ _ _ Hf) as (l & Hg & Hp).
    { intros ->. by destruct (at_second a); simplify_eq. }
    exists ([Status.Syncing] ++ l). split; [by eapply sent_trans|]. intros l' Hl. simpl. apply Hstart.
    specialize (Hp l' Hl). destruct stopASAP.
    + assert (bool_decide (syncErr = None) = false) as Hb.
      { apply bool_decide_eq_false. by destruct (at_second a); simplify_eq. }
      rewrite Hb in Hp. apply rp_kill. eapply path_silent; [by apply r_kill|exact Hp].
    + eapply path_silent; [apply r_done|exact Hp].
Qed.

Lemma retry_path env n : forall retry s s' err, retry + Z.of_nat n = Z.max retry p.(p_Retry) ->
  retry_loop p env n retry s = Ret (s', err) ->
  exists l, sent_between s s' l /\ run_path p.(p_Retry) false (attempt_or_end p.(p_Retry) retry) l Finished.
Proof.
  induction n as [|n IH]; intros retry s s' err Hn He; cbn [retry_loop] in He; unfold attempt_or_end.
  - injection He as <- _. exists []. split; [unfold sent_between; by rewrite app_nil_r|].
    replace (retry <? p_Retry p) with false by (symmetry; apply Z.ltb_ge; lia). constructor.
  - replace (retry <? p_Retry p) with true by (symmetry; apply Z.ltb_lt; lia).
    destruct (run_attempt p retry (env retry) s) as [[s1 t]|] eqn:Ha; [|done]. simpl in He.
    destruct (attempt_path _ _ _ _ _ Ha) as (l1 & Hg1 & Hp1). destruct t as [|r].
    + apply IH in He as (l2 & Hg2 & Hp2); [|lia]. exists (l1 ++ l2). split; [by eapply sent_trans|]. by apply Hp1.
    + injection He as <- _. exists l1. split; [done|]. specialize (Hp1 [] eq_refl). by rewrite app_nil_r in Hp1.
Qed.

(** C18: the stages are those of the wrapper. Whatever the hooks do and the provider goes
    through, the messages a run of [runJobWrapper] sends are those of a path of stages from
    the first message to the end, with the same number of attempts. *)
Theorem wrapper_follows_stages env w size s err :
  runJobWrapper p env w size = Ret (s, err) ->
  run_path p.(p_Retry) false SendPre (jm_status <$> s.(ws_msgs)) Finished.
Proof.
  unfold runJobWrapper. intros He. set (s0 := send _ _) in He.
  destruct (runHooks p (p_Hooks p) preJob "pre-job" s0) as [s1 herr] eqn:H1. apply hooks_grow in H1.
  destruct herr as [e|].
  - injection He as <- _. rewrite H1. eapply path_send; [constructor|]. by apply path_hook, r_job_fail.
  - apply retry_path in He as (l & Hg & Hp); [|lia].
    pose proof (sent_trans _ _ _ _ _ H1 Hg) as H. rewrite H.
    eapply path_send; [constructor|]. by eapply path_silent; [apply r_job|].
Qed.

End wrapper.

(** *** Witness *)

(** Two attempts, the provider ending with an error in each. *)
Definition ex_hopeless (r : Z) : attempt nat := MkAttempt StartedFirst (SyncDone (Some "exit status 10")) S stateReady.
Definition ex_retrying : jobProvider nat := MkJobProvider "debian" [] 2 (fun _ => EmptyString) "timeout".

Lemma wrapper_follows_stages_witness : run_path 2 false SendPre
  [Status.PreSyncing; Status.Syncing; Status.Failed; Status.Syncing; Status.Failed] Finished.
Proof.
  destruct (runJobWrapper ex_retrying ex_hopeless 0%nat EmptyString) as [[s err]|] eqn:He; [|discriminate].
  assert (jm_status <$> s.(ws_msgs) =
    [Status.PreSyncing; Status.Syncing; Status.Failed; Status.Syncing; Status.Failed]) as <-.
  { vm_compute in He. injection He as <- _. reflexivity. }
  exact (wrapper_follows_stages ex_retrying ex_hopeless 0%nat EmptyString s err He).
Defined.
