(* ===== verification/Channels.v ===== *)
(** * worker/worker.go and job.go: the goroutines of the worker together

    What [Worker] takes as one step and [JobLoop] as a run that simply ends, with every
    place where a goroutine can block: the lock [w.L], the channel [managerChan] with room
    for 32 messages, the one-place [ctrlChan] of each job and the channel [disabled] that
    [disableJob] waits for.  A run sends its messages at the stages of [runJobWrapper]; the
    handlers of commands and reloads run under the lock; the schedule loop takes the lock to
    look up the job of each message; of the schedule there are the names, without their
    instants.  [Halt] is in Shutdown.

    The model follows a worker as long as each job has one loop.  Two operations of a request
    can lead out of it, and are where it stops ([Leaves]): the start of a job in state
    Disabled one of whose loops is still running, which begins a second one (Loops follows
    the job from there), and the wait for a job whose [Run] was called but has not begun, so
    that [m.disabled] is nil or the channel of the loop before.  The other goroutines go on
    while a request is in front of such an operation; what is proved of the reachable states
    is of those the worker is in before it is executed. *)

From S2P Require Import Prelude Json Msg Job Schedule Worker JobLoop Stages.

Local Open Scope string_scope.
Local Open Scope list_scope.
Local Open Scope Z_scope.

(** ** The worker *)

(** [go job.Run(...)] does not wait for the goroutine: [RCalled] until [Run] has counted its
    loop in [jobsDone] and made [m.disabled]. *)
Inductive run_pc : Type := RNever | RCalled | RBegun.

#[export] Instance run_pc_eq_dec : EqDecision run_pc.
Proof. solve_decision. Defined.

(** A job; the stage of its run while one is running; its last call of [Run]. *)
Record wjob : Type := MkX { x_job : job; x_stage : stage; x_run : run_pc }.

Definition x_started (x : wjob) : bool := match x.(x_run) with RNever => false | _ => true end.
Definition x_fresh (x : wjob) : bool := match x.(x_run) with RCalled => true | _ => false end.

Definition on_job (f : job -> job) (x : wjob) : wjob := MkX (f x.(x_job)) x.(x_stage) x.(x_run).

Definition new_x : wjob := MkX newMirrorJob Finished RNever.

(** [go job.Run(...)] *)
Definition run_x (x : wjob) : wjob := MkX (start_run x.(x_job)) x.(x_stage) RCalled.

(** The first steps of [Run]. *)
Definition begin_x (x : wjob) : wjob := MkX x.(x_job) x.(x_stage) RBegun.

(** What a handler or a reload does under the lock, up to its next blocking point. *)
Inductive op : Type :=
(** [w.schedule.Remove(job.Name())] of a command *)
| Flush
(** [if job.State() == stateDisabled { go job.Run(...) }] *)
| StartIf
(** [job.ctrlChan <- c] *)
| Send (c : ctrlAction)
(** [if job.State() != stateDisabled { job.ctrlChan <- jobStop }] *)
| Stop
(** [disableJob], and then for a modified mirror the start according to the state before *)
| Disable (before : option Z)
(** [<-job.disabled], and the same *)
| Await (before : option Z)
(** a modified mirror: [jobState := job.State()] *)
| Modify.

Inductive instr : Type :=
| Do (n : string) (o : op)
(** a new job, under a name of its own *)
| Add.

(** Lines 131 to 139: the start of a modified job. *)
Definition restart_as (before : option Z) (x : wjob) : wjob :=
  match before with
  | None => x
  | Some st =>
      if decide (st = stateDisabled) then on_job (set_state stateDisabled) x
      else if decide (st = statePaused) then run_x (on_job (set_state statePaused) x)
      else run_x (on_job (set_state stateNone) x)
  end.

(** One operation on its job: it goes on, with what it leaves to do and the job after; it
    blocks; or the job gets a second loop, or the wait is not for its loop, and the model
    ends. *)
Inductive effect : Type := Goes (l : list instr) (x : wjob) | Blocks | Leaves.

Definition exec (n : string) (o : op) (x : wjob) : effect :=
  let disabled := bool_decide (x.(x_job).(j_state) = stateDisabled) in
  match o with
  | Flush => Goes [] x
  | StartIf =>
      if disabled then
        if bool_decide (x.(x_job).(j_pc) = PReturned) then Goes [] (run_x x) else Leaves
      else Goes [] x
  | Send c =>
      match x.(x_job).(j_ctrl) with
      | None => Goes [] (on_job (set_ctrl (Some c)) x)
      | Some _ => Blocks
      end
  | Stop => Goes (if disabled then [] else [Do n (Send jobStop)]) x
  | Disable before =>
      if disabled then Goes [] (restart_as before x)
      else Goes [Do n (Send jobDisable); Do n (Await before)] x
  | Await before =>
      if x_fresh x then Leaves
      (* a job that never ran has a nil channel *)
      else if x_started x && bool_decide (x.(x_job).(j_pc) = PReturned)
      then Goes [] (restart_as before x) else Blocks
  | Modify => Goes [Do n (Disable (Some x.(x_job).(j_state)))] x
  end.

(** *** The schedule

    Only the names of its jobs: at each tick any of them may be due. *)

(** [AddJob]: the job is in the schedule, in place of another if its instant is taken. *)
Definition add_due (taken : option string) (n : string) (due : gset string) : gset string :=
  {[n]} ∪ (due ∖ list_to_set (option_list taken)).

(** A modified job is scheduled unless it was disabled or paused. *)
Definition restart_due (taken : option string) (before : option Z) (n : string) (due : gset string) : gset string :=
  match before with
  | Some st => if decide (st = stateDisabled \/ st = statePaused) then due else add_due taken n due
  | None => due
  end.

(** What an operation does to the schedule. *)
Definition exec_due (taken : option string) (n : string) (o : op) (x : wjob) (due : gset string) : gset string :=
  match o with
  | Flush => due ∖ {[n]}
  | Disable before =>
      if decide (x.(x_job).(j_state) = stateDisabled) then restart_due taken before n (due ∖ {[n]}) else due ∖ {[n]}
  | Await before => restart_due taken before n due
  | _ => due
  end.

(** The handler of POST / on a job, lines 213 to 248 of worker.go. *)
Definition command_program (c : CmdVerb) (force : bool) (n : string) : list instr :=
  Do n Flush ::
  if decide (c = CmdStart) then [Do n StartIf; Do n (Send (if force then jobForceStart else jobStart))]
  else if decide (c = CmdRestart) then [Do n StartIf; Do n (Send jobRestart)]
  else if decide (c = CmdStop) then [Do n Stop]
  else if decide (c = CmdDisable) then [Do n (Disable None)]
  else [].

(** [ReloadMirrorConfig]: deletions and modifications, then additions. *)
Inductive change : Type := Deleted (n : string) | Modified (n : string).

Definition reload_program (changes : list change) (additions : nat) : list instr :=
  ((fun c => match c with Deleted n => Do n (Disable None) | Modified n => Do n Modify end) <$> changes)
  ++ replicate additions Add.

Inductive request : Type :=
| Command (c : CmdVerb) (force : bool) (n : string)
| Reload (changes : list change) (additions : nat).

Definition program (r : request) : list instr :=
  match r with
  | Command c force n => command_program c force n
  | Reload changes additions => reload_program changes additions
  end.

Inductive owner : Type :=
| Free
| Scheduler
(** [Halt] *)
| Stopper
(** a handler, with what it has left to do *)
| Holder (p : list instr).

(** Where [runSchedule] is. *)
Inductive sched_pc : Type :=
(** at [w.L.Lock()], these jobs to start *)
| SBoot (l : list string)
(** under the lock, these left to start *)
| SStarting (l : list string)
(** at the [select] *)
| SSelect
(** a message of a job received, at [w.L.Lock()]; [asks]: its [schedule] *)
| SFind (n : string) (asks : bool)
(** reporting it *)
| SReport (n : string) (asks : bool)
(** the job popped, at [job.ctrlChan <- jobStart] of a tick *)
| SSend (n : string).

Record worker : Type := MkK {
  k_lock : owner;
  (** the requests at [w.L.Lock()] *)
  k_wait : list (list instr);
  k_sched : sched_pc;
  (** [managerChan] *)
  k_chan : list (string * (SyncStatus * bool));
  k_due : gset string;
  k_sem : Z;
  k_jobs : gmap string wjob
}.

(** [make(chan jobMessage, 32)] *)
Definition managerChan_cap : nat := 32.

Definition set_lock (a : owner) (w : worker) : worker :=
  MkK a w.(k_wait) w.(k_sched) w.(k_chan) w.(k_due) w.(k_sem) w.(k_jobs).
Definition set_wait (a : list (list instr)) (w : worker) : worker :=
  MkK w.(k_lock) a w.(k_sched) w.(k_chan) w.(k_due) w.(k_sem) w.(k_jobs).
Definition set_sched (a : sched_pc) (w : worker) : worker :=
  MkK w.(k_lock) w.(k_wait) a w.(k_chan) w.(k_due) w.(k_sem) w.(k_jobs).
Definition set_chan (a : list (string * (SyncStatus * bool))) (w : worker) : worker :=
  MkK w.(k_lock) w.(k_wait) w.(k_sched) a w.(k_due) w.(k_sem) w.(k_jobs).
Definition set_due (a : gset string) (w : worker) : worker :=
  MkK w.(k_lock) w.(k_wait) w.(k_sched) w.(k_chan) a w.(k_sem) w.(k_jobs).
Definition set_sem (a : Z) (w : worker) : worker :=
  MkK w.(k_lock) w.(k_wait) w.(k_sched) w.(k_chan) w.(k_due) a w.(k_jobs).
Definition set_x (n : string) (x : wjob) (w : worker) : worker :=
  MkK w.(k_lock) w.(k_wait) w.(k_sched) w.(k_chan) w.(k_due) w.(k_sem) (<[n := x]> w.(k_jobs)).

(** [managerChan <- message] *)
Definition push (n : string) (o : option (SyncStatus * bool)) (w : worker) : worker :=
  set_chan (w.(k_chan) ++ ((fun s => (n, s)) <$> option_list o)) w.

Definition room (w : worker) : Prop := (length w.(k_chan) < managerChan_cap)%nat.

(** A run of the job is under way. *)
Definition in_run (j : job) : bool := match j.(j_cur) with Some c => running c | None => false end.

(** A goroutine that gets its turn begins a run. *)
Definition stage_after (j j' : job) (s : stage) : stage :=
  if negb (in_run j) && in_run j' then SendPre else s.

Section worker.
(** The capacity of the semaphore, and [provider.Retry()] of each job. *)
Context (cap : Z) (Retry : string -> Z).

(** What the goroutines of a job do: the beginning of [Run]; a step of the loop, once it has
    begun, and of its channels, where a run ends only after its last stage; or a move of the
    run. *)
Inductive own_step (n : string) : Z -> wjob -> option (SyncStatus * bool) -> Z -> wjob -> Prop :=
| o_begin sem x : x_fresh x = true -> own_step n sem x None sem (begin_x x)
| o_job sem x sem' j' : job_step cap sem x.(x_job) sem' j' ->
    (x_fresh x = true -> j'.(j_pc) = x.(x_job).(j_pc)) ->
    (in_run x.(x_job) = true -> in_run j' = false -> x.(x_stage) = Finished) ->
    own_step n sem x None sem' (MkX j' (stage_after x.(x_job) j' x.(x_stage)) x.(x_run))
| o_run sem x c o s' m : x.(x_job).(j_cur) = Some c -> running c = true ->
    run_step (Retry n) c.(c_killed) x.(x_stage) o s' ->
    m = (fun st => (st, asks (Retry n) x.(x_job).(j_state) x.(x_stage))) <$> o ->
    own_step n sem x m sem (MkX x.(x_job) s' x.(x_run)).

(** The handler that holds the lock. *)
Inductive handler_step : worker -> worker -> Prop :=
| h_done w : w.(k_lock) = Holder [] -> handler_step w (set_lock Free w)
| h_none w n o l : w.(k_lock) = Holder (Do n o :: l) -> w.(k_jobs) !! n = None ->
    handler_step w (set_lock (Holder l) w)
| h_do w n o l x l' x' taken : w.(k_lock) = Holder (Do n o :: l) -> w.(k_jobs) !! n = Some x ->
    exec n o x = Goes l' x' ->
    handler_step w (set_due (exec_due taken n o x w.(k_due)) (set_lock (Holder (l' ++ l)) (set_x n x' w)))
| h_add w l n taken : w.(k_lock) = Holder (Add :: l) -> w.(k_jobs) !! n = None ->
    handler_step w (set_due (add_due taken n w.(k_due)) (set_lock (Holder l) (set_x n (run_x new_x) w))).

(** [runSchedule].  The manager answers which jobs are disabled and which are paused. *)
Inductive sched_step : worker -> worker -> Prop :=
| s_boot w l : w.(k_sched) = SBoot l -> w.(k_lock) = Free ->
    sched_step w (set_lock Scheduler (set_sched (SStarting l) w))
| s_start w n l x st taken : w.(k_sched) = SStarting (n :: l) -> w.(k_jobs) !! n = Some x ->
    st = stateNone \/ st = statePaused \/ st = stateDisabled ->
    sched_step w (set_due (restart_due taken (Some st) n w.(k_due))
      (set_sched (SStarting l) (set_x n (restart_as (Some st) x) w)))
| s_started w : w.(k_sched) = SStarting [] -> sched_step w (set_lock Free (set_sched SSelect w))
| s_receive w n s f chan : w.(k_sched) = SSelect -> w.(k_chan) = (n, (s, f)) :: chan ->
    sched_step w (set_sched (SFind n f) (set_chan chan w))
| s_find w n f x : w.(k_sched) = SFind n f -> w.(k_lock) = Free -> w.(k_jobs) !! n = Some x ->
    x.(x_job).(j_state) = stateReady \/ x.(x_job).(j_state) = stateHalting ->
    sched_step w (set_sched (SReport n f) w)
(** no such job any more, or its state is not Ready *)
| s_skip w n f : w.(k_sched) = SFind n f -> w.(k_lock) = Free ->
    (forall x, w.(k_jobs) !! n = Some x ->
      x.(x_job).(j_state) <> stateReady /\ x.(x_job).(j_state) <> stateHalting) ->
    sched_step w (set_sched SSelect w)
| s_report w n f taken : w.(k_sched) = SReport n f ->
    sched_step w (set_sched SSelect (if f then set_due (add_due taken n w.(k_due)) w else w))
| s_tick w n : w.(k_sched) = SSelect -> n ∈ w.(k_due) ->
    sched_step w (set_sched (SSend n) (set_due (w.(k_due) ∖ {[n]}) w))
| s_send w n x : w.(k_sched) = SSend n -> w.(k_jobs) !! n = Some x -> x.(x_job).(j_ctrl) = None ->
    sched_step w (set_sched SSelect (set_x n (on_job (set_ctrl (Some jobStart)) x) w)).

Inductive wstep : worker -> worker -> Prop :=
| k_own w n x o sem' x' : w.(k_jobs) !! n = Some x -> own_step n w.(k_sem) x o sem' x' ->
    (o <> None -> room w) -> wstep w (set_sem sem' (push n o (set_x n x' w)))
| k_request w r : wstep w (set_wait (w.(k_wait) ++ [program r]) w)
| k_acquire w l1 p l2 : w.(k_wait) = l1 ++ p :: l2 -> w.(k_lock) = Free ->
    wstep w (set_lock (Holder p) (set_wait (l1 ++ l2) w))
| k_handler w w' : handler_step w w' -> wstep w w'
| k_schedule w w' : sched_step w w' -> wstep w w'.

(** The worker when its server starts: [initJobs] has made the jobs. *)
Definition initial (names : gset string) : worker :=
  MkK Free [] (SBoot (elements names)) [] ∅ 0 (gset_to_gmap new_x names).

(** ... and when the schedule loop was the first to take the lock. *)
Definition booting (names : gset string) : worker :=
  set_lock Scheduler (set_sched (SStarting (elements names)) (initial names)).

Definition reachable (names : gset string) (w : worker) : Prop := rtc wstep (booting names) w.

(** ** The phases of a job, as a handler sees them *)

(** [Dying]: a [jobDisable] is on its way or being obeyed. *)
Inductive phase : Type := Alive | Dying | Gone.

Definition phase_of (j : job) : phase :=
  match j.(j_pc) with
  | PReturned => Gone
  | PWaitDone ToReturn => Dying
  | _ => if decide (j.(j_ctrl) = Some jobDisable) then Dying else Alive
  end.

(** What holds of the loop of a job until [Halt]. *)
Record loop_ok (j : job) : Prop := {
  lo_inv : job_inv j;
  lo_halt : j.(j_ctrl) <> Some jobHalt;
  lo_halting : j.(j_state) <> stateHalting;
  (** a [jobDisable] is received by a loop that is not returning *)
  lo_once : j.(j_ctrl) = Some jobDisable -> j.(j_pc) <> PReturned /\ j.(j_pc) <> PWaitDone ToReturn;
  (** a loop in state Disabled that is not returning has not taken its start yet *)
  lo_waking : j.(j_state) = stateDisabled -> phase_of j = Alive -> j.(j_pc) = PTop \/ j.(j_pc) = PCtrl
}.

(** What the job's own steps make of its phase. *)
Definition phase_next (j j' : job) : Prop :=
  match phase_of j with
  | Alive => phase_of j' = Alive
      /\ (j'.(j_state) = stateDisabled -> j.(j_state) = stateDisabled /\ j'.(j_ctrl) = j.(j_ctrl))
  | Dying => phase_of j' = Dying \/ phase_of j' = Gone /\ j'.(j_state) = stateDisabled
  | Gone => phase_of j' = Gone /\ j'.(j_state) = j.(j_state)
  end.

Lemma phase_next_same j j' : j'.(j_pc) = j.(j_pc) -> j'.(j_ctrl) = j.(j_ctrl) ->
  j'.(j_state) = j.(j_state) -> phase_next j j' /\ phase_of j' = phase_of j.
Proof.
  intros Hp Hc Hs. assert (phase_of j' = phase_of j) as Heq by (unfold phase_of; by rewrite Hp, Hc).
  split; [|done]. unfold phase_next. rewrite Heq, Hs. destruct (phase_of j); auto.
Qed.

Lemma loop_ok_same j j' : job_inv j' -> j'.(j_pc) = j.(j_pc) -> j'.(j_ctrl) = j.(j_ctrl) ->
  j'.(j_state) = j.(j_state) -> loop_ok j -> loop_ok j'.
Proof.
  intros Hi Hp Hc Hs [_ H1 H2 H3 H4]. destruct (phase_next_same j j' Hp Hc Hs) as [_ He].
  split; rewrite ?Hp, ?Hc, ?Hs, ?He; auto.
Qed.

Ltac loop_cases Hp :=
  (split; [split|]); unfold phase_next, phase_of; simpl; rewrite ?Hp; simpl; auto; try case_decide; auto.

Lemma job_step_loop sem j sem' j' : loop_ok j -> job_step cap sem j sem' j' ->
  loop_ok j' /\ phase_next j j'.
Proof.
  intros Hl Hst. pose proof (job_step_inv cap sem j sem' j' (lo_inv j Hl) Hst) as Hi'.
  destruct Hst as [sem j Hp|sem j c Hp Hc Hd|sem j ctrl Hp Hc|sem j c k Hp Hc Hd
    |sem j ctrl Hp Hc|sem j c Hc Hp Hb|sem sem' j c c' Hc Hs|sem sem' j l1 c l2 c' Ho Hs];
    try match goal with |- loop_ok _ /\ phase_next ?b _ =>
      split; [by apply (loop_ok_same b)|by apply phase_next_same] end.
  - destruct Hl as [Hi H1 H2 H3 H4]. unfold phase_of in H4. rewrite Hp in *.
    unfold top_step in *. case_match eqn:Hb; [apply Z.eqb_eq in Hb|]; loop_cases Hp; by rewrite Hb.
  - destruct (receive_fields c PCtrl j) as (Ep & _ & Es & Ec & _).
    pose proof (ji_state j (lo_inv j Hl)) as Hr.
    destruct Hl as [Hi H1 H2 H3 H4]. unfold phase_of in H4. rewrite Hp in *.
    split; [split|]; unfold phase_next, phase_of; rewrite ?Ep, ?Es, ?Ec, ?Hp; auto. case_decide; auto.
  - destruct Hl as [Hi H1 H2 H3 H4]. pose proof (ji_ctrl j Hi) as Hping. rewrite Hp, Hc in *.
    unfold phase_of in H4. rewrite Hp, Hc in H4.
    destruct ctrl; try done; loop_cases Hp; rewrite ?Hc; simpl; auto; split_and?; done.
  - destruct (receive_fields c (after_done k) j) as (Ep & _ & Es & Ec & _).
    pose proof (ji_state j (lo_inv j Hl)) as Hst.
    destruct Hl as [Hi H1 H2 H3 H4]. unfold phase_of in H4. rewrite Hp in *.
    split; [split|]; unfold phase_next, phase_of; rewrite ?Ep, ?Es, ?Ec, ?Hp; auto;
      destruct k; simpl; try case_decide; naive_solver.
  - destruct Hl as [Hi H1 H2 H3 H4]. pose proof (ji_ctrl j Hi) as Hping. rewrite Hp, Hc in *.
    unfold phase_of in H4. rewrite Hp, Hc in H4.
    destruct ctrl; try done; loop_cases Hp; rewrite ?Hc; simpl; auto; split_and?; done.
Qed.

Lemma gone_returned j : phase_of j = Gone <-> j.(j_pc) = PReturned.
Proof. unfold phase_of. destruct (j_pc j) as [| | |[]|]; try case_decide; done. Qed.

Lemma send_loop j c : loop_ok j -> j.(j_ctrl) = None -> phase_of j = Alive -> c <> jobPing -> c <> jobHalt ->
  loop_ok (set_ctrl (Some c) j)
  /\ phase_of (set_ctrl (Some c) j) = if decide (c = jobDisable) then Dying else Alive.
Proof.
  intros [Hi H1 H2 H3 H4] Hn Ha Hc1 Hc2.
  pose proof (worker_step_inv j _ Hi (w_send j c Hc1 Hn)) as Hi'.
  assert (phase_of (set_ctrl (Some c) j) = if decide (c = jobDisable) then Dying else Alive) as Hp.
  { unfold phase_of in *. simpl. rewrite Hn in Ha.
    destruct (j_pc j) as [| | |[]|]; simpl in *; try done; repeat case_decide; congruence. }
  split; [|done]. split; simpl; auto; [congruence|].
  intros _. unfold phase_of in Ha. by destruct (j_pc j) as [| | |[]|].
Qed.

(** A start sent by a tick changes no phase. *)
Lemma tick_loop j : loop_ok j -> j.(j_ctrl) = None ->
  loop_ok (set_ctrl (Some jobStart) j) /\ phase_of (set_ctrl (Some jobStart) j) = phase_of j.
Proof.
  intros [Hi H1 H2 H3 H4] Hn.
  pose proof (worker_step_inv j _ Hi (w_send j jobStart ltac:(done) Hn)) as Hi'.
  assert (phase_of (set_ctrl (Some jobStart) j) = phase_of j) as Hp.
  { unfold phase_of. simpl. rewrite Hn. by destruct (j_pc j) as [| | |[]|]. }
  split; [|done]. split; rewrite ?Hp; simpl; auto; congruence.
Qed.

Lemma run_loop x st : loop_ok x.(x_job) -> phase_of x.(x_job) = Gone -> st <> stateHalting ->
  let x' := run_x (on_job (set_state st) x) in
  loop_ok x'.(x_job) /\ phase_of x'.(x_job) = Alive /\ x'.(x_job).(j_state) = st.
Proof.
  intros [Hi H1 H2 H3 H4] Hg Hst. pose proof (proj1 (gone_returned _) Hg) as Hp.
  assert (Hn : j_ctrl (x_job x) <> Some jobDisable) by (intros Hn; by apply H3 in Hn as []).
  assert (Hi' : job_inv (start_run (set_state st (x_job x)))).
  { apply (worker_step_inv (set_state st (x_job x))); [apply (worker_step_inv _ _ Hi); by apply w_set|by apply w_run]. }
  assert (phase_of (start_run (set_state st (x_job x))) = Alive) as Ha
    by (unfold phase_of; simpl; by rewrite decide_False).
  split_and!; [|done|done]. split; simpl; auto.
Qed.

Lemma set_state_id j : set_state j.(j_state) j = j.
Proof. by destruct j. Qed.

Lemma on_job_id x f : f x.(x_job) = x.(x_job) -> on_job f x = x.
Proof. intros H. unfold on_job. rewrite H. by destruct x. Qed.

(** The start of a modified job. *)
Lemma restart_cases before x : x.(x_job).(j_state) <> stateHalting ->
  restart_as before x = x \/ restart_as before x = on_job (set_state stateDisabled) x
  \/ exists st, st <> stateHalting /\ st <> stateDisabled /\ restart_as before x = run_x (on_job (set_state st) x).
Proof.
  intros Hh. unfold restart_as. destruct before as [st|]; [|by left].
  repeat case_decide; [by right; left|right; right; by exists statePaused|right; right; by exists stateNone].
Qed.

(** ** The invariant *)

Definition awaiting (w : worker) (n : string) : Prop :=
  exists before l, w.(k_lock) = Holder (Do n (Await before) :: l).
Definition sending (w : worker) (n : string) : Prop :=
  exists c l, w.(k_lock) = Holder (Do n (Send c) :: l).
Definition pending (w : worker) : list string :=
  match w.(k_sched) with SStarting l | SBoot l => l | _ => [] end.

(** A job, where [A]: its end is awaited, [B]: an action is being sent to it, [P]: the
    schedule loop has still to start it. *)
Record x_ok (A B P : Prop) (x : wjob) : Prop := {
  xo_loop : loop_ok x.(x_job);
  xo_dying : phase_of x.(x_job) = Dying -> A;
  xo_gone : phase_of x.(x_job) = Gone -> x.(x_job).(j_state) = stateDisabled \/ x_started x = false /\ P;
  xo_new : x_started x = false -> phase_of x.(x_job) = Gone;
  (** a loop that has not begun is at its head *)
  xo_fresh : x_fresh x = true -> x.(x_job).(j_pc) = PTop;
  xo_waking : x.(x_job).(j_state) = stateDisabled -> phase_of x.(x_job) = Alive ->
    x.(x_job).(j_ctrl) <> None \/ B
}.

Lemma x_ok_mono (A B P A' B' P' : Prop) x : x_ok A B P x ->
  (phase_of x.(x_job) = Dying -> A -> A') ->
  (x.(x_job).(j_state) = stateDisabled -> x.(x_job).(j_ctrl) = None -> B -> B') -> (P -> P') -> x_ok A' B' P' x.
Proof.
  intros [H1 H2 H3 H4 H6 H5] HA HB HP. split; auto.
  { intros Hg. destruct (H3 Hg) as [|[]]; auto. }
  intros Hd Ha. destruct (j_ctrl (x_job x)) eqn:Hc; [by left|]. destruct (H5 Hd Ha) as [H|H]; [done|]. right. by apply HB.
Qed.

Lemma own_step_ok A B P n sem x o sem' x' : x_ok A B P x -> own_step n sem x o sem' x' ->
  x_ok A B P x' /\ phase_next x.(x_job) x'.(x_job) /\ x_started x' = x_started x.
Proof.
  intros [H1 H2 H3 H4 H6 H5] Hs. destruct Hs as [sem x Hf|sem x sem' j' Hj Hfr _|sem x c o s' m Hc _ _ _]; simpl.
  - assert (x_started x = true) as Hst by (unfold x_fresh, x_started in *; by destruct (x_run x)).
    split; [|split; [by apply phase_next_same|by rewrite Hst]]. split; simpl; try done.
    intros Hg. apply gone_returned in Hg. rewrite (H6 Hf) in Hg. done.
  - destruct (job_step_loop _ _ _ _ H1 Hj) as [Hl Hn]. split; [|done].
    unfold phase_next in Hn. split; simpl; [done|..].
    + intros Hd. destruct (phase_of (x_job x)); [destruct Hn; congruence|auto|destruct Hn; congruence].
    + intros Hg. destruct (phase_of (x_job x)); [destruct Hn; congruence| |destruct Hn as [_ ->]; auto].
      destruct Hn as [Hn|[_ Hn]]; [congruence|auto].
    + intros Hf. rewrite (H4 Hf) in Hn. apply Hn.
    + intros Hf. rewrite (Hfr Hf). auto.
    + intros Hd Ha. destruct (phase_of (x_job x)); [|destruct Hn as [|[]]; congruence|destruct Hn; congruence].
      destruct Hn as [_ Hn]. destruct (Hn Hd) as [Hd' ->]. auto.
  - split; [by split|]. split; [|done]. by apply phase_next_same.
Qed.

(** The requests at the lock, and what a handler has left after its next operation. *)
Definition plain (c : ctrlAction) : bool :=
  match c with jobStart | jobForceStart | jobRestart | jobStop => true | _ => false end.

Fixpoint wf (p : list instr) : Prop :=
  match p with
  | [] => True
  | Do n Flush :: p => match p with [] => True | Do n' o :: _ => n' = n /\ o <> Flush | Add :: _ => False end /\ wf p
  | Do n StartIf :: p =>
      match p with Do n' (Send c) :: p => n' = n /\ plain c = true /\ wf p | _ => False end
  | Do n (Stop | Disable None | Modify) :: p => wf p
  | Add :: p => wf p
  | _ => False
  end.

(** What a handler that holds the lock relies on. *)
Definition head_ok (jobs : gmap string wjob) (p : list instr) : Prop :=
  match p with
  | Do n (Send c) :: l =>
      (forall x, jobs !! n = Some x -> phase_of x.(x_job) = Alive)
      /\ if decide (c = jobDisable)
         then match l with Do n' (Await _) :: l => n' = n /\ wf l | _ => False end
         else plain c = true /\ wf l
  | Do n (Await _) :: l =>
      (forall x, jobs !! n = Some x -> phase_of x.(x_job) <> Alive /\ x_started x = true) /\ wf l
  | Do n (Disable (Some st)) :: l =>
      (forall x, jobs !! n = Some x -> st <> stateDisabled -> x.(x_job).(j_state) <> stateDisabled) /\ wf l
  | _ => wf p
  end.

Lemma wf_head jobs p : wf p -> head_ok jobs p.
Proof. by destruct p as [|[n [| | | |[]| |]|] p]. Qed.

Lemma program_wf r : wf (program r).
Proof.
  destruct r as [c force n|changes additions]; simpl.
  - unfold command_program. repeat case_decide; simpl; auto. by destruct force.
  - unfold reload_program. induction changes as [|[n|n] changes IH]; simpl; auto.
    by induction additions.
Qed.

(** What the others may do to the job a handler relies on. *)
Definition kept (x x' : wjob) : Prop :=
  (phase_of x.(x_job) = Alive -> phase_of x'.(x_job) = Alive)
  /\ (phase_of x.(x_job) <> Alive -> phase_of x'.(x_job) <> Alive)
  /\ (x'.(x_job).(j_state) = stateDisabled -> x.(x_job).(j_state) = stateDisabled \/ phase_of x.(x_job) = Dying)
  /\ x_started x' = x_started x.

Lemma head_ok_kept A jobs n x x' p : jobs !! n = Some x -> kept x x' ->
  (phase_of x.(x_job) = Dying -> A) -> (A -> exists before l, p = Do n (Await before) :: l) ->
  head_ok jobs p -> head_ok (<[n := x']> jobs) p.
Proof.
  intros Hn (K1 & K2 & K3 & K4) HA Hp Hh.
  assert (Hl : forall m (Q : wjob -> Prop), (m = n -> Q x -> Q x') ->
    (forall y, jobs !! m = Some y -> Q y) -> forall y, <[n := x']> jobs !! m = Some y -> Q y).
  { intros m Q HQ Hall y [[<- <-]|[_ Hy]]%lookup_insert_Some; auto. }
  destruct p as [|[m [| |c| |[st|]|before|]|] l]; simpl in *; try done; destruct Hh as [Hh Hw]; (split; [|done]).
  - by apply (Hl m (fun x => phase_of x.(x_job) = Alive)); auto.
  - apply (Hl m (fun y => st <> stateDisabled -> y.(x_job).(j_state) <> stateDisabled)); [|done].
    intros Hm Hd Hst Hd'. destruct (K3 Hd') as [|Hdy]; [by destruct Hd|]. by destruct (Hp (HA Hdy)) as (? & ? & ?).
  - apply (Hl m (fun x => phase_of x.(x_job) <> Alive /\ x_started x = true)); [|done].
    intros _ [H1 H2]. rewrite K4. auto.
Qed.

Lemma phase_next_kept x x' : phase_next x.(x_job) x'.(x_job) -> x_started x' = x_started x -> kept x x'.
Proof.
  unfold phase_next, kept. intros Hn Hs. destruct (phase_of (x_job x)); split_and!; try done; try (destruct Hn; congruence).
  - intros Hd. destruct Hn as [_ Hn]. left. by apply Hn.
  - destruct Hn as [Hn|[Hn _]]; congruence.
  - auto.
  - destruct Hn as [_ ->]. auto.
Qed.

(** The jobs as [JobLoop] sees them. *)
Definition forget (w : worker) : system := MkSystem w.(k_sem) (x_job <$> w.(k_jobs)).

Record winv (w : worker) : Prop := {
  wi_reach : JobLoop.reachable cap (forget w);
  wi_jobs : forall n x, w.(k_jobs) !! n = Some x ->
    x_ok (awaiting w n) (sending w n) (n ∈ pending w) x;
  wi_wait : Forall wf w.(k_wait);
  wi_head : forall p, w.(k_lock) = Holder p -> head_ok w.(k_jobs) p;
  wi_starting : w.(k_lock) = Scheduler <-> pending w <> [] \/ w.(k_sched) = SStarting [];
  wi_booted : forall l, w.(k_sched) <> SBoot l;
  wi_pending : NoDup (pending w) /\ forall n x, n ∈ pending w -> w.(k_jobs) !! n = Some x -> x_started x = false
}.

Lemma forget_worker w n x x' : w.(k_jobs) !! n = Some x -> rtc worker_step x.(x_job) x'.(x_job) ->
  rtc (JobLoop.step cap) (forget w) (forget (set_x n x' w)).
Proof.
  intros Hn Hr. assert (forget (set_x n x' w) = MkSystem (k_sem w) (<[n := x_job x']> (x_job <$> k_jobs w))) as ->
    by (unfold forget; simpl; by rewrite fmap_insert).
  assert (Hl : (x_job <$> k_jobs w) !! n = Some (x_job x)) by (by rewrite lookup_fmap, Hn).
  unfold forget. revert Hl. generalize (x_job <$> k_jobs w). clear Hn.
  induction Hr as [j|j1 j2 j3 Hs Hr IH]; intros m Hl; [by rewrite insert_id|].
  eapply rtc_l; [by eapply s_worker|]. simpl. rewrite <- (insert_insert_eq m n j3 j2).
  apply IH. apply lookup_insert_eq.
Qed.

Lemma forget_own w n x o sem' x' : w.(k_jobs) !! n = Some x -> own_step n w.(k_sem) x o sem' x' ->
  rtc (JobLoop.step cap) (forget w) (forget (set_sem sem' (push n o (set_x n x' w)))).
Proof.
  intros Hn Hs. unfold forget. simpl. rewrite fmap_insert.
  assert (Hl : (x_job <$> k_jobs w) !! n = Some (x_job x)) by (by rewrite lookup_fmap, Hn).
  inversion Hs as [? ? _|? ? ? j' Hj _ _|? ? c ? s' ? Hc _ _ _]; subst; simpl.
  - by rewrite insert_id.
  - apply rtc_once. by eapply (s_job cap (MkSystem _ _)).
  - by rewrite insert_id.
Qed.

(** No job is being disabled under an operation other than the wait, and one that is not
    disabled has a loop. *)
Lemma not_dying w n x o l m : winv w -> w.(k_lock) = Holder (Do m o :: l) -> w.(k_jobs) !! n = Some x ->
  (forall before, n = m -> o <> Await before) -> phase_of x.(x_job) <> Dying.
Proof.
  intros Hw Hl Hn Ho Hd. destruct (xo_dying _ _ _ _ (wi_jobs w Hw n x Hn) Hd) as (before & l' & He).
  rewrite Hl in He. injection He as -> -> _. by destruct (Ho before).
Qed.

Lemma not_pending w p n : winv w -> w.(k_lock) = Holder p -> n ∉ pending w.
Proof.
  intros Hw Hl Hin. assert (w.(k_lock) = Scheduler) as Hs; [|by rewrite Hl in Hs].
  apply (wi_starting w Hw). left. intros He. rewrite He in Hin. by apply elem_of_nil in Hin.
Qed.

Lemma alive_job w n x o l : winv w -> w.(k_lock) = Holder (Do n o :: l) -> w.(k_jobs) !! n = Some x ->
  (forall before, o <> Await before) -> x.(x_job).(j_state) <> stateDisabled -> phase_of x.(x_job) = Alive.
Proof.
  intros Hw Hl Hn Ho Hd. pose proof (not_dying w n x o l n Hw Hl Hn ltac:(auto)) as Hnd.
  destruct (phase_of (x_job x)) eqn:Hp; [done|done|].
  destruct (xo_gone _ _ _ _ (wi_jobs w Hw n x Hn) Hp) as [|[_ HP]]; [done|].
  by apply (not_pending w _ n Hw Hl) in HP.
Qed.

(** An operation of the handler that holds the lock. *)
Lemma winv_do w n o l x x' p : winv w -> w.(k_lock) = Holder (Do n o :: l) -> w.(k_jobs) !! n = Some x ->
  rtc worker_step x.(x_job) x'.(x_job) ->
  (let w' := set_lock (Holder p) (set_x n x' w) in x_ok (awaiting w' n) (sending w' n) False x') ->
  head_ok (<[n := x']> w.(k_jobs)) p -> winv (set_lock (Holder p) (set_x n x' w)).
Proof.
  intros Hw Hl Hn Hr Hx Hh. assert (Hp : forall m, m ∉ pending w) by (intros m; by eapply not_pending).
  split; simpl.
  - unfold JobLoop.reachable. etrans; [apply (wi_reach w Hw)|]. by apply forget_worker with x.
  - intros m y [[<- <-]|[Hne Hm]]%lookup_insert_Some; [by eapply x_ok_mono; [exact Hx|..]|].
    eapply x_ok_mono; [by apply (wi_jobs w Hw)|..].
    + intros _ (b & l' & He). rewrite Hl in He. by injection He as ->.
    + intros _ _ (c & l' & He). rewrite Hl in He. by injection He as ->.
    + done.
  - apply (wi_wait w Hw).
  - by intros q [= <-].
  - split; [done|]. intros Hs. apply (wi_starting w Hw) in Hs. congruence.
  - apply (wi_booted w Hw).
  - split; [apply (wi_pending w Hw)|]. intros m y Hm. by apply Hp in Hm.
Qed.

Lemma wf_head_keep n o l jobs : head_ok jobs (Do n o :: l) ->
  match o with
  | StartIf => exists c l', l = Do n (Send c) :: l' /\ plain c = true /\ wf l'
  | Send c => if decide (c = jobDisable) then exists b l', l = Do n (Await b) :: l' /\ wf l' else plain c = true /\ wf l
  | _ => wf l
  end.
Proof.
  destruct o as [| |c| |[]| |]; simpl; try done; try (by intros []).
  - destruct l as [|[n' [| |c| | | |]|] l']; try done. intros (-> & Hc & Hw). eauto.
  - intros [_ H]. case_decide; [|done]. destruct l as [|[n' [| | | | |b|]|] l']; try done. destruct H as [-> H]. eauto.
Qed.

Lemma plain_spec c : plain c = true -> c <> jobDisable /\ c <> jobPing /\ c <> jobHalt.
Proof. by destruct c. Qed.

(** An operation that leaves its job as it is. *)
Lemma winv_same w n o l x p : winv w -> w.(k_lock) = Holder (Do n o :: l) -> w.(k_jobs) !! n = Some x ->
  (forall b, o <> Await b) -> (forall c, o <> Send c) -> head_ok w.(k_jobs) p ->
  winv (set_lock (Holder p) (set_x n x w)).
Proof.
  intros Hw Hl Hn Ha Hs Hp. apply (winv_do w n o l x); [done|done|done|apply rtc_refl| |by rewrite insert_id].
  eapply x_ok_mono; [by apply (wi_jobs w Hw)|..].
  - intros Hd. by destruct (not_dying w n x o l n Hw Hl Hn ltac:(auto)).
  - intros _ _ (c & l' & He). rewrite Hl in He. injection He as -> _. by destruct (Hs c).
  - by apply not_pending with (p := Do n o :: l).
Qed.

Lemma head_send jobs n x c l : jobs !! n = Some x -> phase_of x.(x_job) = Alive -> plain c = true -> wf l ->
  head_ok jobs (Do n (Send c) :: l).
Proof.
  intros Hn Ha Hc Hw. simpl. rewrite decide_False by by apply plain_spec.
  split; [|done]. intros y Hy. congruence.
Qed.

Definition op_keeps (o : op) : Prop := forall w n l x l' x', winv w -> w.(k_lock) = Holder (Do n o :: l) ->
  w.(k_jobs) !! n = Some x -> exec n o x = Goes l' x' ->
  winv (set_lock (Holder (l' ++ l)) (set_x n x' w)).

Lemma keeps_Flush : op_keeps Flush.
Proof.
  intros w n l x l' x' Hw Hl Hn He. pose proof (wf_head_keep n Flush l _ (wi_head w Hw _ Hl)) as Hk.
  simpl in He. injection He as <- <-. eapply winv_same; try done. by apply wf_head.
Qed.

Lemma keeps_StartIf : op_keeps StartIf.
Proof.
  intros w n l x l' x' Hw Hl Hn He. pose proof (xo_loop _ _ _ _ (wi_jobs w Hw n x Hn)) as Hlo.
  destruct (wf_head_keep n StartIf l _ (wi_head w Hw _ Hl)) as (c & l0 & -> & Hc & Hwf).
  simpl in He. case_bool_decide as Hd; [case_bool_decide as Hp; [|done]|]; injection He as <- <-; simpl.
  - destruct (run_loop x (j_state (x_job x)) Hlo (proj2 (gone_returned _) Hp) (lo_halting _ Hlo)) as (R1 & R2 & R3).
    rewrite (on_job_id x (set_state _)) in R1, R2, R3 by apply set_state_id.
    eapply winv_do; [done|done|done|by apply rtc_once, w_run|..].
    + split; [done|congruence|congruence|done|done|]. intros _ _. right. by exists c, l0.
    + eapply head_send; [apply lookup_insert_eq|done..].
  - eapply winv_same; [done|done|done|done|done|]. eapply head_send; [done| |done..].
    by eapply alive_job.
Qed.

Lemma keeps_Send c : op_keeps (Send c).
Proof.
  intros w n l x l' x' Hw Hl Hn He. pose proof (wi_jobs w Hw n x Hn) as Hx.
  pose proof (xo_loop _ _ _ _ Hx) as Hlo. pose proof (wi_head w Hw _ Hl) as Hh.
  pose proof (wf_head_keep n _ l _ Hh) as Hk. pose proof (proj1 Hh x Hn) as Ha. clear Hh.
  simpl in He, Hk. destruct (j_ctrl (x_job x)) eqn:Hc; [done|]. injection He as <- <-.
  assert (c <> jobPing /\ c <> jobHalt) as [Hc1 Hc2].
  { case_decide as Hd; [by subst|]. by destruct Hk as [[_ Hk]%plain_spec _]. }
  destruct (send_loop _ c Hlo Hc Ha Hc1 Hc2) as [L1 L2].
  assert (x_started x = true) as Hst.
  { destruct (x_started x) eqn:Hs; [done|]. pose proof (xo_new _ _ _ _ Hx Hs). congruence. }
  eapply winv_do; [done|done|done|by apply rtc_once, w_send|..]; simpl.
  - split; simpl; [done| |rewrite L2; by case_decide
      |intros Hs; change (x_started x = false) in Hs; congruence|apply (xo_fresh _ _ _ _ Hx)|by left].
    rewrite L2. case_decide; [|done]. intros _. destruct Hk as (b & l0 & -> & _). by exists b, l0.
  - destruct (decide (c = jobDisable)) as [Hd|Hd]; [|apply wf_head, Hk].
    destruct Hk as (b & l0 & -> & Hwf). simpl. split; [|done].
    intros y. rewrite lookup_insert_eq. intros [= <-]. simpl. by rewrite L2.
Qed.

Lemma keeps_Stop : op_keeps Stop.
Proof.
  intros w n l x l' x' Hw Hl Hn He. pose proof (wf_head_keep n Stop l _ (wi_head w Hw _ Hl)) as Hk.
  simpl in He. injection He as <- <-. case_bool_decide as Hd; simpl.
  - eapply winv_same; try done. by apply wf_head.
  - eapply winv_same; try done. eapply head_send; [done| |done..]. by eapply alive_job.
Qed.

Lemma keeps_Disable before : op_keeps (Disable before).
Proof.
  intros w n l x l' x' Hw Hl Hn He. pose proof (wi_head w Hw _ Hl) as Hh.
  pose proof (wf_head_keep n (Disable before) l _ Hh) as Hk.
  simpl in He. case_bool_decide as Hd; injection He as <- <-; simpl.
  - assert (restart_as before x = x) as ->.
    { destruct before as [st|]; [|done]. simpl in Hh. unfold restart_as. rewrite decide_True.
      - rewrite <- Hd. apply on_job_id, set_state_id.
      - destruct (decide (st = stateDisabled)) as [|Hst]; [done|]. by destruct (proj1 Hh x Hn Hst). }
    eapply winv_same; try done. by apply wf_head.
  - eapply winv_same; try done. simpl. split; [|done].
    intros y Hy. rewrite Hn in Hy. injection Hy as <-. by eapply alive_job.
Qed.

(** The start of a job whose [Run] is not running. *)
Lemma restart_ok (A B P A' B' P' : Prop) before x : x_ok A B P x -> phase_of x.(x_job) = Gone ->
  (restart_as before x = x -> x.(x_job).(j_state) <> stateDisabled -> P -> P') ->
  x_ok A' B' P' (restart_as before x) /\ rtc JobLoop.worker_step x.(x_job) (restart_as before x).(x_job).
Proof.
  intros [Hlo _ Hgone Hnew Hfr _] Hg HP. pose proof (proj1 (gone_returned _) Hg) as Hp.
  assert (Hret : forall st, rtc JobLoop.worker_step (x_job x) (set_state st (x_job x)))
    by (intros st; by apply rtc_once, w_set).
  destruct (restart_cases before x (lo_halting _ Hlo)) as [He|[He|(st & Hst1 & Hst2 & He)]]; rewrite He in *.
  - split; [|apply rtc_refl]. split; try done; try congruence. intros _.
    destruct (decide (j_state (x_job x) = stateDisabled)) as [|Hd]; [by left|]. destruct (Hgone Hg) as [|[]]; auto.
  - split; [|apply Hret]. destruct Hlo as [Hi H1 H2 H3 H4].
    assert (job_inv (set_state stateDisabled (x_job x))) by (apply (worker_step_inv _ _ Hi); by apply w_set).
    assert (phase_of (set_state stateDisabled (x_job x)) = Gone) as Hg' by done.
    split; simpl; rewrite ?Hg'; try done; [|by left]. by split; simpl; rewrite ?Hg'.
  - split; [|eapply rtc_r; [apply Hret|by apply w_run]].
    destruct (run_loop x st Hlo Hg Hst1) as (R1 & R2 & R3). split; [done|congruence|congruence|done|done|congruence].
Qed.

Lemma keeps_Await before : op_keeps (Await before).
Proof.
  intros w n l x l' x' Hw Hl Hn He. pose proof (wi_jobs w Hw n x Hn) as Hx.
  pose proof (wf_head_keep n (Await before) l _ (wi_head w Hw _ Hl)) as Hk.
  simpl in He. destruct (x_fresh x); [done|]. destruct (x_started x && _) eqn:Hb; [|done]. injection He as <- <-. simpl.
  apply andb_true_iff in Hb as [_ Hp%bool_decide_eq_true].
  assert (Hr : forall A B, x_ok A B False (restart_as before x)
    /\ rtc JobLoop.worker_step (x_job x) (x_job (restart_as before x))).
  { intros A B. eapply restart_ok; [exact Hx|by apply gone_returned|]. intros _ _.
    by apply not_pending with (p := Do n (Await before) :: l). }
  eapply winv_do; try done; [by apply (Hr False False)|apply Hr|by apply wf_head].
Qed.

Lemma keeps_Modify : op_keeps Modify.
Proof.
  intros w n l x l' x' Hw Hl Hn He. pose proof (wf_head_keep n Modify l _ (wi_head w Hw _ Hl)) as Hk.
  simpl in He. injection He as <- <-. eapply winv_same; try done. simpl. split; [|done]. congruence.
Qed.

Lemma exec_inv o : op_keeps o.
Proof.
  destruct o; [apply keeps_Flush|apply keeps_StartIf|apply keeps_Send|apply keeps_Stop|apply keeps_Disable
    |apply keeps_Await|apply keeps_Modify].
Qed.

(** The others change a job as the handler that holds the lock allows. *)
Lemma winv_kept w w' n x x' : winv w -> w.(k_jobs) !! n = Some x ->
  w'.(k_lock) = w.(k_lock) -> w'.(k_wait) = w.(k_wait) -> w'.(k_sched) = w.(k_sched) ->
  w'.(k_jobs) = <[n := x']> w.(k_jobs) -> rtc (JobLoop.step cap) (forget w) (forget w') ->
  x_ok (awaiting w n) (sending w n) (n ∈ pending w) x' -> kept x x' -> winv w'.
Proof.
  intros Hw Hn El Ew Es Ej Hr Hx Hk. unfold awaiting, sending, pending in Hx.
  assert (Hx' : x_ok (awaiting w' n) (sending w' n) (n ∈ pending w') x')
    by (unfold awaiting, sending, pending; by rewrite El, Es).
  split; unfold pending in *; rewrite ?El, ?Ew, ?Es, ?Ej.
  - unfold JobLoop.reachable. etrans; [apply (wi_reach w Hw)|done].
  - intros m y [[<- <-]|[Hne Hm]]%lookup_insert_Some; [by rewrite Es in Hx'|].
    unfold awaiting, sending. rewrite El. apply (wi_jobs w Hw m y Hm).
  - apply (wi_wait w Hw).
  - intros p Hp. apply (head_ok_kept (awaiting w n) _ _ x); [done|done| | |by apply (wi_head w Hw)].
    + apply (xo_dying _ _ _ _ (wi_jobs w Hw n x Hn)).
    + intros (b & l & Hl). exists b, l. rewrite Hp in Hl. by injection Hl.
  - apply (wi_starting w Hw).
  - apply (wi_booted w Hw).
  - split; [apply (wi_pending w Hw)|]. intros m y Hm [[<- <-]|[Hne Hy]]%lookup_insert_Some.
    + destruct Hk as (_ & _ & _ & ->). by apply (proj2 (wi_pending w Hw) n x).
    + by apply (proj2 (wi_pending w Hw) m y).
Qed.

Lemma own_inv w n x o sem' x' : winv w -> w.(k_jobs) !! n = Some x -> own_step n w.(k_sem) x o sem' x' ->
  winv (set_sem sem' (push n o (set_x n x' w))).
Proof.
  intros Hw Hn Hs. destruct (own_step_ok _ _ _ _ _ _ _ _ _ (wi_jobs w Hw n x Hn) Hs) as (Hx & Hp & Hst).
  eapply (winv_kept w _ n x x'); try done; [by eapply forget_own|by apply phase_next_kept].
Qed.

(** Between the [select] and the lookup, the report and the tick of the schedule loop. *)
Definition booted (s : sched_pc) : bool := match s with SBoot _ | SStarting _ => false | _ => true end.

Lemma booted_pending w : booted w.(k_sched) = true -> pending w = [] /\ w.(k_sched) <> SStarting [].
Proof. unfold pending. by destruct (k_sched w). Qed.

Lemma winv_sched w s chan : winv w -> booted w.(k_sched) = true -> booted s = true ->
  winv (set_sched s (set_chan chan w)).
Proof.
  intros Hw Hb Hb'. destruct (booted_pending w Hb) as [Hp Hs].
  assert (pending (set_sched s (set_chan chan w)) = []) as Hp' by (by apply booted_pending).
  split; [apply (wi_reach w Hw)| |apply (wi_wait w Hw)|apply (wi_head w Hw)| | |]; simpl.
  - intros n x Hn. rewrite Hp', <- Hp. apply (wi_jobs w Hw n x Hn).
  - rewrite Hp'. split; [|by intros [|Hs']; [|rewrite Hs' in Hb']].
    intros [H|H]%(wi_starting w Hw); congruence.
  - intros l ->. done.
  - rewrite Hp'. split; [constructor|]. by intros n x Hn%elem_of_nil.
Qed.

(** The lock changes hands while no job is waited for or being sent to. *)
Lemma winv_lock w a : winv w -> w.(k_lock) <> Scheduler -> a <> Scheduler ->
  (forall p, a = Holder p -> head_ok w.(k_jobs) p) ->
  (forall n x, w.(k_jobs) !! n = Some x -> ~ awaiting w n /\ ~ sending w n) -> winv (set_lock a w).
Proof.
  intros Hw Hl Ha Hh Hno.
  split; [apply (wi_reach w Hw)| |apply (wi_wait w Hw)|done| |apply (wi_booted w Hw)|apply (wi_pending w Hw)].
  - intros n x Hn. destruct (Hno n x Hn). by eapply x_ok_mono; [by apply (wi_jobs w Hw)|..].
  - simpl. split; [done|]. intros H. by apply (wi_starting w Hw) in H.
Qed.

Lemma winv_due w d : winv w -> winv (set_due d w).
Proof. by intros [H1 H2 H3 H4 H5 H6 H7]; split. Qed.

Lemma winv_wait w l : winv w -> Forall wf l -> winv (set_wait l w).
Proof. intros [H1 H2 _ H4 H5 H6 H7] Hl. by split. Qed.

Lemma run_new_ok (A B P : Prop) : x_ok A B P (run_x new_x).
Proof.
  destruct (run_loop new_x stateNone) as (R1 & R2 & R3); [split; try done; apply new_inv|done|done|].
  change (run_x (on_job (set_state stateNone) new_x)) with (run_x new_x) in *.
  split; [exact R1|by rewrite R2|by rewrite R2|done|done|done].
Qed.

Lemma handler_inv w w' : winv w -> handler_step w w' -> winv w'.
Proof.
  intros Hw Hs. destruct Hs as [w Hl|w n o l Hl Hn|w n o l x l' x' taken Hl Hn He|w l n taken Hl Hn].
  - apply winv_lock; [done|by rewrite Hl|done|done|]. intros n x _. unfold awaiting, sending. rewrite Hl. naive_solver.
  - apply winv_lock; [done|by rewrite Hl|done| |].
    + intros p [= <-]. pose proof (wi_head w Hw _ Hl) as Hh. pose proof (wf_head_keep n o l _ Hh) as Hk.
      destruct o as [| |c| | | |]; try by apply wf_head.
      * destruct Hk as (c & l' & -> & Hc & Hwf). simpl. rewrite decide_False by by apply plain_spec.
        split; [|done]. congruence.
      * simpl in Hk. case_decide; [|apply wf_head, Hk]. destruct Hk as (b & l' & -> & Hwf). simpl.
        split; [|done]. congruence.
    + intros m x Hm. unfold awaiting, sending. rewrite Hl.
      split; intros (? & ? & [= <- ? ?]); congruence.
  - by apply winv_due, (exec_inv o w n l x).
  - apply winv_due. assert (Hw' : winv (set_lock (Holder l) w)).
    { apply winv_lock; [done|by rewrite Hl|done| |].
      - intros p [= <-]. apply wf_head, (wi_head w Hw _ Hl).
      - intros m x _. unfold awaiting, sending. rewrite Hl. split; by intros (? & ? & ?). }
    destruct Hw' as [H1 H2 H3 H4 H5 H6 H7].
    split; [| |done| |done|done|].
    + unfold JobLoop.reachable in *. eapply rtc_r; [eapply rtc_r; [exact H1|]|].
      * apply (s_new cap _ n). simpl. by rewrite lookup_fmap, Hn.
      * unfold forget. simpl. rewrite fmap_insert. rewrite <- (insert_insert_eq _ n (start_run newMirrorJob) newMirrorJob).
        eapply s_worker; [apply lookup_insert_eq|by apply w_run].
    + simpl. intros m x [[<- <-]|[Hne Hm]]%lookup_insert_Some; [|by apply H2].
      apply run_new_ok.
    + intros p [= <-]. apply wf_head. pose proof (wi_head w Hw _ Hl) as Hh. exact Hh.
    + split; [apply H7|]. simpl. intros m x Hm [[<- <-]|[Hne Hx]]%lookup_insert_Some; [|by apply (proj2 H7 m)].
      by apply (not_pending w _ n Hw Hl) in Hm.
Qed.

Lemma sched_inv w w' : winv w -> sched_step w w' -> winv w'.
Proof.
  intros Hw Hs. destruct Hs as [w l Hs Hl|w n l x st taken Hs Hn Hst|w Hs|w n s f chan Hs Hc|w n f x Hs Hl Hn Hst|w n f Hs Hl Hst
    |w n f taken Hs|w n Hs Hn|w n x Hs Hn Hc].
  - by destruct (wi_booted w Hw l).
  - apply winv_due. assert (Hin : pending w = n :: l) by (unfold pending; by rewrite Hs).
    assert (Hl : k_lock w = Scheduler) by (apply (wi_starting w Hw); rewrite Hin; by left).
    destruct (wi_pending w Hw) as [Hnd Hpend]. rewrite Hin in Hnd, Hpend. apply NoDup_cons in Hnd as [Hnl Hnd].
    pose proof (wi_jobs w Hw n x Hn) as Hx.
    assert (Hnew : x_started x = false) by (apply (Hpend n); [by left|done]).
    destruct (restart_ok _ _ _ False False (n ∈ l) (Some st) x Hx (xo_new _ _ _ _ Hx Hnew)) as [Hx' Hr].
    { unfold restart_as. repeat case_decide; intros He Hd; [|by rewrite <- He in Hnew..].
      destruct Hd. by rewrite <- He. }
    split; unfold pending; simpl; [| |apply (wi_wait w Hw)| | | |].
    + unfold JobLoop.reachable. etrans; [apply (wi_reach w Hw)|]. by apply (forget_worker w n x).
    + intros m y [[<- <-]|[Hne Hm]]%lookup_insert_Some; [by eapply x_ok_mono; [exact Hx'|..]|].
      eapply x_ok_mono; [by apply (wi_jobs w Hw)|done|done|]. rewrite Hin. intros [->|]%elem_of_cons; done.
    + intros p Hp. by rewrite Hl in Hp.
    + split; [|done]. intros _. destruct l; [by right|by left].
    + done.
    + split; [done|]. intros m y Hm [[<- <-]|[Hne Hy]]%lookup_insert_Some; [done|].
      apply (Hpend m); [by right|done].
  - assert (Hl : k_lock w = Scheduler) by (apply (wi_starting w Hw); by right).
    assert (Hp : pending w = []) by (unfold pending; by rewrite Hs).
    split; unfold pending; simpl; [apply (wi_reach w Hw)| |apply (wi_wait w Hw)|done| |done|].
    + intros n x Hn. eapply x_ok_mono; [by apply (wi_jobs w Hw)|..]; rewrite ?Hp; try done;
        unfold awaiting, sending; rewrite Hl; naive_solver.
    + split; [done|]. by intros [].
    + split; [constructor|]. by intros n x Hn%elem_of_nil.
  - apply winv_sched; [done|by rewrite Hs|done].
  - apply (winv_sched w (SReport n f) (k_chan w)); [done|by rewrite Hs|done].
  - apply (winv_sched w SSelect (k_chan w)); [done|by rewrite Hs|done].
  - destruct f; [apply (winv_sched (set_due _ w) SSelect (k_chan w)); [by apply winv_due|simpl; by rewrite Hs|done]|].
    apply (winv_sched w SSelect (k_chan w)); [done|by rewrite Hs|done].
  - apply (winv_sched (set_due _ w) (SSend n) (k_chan w)); [by apply winv_due|simpl; by rewrite Hs|done].
  - destruct (wi_jobs w Hw n x Hn) as [H1 H2 H3 H4 H6 H5]. destruct (tick_loop _ H1 Hc) as [T1 T2].
    apply (winv_sched (set_x n (on_job (set_ctrl (Some jobStart)) x) w) SSelect (k_chan w));
      [|simpl; by rewrite Hs|done].
    eapply (winv_kept w _ n x); try done.
    + apply (forget_worker w n x); [done|]. apply rtc_once. by apply w_send.
    + split; simpl; rewrite ?T2; auto.
    + unfold kept. simpl. rewrite T2. auto.
Qed.

Lemma wstep_inv w w' : winv w -> wstep w w' -> winv w'.
Proof.
  intros Hw Hs. destruct Hs as [w n x o sem' x' Hn Ho _|w r|w l1 p l2 Hwt Hl|w w' Hs|w w' Hs].
  - by eapply own_inv.
  - apply winv_wait; [done|]. apply Forall_app. split; [apply (wi_wait w Hw)|].
    constructor; [apply program_wf|constructor].
  - pose proof (wi_wait w Hw) as Hf. rewrite Hwt in Hf. apply Forall_app in Hf as [Hf1 [Hp Hf2]%Forall_cons].
    assert (Hw' : winv (set_wait (l1 ++ l2) w)) by (apply winv_wait; [done|by apply Forall_app]).
    apply winv_lock; [done|simpl; by rewrite Hl|done|intros q [= <-]; by apply wf_head|].
    intros n x _. unfold awaiting, sending. simpl. rewrite Hl. naive_solver.
  - by eapply handler_inv.
  - by eapply sched_inv.
Qed.

Lemma booting_inv names : winv (booting names).
Proof.
  split; unfold pending; simpl.
  - unfold forget. simpl. unfold JobLoop.reachable, JobLoop.initial.
    induction names as [|n names Hn IH] using set_ind_L; [by rewrite gset_to_gmap_empty, fmap_empty|].
    rewrite gset_to_gmap_union_singleton, fmap_insert. eapply rtc_r; [exact IH|].
    pose proof (s_new cap (MkSystem 0 (x_job <$> gset_to_gmap new_x names)) n) as Hs. simpl in Hs.
    apply Hs. by rewrite lookup_fmap, (proj2 (lookup_gset_to_gmap_None new_x names n)).
  - intros n x [Hn <-]%lookup_gset_to_gmap_Some. split; try done.
    intros _. right. split; [done|]. by apply elem_of_elements.
  - constructor.
  - done.
  - split; [|done]. intros _. destruct (elements names); [by right|by left].
  - done.
  - split; [apply NoDup_elements|]. by intros n x _ [_ <-]%lookup_gset_to_gmap_Some.
Qed.

Lemma reachable_winv names w : reachable names w -> winv w.
Proof.
  intros Hr. pose proof (booting_inv names) as Hw. unfold reachable in Hr. revert Hw.
  induction Hr; [done|]. intros Hw. apply IHHr. by eapply wstep_inv.
Qed.

Lemma wstep_chan w w' : wstep w w' -> (length w.(k_chan) <= managerChan_cap)%nat ->
  (length w'.(k_chan) <= managerChan_cap)%nat.
Proof.
  intros Hs H0. destruct Hs as [w n x o sem' x' Hn Ho Hroom|w r|w l1 p l2 Hwt Hl|w w' Hs|w w' Hs]; [|done|done|..].
  - unfold room in Hroom. simpl. rewrite length_app, length_fmap. destruct o; simpl; [|lia].
    specialize (Hroom ltac:(done)). lia.
  - by destruct Hs.
  - destruct Hs as [| | |? ? ? ? ? ? Hc| | |? ? [] | |]; try done. rewrite Hc in H0. simpl in *. lia.
Qed.

Lemma reachable_chan names w : reachable names w -> (length w.(k_chan) <= managerChan_cap)%nat.
Proof.
  intros Hr. assert (H0 : (length (k_chan (booting names)) <= managerChan_cap)%nat) by (simpl; lia).
  unfold reachable in Hr. revert H0. induction Hr as [|w1 w2 w3 Hs Hr IH]; [done|]. intros H0. apply IH.
  by eapply wstep_chan.
Qed.

(** ** Who can move *)

(** A goroutine of the job has a move. *)
Definition can_move (w : worker) (n : string) (x : wjob) : Prop :=
  exists o sem' x', own_step n w.(k_sem) x o sem' x' /\ (o <> None -> room w).

(** The goroutine, killed, is at [managerChan <- message]. *)
Definition at_send (x : wjob) : Prop :=
  exists c, x.(x_job).(j_cur) = Some c /\ running c = true /\ c.(c_killed) = true /\ sends x.(x_stage) <> None.

Lemma loop_moves w n x sem' j' : x_fresh x = false -> job_step cap w.(k_sem) x.(x_job) sem' j' ->
  (in_run x.(x_job) = true -> in_run j' = true) -> can_move w n x.
Proof.
  intros Hf Hj Hr. exists None, sem', (MkX j' (stage_after x.(x_job) j' x.(x_stage)) x.(x_run)).
  split; [|done]. apply o_job; [done|congruence|]. intros H1 H2. rewrite Hr in H2 by done. done.
Qed.

Lemma running_moves w n x c : x_fresh x = false -> x.(x_job).(j_cur) = Some c -> running c = true -> c.(c_killed) = true ->
  can_move w n x \/ (~ room w /\ at_send x).
Proof.
  intros Hfr Hc Hr Hk. destruct (decide (sends (x_stage x) = None)) as [Hs|Hs].
  - left. destruct (decide (x_stage x = Finished)) as [Hf|Hf].
    + unfold running in Hr. destruct (c_pc c) as [|held| |] eqn:Hp; try done.
      eexists None, _, _. split; [|done]. apply o_job; [|congruence|done]. eapply j_cur_step; [done|]. by eapply c_finish.
    + destruct (run_progress (Retry n) (c_killed c) (x_stage x) Hf) as [s' Hst]. rewrite Hs in Hst.
      eexists None, _, _. split; [|done]. by eapply o_run.
  - destruct (decide (length (k_chan w) < managerChan_cap)%nat) as [Hroom|Hroom].
    + left. destruct (run_progress (Retry n) (c_killed c) (x_stage x)) as [s' Hst]; [by intros He; rewrite He in Hs|].
      eexists _, _, _. split; [by eapply o_run|done].
    + right. split; [done|]. by exists c.
Qed.

(** A job that has an action to take, or waits for the goroutine it killed. *)
Lemma busy_moves w n x : job_inv x.(x_job) -> x.(x_job).(j_pc) <> PReturned ->
  x.(x_job).(j_ctrl) <> None \/ (exists k, x.(x_job).(j_pc) = PWaitDone k) ->
  can_move w n x \/ (~ room w /\ at_send x).
Proof.
  intros Hi Hp Hb. destruct (x_fresh x) eqn:Hfr.
  { left. exists None, (k_sem w), (begin_x x). by split; [apply o_begin|]. }
  destruct (j_pc (x_job x)) as [| | |k|] eqn:Hpc; [done|..].
  - left. eapply loop_moves; [done|by apply j_top|]. unfold in_run. by rewrite (inv_free _ Hi) by by rewrite Hpc.
  - destruct Hb as [Hb|[k Hk]]; [|done]. destruct (j_ctrl (x_job x)) as [ctrl|] eqn:Hc; [|done].
    left. eapply loop_moves; [done|by apply j_ctrl_wait|]. pose proof (ji_ctrl _ Hi) as Hping. rewrite Hc in Hping.
    unfold in_run. by destruct ctrl; simpl; destruct (j_cur (x_job x)) as [[]|].
  - destruct (j_cur (x_job x)) as [c|] eqn:Hc.
    2:{ pose proof (ji_cur _ Hi) as H. rewrite Hpc, Hc in H. by rewrite bool_decide_false in H by by intros []. }
    destruct (ji_killed _ Hi c Hc) as [Hk _]. rewrite Hpc in Hk.
    destruct (running c) eqn:Hr; [by eapply running_moves|]. left.
    assert (in_run (x_job x) = false) as Hno by (unfold in_run; by rewrite Hc).
    unfold running in Hr. destruct (c_pc c) as [|held|held|] eqn:Hcp; try done.
    + eapply loop_moves; [done|eapply j_cur_step; [done|by apply c_kill]|by rewrite Hno].
    + eapply loop_moves; [done|eapply j_killed; [done|done|unfold done_ready; by rewrite Hcp]|by rewrite Hno].
    + eapply loop_moves; [done|eapply j_killed; [done|done|unfold done_ready; by rewrite Hcp]|by rewrite Hno].
  - destruct Hb as [Hb|[k Hk]]; [|done]. destruct (j_ctrl (x_job x)) as [ctrl|] eqn:Hc; [|done].
    left. eapply loop_moves; [done|by apply j_ctrl_idle|]. unfold in_run. by rewrite (inv_free _ Hi) by by rewrite Hpc.
Qed.

(** An operation that blocks waits for a job that has something to do. *)
Lemma blocked_busy w n o l x : winv w -> w.(k_lock) = Holder (Do n o :: l) -> w.(k_jobs) !! n = Some x ->
  exec n o x = Blocks -> x.(x_job).(j_pc) <> PReturned
    /\ (x.(x_job).(j_ctrl) <> None \/ exists k, x.(x_job).(j_pc) = PWaitDone k).
Proof.
  intros Hw Hl Hn He. pose proof (wi_jobs w Hw n x Hn) as Hx. pose proof (wi_head w Hw _ Hl) as Hh.
  pose proof (gone_returned (x_job x)) as Hg.
  destruct o as [| |c| |before|before|]; simpl in He; try done.
  - by repeat case_bool_decide.
  - pose proof (proj1 Hh x Hn) as Ha. destruct (j_ctrl (x_job x)); [|done].
    split; [|by left]. rewrite <- Hg. congruence.
  - by case_bool_decide.
  - destruct (proj1 Hh x Hn) as [Ha Hst]. rewrite Hst in He. destruct (x_fresh x); [done|].
    simpl in He. case_bool_decide as Hp; [done|]. split; [done|]. unfold phase_of in Ha. destruct (j_pc (x_job x)) as [| | |[]|]; eauto; case_decide as Hc; try done;
      left; by rewrite Hc.
Qed.

(** C14: who can keep the lock. In every reachable state in which a request holds [w.L], the
    request can go on, or it waits for a job whose goroutines can move, or the channel of
    messages is full with the killed goroutine of that job at its send, or it is in front of
    one of the two operations that lead out of the model: the start of a disabled job whose
    loop still runs (which does not block, and begins a second loop), or the wait for a job
    whose [Run] has not begun.  So as long as each job has one loop, and none is waited for
    that has not begun, a request only waits for good while nobody receives messages. *)
Theorem lock_progress names w p :
  reachable names w -> w.(k_lock) = Holder p ->
  (exists w', handler_step w w')
  \/ exists n o l x, p = Do n o :: l /\ w.(k_jobs) !! n = Some x
      /\ (can_move w n x \/ (length w.(k_chan) = managerChan_cap /\ at_send x)
          \/ (o = StartIf /\ x.(x_job).(j_state) = stateDisabled /\ x.(x_job).(j_pc) <> PReturned)
          \/ ((exists before, o = Await before) /\ x_fresh x = true)).
Proof.
  intros Hr Hl. pose proof (reachable_winv names w Hr) as Hw. pose proof (reachable_chan names w Hr) as Hch.
  destruct p as [|[n o|] l]; [left; eexists; by apply h_done| |].
  - destruct (k_jobs w !! n) as [x|] eqn:Hn; [|left; eexists; by eapply h_none].
    destruct (exec n o x) as [l' x'| |] eqn:He; [left; eexists; by eapply (h_do _ _ _ _ _ _ _ None)|..];
      right; exists n, o, l, x; (split_and!; [done|done|]).
    + destruct (blocked_busy w n o l x Hw Hl Hn He) as [Hp Hb].
      destruct (busy_moves w n x (lo_inv _ (xo_loop _ _ _ _ (wi_jobs w Hw n x Hn))) Hp Hb) as [|[Hro Hs]]; [by left|].
      right; left. split; [|done]. unfold room in Hro. lia.
    + right; right. destruct o; simpl in He; repeat case_match; try done.
      * left. by repeat case_bool_decide.
      * right. split; [by eexists|done].
  - left. eexists. apply (h_add w l (fresh (dom (k_jobs w))) None); [done|].
    apply not_elem_of_dom, is_fresh.
Qed.

(** C17: the loops are those of [JobLoop]. As long as each job has one loop and none is waited
    for before it has begun, whatever the lock and the channels do, the jobs of a reachable
    worker are reachable as [JobLoop] steps them, so that what holds of every reachable state
    there (the limit of concurrent runs, one run for each loop) holds here. *)
Theorem jobs_refine_loops names w : reachable names w -> JobLoop.reachable cap (forget w).
Proof. intros Hr. apply (reachable_winv names w Hr). Qed.

(** ** Where the worker stops for good *)

(** A request waits for the end of a job whose goroutine is at its send, the channel is full
    and the schedule loop waits for the lock before it receives another message. *)
Definition locked_out (w : worker) : Prop :=
  exists n before l m f x, w.(k_lock) = Holder (Do n (Await before) :: l) /\ w.(k_sched) = SFind m f
    /\ length w.(k_chan) = managerChan_cap /\ w.(k_jobs) !! n = Some x
    /\ x.(x_job).(j_pc) = PWaitDone ToReturn /\ at_send x.

(** The goroutine at its send stays there. *)
Lemma at_send_own n sem x o sem' x' : x.(x_job).(j_pc) = PWaitDone ToReturn -> at_send x ->
  own_step n sem x o sem' x' ->
  o <> None \/ (x'.(x_job).(j_pc) = PWaitDone ToReturn /\ at_send x').
Proof.
  intros Hp (c & Hc & Hr & Hk & Hs) Ho.
  destruct Ho as [sem x Hfr|sem x sem' j' Hj _ Hf|sem x c' o s' m Hc' _ Hst Hm].
  - right. split; [done|]. by exists c.
  - right. simpl. assert (in_run (x_job x) = true) as Hin by (unfold in_run; by rewrite Hc).
    assert (in_run j' = true -> j_pc j' = PWaitDone ToReturn -> j_cur j' = Some c ->
      j_pc j' = PWaitDone ToReturn /\ at_send (MkX j' (stage_after (x_job x) j' (x_stage x)) (x_run x))) as Hkeep.
    { intros _ Hp' Hc'. split; [done|]. exists c. split_and!; try done. simpl.
      unfold stage_after. by rewrite Hin. }
    assert (in_run j' = false -> False) as Hno by (intros Hf'; rewrite (Hf Hin Hf') in Hs; done).
    destruct (in_run j') eqn:Hrun; [|by destruct Hno].
    unfold running in Hr. inversion Hj; subst; try congruence.
    + rewrite Hc in *. match goal with H : Some _ = Some _ |- _ => injection H as <- end.
      unfold done_ready in *. by destruct (c_pc c).
    + rewrite Hc in *. match goal with H : Some _ = Some _ |- _ => injection H as <- end.
      match goal with H : c_pc c = _ |- _ => by rewrite H in Hr end.
    + rewrite Hc in *. match goal with H : Some _ = Some _ |- _ => injection H as <- end.
      match goal with H : child_step _ _ _ _ _ |- _ => inversion H; subst end;
        match goal with H : c_pc c = _ |- _ => rewrite H in Hr end; done.
    + by apply Hkeep.
  - left. apply run_step_sends in Hst as ->. rewrite Hm. by destruct (sends (x_stage x)).
Qed.

Lemma locked_out_step w w' : locked_out w -> wstep w w' ->
  locked_out w' /\ w'.(k_lock) = w.(k_lock) /\ w'.(k_sched) = w.(k_sched) /\ w'.(k_chan) = w.(k_chan).
Proof.
  intros (n & b & l & m & f & x & Hl & Hs & Hch & Hn & Hp & Ha) Hst.
  destruct Hst as [w n' y o sem' y' Hy Ho Hroom|w r|w l1 p l2 Hwt Hf|w w' Hh|w w' Hh].
  - assert (o = None) as -> by (destruct o; [specialize (Hroom ltac:(done)); unfold room in Hroom; lia|done]).
    simpl. rewrite app_nil_r. split_and!; try done.
    destruct (decide (n' = n)) as [->|Hne].
    + rewrite Hn in Hy. injection Hy as <-. destruct (at_send_own _ _ _ _ _ _ Hp Ha Ho) as [|[Hp' Ha']]; [done|].
      exists n, b, l, m, f, y'. simpl. rewrite app_nil_r, lookup_insert_eq. done.
    + exists n, b, l, m, f, x. simpl. rewrite app_nil_r, lookup_insert_ne by done. done.
  - split_and!; try done. by exists n, b, l, m, f, x.
  - congruence.
  - exfalso. destruct Hh as [w Hl'|w n' o l' Hl' Hn'|w n' o l' y l'' y' taken Hl' Hn' He|w l' n' taken Hl' Hn'];
      rewrite Hl in Hl'; try done; injection Hl' as <- <- <-; [congruence|].
    rewrite Hn in Hn'. injection Hn' as <-. simpl in He. rewrite Hp in He.
    rewrite andb_false_r in He. by destruct (x_fresh x).
  - exfalso. by destruct Hh; congruence.
Qed.

(** *** How it gets there: one job and its request to be disabled *)

Definition reaches (w : worker) (Q : worker -> Prop) : Prop := exists w', rtc wstep w w' /\ Q w'.

Lemma reaches_step w w' Q : wstep w w' -> reaches w' Q -> reaches w Q.
Proof. intros Hs (w0 & Hr & HQ). exists w0. split; [by eapply rtc_l|done]. Qed.

Definition one (n : string) (a : owner) wait s chan due sem x : worker := MkK a wait s chan due sem {[n := x]}.

Lemma one_own n a wait s chan due sem x o sem' x' Q : own_step n sem x o sem' x' ->
  (o <> None -> (length chan < managerChan_cap)%nat) ->
  reaches (one n a wait s (chan ++ ((fun st => (n, st)) <$> option_list o)) due sem' x') Q ->
  reaches (one n a wait s chan due sem x) Q.
Proof.
  intros Ho Hroom Hr. eapply reaches_step; [|exact Hr].
  pose proof (k_own (one n a wait s chan due sem x) n x o sem' x') as H. unfold push, set_x in H. simpl in H.
  rewrite insert_singleton_eq in H. apply H; [apply lookup_singleton_eq|done|done].
Qed.

(** [Run] begins. *)
Lemma one_begin n a wait s chan due sem j st Q :
  reaches (one n a wait s chan due sem (MkX j st RBegun)) Q ->
  reaches (one n a wait s chan due sem (MkX j st RCalled)) Q.
Proof.
  intros H. eapply one_own; [by apply (o_begin n sem (MkX j st RCalled))|done|].
  simpl. by rewrite app_nil_r.
Qed.

(** A step of the loop. *)
Lemma one_loop n a wait s chan due sem j st sem1 j1 sem' j' st' Q : job_step cap sem j sem1 j1 ->
  (sem1, j1) = (sem', j') -> (in_run j = true -> in_run j1 = true \/ st = Finished) -> stage_after j j1 st = st' ->
  reaches (one n a wait s chan due sem' (MkX j' st' RBegun)) Q ->
  reaches (one n a wait s chan due sem (MkX j st RBegun)) Q.
Proof.
  intros Hj [= -> ->] Hr <- H. eapply one_own; [apply (o_job n sem (MkX j st RBegun) sem' j'); [done|done|]|done|].
  - intros H1 H2. simpl in *. destruct (Hr H1); congruence.
  - simpl. by rewrite app_nil_r.
Qed.

(** A move of the run that is under way. *)
Lemma one_run n a wait s chan due sem j c st b o st' Q : j.(j_cur) = Some c -> running c = true ->
  run_step (Retry n) c.(c_killed) st o st' -> (o <> None -> (length chan < managerChan_cap)%nat) ->
  reaches (one n a wait s (chan ++ ((fun m => (n, (m, asks (Retry n) j.(j_state) st))) <$> option_list o)) due sem
    (MkX j st' b)) Q ->
  reaches (one n a wait s chan due sem (MkX j st b)) Q.
Proof.
  intros Hc Hr Hst Hroom HQ. eapply one_own; [by eapply (o_run n sem (MkX j st b) c)| |].
  - intros Ho. apply Hroom. by destruct o.
  - by destruct o.
Qed.

(** Failing attempts fill the channel. *)
Lemma attempts n a wait s due sem j c b Q k : forall chan r, j.(j_cur) = Some c -> running c = true ->
  (length chan + 2 * k <= managerChan_cap)%nat -> r + Z.of_nat k < Retry n ->
  (forall chan', length chan' = (length chan + 2 * k)%nat ->
    reaches (one n a wait s chan' due sem (MkX j (PreExec (r + Z.of_nat k)) b)) Q) ->
  reaches (one n a wait s chan due sem (MkX j (PreExec r) b)) Q.
Proof.
  induction k as [|k IH]; intros chan r Hc Hr Hroom Hretry Hend.
  - rewrite <- (Z.add_0_r r). apply Hend. lia.
  - eapply one_run; [done|done|apply r_exec|done|]. simpl. rewrite app_nil_r.
    eapply one_run; [done|done|apply r_sync|intros _; lia|]. simpl.
    eapply one_run; [done|done|apply (r_done _ _ _ false)|done|]. simpl. rewrite app_nil_r.
    eapply one_run; [done|done|apply r_post|done|]. simpl. rewrite app_nil_r.
    eapply one_run; [done|done|apply r_verdict|intros _; rewrite length_app; simpl; lia|]. simpl.
    unfold attempt_or_end. replace (r + 1 <? Retry n) with true by (symmetry; apply Z.ltb_lt; lia).
    apply IH; [done|done|rewrite !length_app; simpl; lia|lia|].
    intros chan' Hl. replace (r + 1 + Z.of_nat k) with (r + Z.of_nat (S k)) by lia. apply Hend.
    rewrite Hl, !length_app. simpl. lia.
Qed.

(** A handler that holds the lock executes its next operation. *)
Lemma one_do n o l wait s chan due sem x l' x' Q : exec n o x = Goes l' x' ->
  reaches (one n (Holder (l' ++ l)) wait s chan (exec_due None n o x due) sem x') Q ->
  reaches (one n (Holder (Do n o :: l)) wait s chan due sem x) Q.
Proof.
  intros He HQ. eapply reaches_step; [|exact HQ]. eapply k_handler.
  pose proof (h_do (one n (Holder (Do n o :: l)) wait s chan due sem x) n o l x l' x' None eq_refl
    (lookup_singleton_eq _ _) He) as H.
  unfold set_x in H. simpl in H. by rewrite insert_singleton_eq in H.
Qed.

(** A request that arrives and gets the lock at once. *)
Lemma one_request n r s chan due sem x Q :
  reaches (one n (Holder (program r)) [] s chan due sem x) Q -> reaches (one n Free [] s chan due sem x) Q.
Proof.
  intros HQ. eapply reaches_step; [apply (k_request _ r)|].
  eapply reaches_step; [apply (k_acquire _ [] (program r) []); reflexivity|exact HQ].
Qed.

(** The schedule loop has started the job, which is due. *)
Lemma one_started n Q :
  reaches (one n Free [] SSelect [] {[n]} 0 (MkX (MkJob stateNone None false PTop None []) Finished RCalled)) Q ->
  reaches (booting {[n]}) Q.
Proof.
  intros HQ. unfold booting, initial. rewrite gset_to_gmap_singleton, elements_singleton.
  eapply reaches_step; [eapply k_schedule, (s_start _ n [] new_x stateNone None);
    [done|apply lookup_singleton_eq|by left]|].
  unfold set_x, set_sched. simpl. rewrite insert_singleton_eq.
  eapply reaches_step; [by apply k_schedule, s_started|].
  assert (add_due None n ∅ = {[n]}) as ->; [unfold add_due; simpl; set_solver|exact HQ].
Qed.

(** A tick starts it, and it sends its first message. *)
Lemma one_ticked n Q : 1 <= cap ->
  (forall j, j = MkJob stateReady None false PWait (Some (MkChild (CRun true) false)) [] ->
    reaches (one n Free [] SSelect [(n, (Status.PreSyncing, false))] ∅ 1 (MkX j PreJob RBegun)) Q) ->
  reaches (booting {[n]}) Q.
Proof.
  intros Hcap Hend. apply one_started, one_begin.
  eapply one_loop; [by apply j_top|vm_compute; reflexivity|done|vm_compute; reflexivity|].
  eapply reaches_step; [apply k_schedule, (s_tick _ n); [done|simpl; set_solver]|]. simpl.
  assert ({[n]} ∖ {[n]} =@{gset string} ∅) as -> by set_solver.
  eapply reaches_step; [eapply k_schedule, (s_send _ n); [done|apply lookup_singleton_eq|done]|].
  unfold set_x, set_sched. simpl. rewrite insert_singleton_eq.
  eapply one_loop; [by eapply j_ctrl_idle|vm_compute; reflexivity|done|vm_compute; reflexivity|].
  eapply one_loop; [by apply j_top|vm_compute; reflexivity|done|vm_compute; reflexivity|].
  eapply one_loop; [eapply j_cur_step; [done|apply c_acquire; [done|lia]]|vm_compute; reflexivity|done|vm_compute; reflexivity|].
  eapply one_run; [done|done|apply r_pre|intros _; simpl; unfold managerChan_cap; lia|].
  by apply Hend.
Qed.

(** ... received, with the schedule loop at the lock: a request to disable the job has sent its
    action and waits. *)
Lemma disabled_early n Q : 1 <= cap ->
  (forall j, j = MkJob stateReady (Some jobDisable) false PWait (Some (MkChild (CRun true) false)) [] ->
    reaches (one n (Holder [Do n (Await None)]) [] (SFind n false) [] ∅ 1 (MkX j PreJob RBegun)) Q) ->
  reaches (booting {[n]}) Q.
Proof.
  intros Hcap Hend. apply one_ticked; [done|]. intros j ->.
  eapply reaches_step; [by eapply k_schedule, s_receive|].
  apply (one_request n (Command CmdDisable false n)).
  do 3 (eapply one_do; [reflexivity|simpl; rewrite ?difference_empty_L, ?empty_difference_L]).
  by apply Hend.
Qed.

(** C40: a request can stop the worker for good. A job with 17 attempts may fill the channel,
    one message received by a schedule loop that waits for the lock, while a request to
    disable it holds the lock and waits for its end: from then on no step of anybody gives
    the lock back, takes a message or lets the schedule loop go on. *)
Theorem disable_can_deadlock n : 1 <= cap -> 17 <= Retry n ->
  exists w, reachable {[n]} w /\ locked_out w
    /\ forall w', rtc wstep w w' ->
         w'.(k_lock) = w.(k_lock) /\ w'.(k_sched) = w.(k_sched) /\ w'.(k_chan) = w.(k_chan).
Proof.
  intros Hcap Hretry.
  assert (reaches (booting {[n]}) locked_out) as (w & Hr & Hw).
  { apply disabled_early; [done|]. intros j ->.
    eapply one_run; [done|done|apply r_job|done|]. unfold attempt_or_end.
    replace (0 <? Retry n) with true by (symmetry; apply Z.ltb_lt; lia).
    eapply (attempts _ _ _ _ _ _ _ _ _ _ 16); [done|done|done|simpl; lia|]. intros chan Hch.
    eapply one_run; [done|done|apply r_exec|done|]. simpl. rewrite app_nil_r.
    eapply one_loop; [by eapply j_ctrl_wait|vm_compute; reflexivity|by left|vm_compute; reflexivity|].
    eexists. split; [apply rtc_refl|]. exists n, None, [], n, false. eexists.
    split_and!; [done|done|done|apply lookup_singleton_eq|done|]. by eexists. }
  exists w. split_and!; [exact Hr|done|]. intros w' Hr'. clear Hr.
  induction Hr' as [|w1 w2 w3 Hs _ IH]; [done|]. destruct (locked_out_step _ _ Hw Hs) as (Hw2 & <- & <- & <-).
  by apply IH.
Qed.

(** A request to disable a job is let in before the schedule loop has the lock. *)
Lemma never_started_step n w w' : (exists x l, w.(k_jobs) !! n = Some x /\ x_started x = false
    /\ w.(k_lock) = Holder [Do n (Await None)] /\ w.(k_sched) = SBoot l) -> wstep w w' ->
  (exists x l, w'.(k_jobs) !! n = Some x /\ x_started x = false
    /\ w'.(k_lock) = Holder [Do n (Await None)] /\ w'.(k_sched) = SBoot l)
  /\ w'.(k_lock) = w.(k_lock) /\ w'.(k_sched) = w.(k_sched).
Proof.
  intros (x & l & Hn & Hf & Hl & Hs) Hst.
  destruct Hst as [w n' y o sem' y' Hy Ho Hroom|w r|w l1 p l2 Hwt Hl'|w w' Hh|w w' Hh].
  - split; [|done]. assert (x_started y' = x_started y) as Hy'
      by (destruct Ho as [? ? Hfr| |]; [|done..]; unfold x_fresh, x_started in *; by destruct (x_run x0)). simpl.
    destruct (decide (n' = n)) as [->|Hne].
    + rewrite Hn in Hy. injection Hy as <-. exists y', l. rewrite lookup_insert_eq. split_and!; congruence.
    + exists x, l. by rewrite lookup_insert_ne.
  - split; [|done]. by exists x, l.
  - congruence.
  - exfalso. destruct Hh as [w Hl'|w n' o l' Hl' Hn'|w n' o l' y l'' y' taken Hl' Hn' He|w l' n' taken Hl' Hn'];
      rewrite Hl in Hl'; try done; injection Hl' as <- <- <-; [congruence|].
    rewrite Hn in Hn'. injection Hn' as <-. simpl in He. rewrite Hf in He. by destruct (x_fresh x).
  - exfalso. by destruct Hh; congruence.
Qed.

(** A disable that comes too early. The server runs before the schedule loop takes the
    lock; a request to disable a job that gets the lock first waits for a loop that was never
    started, on a nil channel, and no job is ever started. *)
Theorem early_disable_blocks n :
  exists w, rtc wstep (initial {[n]}) w /\ w.(k_lock) = Holder [Do n (Await None)]
    /\ forall w', rtc wstep w w' -> w'.(k_lock) = w.(k_lock) /\ w'.(k_sched) = SBoot [n].
Proof.
  assert (reaches (initial {[n]}) (fun w => k_sched w = SBoot [n] /\ exists x l, w.(k_jobs) !! n = Some x
    /\ x_started x = false /\ w.(k_lock) = Holder [Do n (Await None)] /\ w.(k_sched) = SBoot l))
    as (w & Hr & Hb & Hw).
  { unfold initial. rewrite gset_to_gmap_singleton, elements_singleton.
    change (reaches (one n Free [] (SBoot [n]) [] ∅ 0 new_x)
      (fun w => k_sched w = SBoot [n] /\ exists x l, w.(k_jobs) !! n = Some x /\ x_started x = false
        /\ w.(k_lock) = Holder [Do n (Await None)] /\ w.(k_sched) = SBoot l)).
    apply (one_request n (Command CmdDisable false n)). do 3 (eapply one_do; [reflexivity|simpl]).
    eexists. split; [apply rtc_refl|]. split; [done|]. eexists _, [n]. split_and!; [apply lookup_singleton_eq|done..]. }
  exists w. split; [exact Hr|]. split; [by destruct Hw as (x & l & _ & _ & Hl & _)|].
  intros w' Hr'. rewrite <- Hb. clear Hr Hb.
  induction Hr' as [|w1 w2 w3 Hs _ IH]; [done|]. destruct (never_started_step _ _ _ Hw Hs) as (Hw2 & <- & <-).
  by apply IH.
Qed.

(** ** Stopping, messages included *)

(** What happens to a job while there is room for its messages: its own steps, and actions
    that arrive. *)
Inductive xstep (n : string) : wjob -> wjob -> Prop :=
| xs_own sem x o sem' x' : own_step n sem x o sem' x' -> xstep n x x'
| xs_ctrl x ctrl : ctrl <> jobPing -> x.(x_job).(j_ctrl) = None -> xstep n x (on_job (set_ctrl (Some ctrl)) x).

(** The job comes to satisfy [Q]: it is never stuck before and every sequence of steps
    gets there. *)
Inductive settles (n : string) (Q : wjob -> Prop) : wjob -> Prop :=
| st_now x : Q x -> settles n Q x
| st_later x : (forall sem, exists o sem' x', own_step n sem x o sem' x') ->
    (forall x', xstep n x x' -> settles n Q x') -> settles n Q x.

Lemma busy_progress n x sem : job_inv x.(x_job) -> x.(x_job).(j_pc) <> PReturned ->
  x.(x_job).(j_ctrl) <> None \/ (exists k, x.(x_job).(j_pc) = PWaitDone k) ->
  exists o sem' x', own_step n sem x o sem' x'.
Proof.
  intros Hi Hp Hb. destruct (busy_moves (MkK Free [] SSelect [] ∅ sem ∅) n x Hi Hp Hb) as [(o & sem' & x' & Hs & _)|[Hr _]].
  - by exists o, sem', x'.
  - destruct Hr. unfold room, managerChan_cap. simpl. lia.
Qed.

Lemma killed_moves n x k sem : job_inv x.(x_job) -> x.(x_job).(j_pc) = PWaitDone k ->
  exists o sem' x', own_step n sem x o sem' x'.
Proof. intros Hi Hp. apply busy_progress; [done|by rewrite Hp|]. right. by exists k. Qed.

Lemma settles_mono n (Q Q' : wjob -> Prop) x : (forall y, Q y -> Q' y) -> settles n Q x -> settles n Q' x.
Proof. intros HQ. induction 1 as [x Hx|x Hp _ IH]; [by apply st_now, HQ|by apply st_later]. Qed.

Lemma killed_xstep n x k x' : job_inv x.(x_job) -> x_fresh x = false -> x.(x_job).(j_pc) = PWaitDone k ->
  xstep n x x' ->
  (x'.(x_job).(j_pc) = after_done k /\ x'.(x_job).(j_cur) = None /\ x'.(x_job).(j_state) = x.(x_job).(j_state))
  \/ (job_inv x'.(x_job) /\ x'.(x_job).(j_pc) = PWaitDone k /\ x'.(x_job).(j_state) = x.(x_job).(j_state)
      /\ x_fresh x' = false
      /\ ((job_rank x'.(x_job) < job_rank x.(x_job))%nat
          \/ x'.(x_job) = x.(x_job) /\ (stage_rank (Retry n) x'.(x_stage) < stage_rank (Retry n) x.(x_stage))%nat)).
Proof.
  intros Hi Hf Hp Hs.
  assert (Hk : forall j', jstep cap x.(x_job) j' -> _) by (intros j'; exact (killed_step cap _ k j' Hi Hp)).
  destruct Hs as [sem x o sem' x' Ho|x ctrl Hc Hn].
  - destruct Ho as [sem x Hb|sem x sem' j' Hj _ _|sem x c o s' m Hc Hr Hst _]; simpl; [congruence|..].
    + destruct (Hk j' (js_job cap _ _ _ _ Hj)) as [|(H1 & H2 & H3 & H4)]; [by left|right]. by split_and!; auto.
    + right. split_and!; auto. right. split; [done|]. by eapply run_step_rank.
  - destruct (Hk _ (js_ctrl cap _ ctrl Hc Hn)) as [|(H1 & H2 & H3 & H4)]; [by left|right]. by split_and!; auto.
Qed.

Lemma killed_settles n x k : job_inv x.(x_job) -> x_fresh x = false -> x.(x_job).(j_pc) = PWaitDone k ->
  settles n (fun x' => x'.(x_job).(j_pc) = after_done k /\ x'.(x_job).(j_cur) = None
    /\ x'.(x_job).(j_state) = x.(x_job).(j_state)) x.
Proof.
  intros Hi Hf Hp. remember (j_state (x_job x)) as st eqn:Hst.
  remember (job_rank (x_job x)) as a eqn:Ha. remember (stage_rank (Retry n) (x_stage x)) as b eqn:Hb.
  revert b x Hi Hf Hp Hst Ha Hb. induction (lt_wf a) as [a _ IHa]. intros b.
  induction (lt_wf b) as [b _ IHb]. intros x Hi Hf Hp Hst Ha Hb.
  apply st_later; [intros sem; by eapply killed_moves|]. intros x' Hs.
  destruct (killed_xstep n x k x' Hi Hf Hp Hs) as [Hd|(Hi' & Hp' & Hst' & Hf' & [Hlt|[He Hlt]])].
  - apply st_now. by rewrite Hst.
  - eapply (IHa (job_rank (x_job x'))); [by subst|done|done|done|congruence|done|done].
  - eapply (IHb (stage_rank (Retry n) (x_stage x'))); [by subst|done|done|done|congruence|congruence|done].
Qed.

(** C15: stopping ends while there is room. A job of a reachable worker that was stopped,
    disabled or restarted and waits for its goroutine gets past the wait, as long as the
    channel has room for what the goroutine still sends: no step is missing, whatever is
    sent to the job and whichever attempts, hooks and messages are left to the run. *)
Theorem stop_ends_with_room names w n x k :
  reachable names w -> w.(k_jobs) !! n = Some x -> x.(x_job).(j_pc) = PWaitDone k ->
  settles n (fun x' => x'.(x_job).(j_pc) = after_done k /\ x'.(x_job).(j_cur) = None
    /\ x'.(x_job).(j_state) = x.(x_job).(j_state)) x.
Proof.
  intros Hr Hn Hp. pose proof (wi_jobs w (reachable_winv names w Hr) n x Hn) as Hx.
  apply killed_settles; [apply (lo_inv _ (xo_loop _ _ _ _ Hx))| |done].
  pose proof (xo_fresh _ _ _ _ Hx) as Hf. destruct (x_fresh x); [|done]. by rewrite Hf in Hp.
Qed.

(** The action received. *)
Lemma disabled_killed n : 1 <= cap -> reaches (booting {[n]}) (fun w => exists x,
  w.(k_lock) = Holder [Do n (Await None)] /\ w.(k_jobs) !! n = Some x
  /\ x.(x_job).(j_pc) = PWaitDone ToReturn /\ x.(x_stage) = PreJob).
Proof.
  intros Hcap. apply disabled_early; [done|]. intros j ->.
  eapply one_loop; [by eapply j_ctrl_wait|vm_compute; reflexivity|by left|vm_compute; reflexivity|].
  eexists. split; [apply rtc_refl|]. eexists. split_and!; [done|apply lookup_singleton_eq|done|done].
Qed.

End worker.

(** ** The requests are those of the worker *)

(** What a request does to the outside when nothing blocks, for a job in state [st] with
    [alive] telling whether its [Run] is running. *)
Fixpoint outside (n : string) (st : Z) (alive : bool) (l : list instr) : list action :=
  match l with
  | [] => []
  | Do _ Flush :: l => outside n st alive l
  | Do _ StartIf :: l =>
      if decide (st = stateDisabled) then StartRun n :: outside n st true l else outside n st alive l
  | Do _ (Send c) :: l => SendCtrl n c alive :: outside n st alive l
  | Do _ Stop :: l =>
      if decide (st = stateDisabled) then outside n st alive l else SendCtrl n jobStop alive :: outside n st alive l
  | Do _ (Disable _) :: l =>
      if decide (st = stateDisabled) then outside n st alive l
      else SendCtrl n jobDisable alive :: AwaitDisabled n :: outside n stateDisabled false l
  | _ :: l => outside n st alive l
  end.

Section requests.
Context {P L : Type} {WP : WorkerProvider P} {SL : SkipList string L}.

(** The requests are those of the worker. What the handler of [Worker] does to a job,
    in order, is what the program of the request does here: the start of a disabled job
    before the action, the action with its force, nothing for a job that is already
    disabled, the wait after a disable. *)
Theorem requests_are_commands (cmd : WorkerCmd) (w : Worker P L) job :
  w.(w_jobs) !! cmd.(wc_MirrorID) = Some job ->
  (job_command cmd w).1.(w_log) = w.(w_log)
    ++ outside cmd.(wc_MirrorID) job.(mj_state) job.(mj_running)
         (program (Command cmd.(wc_Cmd) (force cmd) cmd.(wc_MirrorID))).
Proof.
  intros Hj. unfold job_command. rewrite Hj. simpl. unfold command_program, starts.
  destruct (decide (wc_Cmd cmd = CmdStart)) as [Hs|Hs].
  { rewrite bool_decide_true by done. simpl. case_bool_decide; case_decide; try done; simpl; rewrite <- ?app_assoc;
      by destruct (force cmd). }
  rewrite (bool_decide_false (wc_Cmd cmd = CmdStart)) by done. simpl.
  destruct (decide (wc_Cmd cmd = CmdRestart)) as [Hr|Hr].
  { rewrite bool_decide_true by done. simpl. case_bool_decide; case_decide; try done; simpl; by rewrite <- ?app_assoc. }
  rewrite bool_decide_false by done. simpl.
  repeat case_decide; simpl; try done; try (by rewrite app_nil_r); unfold disableJob;
    repeat case_decide; simpl; try done; rewrite <- ?app_assoc, ?app_nil_r; done.
Qed.

End requests.

(** *** Witnesses: a worker with one mirror *)

Definition debian : gset string := {["debian"]}.

Lemma lock_progress_witness : exists w x, reachable 1 (fun _ => 2) debian w
  /\ w.(k_lock) = Holder [Do "debian" (Await None)] /\ w.(k_jobs) !! "debian" = Some x
  /\ (can_move 1 (fun _ => 2) w "debian" x \/ (length w.(k_chan) = managerChan_cap /\ at_send x)).
Proof.
  destruct (disabled_killed 1 (fun _ => 2) "debian") as (w & Hr & x & Hl & Hn & Hp & Hs); [lia|].
  exists w, x. split_and!; [exact Hr|exact Hl|exact Hn|].
  assert (Hf : x_fresh x = false).
  { pose proof (xo_fresh _ _ _ _ (wi_jobs _ _ (reachable_winv 1 (fun _ => 2) debian w Hr) "debian" x Hn)) as Hf.
    destruct (x_fresh x); [|done]. by rewrite Hf in Hp. }
  destruct (lock_progress 1 (fun _ => 2) debian w _ Hr Hl) as [[w' Hst]|(n & o & l & y & He & Hy & H)].
  - exfalso. destruct Hst as [w0 Hl'|w0 n o l Hl' Hn'|w0 n o l y l' y' taken Hl' Hn' He|w0 l n taken Hl' Hn'];
      rewrite Hl in Hl'; try done; injection Hl' as <- <- <-; [congruence|].
    rewrite Hn in Hn'. injection Hn' as <-. simpl in He. rewrite Hf, Hp, andb_false_r in He. done.
  - injection He as <- <- <-. rewrite Hn in Hy. injection Hy as <-.
    destruct H as [H|[H|[[H _]|[_ H]]]]; [by left|by right|done|congruence].
Defined.

Lemma jobs_refine_loops_witness : exists w, reachable 1 (fun _ => 2) debian w
  /\ w.(k_lock) = Holder [Do "debian" (Await None)] /\ JobLoop.reachable 1 (forget w).
Proof.
  destruct (disabled_killed 1 (fun _ => 2) "debian") as (w & Hr & x & Hl & _); [lia|].
  exists w. split_and!; [exact Hr|exact Hl|exact (jobs_refine_loops 1 (fun _ => 2) debian w Hr)].
Defined.

Lemma disable_can_deadlock_witness : exists w, reachable 4 (fun _ => 20) debian w /\ locked_out w.
Proof.
  destruct (disable_can_deadlock 4 (fun _ => 20) "debian") as (w & Hr & Hl & _); [lia|lia|].
  exists w. split; [exact Hr|exact Hl].
Defined.

Lemma stop_ends_with_room_witness : exists w x, reachable 1 (fun _ => 2) debian w
  /\ w.(k_jobs) !! "debian" = Some x /\ x.(x_job).(j_pc) = PWaitDone ToReturn /\ x.(x_stage) = PreJob
  /\ settles 1 (fun _ => 2) "debian" (fun x' => x'.(x_job).(j_pc) = PReturned /\ x'.(x_job).(j_cur) = None
       /\ x'.(x_job).(j_state) = x.(x_job).(j_state)) x.
Proof.
  destruct (disabled_killed 1 (fun _ => 2) "debian") as (w & Hr & x & Hl & Hn & Hp & Hs); [lia|].
  exists w, x. split_and!; [exact Hr|exact Hn|exact Hp|exact Hs|].
  exact (stop_ends_with_room 1 (fun _ => 2) debian w "debian" x ToReturn Hr Hn Hp).
Defined.

#[local] Existing Instance assoc_skiplist.

Lemma requests_are_commands_witness :
  (job_command (ex_command CmdRestart "ubuntu") (ex_one stateDisabled)).1.(w_log)
  = [StartRun "ubuntu"; SendCtrl "ubuntu" jobRestart true].
Proof.
  exact (requests_are_commands (ex_command CmdRestart "ubuntu") (ex_one stateDisabled) _ (lookup_singleton_eq _ _)).
Defined.
