(* ===== verification/Loops.v ===== *)
(** * worker/job.go: a job whose [Run] was called more than once

    [JobLoop] and [Channels] give each job one loop.  The worker calls [Run] whenever it is
    to start a job in state Disabled, and a loop leaves that state only with the first action
    it takes: a second request in between calls [Run] again.  Here a job has a list of loops
    with one state, one [ctrlChan] and one channel [disabled], each loop stepping as in
    [JobLoop], and the requests of clients run against it one after the other under the
    lock.  [mstep] is whatever the worker as a whole can do to such a job, at any time. *)

From S2P Require Import Prelude Json Msg Job Schedule Worker JobLoop Stages Channels.

Local Open Scope string_scope.
Local Open Scope list_scope.
Local Open Scope Z_scope.

(** ** A job and its loops *)

(** What is a loop's own. *)
Record loop : Type := MkLoop {
  l_bypass : bool;
  l_pc : parent_pc;
  l_cur : option child;
  l_others : list child
}.

(** [m_disabled]: nil, open ([Some false]) or closed. *)
Record mjob : Type := MkM {
  m_state : Z;
  m_ctrl : option ctrlAction;
  m_disabled : option bool;
  m_loops : list loop
}.

Definition new_mjob : mjob := MkM stateNone None None [].

(** The job as one of its loops sees it, and that loop of it. *)
Definition view (m : mjob) (l : loop) : job :=
  MkJob m.(m_state) m.(m_ctrl) l.(l_bypass) l.(l_pc) l.(l_cur) l.(l_others).
Definition loop_of (j : job) : loop := MkLoop j.(j_bypass) j.(j_pc) j.(j_cur) j.(j_others).

(** [go job.Run(...)]: another loop, and a new channel. *)
Definition run_m (m : mjob) : mjob :=
  MkM m.(m_state) m.(m_ctrl) (Some false) (m.(m_loops) ++ [MkLoop false PTop None []]).

(** The step of a loop.  A loop that returns closes the channel that is the job's by then. *)
Definition step_m (m : mjob) (l1 l2 : list loop) (j' : job) (returns : bool) : mjob :=
  MkM j'.(j_state) j'.(j_ctrl) (if returns then Some true else m.(m_disabled)) (l1 ++ loop_of j' :: l2).

(** An operation of a request on the job, as in [Channels.exec]. *)
Definition exec_m (n : string) (o : op) (m : mjob) : option (list instr * mjob) :=
  let disabled := bool_decide (m.(m_state) = stateDisabled) in
  match o with
  | StartIf => Some ([], if disabled then run_m m else m)
  | Send c =>
      match m.(m_ctrl) with
      | None => Some ([], MkM m.(m_state) (Some c) m.(m_disabled) m.(m_loops))
      | Some _ => None
      end
  | Stop => Some (if disabled then [] else [Do n (Send jobStop)], m)
  | Disable None => Some (if disabled then [] else [Do n (Send jobDisable); Do n (Await None)], m)
  | Await None => if decide (m.(m_disabled) = Some true) then Some ([], m) else None
  | _ => Some ([], m)
  end.

(** What is left of the request that holds the lock; the job; the tokens taken. *)
Record one_job : Type := MkOne { y_prog : list instr; y_job : mjob; y_sem : Z }.

Section loops.
Context (cap : Z) (n : string).

(** [None]: the worker has panicked. *)
Inductive ystep : one_job -> option one_job -> Prop :=
| y_loop p m sem l1 l l2 sem' j' : m.(m_loops) = l1 ++ l :: l2 -> job_step cap sem (view m l) sem' j' ->
    ystep (MkOne p m sem)
      (if decide (l.(l_pc) <> PReturned /\ j'.(j_pc) = PReturned) then
         if decide (m.(m_disabled) = Some true) then None
         else Some (MkOne p (step_m m l1 l2 j' true) sem')
       else Some (MkOne p (step_m m l1 l2 j' false) sem'))
| y_request m sem c force : ystep (MkOne [] m sem) (Some (MkOne (command_program c force n) m sem))
| y_exec o p m sem p' m' : exec_m n o m = Some (p', m') ->
    ystep (MkOne (Do n o :: p) m sem) (Some (MkOne (p' ++ p) m' sem)).

Definition leads (y y' : one_job) : Prop := rtc (fun a b => ystep a (Some b)) y y'.

(** ** One loop

    With a single loop the job is that of [JobLoop]. *)
Lemma single_loop p m sem l sem' j' : m.(m_loops) = [l] -> l.(l_pc) <> PReturned -> m.(m_disabled) = Some false ->
  job_step cap sem (view m l) sem' j' ->
  exists m', ystep (MkOne p m sem) (Some (MkOne p m' sem')) /\ m'.(m_loops) = [loop_of j'] /\ view m' (loop_of j') = j'.
Proof.
  intros Hl Hp Hd Hs. pose proof (y_loop p m sem [] l [] sem' j' Hl Hs) as Hy. rewrite Hd in Hy.
  rewrite (decide_False (P := Some false = Some true)) in Hy by done.
  case_decide; eexists; (split; [exact Hy|]); by destruct j'.
Qed.

(** ** Two loops *)

Lemma leads_step y y1 y' : ystep y (Some y1) -> leads y1 y' -> leads y y'.
Proof. intros Hs Hr. by eapply rtc_l. Qed.

(** A step of a loop that does not return. *)
Lemma leads_loop p m sem l1 l l2 sem1 j1 m' sem' y' : m.(m_loops) = l1 ++ l :: l2 ->
  job_step cap sem (view m l) sem1 j1 -> (step_m m l1 l2 j1 false, sem1) = (m', sem') -> j1.(j_pc) <> PReturned ->
  leads (MkOne p m' sem') y' -> leads (MkOne p m sem) y'.
Proof.
  intros Hl Hs [= <- <-] Hp. eapply leads_step. pose proof (y_loop p m sem l1 l l2 sem1 j1 Hl Hs) as Hy.
  rewrite decide_False in Hy by (by intros [_ ?]). exact Hy.
Qed.

(** ... and of one that does, before any other. *)
Lemma leads_return p m sem l1 l l2 sem1 j1 y' : m.(m_loops) = l1 ++ l :: l2 ->
  job_step cap sem (view m l) sem1 j1 -> m.(m_disabled) = Some false -> l.(l_pc) <> PReturned -> j1.(j_pc) = PReturned ->
  leads (MkOne p (step_m m l1 l2 j1 true) sem1) y' -> leads (MkOne p m sem) y'.
Proof.
  intros Hl Hs Hd Hp Hp'. eapply leads_step. pose proof (y_loop p m sem l1 l l2 sem1 j1 Hl Hs) as Hy.
  rewrite decide_True in Hy by done. rewrite Hd, decide_False in Hy by done. exact Hy.
Qed.

Lemma leads_exec o p m sem p' m' y' : exec_m n o m = Some (p', m') -> leads (MkOne (p' ++ p) m' sem) y' ->
  leads (MkOne (Do n o :: p) m sem) y'.
Proof. intros He. eapply leads_step. by apply y_exec. Qed.

(** A loop whose goroutine is in its run, and one that waits for nothing. *)
Definition syncing (held : bool) : loop := MkLoop false PWait (Some (MkChild (CRun held) false)) [].

(** A job in state Disabled without a loop, as after a disable. *)
Definition disabled_job : mjob := MkM stateDisabled None None [].

Lemma twice_started : 2 <= cap ->
  leads (MkOne [] disabled_job 0) (MkOne [] (MkM stateReady None (Some false) [syncing true; syncing true]) 2).
Proof.
  intros Hcap. unfold disabled_job.
  (* two requests to start it; the loop of the first takes its action before the second is sent *)
  eapply leads_step; [apply (y_request _ _ CmdStart false)|].
  do 3 (eapply leads_exec; [reflexivity|simpl]).
  eapply leads_step; [apply (y_request _ _ CmdStart false)|].
  do 2 (eapply leads_exec; [reflexivity|simpl]).
  eapply (leads_loop _ _ _ []); [reflexivity|by apply j_top|vm_compute; reflexivity|done|].
  eapply (leads_loop _ _ _ []); [reflexivity|by eapply j_ctrl_idle|vm_compute; reflexivity|done|].
  eapply leads_exec; [reflexivity|simpl].
  (* both loops start a goroutine, which takes a token *)
  eapply (leads_loop _ _ _ []); [reflexivity|by apply j_top|vm_compute; reflexivity|done|].
  eapply (leads_loop _ _ _ []); [reflexivity|by eapply j_ctrl_wait|vm_compute; reflexivity|done|].
  eapply (leads_loop _ _ _ []); [reflexivity|eapply j_cur_step; [done|apply c_acquire; [done|simpl; lia]]|vm_compute; reflexivity|done|].
  eapply (leads_loop _ _ _ [_]); [reflexivity|by apply j_top|vm_compute; reflexivity|done|].
  eapply (leads_loop _ _ _ [_]); [reflexivity|eapply j_cur_step; [done|apply c_acquire; [done|simpl; lia]]|vm_compute; reflexivity|done|].
  apply rtc_refl.
Qed.

(** The goroutines that synchronise the mirror and were not killed. *)
Definition syncs (m : mjob) : list loop :=
  filter (fun l => match l.(l_cur) with Some c => running c && negb c.(c_killed) | None => false end = true) m.(m_loops).

(** The loops that have not returned. *)
Definition alive (m : mjob) : nat := length (filter (fun l => l.(l_pc) <> PReturned) m.(m_loops)).

Lemma alive_app l1 l2 : length (filter (fun l => l.(l_pc) <> PReturned) (l1 ++ l2))
  = (length (filter (fun l => l.(l_pc) <> PReturned) l1) + length (filter (fun l => l.(l_pc) <> PReturned) l2))%nat.
Proof. by rewrite filter_app, length_app. Qed.

(** A returned loop stays so, if it has no goroutine. *)
Lemma returned_stays sem j sem' j' : job_step cap sem j sem' j' -> j.(j_pc) = PReturned -> j'.(j_pc) = PReturned.
Proof. destruct 1; intros Hp; simpl; congruence. Qed.

Lemma alive_step sem m l1 l l2 sem' j' b : m.(m_loops) = l1 ++ l :: l2 ->
  job_step cap sem (view m l) sem' j' -> (alive (step_m m l1 l2 j' b) <= alive m)%nat.
Proof.
  intros Hl Hj. unfold alive. simpl. rewrite Hl, !alive_app, !filter_cons. simpl.
  destruct (decide (l_pc l = PReturned)) as [Hp|Hp].
  - rewrite (decide_False (P := j_pc j' <> PReturned)); [by destruct (decide (l_pc l <> PReturned)); cbn [length]; lia|].
    intros Hn. by apply Hn, (returned_stays _ _ _ _ Hj).
  - rewrite (decide_True (P := l_pc l <> PReturned)) by done. destruct (decide (j_pc j' <> PReturned)); cbn [length]; lia.
Qed.

Lemma alive_run m : alive (run_m m) = S (alive m).
Proof. unfold alive, run_m. simpl. rewrite alive_app. simpl. lia. Qed.

(** What one loop for a job rests on. A step makes no loop but for a request to start a job
    that is in state Disabled, and then one. *)
Theorem loops_from_starts y y' : ystep y (Some y') ->
  (alive y'.(y_job) <= alive y.(y_job))%nat
  \/ exists p, y.(y_prog) = Do n StartIf :: p /\ y.(y_job).(m_state) = stateDisabled
       /\ alive y'.(y_job) = S (alive y.(y_job)).
Proof.
  intros Hs. inversion Hs as [p m sem l1 l l2 sem' j' Hl Hj He|m sem c force|o p m sem p' m' He]; subst.
  - left. pose proof (fun b => alive_step _ _ _ _ _ _ _ b Hl Hj) as Hm.
    repeat case_decide; simplify_eq; apply Hm.
  - by left.
  - destruct o as [| |c| |[st|]|[st|]|]; simpl in He; try (injection He as <- <-; by left).
    + injection He as <- <-. case_bool_decide as Hd; [|by left]. right. exists p. split_and!; [done|done|apply alive_run].
    + destruct (m_ctrl m); [done|]. injection He as <- <-. by left.
    + case_decide; [|done]. injection He as <- <-. by left.
Qed.

(** ** Whatever is done to a job

    A step of one of its loops, with the semaphore as the other jobs have left it; an action
    put into the empty [ctrlChan] ([jobPing] is never sent); [SetState] by a handler or the
    schedule loop; a call of [Run], at any time, or with [twice] false only when no loop of
    the job is running. *)
Inductive mstep (twice : bool) : mjob -> mjob -> Prop :=
| m_loop m sem l1 l l2 sem' j' b : m.(m_loops) = l1 ++ l :: l2 -> job_step cap sem (view m l) sem' j' ->
    mstep twice m (step_m m l1 l2 j' b)
| m_send m c : c <> jobPing -> m.(m_ctrl) = None ->
    mstep twice m (MkM m.(m_state) (Some c) m.(m_disabled) m.(m_loops))
| m_set m st : mstep twice m (MkM st m.(m_ctrl) m.(m_disabled) m.(m_loops))
| m_call m : twice = true \/ alive m = 0%nat -> mstep twice m (run_m m).

(** The goroutines of a loop in which the provider may be running. *)
Definition runs_of (l : loop) : list child :=
  filter (fun c => running c = true) (option_list l.(l_cur) ++ l.(l_others)).

Definition all_runs (m : mjob) : list child := mjoin (runs_of <$> m.(m_loops)).

(** [JobLoop]'s invariant but for the state, which the loops share. *)
Definition fit (l : loop) : Z :=
  match l.(l_pc) with PWaitDone ToReturn => stateDisabled | PWaitDone ToCtrl => statePaused | _ => stateReady end.
Definition loop_inv (l : loop) : Prop :=
  job_inv (MkJob (fit l) None l.(l_bypass) l.(l_pc) l.(l_cur) l.(l_others)).

Lemma job_inv_other st ctrl st' ctrl' b pc cur others : ctrl' <> Some jobPing ->
  match pc with
  | PWait => st' = stateReady
  | PWaitDone ToReturn => st' = stateDisabled \/ st' = stateHalting
  | PWaitDone ToCtrl => st' = statePaused
  | PWaitDone ToTop => st' = stateReady
  | _ => True
  end -> job_inv (MkJob st ctrl b pc cur others) -> job_inv (MkJob st' ctrl' b pc cur others).
Proof. intros Hc Hs [H1 H2 H3 _ _]. by split. Qed.

Lemma loop_inv_of j : job_inv j -> loop_inv (loop_of j).
Proof.
  intros Hi. destruct j as [st ctrl b pc cur others]. unfold loop_inv, fit. simpl.
  apply (job_inv_other st ctrl); [done| |exact Hi]. destruct pc as [| | |[]|]; auto.
Qed.

(** A step of a loop does the same to it in the state that fits it, but at its head. *)
Lemma step_fit sem m l sem' j' : l.(l_pc) <> PTop -> job_step cap sem (view m l) sem' j' ->
  exists j2, job_step cap sem (set_state (fit l) (view m l)) sem' j2 /\ loop_of j2 = loop_of j'.
Proof.
  intros Hp Hs.
  inversion Hs as [? ? Hp'|? ? c Hp' Hc Hd|? ? ctrl Hp' Hc|? ? c k Hp' Hc Hd
    |? ? ctrl Hp' Hc|? ? c Hc Hp' Hb|? ? ? c c' Hc Hst|? ? ? x1 c x2 c' Ho Hst]; subst; simpl in *.
  - done.
  - eexists. split; [by apply j_done|]. unfold receive_done. by destruct (c_pc c) as [|[]|[]|].
  - eexists. split; [by apply j_ctrl_wait|]. by destruct ctrl.
  - eexists. split; [by apply j_killed|]. unfold receive_done. by destruct (c_pc c) as [|[]|[]|].
  - eexists. split; [by apply j_ctrl_idle|]. by destruct ctrl.
  - eexists. split; [by eapply j_bypass_take|done].
  - eexists. split; [by eapply j_cur_step|done].
  - eexists. split; [by eapply j_other_step|done].
Qed.

Lemma job_step_fit sem m l sem' j' : m.(m_ctrl) <> Some jobPing -> loop_inv l ->
  job_step cap sem (view m l) sem' j' -> loop_inv (loop_of j').
Proof.
  intros Hc Hl Hs.
  assert (Hi : job_inv (set_state (fit l) (view m l))).
  { apply (job_inv_other (fit l) None); [exact Hc| |exact Hl].
    change (j_pc (view m l)) with (l_pc l). unfold fit. destruct (l_pc l) as [| | |[]|]; auto. }
  destruct (decide (l_pc l = PTop)) as [Hp|Hp].
  - assert (Hi' : job_inv (view m l)) by (apply (job_inv_other (fit l) None); [exact Hc| |exact Hl];
      change (j_pc (view m l)) with (l_pc l); by rewrite Hp).
    by eapply loop_inv_of, job_step_inv.
  - destruct (step_fit _ _ _ _ _ Hp Hs) as (j2 & Hs2 & <-). by eapply loop_inv_of, job_step_inv.
Qed.

Lemma step_ctrl sem j sem' j' : job_step cap sem j sem' j' -> j'.(j_ctrl) = None \/ j'.(j_ctrl) = j.(j_ctrl).
Proof.
  destruct 1 as [sem j Hp|sem j c Hp Hc Hd|sem j ctrl Hp Hc|sem j c k Hp Hc Hd
    |sem j ctrl Hp Hc|sem j c Hc Hp Hb|sem sem' j c c' Hc Hs|sem sem' j x1 c x2 c' Ho Hs]; simpl; auto.
  - unfold top_step. case_match; auto.
  - right. apply receive_fields.
  - left. by destruct ctrl.
  - right. apply receive_fields.
  - left. by destruct ctrl.
Qed.

Definition loops_ok (m : mjob) : Prop := m.(m_ctrl) <> Some jobPing /\ Forall loop_inv m.(m_loops).

Lemma mstep_ok twice m m' : mstep twice m m' -> loops_ok m -> loops_ok m'.
Proof.
  destruct 1 as [m sem l1 l l2 sem' j' b Hl Hs|m c Hc Hn|m st|m Ht]; intros [Hp Hf].
  - rewrite Hl in Hf. apply Forall_app in Hf as [H1 [H2 H3]%Forall_cons]. split; simpl.
    + destruct (step_ctrl _ _ _ _ Hs) as [->| ->]; done.
    + apply Forall_app. split; [done|]. constructor; [by eapply job_step_fit|done].
  - split; [simpl; congruence|done].
  - done.
  - split; [done|]. simpl. apply Forall_app. split; [done|]. constructor; [by split|constructor].
Qed.

(** A loop has one run at most, and none when it is idle or has returned. *)
Lemma loop_runs l : loop_inv l -> (length (runs_of l) <= if decide (l.(l_pc) <> PReturned) then 1 else 0)%nat
  /\ (l.(l_pc) = PReturned \/ l.(l_pc) = PCtrl \/ l.(l_pc) = PTop -> runs_of l = []).
Proof.
  intros Hi. pose proof (running_cur _ Hi) as Hr. unfold running_of in Hr. simpl in Hr.
  change (runs_of l = match l.(l_cur) with Some c => if running c then [c] else [] | None => [] end) in Hr.
  assert (Hfree : l.(l_pc) = PReturned \/ l.(l_pc) = PCtrl \/ l.(l_pc) = PTop -> runs_of l = []).
  { intros Hp. rewrite Hr. assert (Hc : l.(l_cur) = None); [|by rewrite Hc].
    apply (inv_free _ Hi). change (waits (l_pc l) = false). by destruct Hp as [->|[->| ->]]. }
  split; [|done]. case_decide as Hp.
  - rewrite Hr. destruct (l_cur l) as [c|]; [destruct (running c)|]; simpl; lia.
  - rewrite Hfree; [done|by left].
Qed.

Lemma all_runs_alive m : Forall loop_inv m.(m_loops) -> (length (all_runs m) <= alive m)%nat.
Proof.
  unfold all_runs, alive. induction 1 as [|l ls Hl _ IH]; [done|].
  rewrite fmap_cons. simpl. rewrite length_app, filter_cons. destruct (loop_runs l Hl) as [Hle _].
  destruct (decide (l_pc l <> PReturned)); cbn [length]; lia.
Qed.

Lemma alive_alone m m' : mstep false m m' -> (alive m <= 1)%nat -> (alive m' <= 1)%nat.
Proof.
  destruct 1 as [m sem l1 l l2 sem' j' b Hl Hs|m c Hc Hn|m st|m [Ht|Ht]]; intros Ha; try done.
  - etrans; [by eapply alive_step|done].
  - rewrite alive_run. lia.
Qed.


(** C39: a job that was started twice. Two requests to start a disabled job, the second before
    the loop of the first took its action, lead to two synchronisations of one mirror at
    once; and a request to disable it, answered once a loop has ended, leaves the other
    running in state Disabled. *)
Theorem started_twice : 2 <= cap ->
  exists y1 y2, leads (MkOne [] disabled_job 0) y1 /\ y1.(y_prog) = [] /\ length (syncs y1.(y_job)) = 2%nat
    /\ leads (MkOne (command_program CmdDisable false n) y1.(y_job) y1.(y_sem)) y2
    /\ y2.(y_prog) = [] /\ y2.(y_job).(m_state) = stateDisabled /\ length (syncs y2.(y_job)) = 1%nat.
Proof.
  intros Hcap. eexists _, _. split; [by apply twice_started|]. split_and!; [done|done| |..].
  { do 3 (eapply leads_exec; [reflexivity|simpl]).
    eapply (leads_loop _ _ _ []); [reflexivity|by eapply j_ctrl_wait|vm_compute; reflexivity|done|].
    eapply (leads_loop _ _ _ []); [reflexivity|eapply j_cur_step; [done|by eapply c_finish]|vm_compute; reflexivity|done|].
    eapply (leads_return _ _ _ []); [reflexivity|by eapply j_killed|done|done|done|].
    eapply leads_exec; [reflexivity|simpl]. apply rtc_refl. }
  all: done.
Qed.
End loops.

(** *** Witness *)

Lemma started_twice_witness :
  exists y1, leads 4 "debian" (MkOne [] disabled_job 0) y1 /\ length (syncs y1.(y_job)) = 2%nat.
Proof.
  destruct (started_twice 4 "debian" ltac:(lia)) as (y1 & y2 & H1 & _ & H2 & _).
  exists y1. split; [exact H1|exact H2].
Defined.

