(* ===== verification/Due.v ===== *)
(** * worker/worker.go and job.go: no mirror is forgotten

    A mirror that is neither paused nor disabled has to be synchronised again and again:
    the schedule, a tick, the control channel, the run, its last message and the schedule
    loop hand it on to one another.  This file says where it can be at every moment, in the
    worker of [Channels], proves that every step keeps it somewhere except for four, and shows
    for two of the four a worker at rest that has forgotten an enabled mirror. *)

From S2P Require Import Prelude Json Msg Job Schedule Worker JobLoop Stages Channels.

Local Open Scope string_scope.
Local Open Scope list_scope.
Local Open Scope Z_scope.

Section due.
Context (cap : Z) (Retry : string -> Z).

(** ** Where a mirror can be *)

Definition enabled (x : wjob) : Prop :=
  x.(x_job).(j_state) = stateNone \/ x.(x_job).(j_state) = stateReady.

(** A goroutine that waits for its turn or is in a run that has still to send its last
    message. *)
Definition owes (x : wjob) : Prop :=
  x.(x_job).(j_pc) = PWait /\ exists c, x.(x_job).(j_cur) = Some c
    /\ (c.(c_pc) = CAcquire \/ running c = true /\ x.(x_stage) <> Finished).

Inductive recalled (w : worker) (n : string) (x : wjob) : Prop :=
(** in the schedule *)
| rc_due : n ∈ w.(k_due) -> recalled w n x
(** a message that asks for a schedule is in the channel, with the schedule loop, accepted *)
| rc_sent s : x.(x_job).(j_state) = stateReady -> (n, (s, true)) ∈ w.(k_chan) -> recalled w n x
| rc_found : x.(x_job).(j_state) = stateReady -> w.(k_sched) = SFind n true -> recalled w n x
| rc_report : w.(k_sched) = SReport n true -> recalled w n x
(** popped by a tick *)
| rc_popped : w.(k_sched) = SSend n -> recalled w n x
(** an action is on its way *)
| rc_ctrl : x.(x_job).(j_ctrl) <> None -> recalled w n x
(** a handler is at work on it *)
| rc_handler o l : w.(k_lock) = Holder (Do n o :: l) -> (o = Flush -> exists o' l', l = Do n o' :: l') ->
    recalled w n x
(** it is about to run, or runs *)
| rc_restart : x.(x_job).(j_pc) = PWaitDone ToTop -> recalled w n x
| rc_top : x.(x_job).(j_state) = stateReady -> x.(x_job).(j_pc) = PTop -> recalled w n x
| rc_run : owes x -> recalled w n x
(** the schedule loop has not come to it yet *)
| rc_boot : x_started x = false -> n ∈ pending w -> recalled w n x.

(** The steps that can forget a mirror. *)
Inductive forgets (w w' : worker) (n : string) : Prop :=
(** a command that does nothing to the job takes it out of the schedule *)
| fg_flush : w.(k_lock) = Holder [Do n Flush] -> w'.(k_lock) = Holder [] -> forgets w w' n
(** the provider could not be terminated: the run ends without a message *)
| fg_terminate x x' r : w.(k_jobs) !! n = Some x -> x.(x_stage) = InProvider r ->
    w'.(k_jobs) !! n = Some x' -> x'.(x_stage) = Finished -> forgets w w' n
(** a start is received while the run, its last message sent, is not seen to be done *)
| fg_start x x' ctrl : w.(k_jobs) !! n = Some x -> x.(x_job).(j_pc) = PWait ->
    x.(x_job).(j_ctrl) = Some ctrl -> ctrl = jobStart \/ ctrl = jobForceStart -> ~ owes x ->
    w'.(k_jobs) !! n = Some x' -> x'.(x_job).(j_ctrl) = None -> forgets w w' n
(** another job takes its instant in the schedule *)
| fg_taken m : m <> n -> n ∈ w.(k_due) -> w'.(k_due) = add_due (Some n) m w.(k_due) -> forgets w w' n.

(** ** The stages of a run in progress *)

Definition stage_ok (R : Z) (killed : bool) (s : stage) : Prop :=
  match s with
  | PreExec r | SendSync r | InProvider r => r < R
  | PostExec r _ stopASAP | SendVerdict r _ stopASAP => r < R /\ (stopASAP = true -> killed = true)
  | _ => True
  end.

Definition run_ok (n : string) (x : wjob) : Prop :=
  forall c, x.(x_job).(j_cur) = Some c -> running c = true -> stage_ok (Retry n) c.(c_killed) x.(x_stage).

Lemma stage_ok_step R killed s o s' : stage_ok R killed s -> run_step R killed s o s' -> stage_ok R killed s'.
Proof.
  intros H Hs. destruct Hs as [| | |r|r|r|r ok|r Hk|r|r ok st|r ok st|r ok st|]; simpl in *; try done.
  - unfold attempt_or_end. destruct (Z.ltb_spec 0 R); simpl; [lia|done].
  - destruct (ok || st); [done|]. unfold attempt_or_end. destruct (Z.ltb_spec (r + 1) R); simpl; [lia|done].
Qed.

Lemma stage_ok_kill R s : stage_ok R false s -> forall k, stage_ok R k s.
Proof. intros H k. destruct s; simpl in *; try done; split; try apply H; intros Hs; by apply H in Hs. Qed.

(** A running goroutine was running before, or has just begun. *)
Lemma job_step_run sem j sem' j' c' : job_step cap sem j sem' j' -> j'.(j_cur) = Some c' -> running c' = true ->
  in_run j = false \/ exists c, j.(j_cur) = Some c /\ running c = true /\ (c' = c \/ c' = kill c).
Proof.
  intros Hst Hc' Hr. destruct (in_run j) eqn:Hin; [right|by left]. unfold in_run in Hin.
  destruct (j_cur j) as [c|] eqn:Hc; [|done]. exists c. split_and!; [done|done|].
  destruct Hst as [sem j Hp|sem j c0 Hp Hc0 Hd|sem j ctrl Hp Hct|sem j c0 k Hp Hc0 Hd
    |sem j ctrl Hp Hct|sem j c0 Hc0 Hp Hb|sem sem' j c0 c1 Hc0 Hs|sem sem' j l1 c0 l2 c1 Ho Hs]; simpl in *.
  - unfold top_step in Hc'. case_match; simpl in Hc'; simplify_eq; auto.
  - destruct (receive_fields c0 PCtrl j) as (_ & E & _). congruence.
  - destruct ctrl; simpl in Hc'; rewrite ?Hc in Hc'; simpl in Hc'; simplify_eq; auto.
  - destruct (receive_fields c0 (after_done k) j) as (_ & E & _). congruence.
  - destruct ctrl; simpl in Hc'; simplify_eq; auto.
  - rewrite Hc in Hc0. simplify_eq. unfold running in Hin. by rewrite Hp in Hin.
  - rewrite Hc in Hc0. simplify_eq. unfold running in Hin, Hr.
    destruct Hs as [sem c0 Hp|sem c0 Hp|sem c0 held Hp|sem c0 Hp]; rewrite Hp in Hin; simpl in *; done.
  - left. congruence.
Qed.

Lemma own_step_run n sem x o sem' x' : own_step cap Retry n sem x o sem' x' -> run_ok n x -> run_ok n x'.
Proof.
  intros Ho Hx. destruct Ho as [sem x Hf|sem x sem' j' Hj _ _|sem x c o s' m Hc Hr Hst Hm]; intros c' Hc' Hr'; simpl in *.
  - by apply Hx.
  - assert (in_run j' = true) as Hin' by (unfold in_run; by rewrite Hc').
    unfold stage_after. rewrite Hin'.
    destruct (job_step_run _ _ _ _ _ Hj Hc' Hr') as [->|(c & Hc & Hr & Hk)]; [done|].
    assert (in_run (x_job x) = true) as -> by (unfold in_run; by rewrite Hc). simpl.
    pose proof (Hx c Hc Hr) as Hs. destruct Hk as [->| ->]; [done|]. simpl.
    destruct (c_killed c); [done|]. by apply stage_ok_kill.
  - rewrite Hc in Hc'. injection Hc' as <-. eapply stage_ok_step; [by apply Hx|done].
Qed.

Definition runs_ok (w : worker) : Prop := forall n x, w.(k_jobs) !! n = Some x -> run_ok n x.

(** The steps of the others start no run. *)
Lemma run_ok_cur n x x' : x'.(x_job).(j_cur) = x.(x_job).(j_cur) -> x'.(x_stage) = x.(x_stage) ->
  run_ok n x -> run_ok n x'.
Proof. unfold run_ok. by intros -> ->. Qed.

Lemma restart_cur before x : (restart_as before x).(x_job).(j_cur) = x.(x_job).(j_cur)
  /\ (restart_as before x).(x_stage) = x.(x_stage).
Proof. unfold restart_as. destruct before; repeat case_decide; done. Qed.

Lemma exec_cur n o x l x' : exec n o x = Goes l x' ->
  x'.(x_job).(j_cur) = x.(x_job).(j_cur) /\ x'.(x_stage) = x.(x_stage).
Proof.
  intros He. destruct o; simpl in He; repeat case_match; simplify_eq; try done; apply restart_cur.
Qed.

Lemma runs_ok_insert w n x : runs_ok w -> run_ok n x -> runs_ok (set_x n x w).
Proof. intros Hw Hx m y. simpl. intros [[<- <-]|[_ Hm]]%lookup_insert_Some; [done|by apply Hw]. Qed.

Lemma runs_ok_step w w' : runs_ok w -> wstep cap Retry w w' -> runs_ok w'.
Proof.
  intros Hw Hs. destruct Hs as [w n x o sem' x' Hn Ho _|w r|w l1 p l2 Hwt Hl|w w' Hs|w w' Hs]; try done.
  - apply (runs_ok_insert w n x'); [done|]. eapply own_step_run; [done|by apply Hw].
  - destruct Hs as [w Hl|w n o l Hl Hn|w n o l x l' x' taken Hl Hn He|w l n taken Hl Hn]; try done.
    + apply (runs_ok_insert w n x'); [done|]. destruct (exec_cur _ _ _ _ _ He). apply (run_ok_cur n x); [done..|by apply Hw].
    + by apply (runs_ok_insert w n (run_x new_x)).
  - destruct Hs as [w l Hs Hl|w n l x st taken Hs Hn Hst|w Hs|w n s f chan Hs Hc|w n f x Hs Hl Hn Hst|w n f Hs Hl Hst
      |w n [] taken Hs|w n Hs Hn|w n x Hs Hn Hc]; try done.
    + apply (runs_ok_insert w n); [done|]. destruct (restart_cur (Some st) x). apply (run_ok_cur n x); [done..|by apply Hw].
    + apply (runs_ok_insert w n); [done|]. apply (run_ok_cur n x); [done..|by apply Hw].
Qed.


(** ** The job's own steps *)

Definition busy (x : wjob) : Prop :=
  x.(x_job).(j_pc) = PWaitDone ToTop
  \/ x.(x_job).(j_state) = stateReady /\ x.(x_job).(j_pc) = PTop \/ owes x.

Lemma recalled_busy w n x : busy x -> recalled w n x.
Proof. intros [H|[[H1 H2]|H]]; [by apply rc_restart|by apply rc_top|by apply rc_run]. Qed.

Lemma recalled_keep w w' n x x' : recalled w n x ->
  x'.(x_job).(j_ctrl) = x.(x_job).(j_ctrl) -> x'.(x_job).(j_state) = x.(x_job).(j_state) ->
  x_started x' = x_started x -> k_due w ⊆ k_due w' -> (forall m, m ∈ k_chan w -> m ∈ k_chan w') ->
  k_sched w' = k_sched w -> k_lock w' = k_lock w -> (busy x -> recalled w' n x') -> recalled w' n x'.
Proof.
  intros H Ec Es Ef Hd Hch Esc El Hb.
  destruct H as [H|s H1 H2|H1 H2|H|H|H|o l H1 H2|H|H1 H2|H|H1 H2].
  - apply rc_due. set_solver.
  - eapply rc_sent; [congruence|by apply Hch].
  - apply rc_found; congruence.
  - apply rc_report. congruence.
  - apply rc_popped. congruence.
  - apply rc_ctrl. congruence.
  - eapply rc_handler; [by rewrite El|done].
  - apply Hb. by left.
  - apply Hb. right. by left.
  - apply Hb. right. by right.
  - apply rc_boot; [congruence|]. unfold pending. by rewrite Esc.
Qed.

Lemma owes_dec x : owes x \/ ~ owes x.
Proof.
  unfold owes. destruct (decide (x.(x_job).(j_pc) = PWait)) as [Hp|Hp]; [|right; by intros []].
  destruct (j_cur (x_job x)) as [c|]; [|right; by intros (_ & ? & ? & _)].
  destruct (decide (c_pc c = CAcquire)) as [Ha|Ha]; [left; split; [done|]; exists c; auto|].
  destruct (decide (running c = true /\ x_stage x <> Finished)) as [Hr|Hr]; [left; split; [done|]; exists c; auto|].
  right. intros (_ & c' & [= <-] & [|]); done.
Qed.

(** The goroutine gets its turn, or goes on unchanged. *)
Lemma begun_owes j j' c held st b : in_run j = false -> j'.(j_pc) = PWait ->
  j'.(j_cur) = Some (set_pc (CRun held) c) -> owes (MkX j' (stage_after j j' st) b).
Proof.
  intros Hin Hp' Hc'. split; [done|]. exists (set_pc (CRun held) c). split; [done|]. right.
  split; [done|]. simpl. unfold stage_after. rewrite Hin. unfold in_run. by rewrite Hc'.
Qed.

Lemma same_owes x j' : owes x -> j'.(j_pc) = PWait -> j'.(j_cur) = x.(x_job).(j_cur) ->
  owes (MkX j' (stage_after x.(x_job) j' x.(x_stage)) x.(x_run)).
Proof.
  intros (Hp & c & Hc & Ho) Hp' Hc'. split; [done|]. exists c. simpl. split; [congruence|].
  assert (stage_after (x_job x) j' (x_stage x) = x_stage x) as ->; [|done].
  unfold stage_after, in_run. rewrite Hc', Hc. by destruct (running c).
Qed.

Section own.
Context (w : worker) (n : string) (x : wjob).
Hypothesis Hinv : loop_ok x.(x_job).
Hypothesis Hn : w.(k_jobs) !! n = Some x.
Hypothesis Hrec : enabled x -> recalled w n x.

(** The job and the worker after a step of the loop. *)
Definition stepped (j' : job) : wjob := MkX j' (stage_after x.(x_job) j' x.(x_stage)) x.(x_run).
Definition after (sem' : Z) (x' : wjob) : worker := set_sem sem' (push n None (set_x n x' w)).

Lemma stepped_keep sem' j' : enabled x -> j_ctrl j' = j_ctrl (x_job x) -> j_state j' = j_state (x_job x) ->
  (busy x -> recalled (after sem' (stepped j')) n (stepped j')) -> recalled (after sem' (stepped j')) n (stepped j').
Proof.
  intros Hx Ec Es Hb. apply (recalled_keep w _ n x); try done; [auto|]. simpl. set_solver.
Qed.

(** An action is received at the wait for the goroutine. *)
Lemma received_waiting sem' ctrl : x.(x_job).(j_pc) = PWait -> x.(x_job).(j_ctrl) = Some ctrl ->
  let x' := stepped (on_ctrl_wait ctrl (set_ctrl None x.(x_job))) in
  enabled x' -> recalled (after sem' x') n x' \/ forgets w (after sem' x') n.
Proof.
  intros Hp Hc x' He. pose proof (ji_ctrl _ (lo_inv _ Hinv)) as Hping. rewrite Hc in Hping.
  assert (Hstart : (ctrl = jobStart \/ ctrl = jobForceStart) -> j_pc (x_job x') = PWait ->
    j_cur (x_job x') = j_cur (x_job x) -> j_ctrl (x_job x') = None ->
    recalled (after sem' x') n x' \/ forgets w (after sem' x') n).
  { intros Hs Hp' Hc' Hn'. destruct (owes_dec x) as [Ho|Ho].
    - left. apply rc_run. by apply same_owes.
    - right. eapply (fg_start _ _ _ x x' ctrl); try done. simpl. apply lookup_insert_eq. }
  destruct ctrl; try done; try (by destruct He); try (by apply Hstart; auto).
  left. by apply rc_restart.
Qed.

(** The goroutine of a job that owes a message moves on. *)
Lemma goroutine_owes sem' c c' : x.(x_job).(j_cur) = Some c -> child_step cap w.(k_sem) c sem' c' ->
  (in_run x.(x_job) = true -> in_run (set_cur (Some c') x.(x_job)) = false -> x.(x_stage) = Finished) ->
  owes x -> owes (stepped (set_cur (Some c') x.(x_job))).
Proof.
  intros Hc Hs Hf (Hp & c0 & Hc0 & Hb). rewrite Hc in Hc0. injection Hc0 as <-.
  destruct (ji_killed _ (lo_inv _ Hinv) c Hc) as [Hk _]. rewrite Hp in Hk. unfold running in Hb.
  inversion Hs as [? ? Hp' Hlt|? ? Hp' Hk'|? ? held Hp'|? ? Hp']; subst; rewrite Hp' in Hb; destruct Hb as [Hb|[Hb1 Hb2]];
    try done; try congruence.
  - eapply begun_owes; [|done|done]. unfold in_run. rewrite Hc. unfold running. by rewrite Hp'.
  - exfalso. apply Hb2, Hf; unfold in_run; rewrite ?Hc; unfold running; simpl; by rewrite ?Hp'.
Qed.

Lemma loop_recalled sem' j' : job_step cap w.(k_sem) x.(x_job) sem' j' ->
  (in_run x.(x_job) = true -> in_run j' = false -> x.(x_stage) = Finished) ->
  enabled (stepped j') -> recalled (after sem' (stepped j')) n (stepped j') \/ forgets w (after sem' (stepped j')) n.
Proof.
  intros Hj Hf He. pose proof (lo_inv _ Hinv) as Hi. unfold enabled in He. simpl in He.
  inversion Hj as [? ? Hp|? ? c Hp Hc Hd|? ? ctrl Hp Hc|? ? c k Hp Hc Hd
    |? ? ctrl Hp Hc|? ? c Hc Hp Hb|? ? ? c c' Hc Hs|? ? ? l1 c l2 c' Ho Hs]; subst.
  - left. destruct (decide (j_state (x_job x) = stateReady)) as [Hs|Hs].
    + apply rc_run. unfold stepped, top_step. rewrite (proj2 (Z.eqb_eq _ _) Hs).
      split; [done|]. eexists. split; [done|]. by left.
    + unfold top_step in *. rewrite (proj2 (Z.eqb_neq _ _) Hs) in *. apply stepped_keep; try done.
      intros [Hb|[[Hb _]|(Hb & _)]]; congruence.
  - left. destruct (receive_fields c PCtrl (x_job x)) as (_ & _ & Es & Ec & _). rewrite Es in He.
    apply stepped_keep; try done. intros [Hb|[[_ Hb]|(_ & c0 & Hc0 & Hb)]]; try congruence.
    rewrite Hc in Hc0. injection Hc0 as <-. unfold done_ready, running in *. by destruct (c_pc c), Hb as [|[]].
  - by apply received_waiting.
  - left. destruct (receive_fields c (after_done k) (x_job x)) as (Ep & _ & Es & Ec & _). rewrite Es in He.
    pose proof (ji_state _ Hi) as Hst. rewrite Hp in Hst. destruct k; [by rewrite Hst in He; destruct He| |].
    + exfalso. destruct Hst as [Hst|Hst]; rewrite Hst in He; by destruct He.
    + apply rc_top; [by rewrite <- Hst, <- Es|exact Ep].
  - left. pose proof (ji_ctrl _ Hi) as Hping. pose proof (lo_halt _ Hinv) as Hhalt. rewrite Hc in Hping, Hhalt.
    destruct ctrl; try done; try (by destruct He); by apply rc_top.
  - left. apply stepped_keep; try done. intros [Hb'|[[Hs Hb']|(Hb' & _)]].
    + by apply rc_restart.
    + by apply rc_top.
    + apply rc_run. eapply begun_owes; [|done|done]. unfold in_run. rewrite Hc. unfold running. by rewrite Hp.
  - left. apply stepped_keep; try done. intros [Hb|[[Hs' Hb]|Hb]]; [by apply rc_restart|by apply rc_top|].
    apply rc_run. by eapply (goroutine_owes _ c c').
  - left. apply stepped_keep; try done. intros [Hb|[[Hs' Hb]|Hb]]; [by apply rc_restart|by apply rc_top|].
    apply rc_run. apply same_owes; [done| |done]. apply Hb.
Qed.

(** A move of the run: the message it ends with asks for a schedule. *)
Lemma run_recalled c o s' sem m : 0 < Retry n -> run_ok n x -> x.(x_job).(j_cur) = Some c -> running c = true ->
  run_step (Retry n) c.(c_killed) x.(x_stage) o s' ->
  m = (fun st => (st, asks (Retry n) x.(x_job).(j_state) x.(x_stage))) <$> o ->
  let x' := MkX x.(x_job) s' x.(x_run) in
  let w' := set_sem sem (push n m (set_x n x' w)) in
  enabled x' -> recalled w' n x' \/ forgets w w' n.
Proof.
  intros HR Hok Hc Hr Hst Hm x' w' He.
  assert (Hkeep : (owes x -> recalled w' n x' \/ forgets w w' n) -> recalled w' n x' \/ forgets w w' n).
  { intros Ho. destruct (owes_dec x) as [Hx|Hx]; [by apply Ho|]. left.
    apply (recalled_keep w w' n x x'); try done; [by apply Hrec| |].
    - intros y Hy. apply elem_of_app. by left.
    - intros [Hb|[[Hs Hb]|Hb]]; [by apply rc_restart|by apply rc_top|done]. }
  apply Hkeep. intros Ho. destruct (decide (s' = Finished)) as [->|Hs'].
  2:{ left. apply rc_run. split; [apply Ho|]. exists c. auto. }
  assert (Hp : j_pc (x_job x) = PWait) by apply Ho.
  pose proof (ji_state _ (lo_inv _ Hinv)) as Hready. rewrite Hp in Hready.
  destruct (ji_killed _ (lo_inv _ Hinv) c Hc) as [Hk _]. rewrite Hp in Hk.
  pose proof (Hok c Hc Hr) as Hs. rewrite Hk in Hst, Hs.
  assert (Hmsg : forall st, o = Some st -> asks (Retry n) stateReady (x_stage x) = true -> recalled w' n x').
  { intros st -> Ha. eapply rc_sent; [done|]. rewrite Hready, Ha in Hm. subst m. simpl. apply elem_of_app. right.
    by apply list_elem_of_singleton. }
  inversion Hst as [| |  | | | | |? Hkk|r E1 E2|? ? ? E1 E2|? ? ? E1 E2|r ok st E1 E2 E3|E1 E2]; try congruence.
  - unfold attempt_or_end in *. destruct (Z.ltb_spec 0 (Retry n)); [done|lia].
  - right. eapply (fg_terminate _ _ _ x x' r); try done. simpl. apply lookup_insert_eq.
  - left. eapply Hmsg; [done|]. rewrite <- E1 in *. simpl in *. destruct Hs as [Hlt Hst'].
    destruct st; [by specialize (Hst' eq_refl)|]. destruct ok; [done|]. simpl in *.
    unfold attempt_or_end in E3. destruct (Z.ltb_spec (r + 1) (Retry n)); [done|].
    assert (r =? Retry n - 1 = true) as -> by (apply Z.eqb_eq; lia). done.
  - left. eapply Hmsg; [done|]. by rewrite <- E1.
Qed.

End own.


(** ** The steps of the others *)

Definition all_recalled (w : worker) : Prop :=
  forall n x, w.(k_jobs) !! n = Some x -> enabled x -> recalled w n x.

(** The reason is still there. *)
Ltac still :=
  solve [ by apply rc_due | by eapply rc_sent | by apply rc_found | by apply rc_report | by apply rc_popped
        | by apply rc_ctrl | by eapply rc_handler | by apply rc_restart | by apply rc_top | by apply rc_run
        | by apply rc_boot ].

Lemma add_due_self taken n due : n ∈ add_due taken n due.
Proof. unfold add_due. set_solver. Qed.

(** A job added to the schedule keeps the others there, but for one. *)
Lemma add_due_other taken m n due : n ∈ due -> n <> m -> n ∈ add_due taken m due \/ taken = Some n.
Proof.
  intros Hn Hne. destruct taken as [k|]; unfold add_due; simpl; [|left; set_solver].
  destruct (decide (k = n)) as [->|Hk]; [by right|]. left. set_solver.
Qed.

Lemma add_due_forgets w w' taken m n : n ∈ w.(k_due) -> n <> m ->
  w'.(k_due) = add_due taken m w.(k_due) -> n ∈ w'.(k_due) \/ forgets w w' n.
Proof.
  intros Hn Hne He. destruct (add_due_other taken m n _ Hn Hne) as [H| ->]; [left; by rewrite He|].
  right. by apply (fg_taken _ _ _ m).
Qed.

(** A modified job whose restart puts it into the schedule, or is not enabled. *)
Lemma restart_due_forgets w w' taken before m n : n ∈ w.(k_due) -> n <> m ->
  w'.(k_due) = restart_due taken before m w.(k_due) -> n ∈ w'.(k_due) \/ forgets w w' n.
Proof.
  intros Hn Hne. unfold restart_due. destruct before as [st|]; [case_decide|].
  - intros ->. by left.
  - by apply add_due_forgets.
  - intros ->. by left.
Qed.

Lemma restart_recalled taken st n x due : enabled (restart_as (Some st) x) ->
  n ∈ restart_due taken (Some st) n due.
Proof.
  unfold restart_as, restart_due, enabled. repeat case_decide; simpl; intros He; try (apply add_due_self);
    subst; destruct He; done || naive_solver.
Qed.

Lemma booted_none w n : n ∈ pending w -> booted w.(k_sched) = true -> False.
Proof. intros Hn Hb. destruct (booted_pending w Hb) as [Hp _]. rewrite Hp in Hn. by apply elem_of_nil in Hn. Qed.

Lemma sched_recalled w w' n x' : winv cap w -> all_recalled w -> sched_step w w' ->
  w'.(k_jobs) !! n = Some x' -> enabled x' -> recalled w' n x' \/ forgets w w' n.
Proof.
  intros Hw Hall Hs Hn He. destruct Hs as [w l Hs Hl|w m l x st taken Hs Hm Hst|w Hs|w m s f chan Hs Hc
    |w m f x Hs Hl Hm Hst|w m f Hs Hl Hst|w m f taken Hs|w m Hs Hm|w m x Hs Hm Hc].
  - by destruct (wi_booted cap w Hw l).
  - simpl in Hn. apply lookup_insert_Some in Hn as [[<- <-]|[Hne Hn]].
    + left. apply rc_due. simpl. by eapply restart_recalled.
    + destruct (Hall n x' Hn He); try (left; still); try congruence.
      * destruct (restart_due_forgets w (set_due (restart_due taken (Some st) m w.(k_due))
          (set_sched (SStarting l) (set_x m (restart_as (Some st) x) w))) taken (Some st) m n); auto.
        left. by apply rc_due.
      * left. apply rc_boot; [done|]. unfold pending in *. rewrite Hs in H0. simpl. set_solver.
  - left. destruct (Hall n x' Hn He); try still; try congruence.
    + assert (k_lock w = Scheduler) by (apply (wi_starting cap w Hw); by right). congruence.
    + unfold pending in H0. rewrite Hs in H0. by apply elem_of_nil in H0.
  - left. destruct (Hall n x' Hn He); try still; try congruence.
    + rewrite Hc in H0. apply elem_of_cons in H0 as [[= <- <- <-]|H0]; [by apply rc_found|by eapply rc_sent].
    + by apply booted_none in H0; [|rewrite Hs].
  - left. destruct (Hall n x' Hn He); try still; try congruence.
    + assert (SFind m f = SFind n true) as [= -> ->] by congruence. still.
    + by apply booted_none in H0; [|rewrite Hs].
  - left. destruct (Hall n x' Hn He); try still; try congruence.
    + assert (SFind m f = SFind n true) as [= -> ->] by congruence. by destruct (Hst x' Hn).
    + by apply booted_none in H0; [|rewrite Hs].
  - assert (Hn' : w.(k_jobs) !! n = Some x') by by destruct f.
    destruct (Hall n x' Hn' He); try (left; destruct f; still); try congruence.
    + destruct f; [|left; still]. destruct (decide (n = m)) as [->|Hne]; [left; apply rc_due, add_due_self|].
      destruct (add_due_forgets w (set_sched SSelect (set_due (add_due taken m w.(k_due)) w)) taken m n); auto.
      left. by apply rc_due.
    + assert (SReport m f = SReport n true) as [= -> ->] by congruence. left. apply rc_due, add_due_self.
    + by apply booted_none in H0; [|rewrite Hs].
  - left. destruct (Hall n x' Hn He); try still; try congruence.
    + destruct (decide (n = m)) as [->|Hne]; [still|]. apply rc_due. simpl. set_solver.
    + by apply booted_none in H0; [|rewrite Hs].
  - left. simpl in Hn. apply lookup_insert_Some in Hn as [[<- <-]|[Hne Hn]]; [by apply rc_ctrl|].
    destruct (Hall n x' Hn He); try still; try congruence.
    by apply booted_none in H0; [|rewrite Hs].
Qed.

(** The operation of a handler and its own job. *)
Lemma exec_recalled w n o l x l' x' taken : winv cap w -> w.(k_lock) = Holder (Do n o :: l) ->
  w.(k_jobs) !! n = Some x -> exec n o x = Goes l' x' -> enabled x' ->
  let w' := set_due (exec_due taken n o x w.(k_due)) (set_lock (Holder (l' ++ l)) (set_x n x' w)) in
  recalled w' n x' \/ forgets w w' n.
Proof.
  intros Hw Hl Hn He Hen w'. pose proof (wi_head cap w Hw _ Hl) as Hh.
  pose proof (wf_head_keep n o l _ Hh) as Hk.
  assert (Hnext : forall o l0, l' ++ l = Do n o :: l0 -> o <> Flush -> recalled w' n x').
  { intros o' l0 E Ho. eapply (rc_handler _ _ _ o' l0); [simpl; by rewrite E|done]. }
  unfold enabled in Hen. destruct o as [| |c| |before|before|]; simpl in He.
  - injection He as <- <-. simpl in *. destruct Hh as [Hh _].
    destruct l as [|[m o|] l]; [right; by apply fg_flush| |done].
    destruct Hh as [-> Ho]. left. by apply (Hnext o l).
  - destruct Hk as (c & l0 & -> & _). left. repeat case_bool_decide; simplify_eq; by eapply Hnext.
  - destruct (j_ctrl (x_job x)); [done|]. injection He as <- <-. left. by apply rc_ctrl.
  - case_bool_decide as Hd; injection He as <- <-; [by rewrite Hd in Hen; destruct Hen|].
    left. by eapply Hnext.
  - case_bool_decide as Hd; injection He as <- <-; [|left; by eapply Hnext].
    left. destruct before as [st|].
    + apply rc_due. simpl. rewrite decide_True by done. by eapply restart_recalled.
    + simpl in Hen. rewrite Hd in Hen. by destruct Hen.
  - destruct (x_fresh x); [done|]. destruct (x_started x && _) eqn:Hb; [|done]. injection He as <- <-.
    apply andb_true_iff in Hb as [_ Hp%bool_decide_eq_true]. left. destruct before as [st|].
    + apply rc_due. simpl. by eapply restart_recalled.
    + exfalso. simpl in Hen. pose proof (wi_jobs cap w Hw n x Hn) as Hx.
      pose proof (proj2 (gone_returned _) Hp) as Hg.
      destruct (xo_gone _ _ _ _ Hx Hg) as [Hd|[_ HP]]; [rewrite Hd in Hen; by destruct Hen|].
      by apply (not_pending cap w _ n Hw Hl) in HP.
  - injection He as <- <-. left. by eapply Hnext.
Qed.

(** ... and the other jobs. *)
Lemma add_due_minus taken m due : add_due taken m (due ∖ {[m]}) = add_due taken m due.
Proof. unfold add_due. apply set_eq. intros k. destruct (decide (k = m)); set_solver. Qed.

Lemma exec_due_forgets w w' taken m o x n : n ∈ w.(k_due) -> n <> m ->
  w'.(k_due) = exec_due taken m o x w.(k_due) -> n ∈ w'.(k_due) \/ forgets w w' n.
Proof.
  intros Hn Hne. assert (Hd : n ∈ k_due w ∖ {[m]}) by set_solver.
  assert (Hkeep : forall due, n ∈ due -> k_due w' = due -> n ∈ k_due w' \/ forgets w w' n) by (intros; left; congruence).
  destruct o as [| |c| |before|before|]; simpl; try (by apply Hkeep).
  - case_decide; [|by apply Hkeep]. destruct before as [st|]; unfold restart_due; [case_decide|]; try (by apply Hkeep).
    rewrite add_due_minus. by apply add_due_forgets.
  - by apply restart_due_forgets.
Qed.

Lemma handler_recalled w w' n x' : winv cap w -> all_recalled w -> handler_step w w' ->
  w'.(k_jobs) !! n = Some x' -> enabled x' -> recalled w' n x' \/ forgets w w' n.
Proof.
  intros Hw Hall Hs Hn He.
  destruct Hs as [w Hl|w m o l Hl Hm|w m o l x l' y taken Hl Hm Hex|w l m taken Hl Hm].
  - left. destruct (Hall n x' Hn He); try still. congruence.
  - left. destruct (Hall n x' Hn He); try still. rewrite Hl in H. injection H as -> -> ->. simpl in Hn. congruence.
  - simpl in Hn. apply lookup_insert_Some in Hn as [[<- <-]|[Hne Hn]]; [by eapply exec_recalled|].
    destruct (Hall n x' Hn He); try (left; still).
    + match goal with |- _ \/ forgets _ ?v _ =>
        destruct (exec_due_forgets w v taken m o x n H ltac:(done) eq_refl) as [Hd|Hf]; [left; by apply rc_due|by right] end.
    + rewrite Hl in H. by injection H as ->.
  - simpl in Hn. apply lookup_insert_Some in Hn as [[<- <-]|[Hne Hn]]; [left; apply rc_due, add_due_self|].
    destruct (Hall n x' Hn He); try (left; still); [|congruence].
    match goal with |- _ \/ forgets _ ?v _ =>
      destruct (add_due_forgets w v taken m n H ltac:(done) eq_refl) as [Hd|Hf]; [left; by apply rc_due|by right] end.
Qed.

Lemma step_recalled w w' : (forall n, 0 < Retry n) -> winv cap w -> runs_ok w -> all_recalled w ->
  wstep cap Retry w w' -> (forall n, ~ forgets w w' n) -> all_recalled w'.
Proof.
  intros HR Hw Hok Hall Hs Hno n x' Hn He.
  assert (recalled w' n x' \/ forgets w w' n) as [|Hf]; [|done|by destruct (Hno n)]. clear Hno.
  destruct Hs as [w m x o sem' y Hm Ho _|w r|w l1 p l2 Hwt Hl|w w' Hs|w w' Hs].
  - simpl in Hn. apply lookup_insert_Some in Hn as [[<- <-]|[Hne Hn]].
    + assert (Hlo : loop_ok (x_job x)) by apply (xo_loop _ _ _ _ (wi_jobs cap w Hw m x Hm)).
      inversion Ho as [? ? Hf|? ? ? j' Hj _ Hf|? ? c st s' ? Hc Hr Hst Hmsg]; subst.
      * left. apply (recalled_keep w _ m x); try done; [by apply Hall| | |].
        -- unfold x_fresh, x_started in *. simpl. by destruct (x_run x).
        -- simpl. set_solver.
        -- intros Hb. by apply recalled_busy.
      * apply loop_recalled; try done. by apply Hall.
      * eapply run_recalled; try done; [by apply Hall|by apply Hok].
    + left. destruct (Hall n x' Hn He); try still. eapply rc_sent; [done|]. simpl. apply elem_of_app. by left.
  - left. destruct (Hall n x' Hn He); still.
  - left. destruct (Hall n x' Hn He); try still. congruence.
  - by eapply handler_recalled.
  - by eapply sched_recalled.
Qed.

Lemma booting_recalled names : runs_ok (booting names) /\ all_recalled (booting names).
Proof.
  split; intros n x [Hn <-]%lookup_gset_to_gmap_Some; [done|]. intros _. apply rc_boot; [done|].
  unfold pending. simpl. by apply elem_of_elements.
Qed.

(** C3: no mirror is forgotten. As long as none of the four steps of [forgets] is taken,
    every mirror that is neither paused nor disabled is, in every state the worker can reach,
    in the schedule, or popped by a tick, or due to its start by the loop, or on its way by an
    action or a handler, or in a run that has still to ask for its next schedule, or the
    message that asks for it is in the channel or with the schedule loop. *)
Theorem mirrors_stay_due names w :
  (forall n, 0 < Retry n) ->
  rtc (fun a b => wstep cap Retry a b /\ forall n, ~ forgets a b n) (booting names) w ->
  forall n x, w.(k_jobs) !! n = Some x -> enabled x -> recalled w n x.
Proof.
  intros HR Hr. destruct (booting_recalled names) as [Hok Hall]. pose proof (booting_inv cap names) as Hw.
  change (all_recalled w). revert Hw Hok Hall.
  induction Hr as [|w1 w2 w3 [Hs Hno] _ IH]; [done|]. intros Hw Hok Hall.
  apply IH; [by eapply wstep_inv|by eapply runs_ok_step|by eapply step_recalled].
Qed.

(** ** A worker that has forgotten a mirror *)

(** Nothing happens any more before a request arrives. *)
Definition at_rest (w : worker) : Prop :=
  forall w', wstep cap Retry w w' -> exists r, w' = set_wait (w.(k_wait) ++ [program r]) w.

(** An enabled mirror, nowhere recalled, in a worker at rest. *)
Definition forgotten (n : string) (w : worker) : Prop :=
  at_rest w /\ exists x, w.(k_jobs) !! n = Some x /\ enabled x /\ ~ recalled w n x.

Definition idle (x : wjob) : Prop :=
  x.(x_run) = RBegun /\ x.(x_job).(j_pc) = PCtrl /\ x.(x_job).(j_ctrl) = None /\ x.(x_job).(j_cur) = None
  /\ Forall (fun c => c.(c_pc) = CClosed false) x.(x_job).(j_others).

Lemma idle_own n sem x o sem' x' : idle x -> own_step cap Retry n sem x o sem' x' -> False.
Proof.
  intros (Hb & Hp & Hc & Hu & Ho) Hs. destruct Hs as [sem x Hf|sem x sem' j' Hj _ _|]; [unfold x_fresh in Hf; by rewrite Hb in Hf| |congruence].
  inversion Hj as [| | | | | | |? ? ? l1 c l2 c' E Hch]; try congruence. subst.
  rewrite E in Ho. apply Forall_app in Ho as [_ [Hcl _]%Forall_cons].
  inversion Hch; subst; congruence.
Qed.

Lemma idle_forgotten n sem x : idle x -> enabled x ->
  forgotten n (one n Free [] SSelect [] ∅ sem x).
Proof.
  intros Hi He. assert (Hs : x_started x = true) by (unfold x_started; by rewrite (proj1 Hi)). split.
  - intros w' Hst. inversion Hst as [? m y o sem' y' Hm Ho Hroom|? r|? l1 p l2 Hwt Hl|? ? Hh|? ? Hh]; subst.
    + simpl in Hm. apply lookup_singleton_Some in Hm as [<- <-]. by apply idle_own in Ho.
    + by exists r.
    + by destruct l1.
    + by inversion Hh.
    + inversion Hh; subst; simpl in *; done.
  - exists x. split_and!; [apply lookup_singleton_eq|done|]. destruct Hi as (_ & Hp & Hc & Hu & _).
    intros Hr. destruct Hr as [H|s H1 H2|H1 H2|H|H|H|o l H1 H2|H|H1 H2|(H & _)|H1 H2]; simpl in *; try congruence.
    + by apply elem_of_empty in H.
    + by apply elem_of_nil in H2.
Qed.

(** The schedule loop receives a message of a job in state Ready. *)
Lemma one_message n (s : SyncStatus) (f : bool) chan due sem x Q : x.(x_job).(j_state) = stateReady ->
  reaches cap Retry (one n Free [] SSelect chan (if f then add_due None n due else due) sem x) Q ->
  reaches cap Retry (one n Free [] SSelect ((n, (s, f)) :: chan) due sem x) Q.
Proof.
  intros Hx HQ. eapply reaches_step; [by eapply k_schedule, s_receive|].
  eapply reaches_step; [eapply k_schedule, s_find; [done|done|apply lookup_singleton_eq|by left]|].
  eapply reaches_step; [by apply k_schedule, (s_report _ n f None)|]. by destruct f.
Qed.

(** The handler has nothing left to do. *)
Lemma one_done n s chan due sem x Q : reaches cap Retry (one n Free [] s chan due sem x) Q ->
  reaches cap Retry (one n (Holder []) [] s chan due sem x) Q.
Proof. intros HQ. eapply reaches_step; [by apply k_handler, h_done|exact HQ]. Qed.

(** C38: a ping forgets a mirror. Every command takes the job out of the schedule; one that
    does nothing else, as a ping, leaves a mirror that waits for its turn enabled and never
    synchronised again, in a worker in which nothing moves. *)
Theorem ping_forgets n : exists w, reachable cap Retry {[n]} w /\ forgotten n w.
Proof.
  assert (reaches cap Retry (booting {[n]}) (forgotten n)) as H; [|exact H].
  apply one_started, one_begin.
  eapply one_loop; [by apply j_top|vm_compute; reflexivity|done|vm_compute; reflexivity|].
  apply (one_request _ _ n (Command CmdPing false n)). eapply one_do; [reflexivity|]. apply one_done. simpl.
  assert ({[n]} ∖ {[n]} =@{gset string} ∅) as -> by set_solver.
  eexists. split; [apply rtc_refl|]. apply idle_forgotten; [by split_and!|by left].
Qed.

(** A start can be lost. A command to start a mirror whose run has just sent its last
    message takes it out of the schedule again, and the loop may receive the action while it
    still waits for the end of that run: the mirror is not started, and stays enabled in a
    worker in which nothing moves. *)
Theorem start_can_be_lost n : 1 <= cap -> 0 < Retry n ->
  exists w, reachable cap Retry {[n]} w /\ forgotten n w.
Proof.
  intros Hcap HR. assert (reaches cap Retry (booting {[n]}) (forgotten n)) as H; [|exact H].
  apply one_ticked; [done|]. intros j ->.
  eapply one_run; [done|done|apply r_job|done|]. unfold attempt_or_end.
  rewrite (proj2 (Z.ltb_lt _ _) HR).
  eapply one_run; [done|done|apply r_exec|done|].
  eapply one_run; [done|done|apply r_sync|intros _; simpl; unfold managerChan_cap; lia|].
  eapply one_run; [done|done|apply (r_done _ _ _ true)|done|].
  eapply one_run; [done|done|apply r_post|done|].
  eapply one_run; [done|done|apply r_verdict|intros _; simpl; unfold managerChan_cap; lia|]. simpl.
  do 3 (apply one_message; [done|]). simpl.
  apply (one_request _ _ n (Command CmdStart false n)).
  do 3 (eapply one_do; [reflexivity|simpl]). apply one_done.
  assert (add_due None n ∅ ∖ {[n]} = ∅) as -> by (unfold add_due; simpl; set_solver).
  eapply one_loop; [by eapply j_ctrl_wait|vm_compute; reflexivity|by left|vm_compute; reflexivity|].
  eapply one_loop; [eapply j_cur_step; [done|by eapply c_finish]|vm_compute; reflexivity|by right|vm_compute; reflexivity|].
  eapply one_loop; [by eapply j_done|vm_compute; reflexivity|done|vm_compute; reflexivity|].
  eapply one_loop; [eapply (j_other_step _ _ _ _ []); [reflexivity|by apply c_release]|vm_compute; reflexivity|done
    |vm_compute; reflexivity|].
  eexists. split; [apply rtc_refl|]. apply idle_forgotten; [split_and!; try done|by right].
  by constructor.
Qed.

End due.

(** *** Witnesses *)

Definition ex_started : worker :=
  one "debian" Scheduler [] (SStarting []) [] {["debian"]} 0 (run_x (on_job (set_state stateNone) new_x)).

Lemma ex_first_step : rtc (fun a b => wstep 1 (fun _ => 2) a b /\ forall n, ~ forgets a b n) (booting debian) ex_started.
Proof.
  apply rtc_once. unfold booting, initial, debian, ex_started. rewrite gset_to_gmap_singleton, elements_singleton.
  assert ({["debian"]} = restart_due None (Some stateNone) "debian" ∅) as ->
    by (unfold restart_due; rewrite decide_False by (by intros []); unfold add_due; simpl; set_solver).
  split.
  - pose proof (s_start (one "debian" Scheduler [] (SStarting ["debian"]) [] ∅ 0 new_x) "debian" [] new_x stateNone None
      eq_refl (lookup_singleton_eq _ _) (or_introl eq_refl)) as H.
    unfold set_x in H. simpl in H. rewrite insert_singleton_eq in H. by apply k_schedule.
  - intros n [H|x x' r Hx Hs|x x' ctrl Hx Hp|m _ H]; simpl in *; try done.
    + apply lookup_singleton_Some in Hx as [_ <-]. done.
    + apply lookup_singleton_Some in Hx as [_ <-]. done.
Qed.

Lemma mirrors_stay_due_witness : exists x, ex_started.(k_jobs) !! "debian" = Some x /\ enabled x
  /\ x_started x = true /\ recalled ex_started "debian" x.
Proof.
  eexists. assert (Hx : ex_started.(k_jobs) !! "debian" = Some (run_x (on_job (set_state stateNone) new_x)))
    by apply lookup_singleton_eq.
  split; [exact Hx|]. assert (He : enabled (run_x (on_job (set_state stateNone) new_x))) by (by left).
  split_and!; [exact He|done|].
  exact (mirrors_stay_due 1 (fun _ => 2) debian ex_started ltac:(done) ex_first_step "debian" _ Hx He).
Defined.

Lemma start_can_be_lost_witness : exists w, reachable 1 (fun _ => 2) debian w /\ forgotten 1 (fun _ => 2) "debian" w.
Proof.
  destruct (start_can_be_lost 1 (fun _ => 2) "debian") as (w & Hr & Hf); [lia|lia|].
  exists w. split; [exact Hr|exact Hf].
Defined.
