(* ===== verification/Shutdown.v ===== *)
(** * worker/worker.go: [Halt] among the other goroutines

    On SIGINT or SIGTERM a worker takes its lock, sends [jobHalt] to every job that is not
    disabled, and waits for the loops of all jobs to end.  Here these are steps between
    those of [Channels], with the lock held throughout: what the schedule loop and the jobs
    still do meanwhile decides whether the wait ends.  What follows the wait is the loop of
    [Worker.on_exit].  As in [Channels] each job has one loop. *)

From S2P Require Import Prelude Json Msg Job Schedule Worker JobLoop Stages Channels.

Local Open Scope string_scope.
Local Open Scope list_scope.
Local Open Scope Z_scope.

(** ** Halt *)

Inductive halt_pc : Type :=
(** no signal has come *)
| HIdle
(** at [w.L.Lock()] *)
| HLock
(** these jobs of the range left to look at *)
| HLoop (l : list string)
(** at [job.ctrlChan <- jobHalt] *)
| HSend (n : string) (l : list string)
(** at [jobsDone.Wait()] *)
| HWait
(** the lock given back and [w.exit] closed *)
| HDone.

Record stopping : Type := MkStopping { s_worker : worker; s_halt : halt_pc }.

Section shutdown.
Context (cap : Z) (Retry : string -> Z).

(** The steps of [Halt] under the lock.  [jobsDone] counts the loops that have begun and have
    not returned. *)
Inductive halt_step : stopping -> stopping -> Prop :=
| p_skip w n l x : w.(k_jobs) !! n = Some x -> x.(x_job).(j_state) = stateDisabled ->
    halt_step (MkStopping w (HLoop (n :: l))) (MkStopping w (HLoop l))
| p_look w n l x : w.(k_jobs) !! n = Some x -> x.(x_job).(j_state) <> stateDisabled ->
    halt_step (MkStopping w (HLoop (n :: l))) (MkStopping w (HSend n l))
| p_send w n l x : w.(k_jobs) !! n = Some x -> x.(x_job).(j_ctrl) = None ->
    halt_step (MkStopping w (HSend n l)) (MkStopping (set_x n (on_job (set_ctrl (Some jobHalt)) x) w) (HLoop l))
| p_wait w : halt_step (MkStopping w (HLoop [])) (MkStopping w HWait)
| p_done w : (forall n x, w.(k_jobs) !! n = Some x -> x.(x_job).(j_pc) = PReturned \/ x_fresh x = true) ->
    halt_step (MkStopping w HWait) (MkStopping (set_lock Free w) HDone).

(** The range over the jobs has no order. *)
Inductive hstep : stopping -> stopping -> Prop :=
| p_worker w w' h : wstep cap Retry w w' -> hstep (MkStopping w h) (MkStopping w' h)
| p_signal w : hstep (MkStopping w HIdle) (MkStopping w HLock)
| p_lock w l : w.(k_lock) = Free -> l ≡ₚ elements (dom w.(k_jobs)) ->
    hstep (MkStopping w HLock) (MkStopping (set_lock Stopper w) (HLoop l))
| p_halt s s' : halt_step s s' -> hstep s s'.

Definition hreachable (names : gset string) (s : stopping) : Prop :=
  rtc hstep (MkStopping (booting names) HIdle) s.

(** ** The invariant *)

(** A job as it is while no request holds the lock: its loop runs, unless it is disabled,
    and nobody has told it to end. *)
Definition calm (x : wjob) : Prop := x_ok False False False x.

Definition well (x : wjob) : Prop := job_inv x.(x_job) /\ (x_fresh x = true -> x.(x_job).(j_pc) = PTop).

(** A job that is ending or has ended, or has [jobHalt] to take. *)
Definition told (x : wjob) : Prop :=
  well x
  /\ (x.(x_job).(j_pc) = PReturned \/ x.(x_job).(j_pc) = PWaitDone ToReturn \/ x.(x_job).(j_ctrl) = Some jobHalt).

(** A job whose loop runs and has no reason to end. *)
Definition untold (x : wjob) : Prop := loop_ok x.(x_job) /\ phase_of x.(x_job) = Alive.

(** The jobs [Halt] has not sent to, while it holds the lock. *)
Definition to_tell (h : halt_pc) : option (list string) :=
  match h with
  | HLoop l => Some l
  | HSend n l => Some (n :: l)
  | HWait => Some []
  | _ => None
  end.

Record holding (w : worker) (h : halt_pc) (l : list string) : Prop := {
  ho_reach : JobLoop.reachable cap (forget w);
  ho_lock : w.(k_lock) = Stopper;
  ho_booted : booted w.(k_sched) = true;
  ho_jobs : forall n x, w.(k_jobs) !! n = Some x -> calm x \/ told x;
  ho_left : NoDup l /\ forall n, n ∈ l -> exists x, w.(k_jobs) !! n = Some x /\ calm x;
  ho_send : forall n l', h = HSend n l' -> exists x, w.(k_jobs) !! n = Some x /\ untold x
}.

Definition sinv (s : stopping) : Prop :=
  match s.(s_halt) with
  | HIdle | HLock => winv cap s.(s_worker)
  | HDone => True
  | h => exists l, to_tell h = Some l /\ holding s.(s_worker) h l
  end.

Lemma calm_inv x : calm x -> job_inv x.(x_job).
Proof. intros H. apply (lo_inv _ (xo_loop _ _ _ _ H)). Qed.

Lemma well_inv x : calm x \/ told x -> well x.
Proof. intros [H|[H _]]; [|done]. split; [by apply calm_inv|apply (xo_fresh _ _ _ _ H)]. Qed.

(** A calm job whose loop runs is one nobody told to end. *)
Lemma calm_untold x : calm x -> x.(x_job).(j_pc) <> PReturned -> untold x.
Proof.
  intros Hc Hp. split; [apply (xo_loop _ _ _ _ Hc)|]. rewrite <- gone_returned in Hp.
  pose proof (xo_dying _ _ _ _ Hc) as Hd. destruct (phase_of (x_job x)); naive_solver.
Qed.

Lemma calm_looked x : calm x -> x.(x_job).(j_state) <> stateDisabled -> untold x.
Proof.
  intros Hc Hs. apply calm_untold; [done|]. intros Hp. apply gone_returned in Hp.
  by destruct (xo_gone _ _ _ _ Hc Hp) as [|[_ []]].
Qed.

(** *** What the jobs and the schedule loop keep *)

(** [calm] and [told] are kept, and so is that nobody told a job to end. *)
Definition keeps (x x' : wjob) : Prop :=
  (calm x -> calm x') /\ (told x -> told x') /\ (untold x -> untold x').

Lemma told_job sem j sem' j' st st' b : told (MkX j st b) -> job_step cap sem j sem' j' ->
  (x_fresh (MkX j st b) = true -> j'.(j_pc) = j.(j_pc)) -> told (MkX j' st' b).
Proof.
  intros [[Hi Hf] Ht] Hs Hsame. simpl in *.
  split; [split; [by eapply job_step_inv|intros Hb; simpl; rewrite Hsame; auto]|]. simpl. clear Hf Hsame.
  destruct Hs as [sem j Hp|sem j c Hp Hc Hd|sem j ctrl Hp Hc|sem j c k Hp Hc Hd
    |sem j ctrl Hp Hc|sem j c Hc Hp Hb|sem sem' j c c' Hc Hs|sem sem' j l1 c l2 c' Ho Hs]; simpl; try done.
  - destruct Ht as [?|[?|Ht]]; [congruence..|]. right; right. unfold top_step. by case_match.
  - destruct Ht as [?|[?|Ht]]; [congruence..|]. right; right. by destruct (receive_fields c PCtrl j) as (_ & _ & _ & -> & _).
  - destruct Ht as [?|[?|Ht]]; [congruence..|]. rewrite Hc in Ht. injection Ht as ->. by right; left.
  - destruct (receive_fields c (after_done k) j) as (-> & _ & _ & -> & _).
    destruct Ht as [?|[He|Ht]]; [congruence| |by right; right]. rewrite Hp in He. injection He as ->. by left.
  - destruct Ht as [?|[?|Ht]]; [congruence..|]. rewrite Hc in Ht. injection Ht as ->. by left.
Qed.

Lemma own_keeps n sem x o sem' x' : own_step cap Retry n sem x o sem' x' -> keeps x x'.
Proof.
  intros Ho. split_and!.
  - intros Hx. by destruct (own_step_ok _ _ _ _ _ _ _ _ _ _ _ Hx Ho).
  - destruct Ho as [sem x Hf|sem x sem' j' Hj Hsame _|sem x c o s' m Hc _ _ _]; [| |done].
    + by intros [[Hi _] Ht].
    + intros Hx. destruct x as [j st b]. by eapply (told_job _ _ _ _ st).
  - unfold untold. intros [Hl Ha]. destruct Ho as [sem x Hf|sem x sem' j' Hj _ _|sem x c o s' m Hc _ _ _]; [done| |done].
    destruct (job_step_loop _ _ _ _ _ Hl Hj) as [Hl' Hn]. split; [done|]. unfold phase_next in Hn. rewrite Ha in Hn. apply Hn.
Qed.

(** A tick sends [jobStart]. *)
Lemma tick_keeps x : x.(x_job).(j_ctrl) = None -> keeps x (on_job (set_ctrl (Some jobStart)) x).
Proof.
  intros Hc. split_and!.
  - intros [H1 H2 H3 H4 H6 H5]. destruct (tick_loop _ H1 Hc) as [T1 T2]. split; simpl; rewrite ?T2; auto.
  - intros [[Hi Hf] Ht]. split; [split; [by apply (worker_step_inv _ _ Hi), w_send|done]|]. simpl.
    destruct Ht as [?|[?|Ht]]; [by left|by right; left|congruence].
  - intros [Hl Ha]. destruct (tick_loop _ Hl Hc) as [T1 T2]. split; [done|]. simpl. by rewrite T2.
Qed.

Lemma holding_job w w' h l n x x' : holding w h l -> w.(k_jobs) !! n = Some x -> keeps x x' ->
  w'.(k_lock) = w.(k_lock) -> booted w'.(k_sched) = true -> w'.(k_jobs) = <[n := x']> w.(k_jobs) ->
  rtc (JobLoop.step cap) (forget w) (forget w') -> holding w' h l.
Proof.
  intros [H1 H2 H3 H4 [H5 H6] H7] Hn (K1 & K2 & K3) El Es Ej Hr.
  assert (Hk : forall m (Q : wjob -> Prop), (Q x -> Q x') -> (exists y, w.(k_jobs) !! m = Some y /\ Q y) ->
    exists y, w'.(k_jobs) !! m = Some y /\ Q y).
  { intros m Q HQ (y & Hy & Hq). rewrite Ej. destruct (decide (m = n)) as [->|Hne].
    - exists x'. rewrite lookup_insert_eq. split; [done|]. apply HQ. by rewrite Hn in Hy; injection Hy as ->.
    - exists y. by rewrite lookup_insert_ne. }
  split.
  - unfold JobLoop.reachable in *. by etrans.
  - congruence.
  - done.
  - rewrite Ej. intros m y [[<- <-]|[Hne Hm]]%lookup_insert_Some; [|by eapply H4].
    destruct (H4 n x Hn); [left|right]; auto.
  - split; [done|]. intros m Hm. apply Hk; auto.
  - intros m l' ->. apply Hk; [done|]. by eapply H7.
Qed.

Lemma holding_same w w' h l : holding w h l -> w'.(k_lock) = w.(k_lock) -> booted w'.(k_sched) = true ->
  w'.(k_jobs) = w.(k_jobs) -> w'.(k_sem) = w.(k_sem) -> holding w' h l.
Proof.
  intros [H1 H2 H3 H4 H5 H6] El Es Ej Em. split; rewrite ?El, ?Ej; try done.
  unfold forget in *. by rewrite Ej, Em.
Qed.

Lemma holding_worker w w' h l : holding w h l -> wstep cap Retry w w' -> holding w' h l.
Proof.
  intros Hh Hs. pose proof (ho_lock _ _ _ Hh) as Hl. pose proof (ho_booted _ _ _ Hh) as Hb.
  destruct Hs as [w n x o sem' x' Hn Ho Hroom|w r|w l1 p l2 Hwt Hf|w w' Hs|w w' Hs].
  - eapply (holding_job w _ h l n x x'); try done; [by eapply own_keeps|by eapply forget_own].
  - by eapply holding_same.
  - congruence.
  - exfalso. destruct Hs; congruence.
  - destruct Hs as [w l' Hs Hf|w n l' x st taken Hs Hn Hst|w Hs|w n s f chan Hs Hc|w n f x Hs Hf Hn Hst|w n f Hs Hf Hst
      |w n f taken Hs|w n Hs Hn|w n x Hs Hn Hc]; try congruence; try (by rewrite Hs in Hb).
    + by eapply holding_same.
    + destruct f; by eapply holding_same.
    + by eapply holding_same.
    + eapply (holding_job w _ h l n x (on_job (set_ctrl (Some jobStart)) x)); try done; [by apply tick_keeps|].
      apply (forget_worker cap w n x); [done|]. apply rtc_once. by apply w_send.
Qed.

(** ** What Halt keeps *)

(** The lock is free and the schedule loop has started the jobs. *)
Lemma free_holding w l : winv cap w -> w.(k_lock) = Free -> l ≡ₚ elements (dom w.(k_jobs)) ->
  holding (set_lock Stopper w) (HLoop l) l.
Proof.
  intros Hw Hf Hl.
  assert (Hp : pending w = [] /\ k_sched w <> SStarting []).
  { split; [destruct (pending w) eqn:Hp; [done|]|intros Hs]; assert (k_lock w = Scheduler) as Hk;
      try (apply (wi_starting _ _ Hw)); auto; [left; congruence|congruence..]. }
  destruct Hp as [Hp Hs].
  assert (Hc : forall n x, k_jobs w !! n = Some x -> calm x).
  { intros n x Hn. eapply x_ok_mono; [by apply (wi_jobs _ _ Hw n x Hn)|..].
    - intros _ (b & l' & He). congruence.
    - intros _ _ (c & l' & He). congruence.
    - rewrite Hp. by intros ?%elem_of_nil. }
  split; simpl; try done.
  - apply (wi_reach _ _ Hw).
  - pose proof (wi_booted _ _ Hw) as Hb. unfold pending in Hp. destruct (k_sched w); try done; [by destruct (Hb l0)|by subst].
  - intros n x Hn. left. by eapply Hc.
  - split; [rewrite Hl; apply NoDup_elements|]. intros n. rewrite Hl, elem_of_elements, elem_of_dom.
    intros [x Hx]. exists x. split; [done|by eapply Hc].
Qed.

Lemma halt_inv s s' : sinv s -> halt_step s s' -> sinv s'.
Proof.
  intros Hi Hs. destruct Hs as [w n l x Hn Hd|w n l x Hn Hd|w n l x Hn Hc|w|w Hall]; unfold sinv in *; simpl in *.
  - destruct Hi as (l0 & [= <-] & [H1 H2 H3 H4 [H5 H6] H7]). exists l. split; [done|]. apply NoDup_cons in H5 as [_ H5].
    split; try done. split; [done|]. intros m Hm. apply H6. by right.
  - destruct Hi as (l0 & [= <-] & [H1 H2 H3 H4 [H5 H6] H7]). exists (n :: l). split; [done|].
    split; try done. intros m l' [= <- _]. exists x. split; [done|].
    destruct (H6 n) as (x0 & Hx & Hcalm); [by left|]. rewrite Hn in Hx. injection Hx as <-. by apply calm_looked.
  - destruct Hi as (l0 & [= <-] & [H1 H2 H3 H4 [H5 H6] H7]). exists l. split; [done|]. apply NoDup_cons in H5 as [Hnl H5].
    split; simpl; try done.
    + unfold JobLoop.reachable in *. etrans; [exact H1|]. apply (forget_worker cap w n x); [done|].
      apply rtc_once. by apply w_send.
    + intros m y [[<- <-]|[Hne Hm]]%lookup_insert_Some; [|by eapply H4]. right. split; [|by right; right].
      destruct (well_inv x (H4 n x Hn)) as [Hi Hf]. split; [|done].
      apply (worker_step_inv _ _ Hi). by apply w_send.
    + split; [done|]. intros m Hm. rewrite lookup_insert_ne by (by intros ->). apply H6. by right.
  - destruct Hi as (l0 & [= <-] & [H1 H2 H3 H4 H5 H6]). exists []. by split.
  - done.
Qed.

Lemma hstep_inv s s' : sinv s -> hstep s s' -> sinv s'.
Proof.
  intros Hi Hs. destruct Hs as [w w' h Hs|w|w l Hf Hl|s s' Hs].
  - unfold sinv in *. simpl in *. destruct h; try (by eapply wstep_inv); try done;
      destruct Hi as (l0 & Hl0 & Hh); exists l0; (split; [done|by eapply holding_worker]).
  - done.
  - exists l. split; [done|]. by apply free_holding.
  - by eapply halt_inv.
Qed.

Lemma hreachable_inv names s : hreachable names s -> sinv s.
Proof.
  intros Hr. assert (H0 : sinv (MkStopping (booting names) HIdle)) by (apply booting_inv).
  unfold hreachable in Hr. revert H0. induction Hr as [|s1 s2 s3 Hs Hr IH]; [done|]. intros H0. by apply IH; eapply hstep_inv.
Qed.

(** ** A job that was told ends *)

Definition pc_rank (pc : parent_pc) : nat :=
  match pc with
  | PReturned => 0
  | PTop => 20
  | PWait => 10
  | PWaitDone ToTop => 30
  | PWaitDone _ => 10
  | PCtrl => 1
  end.

Lemma receive_rank c pc j : j.(j_cur) = Some c -> (job_rank (receive_done c pc j) <= job_rank j)%nat.
Proof.
  intros Hc. unfold receive_done, job_rank. rewrite Hc.
  destruct (c_pc c) as [|held|[]|] eqn:Hp; simpl; rewrite ?rank_app; simpl; unfold rank; rewrite ?Hp; lia.
Qed.

(** While [jobHalt] waits to be taken, each step of the loop takes it or makes the rest smaller. *)
Lemma told_step sem j sem' j' : job_inv j -> j.(j_pc) <> PReturned -> j.(j_pc) <> PWaitDone ToReturn ->
  j.(j_ctrl) = Some jobHalt -> job_step cap sem j sem' j' ->
  j'.(j_pc) = PReturned \/ (j'.(j_pc) = PWaitDone ToReturn)
  \/ (j'.(j_pc) <> PReturned /\ j'.(j_pc) <> PWaitDone ToReturn /\ j'.(j_ctrl) = Some jobHalt
      /\ (pc_rank j'.(j_pc) + job_rank j' < pc_rank j.(j_pc) + job_rank j)%nat).
Proof.
  intros Hi Hr Hd Hh Hs. destruct Hs as [sem j Hp|sem j c Hp Hc Hdn|sem j ctrl Hp Hc|sem j c k Hp Hc Hdn
    |sem j ctrl Hp Hc|sem j c Hc Hp Hb|sem sem' j c c' Hc Hs|sem sem' j l1 c l2 c' Ho Hs].
  - right; right. pose proof (inv_free j Hi ltac:(by rewrite Hp)) as Hc. unfold top_step. case_match; simpl.
    + split_and!; try done. unfold job_rank. simpl. rewrite Hp, Hc. simpl. lia.
    + split_and!; try done. unfold job_rank. simpl. rewrite Hp. simpl. lia.
  - right; right. destruct (receive_fields c PCtrl j) as (-> & _ & _ & -> & _). split_and!; try done.
    pose proof (receive_rank c PCtrl j Hc). rewrite Hp. simpl. lia.
  - rewrite Hc in Hh. injection Hh as ->. by right; left.
  - pose proof (receive_rank c (after_done k) j Hc).
    destruct (receive_fields c (after_done k) j) as (-> & _ & _ & -> & _).
    destruct k; simpl in *; [|congruence|]; right; right; (split_and!; [done..|]); rewrite Hp; simpl; lia.
  - rewrite Hc in Hh. injection Hh as ->. by left.
  - right; right. split_and!; try done. unfold job_rank. simpl. rewrite Hc. simpl.
    assert (rank c = 4%nat) as -> by (unfold rank; by rewrite Hp). simpl. lia.
  - right; right. split_and!; try done. unfold job_rank. simpl. rewrite Hc. simpl.
    apply child_step_rank in Hs. lia.
  - right; right. split_and!; try done. unfold job_rank. simpl. rewrite Ho, !rank_app. simpl.
    apply child_step_rank in Hs. lia.
Qed.

Definition returned (x : wjob) : Prop := x.(x_job).(j_pc) = PReturned.

(** A loop that has not begun begins. *)
Definition fresh_rank (x : wjob) : nat := if x_fresh x then 1 else 0.

Lemma told_settles n x : told x -> settles cap Retry n returned x.
Proof.
  intros Ht. remember (pc_rank (j_pc (x_job x)) + job_rank (x_job x) + fresh_rank x)%nat as a eqn:Ha.
  remember (stage_rank (Retry n) (x_stage x)) as b eqn:Hb.
  revert b x Ht Ha Hb. induction (lt_wf a) as [a _ IHa]. intros b.
  induction (lt_wf b) as [b _ IHb]. intros x [[Hi Hfr] Ht] Ha Hb.
  destruct (decide (j_pc (x_job x) = PReturned)) as [Hr|Hr]; [by apply st_now|].
  destruct (decide (j_pc (x_job x) = PWaitDone ToReturn)) as [Hd|Hd].
  { eapply settles_mono; [|eapply (killed_settles _ _ _ _ ToReturn); [done| |done]]; [by intros y (Hy & _)|].
    destruct (x_fresh x); [|done]. by rewrite Hfr in Hd. }
  destruct Ht as [?|[?|Hh]]; [done..|].
  apply st_later; [intros sem; apply busy_progress; [done|done|left; congruence]|]. intros x' Hs.
  assert (Ht' : told x').
  { inversion Hs as [? sem ? sem' ? Ho|? ctrl _ Hn]; subst; [|congruence].
    destruct (own_keeps _ _ _ _ _ _ Ho) as (_ & K & _). apply K. by split; [|right; right]. }
  inversion Hs as [? sem o sem' ? Ho|? ctrl _ Hn]; subst; [|congruence].
  inversion Ho as [? ? Hb|? ? ? j' Hj Hsame _|? ? c ? s' ? Hc Hrun Hst _]; subst; simpl in *.
  - eapply IHa; [|done|done|done]. unfold fresh_rank. rewrite Hb. simpl. lia.
  - assert (Hfr' : x_fresh x = true -> j_pc j' = PTop) by (intros Hf; rewrite Hsame; auto).
    destruct (told_step _ _ _ _ Hi Hr Hd Hh Hj) as [Hj'|[Hj'|(_ & _ & _ & Hlt)]].
    + by apply st_now.
    + eapply settles_mono; [|eapply (killed_settles _ _ _ _ ToReturn); [apply (proj1 Ht')| |done]]; [by intros y (Hy & _)|].
      change (x_fresh x = false). destruct (x_fresh x); [|done]. by rewrite Hfr' in Hj'.
    + eapply IHa; [|done|done|done]. unfold fresh_rank. simpl. fold (fresh_rank x). 
      change (x_fresh (MkX j' (stage_after (x_job x) j' (x_stage x)) (x_run x))) with (x_fresh x). unfold fresh_rank. lia.
  - eapply IHb; [by eapply run_step_rank|done|done|done].
Qed.

(** ** What the wait of Halt comes to *)

Lemma hreachable_chan names s : hreachable names s -> (length s.(s_worker).(k_chan) <= managerChan_cap)%nat.
Proof.
  intros Hr. assert (H0 : (length (k_chan (booting names)) <= managerChan_cap)%nat) by (simpl; lia).
  unfold hreachable in Hr. change (booting names) with (s_worker (MkStopping (booting names) HIdle)) in H0.
  revert H0. induction Hr as [|s1 s2 s3 Hs Hr IH]; [done|]. intros H0. apply IH.
  destruct Hs as [w w' h Hs| | |s s' Hs]; simpl in *; [by eapply wstep_chan|done|done|]. by destruct Hs.
Qed.

(** Halt waits for a job that nobody told to end. *)
Definition hangs (s : stopping) : Prop :=
  s.(s_halt) = HWait /\ holding s.(s_worker) HWait []
  /\ exists n x, s.(s_worker).(k_jobs) !! n = Some x /\ untold x /\ x_fresh x = false.

(** A loop that has begun is not called again by the others. *)
Lemma begun_kept w w' h l n x : holding w h l -> wstep cap Retry w w' -> w.(k_jobs) !! n = Some x ->
  x_fresh x = false -> exists x', w'.(k_jobs) !! n = Some x' /\ x_fresh x' = false.
Proof.
  intros Hh Hs Hn Hf. pose proof (ho_lock _ _ _ Hh) as Hl. pose proof (ho_booted _ _ _ Hh) as Hb.
  assert (Hins : forall m y y', w.(k_jobs) !! m = Some y -> (x_fresh y = false -> x_fresh y' = false) ->
    exists x', <[m := y']> w.(k_jobs) !! n = Some x' /\ x_fresh x' = false).
  { intros m y y' Hm Hy. destruct (decide (m = n)) as [->|Hne].
    - exists y'. rewrite lookup_insert_eq. split; [done|]. apply Hy. by rewrite Hn in Hm; injection Hm as <-.
    - exists x. by rewrite lookup_insert_ne. }
  destruct Hs as [w m y o sem' y' Hm Ho Hroom|w r|w l1 p l2 Hwt Hfree|w w' Hs|w w' Hs]; try (by exists x).
  - simpl. apply (Hins m y); [done|]. by destruct Ho.
  - exfalso. destruct Hs; congruence.
  - destruct Hs as [| | | | | |? ? [] | | ]; try (by exists x); try congruence.
    + by match goal with H : k_sched _ = SStarting _ |- _ => rewrite H in Hb end.
    + simpl. by eapply Hins.
Qed.

Lemma hangs_step s s' : hangs s -> hstep s s' -> hangs s'.
Proof.
  intros (Hh & Hw & n & x & Hn & Hu & Hf) Hs. destruct Hs as [w w' h Hs|w|w l Hfree Hl|s s' Hs]; simpl in *; try done.
  - split_and!; [done|by eapply holding_worker|].
    destruct (begun_kept _ _ _ _ n x Hw Hs Hn Hf) as (x1 & Hn1 & Hf1).
    assert (Hsend : holding w (HSend n []) []).
    { destruct Hw. split; try done. intros m l' [= <- _]. by exists x. }
    destruct (ho_send _ _ _ (holding_worker _ _ _ _ Hsend Hs) n [] eq_refl) as (x' & Hn' & Hu').
    exists n, x'. rewrite Hn1 in Hn'. by injection Hn' as ->.
  - exfalso. destruct Hs as [| | | |w Hall]; try done. destruct Hu as [_ Ha].
    destruct (Hall n x Hn) as [Hp|]; [|congruence]. apply gone_returned in Hp. congruence.
Qed.

(** *** Who is not told *)

Lemma told_not_untold x : told x -> ~ untold x.
Proof.
  intros [_ Ht] [Hl Ha]. destruct Ht as [Hp|[Hp|Hc]].
  - apply gone_returned in Hp. congruence.
  - unfold phase_of in Ha. by rewrite Hp in Ha.
  - by destruct (lo_halt _ Hl).
Qed.

Lemma own_untold n sem x o sem' x' : calm x \/ told x -> own_step cap Retry n sem x o sem' x' -> untold x' ->
  untold x /\ (x'.(x_job).(j_state) = stateDisabled -> x.(x_job).(j_state) = stateDisabled).
Proof.
  intros Hx Ho Hu. destruct (own_keeps _ _ _ _ _ _ Ho) as (_ & Kt & _).
  destruct Hx as [Hc|Ht]; [|by apply Kt, told_not_untold in Ht].
  destruct (own_step_ok _ _ _ _ _ _ _ _ _ _ _ Hc Ho) as (_ & Hn & _). unfold phase_next in Hn. destruct Hu as [_ Ha].
  destruct (phase_of (x_job x)) eqn:Hp; [|destruct Hn as [|[]]; congruence|destruct Hn; congruence].
  split; [split; [apply (xo_loop _ _ _ _ Hc)|done]|]. intros Hd. by apply Hn.
Qed.

(** A job whose loop has begun while it is still in state Disabled. *)
Definition waking (w : worker) (n : string) : Prop :=
  exists x, w.(k_jobs) !! n = Some x /\ untold x /\ x.(x_job).(j_state) = stateDisabled.

(** [Halt] has still to tell a job that nobody told, unless it was waking in [w0]. *)
Definition tells (w0 : worker) (s : stopping) : Prop := forall l n x, to_tell s.(s_halt) = Some l ->
  s.(s_worker).(k_jobs) !! n = Some x -> untold x -> waking w0 n \/ (n ∈ l /\ x.(x_job).(j_state) <> stateDisabled).

Lemma tells_job w0 w w' h n x x' : tells w0 (MkStopping w h) -> w.(k_jobs) !! n = Some x ->
  w'.(k_jobs) = <[n := x']> w.(k_jobs) ->
  (untold x' -> untold x /\ (x'.(x_job).(j_state) = stateDisabled -> x.(x_job).(j_state) = stateDisabled)) ->
  tells w0 (MkStopping w' h).
Proof.
  intros Ht Hn Ej Hu l m y Hl Hm Huy. simpl in *. rewrite Ej in Hm.
  apply lookup_insert_Some in Hm as [[<- <-]|[Hne Hm]]; [|by eapply Ht].
  destruct (Hu Huy) as [Hx Hs]. destruct (Ht l n x Hl Hn Hx) as [|[Hin Hd]]; [by left|right]. auto.
Qed.

Lemma tells_same w0 w w' h : tells w0 (MkStopping w h) -> w'.(k_jobs) = w.(k_jobs) -> tells w0 (MkStopping w' h).
Proof. intros Ht Ej l n x. simpl. rewrite Ej. apply Ht. Qed.

Lemma tells_worker w0 w w' h l : holding w h l -> tells w0 (MkStopping w h) -> wstep cap Retry w w' ->
  tells w0 (MkStopping w' h).
Proof.
  intros Hh Ht Hs. pose proof (ho_lock _ _ _ Hh) as Hl. pose proof (ho_booted _ _ _ Hh) as Hb.
  destruct Hs as [w n x o sem' x' Hn Ho Hroom|w r|w l1 p l2 Hwt Hf|w w' Hs|w w' Hs].
  - eapply (tells_job w0 w _ h n x x'); [done|done|done|]. eapply own_untold; [|done]. by apply (ho_jobs _ _ _ Hh n).
  - by eapply tells_same.
  - congruence.
  - exfalso. destruct Hs; congruence.
  - destruct Hs as [w l' Hs Hf|w n l' x st taken Hs Hn Hst|w Hs|w n s f chan Hs Hc|w n f x Hs Hf Hn Hst|w n f Hs Hf Hst
      |w n f taken Hs|w n Hs Hn|w n x Hs Hn Hc]; try congruence; try (by rewrite Hs in Hb).
    + by destruct f.
    + eapply (tells_job w0 w _ h n x); [done|done|done|]. intros Hu. split; [|done].
      destruct (ho_jobs _ _ _ Hh n x Hn) as [Hx|Hx].
      * split; [apply (xo_loop _ _ _ _ Hx)|]. destruct Hu as [_ Ha]. simpl in Ha.
        by rewrite (proj2 (tick_loop _ (xo_loop _ _ _ _ Hx) Hc)) in Ha.
      * by apply (proj1 (proj2 (tick_keeps x Hc))), told_not_untold in Hx.
Qed.

Lemma tells_halt w0 s s' : sinv s -> tells w0 s -> halt_step s s' -> tells w0 s'.
Proof.
  intros Hi Ht Hs. destruct Hs as [w n l x Hn Hd|w n l x Hn Hd|w n l x Hn Hc|w|w Hall];
    intros l' m y Hl' Hm Hu; simpl in *; try done; try (injection Hl' as <-).
  - destruct (Ht _ m y eq_refl Hm Hu) as [|[[->|Hin]%elem_of_cons Hs]]; [by left|congruence|by right].
  - by apply (Ht _ m y eq_refl).
  - destruct Hi as (l0 & [= <-] & Hho). simpl in Hho.
    apply lookup_insert_Some in Hm as [[<- <-]|[Hne Hm]].
    { exfalso. destruct Hu as [Hl _]. by destruct (lo_halt _ Hl). }
    destruct (Ht _ m y eq_refl Hm Hu) as [|[[->|Hin]%elem_of_cons Hs]]; [by left|done|by right].
  - by apply (Ht _ m y eq_refl).
Qed.

(** [Halt] has taken the lock in the state [w0]. *)
Definition halting (names : gset string) (w0 : worker) (s : stopping) : Prop :=
  hreachable names (MkStopping w0 HLock)
  /\ exists l, w0.(k_lock) = Free /\ l ≡ₚ elements (dom w0.(k_jobs))
       /\ rtc hstep (MkStopping (set_lock Stopper w0) (HLoop l)) s.

Definition begun (h : halt_pc) : bool := match h with HIdle | HLock => false | _ => true end.

Lemma halting_tells names w0 s : halting names w0 s -> hreachable names s /\ sinv s /\ tells w0 s.
Proof.
  intros (Hr & l & Hf & Hl & Hs).
  assert (Hr0 : hreachable names (MkStopping (set_lock Stopper w0) (HLoop l))).
  { unfold hreachable in *. eapply rtc_r; [exact Hr|by apply p_lock]. }
  assert (Ht0 : tells w0 (MkStopping (set_lock Stopper w0) (HLoop l))).
  { intros l' n x [= <-] Hn Hu. simpl in Hn. destruct (decide (j_state (x_job x) = stateDisabled)) as [Hd|Hd].
    - left. by exists x.
    - right. split; [|done]. rewrite Hl. by apply elem_of_elements, elem_of_dom. }
  assert (Hb : begun (s_halt (MkStopping (set_lock Stopper w0) (HLoop l))) = true) by done.
  revert Hb Hr0 Ht0. clear Hr Hf Hl.
  induction Hs as [s|s1 s2 s3 Hs _ IH]; intros Hb Hr0 Ht0; pose proof (hreachable_inv _ _ Hr0) as Hi; [done|].
  apply IH; [|unfold hreachable in *; by eapply rtc_r|]; destruct Hs as [w w' h Hs|w|w l' Hf Hl|s s' Hs]; try done.
  - by destruct Hs.
  - destruct (to_tell h) as [l'|] eqn:Hl'; [|intros l'' n x Hl''; simpl in Hl''; congruence].
    assert (exists l0, holding w h l0) as [l0 Hho] by (unfold sinv in Hi; simpl in Hi; destruct h; try done; naive_solver).
    by eapply tells_worker.
  - by eapply tells_halt.
Qed.


(** *** A job that is missed *)

(** The path to a state of [Channels], as one of the worker with [Halt]. *)
Lemma lift_steps names w : reachable cap Retry names w -> hreachable names (MkStopping w HIdle).
Proof.
  intros Hr. unfold reachable, hreachable in *. induction Hr as [|w1 w2 w3 Hs Hr IH]; [apply rtc_refl|].
  eapply rtc_l; [by apply p_worker|done].
Qed.

(** The loop of one job has begun again, from a start whose action it has not taken. *)
Definition ex_waking : wjob := MkX (MkJob stateDisabled (Some jobStart) false PTop None []) Finished RBegun.

Lemma one_waking n : reachable cap Retry {[n]} (one n Free [] SSelect [] ∅ 0 ex_waking).
Proof.
  cut (reaches cap Retry (booting {[n]}) (eq (one n Free [] SSelect [] ∅ 0 ex_waking))).
  { by intros (w & Hr & <-). }
  unfold booting, initial. rewrite gset_to_gmap_singleton, elements_singleton.
  eapply reaches_step; [eapply k_schedule, (s_start _ n [] new_x stateDisabled None);
    [done|apply lookup_singleton_eq|by right; right]|].
  unfold set_x, set_sched. simpl. rewrite insert_singleton_eq.
  eapply reaches_step; [by apply k_schedule, s_started|].
  apply (one_request cap Retry n (Command CmdStart false n)).
  do 3 (eapply one_do; [reflexivity|simpl; rewrite ?empty_difference_L]).
  eapply reaches_step; [by apply k_handler, h_done|]. apply one_begin.
  eexists. split; [apply rtc_refl|done].
Qed.

(** Halt looks at one job, which is disabled. *)
Lemma one_skipped n x : reachable cap Retry {[n]} (one n Free [] SSelect [] ∅ 0 x) -> x.(x_job).(j_state) = stateDisabled ->
  halting {[n]} (one n Free [] SSelect [] ∅ 0 x) (MkStopping (one n Stopper [] SSelect [] ∅ 0 x) HWait).
Proof.
  intros Hr Hd. apply lift_steps in Hr. split; [unfold hreachable in *; eapply rtc_r; [exact Hr|apply p_signal]|].
  exists [n]. split_and!; [done|by unfold one; simpl; rewrite dom_singleton_L, elements_singleton|].
  eapply rtc_l; [eapply p_halt, p_skip; [apply lookup_singleton_eq|done]|].
  eapply rtc_l; [apply p_halt, p_wait|apply rtc_refl].
Qed.

(** An interrupt can leave the worker running. A job that was disabled is started by a
    request: its loop begins, but its state stays Disabled until the loop takes the action.
    [Halt], when it gets the lock before that, passes over the job and then waits for a loop
    that goes on for good. *)
Theorem halt_can_hang n :
  exists s, hreachable {[n]} s /\ s.(s_halt) = HWait
    /\ s.(s_worker).(k_jobs) !! n = Some ex_waking
    /\ forall s', rtc hstep s s' -> s'.(s_halt) = HWait /\ s'.(s_worker).(k_lock) = Stopper.
Proof.
  destruct (halting_tells _ _ _ (one_skipped n ex_waking (one_waking n) eq_refl)) as [Hr _].
  eexists. split_and!; [exact Hr|done|apply lookup_singleton_eq|].
  pose proof (hreachable_inv _ _ Hr) as (l & [= <-] & Hho). cbn [s_halt s_worker] in Hho.
  intros s' Hs'. remember (MkStopping _ HWait) as s eqn:Hs.
  assert (Hg : hangs s).
  { subst s. split_and!; [done|done|]. exists n, ex_waking. split; [apply lookup_singleton_eq|]. split; [|done].
    assert (Hc : calm ex_waking \/ told ex_waking) by (apply (ho_jobs _ _ _ Hho n), lookup_singleton_eq).
    destruct Hc as [Hc|[_ Ht]]; [by apply calm_untold|]. by destruct Ht as [|[|]]. }
  clear Hs Hr Hho. induction Hs' as [s|s1 s2 s3 Hs _ IH]; [|apply IH; by eapply hangs_step].
  split; [apply Hg|]. apply (ho_lock _ _ _ (proj1 (proj2 Hg))).
Qed.
End shutdown.

(** *** Witnesses *)

