(* ===== verification/Runner.v ===== *)
(** * worker/runner.go and worker/docker.go: running a command

    The command line and the environment [newCmdJob] gives to the system, on its three
    branches (in a container, through the cgroup helper, plain); [Wait], which forgives
    exit codes; and [Terminate].  The system is seen through what it answers: the
    environment of the worker, the ids of its user, the way the process ended. *)

From S2P Require Import Prelude Context Config Provider.

Local Open Scope string_scope.
Local Open Scope list_scope.
Local Open Scope Z_scope.

(** ** The environment *)

Definition equals : Ascii.ascii := Ascii.ascii_of_nat 61.

(** [strings.Split(line, "=")[0]] *)
Definition var_name (line : string) : string := default EmptyString (head (split_char equals line)).

Section environ.
Context {RO : RangeOrder}.

(** [osEnv] is [os.Environ()]. *)
Definition newEnviron (osEnv : list string) (env : gmap string string) (inherit : bool) : list string :=
  (if inherit then filter (fun line => env !! var_name line = None) osEnv else [])
  ++ ((fun kv => kv.1 +:+ "=" +:+ kv.2) <$> range_list env).
End environ.

(** ** The container *)

(** [d.Name()] *)
Definition docker_Name (p : baseProvider) : string := "tunasync-job-" +:+ p.(bp_name).

(** [d.Volumes()]: the configured ones, then those of the context. *)
Definition Volumes (d : dockerHook) (ctx : Context) : comp (list string) :=
  match Get ctx "volumes" with
  | None => Ret d.(dk_volumes)
  | Some (VStrs vs) => Ret (d.(dk_volumes) ++ vs)
  | Some (VStr _) => Panic "interface conversion: interface {} is string, not []string"
  end.

(** [d.LogFile()]: the one set for docker, else that of the provider. *)
Definition docker_LogFile (ctx : Context) : comp string :=
  match Get ctx (_LogFileKey +:+ ":docker") with
  | Some (VStr v) => Ret v
  | Some (VStrs _) => Panic "interface conversion: interface {} is []string, not string"
  | None => LogFile (Some ctx)
  end.

(** ** The command *)

(** [exec.Command(name, arg...)], or the worker's own binary through [reexec.Command]. *)
Inductive program : Type :=
| Exec (name : string) (args : list string)
| Reexec (argv : list string).

(** The directory and the environment are those of the worker when not set. *)
Record command : Type := MkCommand {
  cmd_program : program;
  cmd_Dir : option string;
  cmd_Env : option (list string)
}.

Section runner.
Context {RO : RangeOrder} (osEnv : list string) (uid gid : Z).

(** Lines 39 to 73. *)
Definition docker_args (p : baseProvider) (d : dockerHook) (volumes cmdAndArgs : list string)
    (workingDir : string) (env : gmap string string) : list string :=
  let args := ["run"; "--rm"; "-a"; "STDOUT"; "-a"; "STDERR"; "--name"; docker_Name p; "-w"; workingDir] in
  let args := args ++ ["-u"; pretty uid +:+ ":" +:+ pretty gid] in
  let args := args ++ concat ((fun vol => ["-v"; vol]) <$> volumes) in
  let args := args ++ concat ((fun kv => ["-e"; kv.1 +:+ "=" +:+ kv.2]) <$> range_list env) in
  let args := if decide (d.(dk_memoryLimit) = 0) then args else args ++ ["-m"; pretty d.(dk_memoryLimit)] in
  let args := args ++ d.(dk_options) in
  let args := args ++ [d.(dk_image)] in
  args ++ cmdAndArgs.

(** The directory is made when it is missing, and a failure to make it is only logged:
    neither shows here. *)
Definition newCmdJob (p : baseProvider) (cmdAndArgs : list string) (workingDir : string)
    (env : gmap string string) : comp command :=
  match base_docker p with
  | Some d =>
      volumes ← Volumes d p.(bp_ctx);
      Ret (MkCommand (Exec "docker" (docker_args p d volumes cmdAndArgs workingDir env)) None None)
  | None =>
      prog ← (if base_cgroup p then Ret (Reexec ("tunasync-exec" :: cmdAndArgs))
              else match cmdAndArgs with
                   | [c] => Ret (Exec c [])
                   | c :: args => Ret (Exec c args)
                   | [] => Panic "Command length should be at least 1!"
                   end);
      (* the log message reads cmdAndArgs[0] *)
      match cmdAndArgs with
      | [] => Panic "runtime error: index out of range [0] with length 0"
      | _ => Ret (MkCommand prog (Some workingDir) (Some (newEnviron osEnv env true)))
      end
  end.

(** ** Waiting *)

(** How the process ended: the error of [cmd.Wait], an [*exec.ExitError] with its code
    (-1 for a signal) or another one. *)
Inductive ending : Type :=
| Exited
| ExitError (code : Z) (err : error)
| OtherError (err : error).

Record cmdJob : Type := MkCmdJob { cj_finished : bool; cj_retErr : option error }.

Definition conversion_panic : string := "interface conversion: error is not *exec.ExitError".

(** [Wait]; [e] is how the process ends, if it is still waited for. *)
Definition Wait (p : baseProvider) (e : ending) (c : cmdJob) : comp (option error * cmdJob) :=
  if c.(cj_finished) then Ret (c.(cj_retErr), c)
  else
    match e with
    | Exited => Ret (c.(cj_retErr), MkCmdJob true c.(cj_retErr))
    | ExitError code err =>
        let retErr := if decide (code ∈ GetSuccessExitCodes p) then c.(cj_retErr) else Some err in
        Ret (retErr, MkCmdJob true retErr)
    | OtherError _ => Panic conversion_panic
    end.

(** ** Terminating *)

Inductive syscall_ : Type :=
| KillTerm
| KillKill
| DockerStop (name : string).

Definition errProcessNotStarted : error := "Process Not Started".

(** [killErr] is the answer to SIGTERM; [in_time]: the process is waited for within two
    seconds. *)
Definition cmd_Terminate (p : baseProvider) (started : bool) (killErr : option error) (in_time : bool)
    : option error * list syscall_ :=
  if negb started then (Some errProcessNotStarted, [])
  else
    match base_docker p with
    | Some _ => (None, [DockerStop (docker_Name p)])
    | None =>
        match killErr with
        | Some e => (Some e, [KillTerm])
        | None => (None, if in_time then [KillTerm] else [KillTerm; KillKill])
        end
    end.

(** ** Properties *)

(** A variable line. *)
Definition named_var (k line : string) : Prop := var_name line = k.

#[export] Instance named_var_dec k line : Decision (named_var k line).
Proof. unfold named_var. apply _. Defined.

Lemma var_name_entry k v : contains_char equals k = false -> var_name (k +:+ "=" +:+ v) = k.
Proof. intros Hk. unfold var_name. change ("=" +:+ v) with (String equals v). by rewrite split_char_app. Qed.

(** What the program sees of one variable: its value in [env] when it has one there, else
    the lines of the worker's own environment. *)
Lemma newEnviron_lookup env k :
  (forall k', is_Some (env !! k') -> contains_char equals k' = false) ->
  filter (named_var k) (newEnviron osEnv env true)
  = match env !! k with
    | Some v => [k +:+ "=" +:+ v]
    | None => filter (named_var k) osEnv
    end.
Proof.
  intros Henv. unfold newEnviron. rewrite filter_app.
  assert (Hr : forall l : list (string * string), (forall kv, kv ∈ l -> contains_char equals kv.1 = false) ->
    filter (named_var k) ((fun kv => kv.1 +:+ "=" +:+ kv.2) <$> l)
    = (fun kv => kv.1 +:+ "=" +:+ kv.2) <$> filter (fun kv => kv.1 = k) l).
  { induction l as [|kv l IH]; intros Hl; [done|]. rewrite fmap_cons, !filter_cons.
    rewrite IH by (intros; apply Hl; by right).
    assert (Hkv : var_name (kv.1 +:+ "=" +:+ kv.2) = kv.1) by (apply var_name_entry, Hl; by left).
    unfold named_var in *. destruct (decide (kv.1 = k)) as [E|E];
      [by rewrite decide_True by congruence|by rewrite decide_False by congruence]. }
  rewrite Hr.
  2: { intros [k' v'] Hin%elem_of_range. apply Henv. by eexists. }
  rewrite (range_filter_key env k). rewrite list_filter_filter.
  destruct (env !! k) as [v|] eqn:Hk.
  - rewrite filter_none; [done|]. intros line _ [Hn Hnone]. unfold named_var in Hn. congruence.
  - simpl. rewrite app_nil_r. apply list_filter_iff. intros line. unfold named_var. split; [by intros [? _]|].
    intros Hn. split; [done|]. by rewrite Hn.
Qed.

(** The environment of a command that does not run in a container. It runs in the
    working directory; of each variable it sees the value configured for the mirror when
    there is one and nothing of the worker's own, and otherwise exactly what the worker
    sees. *)
Theorem command_environment p cmdAndArgs workingDir env :
  base_docker p = None -> cmdAndArgs <> [] ->
  (forall k, is_Some (env !! k) -> contains_char equals k = false) ->
  exists prog lines,
    newCmdJob p cmdAndArgs workingDir env ⇓ MkCommand prog (Some workingDir) (Some lines)
    /\ prog = (if base_cgroup p then Reexec ("tunasync-exec" :: cmdAndArgs)
               else match cmdAndArgs with c :: args => Exec c args | [] => prog end)
    /\ forall k, filter (named_var k) lines
        = match env !! k with
          | Some v => [k +:+ "=" +:+ v]
          | None => filter (named_var k) osEnv
          end.
Proof.
  intros Hd Hc Henv. unfold newCmdJob. rewrite Hd. destruct cmdAndArgs as [|c args]; [done|].
  exists (if base_cgroup p then Reexec ("tunasync-exec" :: c :: args) else Exec c args), (newEnviron osEnv env true).
  split_and!; [by destruct (base_cgroup p), args|by destruct (base_cgroup p)|].
  intros k. by apply newEnviron_lookup.
Qed.

(** The verdict on a process. [Wait] reports success when the process succeeds or ends
    with a forgiven exit code and the error of the process otherwise; whoever waits again
    gets the same answer; and it panics when waiting itself fails, for the conversion of
    the error is not checked. *)
Theorem wait_forgives p e :
  match e with
  | OtherError _ => Wait p e (MkCmdJob false None) ↯ conversion_panic
  | _ =>
      exists r c, Wait p e (MkCmdJob false None) ⇓ (r, c)
      /\ r = match e with
             | ExitError code err => if decide (code ∈ GetSuccessExitCodes p) then None else Some err
             | _ => None
             end
      /\ forall e', Wait p e' c ⇓ (r, c)
  end.
Proof.
  destruct e as [|code err|err]; [| |done]; unfold Wait; simpl.
  - by eexists _, _.
  - eexists _, _. split; [done|]. split; [|done]. by case_decide.
Qed.
End runner.

(** ** Running a provider *)

(** [MustCompile]d or configured expressions: [find_all re content] is
    [re.FindAllSubmatch(content, -1)], each match with its groups. *)
Section run.
Context {R : Type} (find_all : R -> string -> list (list string)).

(** [FindAllSubmatchInFile]; [content] is what reading the file gives, nothing when it
    fails: the error is that of an inner scope and is lost. *)
Definition FindAllSubmatchInFile (fileName : string) (content : option string) (re : R)
    : list (list string) * option error :=
  if decide (fileName = "/dev/null") then ([], Some "invalid log file")
  else match content with
       | Some c => (find_all re c, None)
       | None => ([], None)
       end.

Definition ExtractSizeFromLog (logFile : string) (content : option string) (re : R) : comp string :=
  match last (FindAllSubmatchInFile logFile content re).1 with
  | None => Ret EmptyString
  | Some (_ :: size :: _) => Ret size
  | Some _ => Panic "runtime error: index out of range [1]"
  end.

(** [cmdProvider.Run] on what [Start] and [Wait] answer: the size and the error. *)
Definition cmd_Run (failOnMatch sizePattern : nilable R) (logFile : string)
    (start wait : option error) (content : option string) : comp (string * option error) :=
  match start with
  | Some e => Ret (EmptyString, Some e)
  | None =>
      match wait with
      | Some e => Ret (EmptyString, Some e)
      | None =>
          let matched :=
            match failOnMatch with
            | None => None
            | Some re =>
                match FindAllSubmatchInFile logFile content re with
                | (_, Some e) => Some e
                | ([], None) => None
                | (matches, None) =>
                    Some ("Fail-on-match regexp found " +:+ pretty (Z.of_nat (length matches)) +:+ " matches")
                end
            end in
          match matched with
          | Some e => Ret (EmptyString, Some e)
          | None =>
              match sizePattern with
              | None => Ret (EmptyString, None)
              | Some re => size ← ExtractSizeFromLog logFile content re; Ret (size, None)
              end
          end
      end
  end.

(** [cmdProvider.Start] gives the command this environment. *)
Definition cmd_env (name workingDir upstreamURL logDir logFile : string) (env : nilable (gmap string string))
    : gmap string string :=
  default ∅ env ∪
  list_to_map [("TUNASYNC_MIRROR_NAME", name); ("TUNASYNC_WORKING_DIR", workingDir);
    ("TUNASYNC_UPSTREAM_URL", upstreamURL); ("TUNASYNC_LOG_DIR", logDir); ("TUNASYNC_LOG_FILE", logFile)].

(** The arguments of [rsyncProvider.Start]. *)
Definition rsync_command (rsyncCmd : string) (options : list string) (upstreamURL workingDir : string)
    : list string :=
  let command := [rsyncCmd] in
  let command := command ++ options in
  command ++ [upstreamURL; workingDir].

(** An expression whose matches all have a first group. *)
Definition has_group (re : R) : Prop := forall c m, m ∈ find_all re c -> (2 <= length m)%nat.

(** The size of the last match, nothing without a match or without a log. *)
Definition last_size (logFile : string) (content : option string) (re : R) : string :=
  default EmptyString (m ← last (FindAllSubmatchInFile logFile content re).1; m !! 1%nat).

Lemma extract_last_size logFile content re : has_group re ->
  ExtractSizeFromLog logFile content re ⇓ last_size logFile content re.
Proof.
  intros Hg. unfold ExtractSizeFromLog, last_size.
  destruct (last _) as [m|] eqn:E; [|done]. apply last_Some_elem_of in E.
  unfold FindAllSubmatchInFile in E. case_decide; [by apply elem_of_nil in E|].
  destruct content as [c|]; [|by apply elem_of_nil in E].
  apply Hg in E. destruct m as [|x [|size m]]; simpl in E; [lia|lia|done].
Qed.

(** C37: the verdict on a command mirror. A run succeeds exactly when the command starts, ends
    well, and its log has no match of the fail-on-match expression; but a log that cannot
    be read counts as one without a match. The size is the one the last match of the size
    expression captures, if it has a group. *)
Theorem cmd_Run_verdict failOnMatch sizePattern logFile start wait content :
  (forall re, sizePattern = Some re -> has_group re) ->
  exists size err, cmd_Run failOnMatch sizePattern logFile start wait content ⇓ (size, err)
  /\ (err = None <-> start = None /\ wait = None
      /\ forall re, failOnMatch = Some re ->
           logFile <> "/dev/null" /\ forall c, content = Some c -> find_all re c = [])
  /\ size = match err, sizePattern with
            | None, Some re => last_size logFile content re
            | _, _ => EmptyString
            end.
Proof.
  intros Hg. unfold cmd_Run. destruct start as [e|].
  { eexists _, _. split_and!; [done| |done]. split; [done|]. by intros [? _]. }
  destruct wait as [e|].
  { eexists _, _. split_and!; [done| |done]. split; [done|]. by intros (_ & ? & _). }
  set (matched := match failOnMatch with None => None | Some re => _ end).
  assert (Hm : matched = None <-> forall re, failOnMatch = Some re ->
    logFile <> "/dev/null" /\ forall c, content = Some c -> find_all re c = []).
  { unfold matched, FindAllSubmatchInFile. destruct failOnMatch as [re|]; [|by split].
    case_decide as Hf; [split; [done|]; intros H; by destruct (H re eq_refl)|].
    destruct content as [c|]; [destruct (find_all re c) as [|x l] eqn:E|].
    - split; [|done]. intros _ re' [= <-]. split; [done|]. by intros c' [= <-].
    - split; [done|]. intros H. destruct (H re eq_refl) as [_ Hc]. specialize (Hc c eq_refl). congruence.
    - split; [|done]. intros _ re' [= <-]. by split. }
  destruct matched as [e|].
  { eexists _, _. split_and!; [done| |done]. rewrite <- Hm. split; [done|]. by intros (_ & _ & ?). }
  destruct sizePattern as [re|].
  - rewrite (extract_last_size _ _ re) by by apply Hg. simpl. eexists _, _.
    split_and!; [done| |done]. rewrite <- Hm. done.
  - eexists _, _. split_and!; [done| |done]. rewrite <- Hm. done.
Qed.
End run.

(** ** Two stages and a termination

    [twoStageRsyncProvider.Run] holds the provider's lock but while it waits for a stage,
    and [Terminate] takes that lock. *)

Inductive ts_pc : Type :=
(** with the lock, before the command of the stage *)
| Starting (stage : Z)
(** without it, at [cmd.Wait]; [killed]: a termination has signalled the process *)
| Running (stage : Z) (killed : bool)
(** the process is waited for, [isRunning] is still set *)
| Reaped (stage : Z) (err : option error)
(** [isRunning] is cleared, the lock not yet taken again *)
| Ended (stage : Z) (err : option error)
| Returned (err : option error).

(** What [Run] does; a signalled process does not succeed. *)
Inductive ts_step : ts_pc -> ts_pc -> Prop :=
| ts_fail stage e : ts_step (Starting stage) (Returned (Some e))
| ts_start stage : ts_step (Starting stage) (Running stage false)
| ts_exit stage err : ts_step (Running stage false) (Reaped stage err)
| ts_exit_killed stage e : ts_step (Running stage true) (Reaped stage (Some e))
| ts_clear stage err : ts_step (Reaped stage err) (Ended stage err)
| ts_err stage e : ts_step (Ended stage (Some e)) (Returned (Some e))
| ts_next : ts_step (Ended 1 None) (Starting 2)
| ts_ok : ts_step (Ended 2 None) (Returned None).

(** [Terminate]: its answer and what it makes of the run, nothing while the lock is held. *)
Definition ts_Terminate (pc : ts_pc) : option (option error * ts_pc) :=
  match pc with
  | Starting _ => None
  | Running stage _ => Some (None, Running stage true)
  | Reaped stage err => Some (Some "no such process", pc)
  | Ended _ _ | Returned _ => Some (None, pc)
  end.

Definition fails_in (stage : Z) (pc : ts_pc) : Prop :=
  match pc with
  | Running s k => s = stage /\ k = true
  | Reaped s err | Ended s err => s = stage /\ is_Some err
  | Returned err => is_Some err
  | Starting _ => False
  end.

Lemma fails_in_steps stage pc pc' : rtc ts_step pc pc' -> fails_in stage pc -> fails_in stage pc'.
Proof.
  induction 1 as [|pc1 pc2 pc3 H _ IH]; [done|]. intros Hf. apply IH. clear IH.
  destruct H; simpl in *; unfold is_Some in *; naive_solver.
Qed.

(** Terminating a two-stage sync. A termination that finds the process of a stage
    running makes the run fail without starting another process. One that comes between
    the stages answers that it worked, and the second stage starts all the same; one that
    comes when the process was just waited for answers an error. *)
Theorem two_stage_terminate :
  (forall stage k pc, ts_Terminate (Running stage k) = Some (None, Running stage true)
    /\ (rtc ts_step (Running stage true) pc -> fails_in stage pc))
  /\ (exists pc, ts_Terminate (Ended 1 None) = Some (None, pc) /\ rtc ts_step pc (Running 2 false))
  /\ (forall stage err, exists e pc, ts_Terminate (Reaped stage err) = Some (Some e, pc)).
Proof.
  split_and!.
  - intros stage k pc. split; [done|]. intros H. by eapply fails_in_steps.
  - exists (Ended 1 None). split; [done|]. eapply rtc_l; [apply ts_next|]. eapply rtc_l; [apply ts_start|]. done.
  - intros stage err. by eexists _, _.
Qed.

(** *** Witnesses *)

#[local] Existing Instance sorted_range.

Definition ex_plain : baseProvider := new_base "debian" "/srv/debian" "/log" "/log/latest.log" 0 0 0.

Lemma command_environment_witness :
  exists prog lines,
    newCmdJob ["HOME=/root"; "RSYNC_PASSWORD=old"] 1000 1000 ex_plain ["rsync"; "-a"] "/srv/debian"
      {["RSYNC_PASSWORD" := "secret"]} = Ret (MkCommand prog (Some "/srv/debian") (Some lines))
    /\ prog = Exec "rsync" ["-a"]
    /\ filter (named_var "RSYNC_PASSWORD") lines = ["RSYNC_PASSWORD=secret"]
    /\ filter (named_var "HOME") lines = ["HOME=/root"].
Proof.
  destruct (command_environment ["HOME=/root"; "RSYNC_PASSWORD=old"] 1000 1000 ex_plain ["rsync"; "-a"] "/srv/debian"
    {["RSYNC_PASSWORD" := "secret"]}) as (prog & lines & Hc & Hp & Hl).
  - reflexivity.
  - discriminate.
  - intros k [v Hk]. apply lookup_singleton_Some in Hk as [<- _]. reflexivity.
  - exists prog, lines. split; [exact Hc|]. split; [exact Hp|]. rewrite !Hl. split; reflexivity.
Defined.

(** An expression that finds each line that starts with itself. *)
Definition ex_find (re : string) (c : string) : list (list string) :=
  (fun l => [l; str_drop (String.length re) l])
    <$> filter (fun l => has_prefix l re = true) (split_char (Ascii.ascii_of_nat 10) c).

Lemma cmd_Run_verdict_witness :
  cmd_Run ex_find (Some "ERROR") (Some "size ") "/log/latest.log" None None (Some "size 12G")
  = Ret ("12G", None).
Proof.
  destruct (cmd_Run_verdict ex_find (Some "ERROR") (Some "size ") "/log/latest.log" None None (Some "size 12G"))
    as (size & err & -> & Herr & Hs).
  - intros re _ c m (l & -> & _)%list_elem_of_fmap. simpl. lia.
  - assert (err = None) as ->; [|by rewrite Hs].
    apply Herr. split_and!; [done|done|]. intros re [= <-]. split; [discriminate|]. intros c [= <-]. reflexivity.
Defined.
