(* ===== verification/RsyncLog.v ===== *)
(** * internal/util.go: what the worker reads from rsync

    The meaning of rsync's exit codes, and the size found in its log by the expression
    [(?m)^Total file size: ([0-9\.]+[KMGTP]?) bytes].  The expression is matched line by
    line: it begins at the start of a line, none of its parts matches a newline, and its
    classes are disjoint, so that each line has one match at most and no choice. *)

From Stdlib Require Import Ascii.
From S2P Require Import Prelude Context Config Provider Runner.

Local Open Scope string_scope.
Local Open Scope list_scope.
Local Open Scope Z_scope.

(** ** Exit codes *)

Definition rsyncExitValues : gmap Z string :=
  list_to_map
    [(0, "Success"); (1, "Syntax or usage error"); (2, "Protocol incompatibility");
     (3, "Errors selecting input/output files, dirs");
     (4, "Requested action not supported: an attempt was made to manipulate 64-bit files on a platform that cannot support them; or an option was specified that is supported by the client and not by the server.");
     (5, "Error starting client-server protocol"); (6, "Daemon unable to append to log-file");
     (10, "Error in socket I/O"); (11, "Error in file I/O"); (12, "Error in rsync protocol data stream");
     (13, "Errors with program diagnostics"); (14, "Error in IPC code");
     (20, "Received SIGUSR1 or SIGINT"); (21, "Some error returned by waitpid()");
     (22, "Error allocating core memory buffers"); (23, "Partial transfer due to error");
     (24, "Partial transfer due to vanished source files");
     (25, "The --max-delete limit stopped deletions"); (30, "Timeout in data send/receive");
     (35, "Timeout waiting for daemon connection")].

(** The code and the message for the error of a process. *)
Definition TranslateRsyncErrorCode (e : ending) : Z * string :=
  match e with
  | ExitError code _ =>
      (code, match rsyncExitValues !! code with
             | Some strerr => "rsync error: " +:+ strerr
             | None => EmptyString
             end)
  | _ => (0, EmptyString)
  end.

(** ** The expression *)

Definition newline : Ascii.ascii := Ascii.ascii_of_nat 10.

(** [[0-9\.]] *)
Definition is_num (c : Ascii.ascii) : bool :=
  let n := Ascii.nat_of_ascii c in ((48 <=? n) && (n <=? 57))%nat || (n =? 46)%nat.

(** [[KMGTP]] *)
Definition is_unit (c : Ascii.ascii) : bool :=
  let n := Ascii.nat_of_ascii c in existsb (Nat.eqb n) [75; 77; 71; 84; 80]%nat.

(** The longest prefix of digits and points, and the rest. *)
Fixpoint span_num (s : string) : string * string :=
  match s with
  | EmptyString => (EmptyString, EmptyString)
  | String c s' =>
      if is_num c then let '(n, r) := span_num s' in (String c n, r) else (EmptyString, s)
  end.

Definition size_prefix : string := "Total file size: ".

(** The first group of the match in one line. *)
Definition line_size (line : string) : option string :=
  if has_prefix line size_prefix then
    let '(num, rest) := span_num (str_drop (String.length size_prefix) line) in
    if decide (num = EmptyString) then None
    else
      let '(unit_, rest) :=
        match rest with
        | String c r => if is_unit c then (String c EmptyString, r) else (EmptyString, rest)
        | EmptyString => (EmptyString, EmptyString)
        end in
      if has_prefix rest " bytes" then Some (num +:+ unit_) else None
  else None.

(** [ExtractSizeFromRsyncLog] on a log of this content, nothing when it cannot be read. *)
Definition ExtractSizeFromRsyncLog (logFile : string) (content : option string) : string :=
  if decide (logFile = "/dev/null") then EmptyString
  else match content with
       | Some c => default EmptyString (last (omap line_size (split_char newline c)))
       | None => EmptyString
       end.

(** [rsyncProvider.Run] on what [Start] and [Wait] answer; the second component is the line
    it adds to the log. *)
Definition rsync_Run (p : baseProvider) (logFile : string) (start : option error) (e : ending)
    (content : option string) : comp (string * option error * option string) :=
  match start with
  | Some err => Ret (EmptyString, Some err, None)
  | None =>
      '(wait, _) ← Wait p e (MkCmdJob false None);
      match wait with
      | Some err =>
          let '(code, msg) := TranslateRsyncErrorCode e in
          Ret (EmptyString, Some err, if decide (code = 0 \/ logFile = "/dev/null") then None else Some msg)
      | None => Ret (ExtractSizeFromRsyncLog logFile content, None, None)
      end
  end.

(** ** Properties *)

#[local] Opaque rsyncExitValues.

(** The sizes rsync prints. *)
Fixpoint all_num (s : string) : bool :=
  match s with EmptyString => true | String c s' => is_num c && all_num s' end.

Definition size_unit (u : string) : bool :=
  match u with
  | EmptyString => true
  | String c EmptyString => is_unit c
  | _ => false
  end.

Lemma span_num_app num c rest : all_num num = true -> is_num c = false ->
  span_num (num +:+ String c rest) = (num, String c rest).
Proof.
  intros Hn Hc. induction num as [|d num IH]; [by simpl; rewrite Hc|].
  rewrite str_app_cons. cbn [all_num span_num] in *. apply andb_true_iff in Hn as [-> Hn]. by rewrite IH.
Qed.

Lemma unit_not_num c : is_unit c = true -> is_num c = false.
Proof. destruct c as [[] [] [] [] [] [] [] []]; done. Qed.

Lemma line_size_printed num u tail : num <> EmptyString -> all_num num = true -> size_unit u = true ->
  line_size (size_prefix +:+ num +:+ u +:+ " bytes" +:+ tail) = Some (num +:+ u).
Proof.
  intros Hne Hn Hu. unfold line_size.
  assert (Hp : forall s, has_prefix (size_prefix +:+ s) size_prefix = true) by (intros; apply prefix_app).
  rewrite Hp, str_drop_app.
  assert (Hb : has_prefix (" bytes" +:+ tail) " bytes" = true) by apply prefix_app.
  destruct u as [|c [|]]; [| |done].
  - change (EmptyString +:+ " bytes" +:+ tail) with (String (Ascii.ascii_of_nat 32) ("bytes" +:+ tail)).
    rewrite span_num_app by done. rewrite decide_False by done. change (is_unit (Ascii.ascii_of_nat 32)) with false.
    cbn iota. change (String (Ascii.ascii_of_nat 32) ("bytes" +:+ tail)) with (" bytes" +:+ tail).
    by rewrite Hb, !string_app_nil_r.
  - simpl in Hu. change (String c EmptyString +:+ " bytes" +:+ tail) with (String c (" bytes" +:+ tail)).
    rewrite span_num_app by (done || by apply unit_not_num). rewrite decide_False by done.
    by rewrite Hu, Hb.
Qed.

(** ** The expression as it is written

    The part of the syntax of regular expressions that the expression uses, read from its
    text, and the texts an expression matches with what its groups capture. *)
Inductive regexp : Type :=
| Empty
| Char (c : Ascii.ascii)
(** the ranges of a class *)
| Class (ranges : list (Ascii.ascii * Ascii.ascii))
| Seq (r1 r2 : regexp)
| OneOrMore (r : regexp)
| Optional (r : regexp)
| Group (r : regexp).

Definition in_class (ranges : list (Ascii.ascii * Ascii.ascii)) (c : Ascii.ascii) : bool :=
  existsb (fun ab => (Ascii.nat_of_ascii ab.1 <=? Ascii.nat_of_ascii c)%nat
                     && (Ascii.nat_of_ascii c <=? Ascii.nat_of_ascii ab.2)%nat) ranges.

Inductive matches : regexp -> string -> list string -> Prop :=
| m_empty : matches Empty EmptyString []
| m_char c : matches (Char c) (String c EmptyString) []
| m_class l c : in_class l c = true -> matches (Class l) (String c EmptyString) []
| m_seq r1 r2 s1 s2 g1 g2 : matches r1 s1 g1 -> matches r2 s2 g2 -> matches (Seq r1 r2) (s1 +:+ s2) (g1 ++ g2)
| m_one r s g : matches r s g -> matches (OneOrMore r) s g
| m_more r s1 s2 g1 g2 : matches r s1 g1 -> matches (OneOrMore r) s2 g2 -> matches (OneOrMore r) (s1 +:+ s2) g2
| m_none r : matches (Optional r) EmptyString []
| m_some r s g : matches r s g -> matches (Optional r) s g
| m_group r s g : matches r s g -> matches (Group r) s (s :: g).

Abbreviation chars := (list Ascii.ascii).

(** A class after its bracket, and what follows it. *)
Fixpoint parse_class (s : chars) : option (list (Ascii.ascii * Ascii.ascii) * chars) :=
  match s with
  | [] => None
  | "]"%char :: s => Some ([], s)
  | "\"%char :: c :: s => '(l, s) ← parse_class s; Some ((c, c) :: l, s)
  | a :: "-"%char :: b :: s => '(l, s) ← parse_class s; Some ((a, b) :: l, s)
  | a :: s => '(l, s) ← parse_class s; Some ((a, a) :: l, s)
  end.

Definition parse_postfix (r : regexp) (s : chars) : regexp * chars :=
  match s with
  | "+"%char :: s => (OneOrMore r, s)
  | "?"%char :: s => (Optional r, s)
  | _ => (r, s)
  end.

(** A sequence, up to the end or to a closing parenthesis. *)
Fixpoint parse_seq (fuel : nat) (s : chars) : option (regexp * chars) :=
  match fuel with
  | O => None
  | S fuel =>
      match s with
      | [] | ")"%char :: _ => Some (Empty, s)
      | c :: s =>
          '(item, s) ←
            match c with
            | "("%char =>
                '(r, s) ← parse_seq fuel s;
                match s with ")"%char :: s => Some (Group r, s) | _ => None end
            | "["%char => '(l, s) ← parse_class s; Some (Class l, s)
            | "\"%char => match s with d :: s => Some (Char d, s) | [] => None end
            | _ => Some (Char c, s)
            end;
          let '(item, s) := parse_postfix item s in
          '(r, s) ← parse_seq fuel s;
          Some (Seq item r, s)
      end
  end.

(** An expression of lines: [(?m)^] and the expression that has to match from there. *)
Definition parse_pattern (pattern : string) : option regexp :=
  if has_prefix pattern "(?m)^" then
    let s := String.list_ascii_of_string (str_drop 5 pattern) in
    match parse_seq (S (length s)) s with
    | Some (r, []) => Some r
    | _ => None
    end
  else None.

(** The expression of [ExtractSizeFromRsyncLog], as in its source. *)
Definition size_pattern : string := "(?m)^Total file size: ([0-9\.]+[KMGTP]?) bytes".

(** A line has a match whose first group is [g]. *)
Definition line_match (re : regexp) (line g : string) : Prop :=
  exists s rest, line = s +:+ rest /\ matches re s [g].

(** *** Its matches *)

Fixpoint literal (s : string) (r : regexp) : regexp :=
  match s with EmptyString => r | String c s => Seq (Char c) (literal s r) end.

Definition num_class : list (Ascii.ascii * Ascii.ascii) := [("0", "9"); (".", ".")]%char.
Definition unit_class : list (Ascii.ascii * Ascii.ascii) :=
  [("K", "K"); ("M", "M"); ("G", "G"); ("T", "T"); ("P", "P")]%char.

Definition size_re : regexp :=
  literal "Total file size: "
    (Seq (Group (Seq (OneOrMore (Class num_class)) (Seq (Optional (Class unit_class)) Empty)))
       (literal " bytes" Empty)).

Lemma size_pattern_parsed : parse_pattern size_pattern = Some size_re.
Proof. by vm_compute. Qed.

Lemma num_class_spec c : in_class num_class c = is_num c.
Proof. by destruct c as [[] [] [] [] [] [] [] []]. Qed.

Lemma unit_class_spec c : in_class unit_class c = is_unit c.
Proof. by destruct c as [[] [] [] [] [] [] [] []]. Qed.

Lemma matches_literal l r s g : matches (literal l r) s g <-> exists t, s = l +:+ t /\ matches r t g.
Proof.
  revert s. induction l as [|c l IH]; intros s; cbn [literal].
  - split; [intros H; by exists s|by intros (t & -> & H)].
  - split.
    + intros H. inversion H as [| | |r1 r2 s1 s2 g1 g2 H1 H2| | | | |]; subst. inversion H1; subst.
      apply IH in H2 as (t & -> & Ht). by exists t.
    + intros (t & -> & Ht). rewrite str_app_cons.
      apply (m_seq (Char c) (literal l r) (String c EmptyString) (l +:+ t) [] g); [apply m_char|].
      apply IH. by exists t.
Qed.

Lemma matches_empty s g : matches Empty s g <-> s = EmptyString /\ g = [].
Proof. split; [intros H; by inversion H|intros [-> ->]; apply m_empty]. Qed.

Lemma matches_num s g : matches (OneOrMore (Class num_class)) s g <-> s <> EmptyString /\ all_num s = true /\ g = [].
Proof.
  split.
  - intros H. remember (OneOrMore (Class num_class)) as r eqn:Er.
    induction H as [| | | |r s g H _|r s1 s2 g1 g2 H1 _ H2 IH| | |]; try done; injection Er as ->.
    + inversion H as [| |l c Hc| | | | | |]; subst. rewrite num_class_spec in Hc.
      split_and!; [done| |done]. simpl. by rewrite Hc.
    + destruct (IH eq_refl) as (_ & Ha & ->). inversion H1 as [| |l c Hc| | | | | |]; subst.
      rewrite num_class_spec in Hc. split_and!; [done| |done].
      change (String c EmptyString +:+ s2) with (String c s2). simpl. by rewrite Ha, Hc.
  - intros (Hne & Ha & ->). induction s as [|c s IH]; [done|]. simpl in Ha. apply andb_true_iff in Ha as [Hc Ha].
    assert (Hm : matches (Class num_class) (String c EmptyString) []) by (apply m_class; by rewrite num_class_spec).
    destruct s as [|d s]; [by apply m_one|].
    apply (m_more _ (String c EmptyString) (String d s) [] []); [done|by apply IH].
Qed.

Lemma matches_unit s g : matches (Optional (Class unit_class)) s g <-> size_unit s = true /\ g = [].
Proof.
  split.
  - intros H. inversion H as [| | | | | | |r s' g' H'|]; subst; [done|].
    inversion H' as [| |l c Hc| | | | | |]; subst. split; [|done]. simpl. by rewrite <- unit_class_spec.
  - intros [H ->]. destruct s as [|c [|]]; [apply m_none| |done]. apply m_some, m_class. by rewrite unit_class_spec.
Qed.

Lemma span_num_spec s n r : span_num s = (n, r) -> s = n +:+ r /\ all_num n = true.
Proof.
  revert n r. induction s as [|c s IH]; intros n r; simpl; [by intros [= <- <-]|].
  destruct (is_num c) eqn:Hc; [|by intros [= <- <-]].
  destruct (span_num s) as [n' r'] eqn:E. intros [= <- <-]. destruct (IH n' r' eq_refl) as [-> Hn].
  split; [by rewrite str_app_cons|]. simpl. by rewrite Hc.
Qed.

(** The matches of the expression at the start of a line. *)
Lemma size_re_matches line g : line_match size_re line g <->
  exists num u rest, g = num +:+ u /\ num <> EmptyString /\ all_num num = true /\ size_unit u = true
    /\ line = size_prefix +:+ num +:+ u +:+ " bytes" +:+ rest.
Proof.
  split.
  - intros (s & rest & -> & Hm). apply matches_literal in Hm as (t & -> & Hm).
    inversion Hm as [| | |r1 r2 s1 s2 g1 g2 H1 H2 Hg| | | | |]; subst.
    apply (matches_literal " bytes") in H2 as (b & -> & [-> ->]%matches_empty).
    inversion H1 as [| | | | | | | |r s g' H]; subst.
    inversion H as [| | |r1 r2 n u g1 g2 Hn Hu| | | | |]; subst. apply matches_num in Hn as (Hne & Hn & ->).
    inversion Hu as [| | |r1 r2 u1 e g3 g4 Hu1 He| | | | |]; subst. apply matches_empty in He as [-> ->].
    apply matches_unit in Hu1 as [Hu1 ->]. rewrite string_app_nil_r in *. simplify_eq/=.
    exists n, u1, rest. split_and!; try done. by rewrite <- !string_app_assoc.
  - intros (num & u & rest & -> & Hne & Hn & Hu & ->).
    exists (size_prefix +:+ (num +:+ u) +:+ " bytes"), rest. split; [by rewrite <- !string_app_assoc|].
    apply (matches_literal "Total file size: "). exists ((num +:+ u) +:+ " bytes"). split; [done|].
    apply (m_seq _ _ (num +:+ u) " bytes" [num +:+ u] []).
    + apply m_group. apply (m_seq _ _ num u [] []); [by apply matches_num|].
      rewrite <- (string_app_nil_r u). apply (m_seq _ _ u EmptyString [] []); [by apply matches_unit|apply m_empty].
    + apply (matches_literal " bytes"). exists EmptyString. split; [done|apply m_empty].
Qed.

Lemma line_size_matches line g : line_size line = Some g <-> line_match size_re line g.
Proof.
  rewrite size_re_matches. split.
  - unfold line_size. destruct (has_prefix line size_prefix) eqn:Hp; [|done].
    apply has_prefix_spec in Hp as [t ->]. rewrite str_drop_app.
    destruct (span_num t) as [num rest] eqn:E. apply span_num_spec in E as [-> Hn].
    case_decide as Hne; [done|].
    assert (Hfin : forall u rest', size_unit u = true -> rest = u +:+ rest' ->
      (if has_prefix rest' " bytes" then Some (num +:+ u) else None) = Some g ->
      exists num' u' r, g = num' +:+ u' /\ num' <> EmptyString /\ all_num num' = true /\ size_unit u' = true
        /\ size_prefix +:+ num +:+ rest = size_prefix +:+ num' +:+ u' +:+ " bytes" +:+ r).
    { intros u rest' Hu ->. destruct (has_prefix rest' " bytes") eqn:Hb; [|done]. intros [= <-].
      apply has_prefix_spec in Hb as [r ->]. by exists num, u, r. }
    destruct rest as [|c r]; [by apply (Hfin EmptyString EmptyString)|].
    destruct (is_unit c) eqn:Hu; [by apply (Hfin (String c EmptyString) r)|by apply (Hfin EmptyString (String c r))].
  - intros (num & u & rest & -> & Hne & Hn & Hu & ->). by apply line_size_printed.
Qed.

Lemma last_omap {A B} (f : A -> option B) l :
  match last (omap f l) with
  | Some b => exists pre a post, l = pre ++ a :: post /\ f a = Some b /\ Forall (fun x => f x = None) post
  | None => Forall (fun x => f x = None) l
  end.
Proof.
  induction l as [|x l IH] using rev_ind; [constructor|]. rewrite omap_app. simpl.
  destruct (f x) as [b|] eqn:Hx.
  - rewrite last_snoc. exists l, x, []. split_and!; [done|done|constructor].
  - rewrite app_nil_r. destruct (last (omap f l)) as [b|].
    + destruct IH as (pre & a & post & -> & Ha & Hp). exists pre, a, (post ++ [x]).
      split_and!; [by rewrite <- app_assoc|done|]. apply Forall_app. split; [done|]. by repeat constructor.
    + apply Forall_app. split; [done|]. by repeat constructor.
Qed.

(** C32: the size read from the log of rsync. The expression is read from its text; the size
    is what its group captures at the last line of the log that has a match, and none when
    no line has one or there is no log. *)
Theorem rsync_size_is_last_match re logFile content :
  parse_pattern size_pattern = Some re ->
  match content with
  | Some c =>
      if decide (logFile = "/dev/null") then ExtractSizeFromRsyncLog logFile content = EmptyString
      else
        (exists pre line post g, split_char newline c = pre ++ line :: post /\ line_match re line g
           /\ (forall l g', l ∈ post -> ~ line_match re l g') /\ ExtractSizeFromRsyncLog logFile content = g)
        \/ (forall l g', l ∈ split_char newline c -> ~ line_match re l g')
           /\ ExtractSizeFromRsyncLog logFile content = EmptyString
  | None => ExtractSizeFromRsyncLog logFile content = EmptyString
  end.
Proof.
  rewrite size_pattern_parsed. intros [= <-]. unfold ExtractSizeFromRsyncLog.
  destruct content as [c|]; [|by case_decide]. destruct (decide _) as [Hf|Hf]; [done|].
  assert (Hno : forall ls, Forall (fun x => line_size x = None) ls -> forall l g', l ∈ ls -> ~ line_match size_re l g').
  { intros ls Hls l g' Hl Hm%line_size_matches. rewrite Forall_forall in Hls. specialize (Hls l Hl). congruence. }
  pose proof (last_omap line_size (split_char newline c)) as H.
  destruct (last (omap line_size (split_char newline c))) as [g|].
  - destruct H as (pre & line & post & Hs & Hg & Hp). left. exists pre, line, post, g.
    split_and!; [done|by apply line_size_matches|by apply Hno|done].
  - right. split; [by apply Hno|done].
Qed.

(** The size of a mirror is the one rsync printed last. Whatever the log holds before
    that line and, on lines that do not match, after it, the size read is the printed one,
    with its unit. *)
Theorem rsync_size_read logFile content pre num u tail post :
  logFile <> "/dev/null" ->
  split_char newline content
  = pre ++ (size_prefix +:+ num +:+ u +:+ " bytes" +:+ tail) :: post ->
  num <> EmptyString -> all_num num = true -> size_unit u = true ->
  (forall line, line ∈ post -> line_size line = None) ->
  ExtractSizeFromRsyncLog logFile (Some content) = num +:+ u.
Proof.
  intros Hf Hc Hne Hn Hu Hpost. unfold ExtractSizeFromRsyncLog. rewrite decide_False by done.
  rewrite Hc, omap_app. cbn [omap list_omap]. rewrite line_size_printed by done.
  assert (omap line_size post = []) as ->.
  { clear -Hpost. induction post as [|l post IH]; [done|]. cbn [omap list_omap].
    rewrite (Hpost l) by by left. apply IH. intros l' Hl. apply Hpost. by right. }
  by rewrite last_snoc.
Qed.

(** The verdict on an rsync mirror. A run that starts succeeds when rsync does or ends
    with a forgiven code, and then reports the size in the log; otherwise it reports the
    error and no size, and adds to the log what the code means, a code rsync does not
    document being explained by an empty line. *)
Theorem rsync_Run_verdict p logFile e content :
  (forall err, e <> OtherError err) ->
  exists size err line, rsync_Run p logFile None e content ⇓ (size, err, line)
  /\ (err = None <-> (e = Exited \/ (exists code msg, e = ExitError code msg /\ code ∈ GetSuccessExitCodes p)))
  /\ size = (if decide (err = None) then ExtractSizeFromRsyncLog logFile content else EmptyString)
  /\ (forall msg, line = Some msg -> exists code err', e = ExitError code err' /\ (code ∉ GetSuccessExitCodes p)
        /\ (msg = EmptyString <-> rsyncExitValues !! code = None)).
Proof.
  intros He. destruct e as [|code msg|err]; [| |by destruct (He err)]; unfold rsync_Run, Wait; simpl.
  - eexists _, _, _. split; [done|]. split_and!; [|done|done]. split; [by left|done].
  - destruct (decide (code ∈ GetSuccessExitCodes p)) as [Hin|Hin]; simpl.
    + eexists _, _, _. split; [done|]. split_and!; [|done|done]. split; [|done]. intros _. right. by exists code, msg.
    + eexists _, _, _. split; [done|]. split_and!; [|done|].
      * split; [done|]. intros [?|(c & m & [= <- <-] & ?)]; done.
      * intros m. case_decide; [done|]. intros [= <-]. exists code, msg. split_and!; [done|done|].
        by destruct (rsyncExitValues !! code).
Qed.

(** *** Witnesses *)

Definition ex_log : string :=
  "receiving incremental file list" +:+ String newline
  ("Total file size: 1.33T bytes" +:+ String newline "total size is 1.33T  speedup is 9.87").

Lemma rsync_size_read_witness : ExtractSizeFromRsyncLog "/log/latest.log" (Some ex_log) = "1.33T".
Proof.
  apply (rsync_size_read "/log/latest.log" ex_log ["receiving incremental file list"] "1.33" "T" EmptyString
    ["total size is 1.33T  speedup is 9.87"]); try reflexivity; try discriminate.
  intros line Hl. apply list_elem_of_singleton in Hl as ->. reflexivity.
Defined.

Lemma rsync_size_is_last_match_witness :
  exists pre line post g, split_char newline ex_log = pre ++ line :: post /\ line_match size_re line g
    /\ ExtractSizeFromRsyncLog "/log/latest.log" (Some ex_log) = g /\ g = "1.33T".
Proof.
  pose proof (rsync_size_is_last_match size_re "/log/latest.log" (Some ex_log) size_pattern_parsed) as H.
  assert (Hr : ExtractSizeFromRsyncLog "/log/latest.log" (Some ex_log) = "1.33T") by reflexivity.
  destruct (decide _) as [|_] in H; [discriminate|].
  destruct H as [(pre & line & post & g & Hs & Hm & _ & Hg)|[_ Hn]]; [|congruence].
  exists pre, line, post, g. split_and!; [exact Hs|exact Hm|exact Hg|congruence].
Defined.

Definition ex_base : baseProvider :=
  SetSuccessExitCodes (Some [24]) (new_base "debian" "/srv/debian" "/log" "/log/latest.log" 0 0 0).

Lemma rsync_Run_verdict_witness :
  rsync_Run ex_base "/log/latest.log" None (ExitError 24 "exit status 24") (Some ex_log)
  = Ret ("1.33T", None, None).
Proof.
  destruct (rsync_Run_verdict ex_base "/log/latest.log" (ExitError 24 "exit status 24") (Some ex_log))
    as (size & err & line & -> & Herr & Hs & Hl); [by intros|].
  assert (err = None) as ->.
  { apply Herr. right. exists 24, "exit status 24". split; [done|]. by left. }
  rewrite decide_True in Hs by done. rewrite Hs. f_equal. f_equal.
  destruct line as [m|]; [|done]. destruct (Hl m eq_refl) as (c & e' & [= <- _] & Hn & _). destruct Hn. by left.
Defined.
