(* ===== verification/Hooks.v ===== *)
(** * The hooks: loglimit_hook.go, docker.go, cgroup.go, exec_post_hook.go, zfs_hook.go,
    btrfs_snapshot_hook.go

    What each hook does to the provider's context and which calls it makes to the system,
    the answers of the system being arguments.  Two hooks change the context, and the
    theorems follow a run through all of them in the order of [runJobWrapper]. *)

From S2P Require Import Prelude Json Msg Job Context Config Provider Runner.

Local Open Scope string_scope.
Local Open Scope list_scope.
Local Open Scope Z_scope.

(** ** The log limiter *)

Record file : Type := MkFile { f_name : string; f_mtime : Z }.

#[export] Instance file_eq_dec : EqDecision file.
Proof. solve_decision. Defined.

(** [sort.Sort(sort.Reverse(fileSlice(...)))]: latest modification first; not stable. *)
Class FileSort := {
  sort_files : list file -> list file;
  sort_files_perm l : sort_files l ≡ₚ l;
  sort_files_sorted l : StronglySorted (fun a b => b.(f_mtime) <= a.(f_mtime)) (sort_files l)
}.

(** An entry of a directory with the modification time [f.Info()] tells, if it can. *)
Record dirEntry : Type := MkEntry { de_name : string; de_info : option Z }.

Definition info (e : dirEntry) : option file := (fun t => MkFile e.(de_name) t) <$> e.(de_info).

(** [os.ReadDir] *)
Inductive readDir : Type :=
| DirFiles (entries : list dirEntry)
| DirMissing
| DirError (e : error).

Inductive fsop : Type :=
| MkdirAll (path : string)
| RemoveFile (path : string)
| Rename (from to : string)
| Symlink (target path : string).

Section loglimit.
Context {FS : FileSort}.

(** The logs counted as those of mirror [name], lines 49 to 55.  The error of [f.Info()] is
    dropped and its nil taken for a file: the sort, which compares every element of a list of
    two or more, panics on it; a list of one is not looked at. *)
Definition nil_file : string := "runtime error: invalid memory address or nil pointer dereference".

Definition matchedFiles (name : string) (entries : list dirEntry) : comp (list file) :=
  let matched := filter (fun e => has_prefix e.(de_name) name = true) entries in
  match mapM info matched with
  | Some files => Ret files
  | None => if decide (length matched <= 1)%nat then Ret [] else Panic nil_file
  end.

(** Those beyond the nine newest, lines 57 to 70. *)
Definition old_logs (files : list file) : list file := drop 9 (sort_files files).

(** [stamp] is the formatted time; [latest]: the link exists. *)
Definition log_preExec (name stamp : string) (dir : readDir) (latest : bool) (ctx : nilable Context)
    : comp (option error * list fsop * nilable Context) :=
  logFile ← LogFile ctx;
  if decide (logFile = "/dev/null") then Ret (None, [], ctx)
  else
    logDir ← Context.LogDir ctx;
    match dir with
    | DirError e => Ret (Some e, [], ctx)
    | _ =>
        let '(entries, made) :=
          match dir with DirFiles l => (l, []) | _ => ([], [MkdirAll logDir]) end in
        files ← matchedFiles name entries;
        let removed := (fun f => RemoveFile (Join [logDir; f.(f_name)])) <$> old_logs files in
        let logFileName := name +:+ "_" +:+ stamp +:+ ".log" in
        let logFilePath := Join [logDir; logFileName] in
        let logLink := Join [logDir; "latest"] in
        let ops := made ++ removed ++ (if latest then [RemoveFile logLink] else [])
                   ++ [Symlink logFileName logLink] in
        Ret (None, ops, Set_ _LogFileKey (VStr logFilePath) <$> EnterContext ctx)
    end.

Definition log_postSuccess (ctx : nilable Context) : comp (nilable Context) := ExitContext ctx.

Definition log_postFail (ctx : nilable Context) : comp (list fsop * nilable Context) :=
  logFile ← LogFile ctx;
  let logFileFail := logFile +:+ ".fail" in
  logDir ← Context.LogDir ctx;
  let logLink := Join [logDir; "latest"] in
  ctx ← ExitContext ctx;
  Ret ([Rename logFile logFileFail; RemoveFile logLink; Symlink (Base logFileFail) logLink], ctx).
End loglimit.

(** ** The docker hook *)

Definition mount (path : string) : string := path +:+ ":" +:+ path.

(** [missing]: the working directory does not exist; [mkdirErr] is the answer to making it. *)
Definition docker_preExec (missing : bool) (mkdirErr : option error) (ctx : nilable Context)
    : comp (option error * nilable Context) :=
  logDir ← Context.LogDir ctx;
  logFile ← LogFile ctx;
  workingDir ← WorkingDir ctx;
  match (if missing then mkdirErr else None) with
  | Some e => Ret (Some ("Error making dir " +:+ workingDir +:+ ": " +:+ e), ctx)
  | None =>
      Ret (None, Set_ "volumes" (VStrs [mount logDir; mount logFile; mount workingDir]) <$> EnterContext ctx)
  end.

(** The polls of [docker ps] left, each answered with the output or an error: how many are
    made.  The loop only waits for the container to go. *)
Fixpoint docker_polls (ps : nat -> result string) (retry i : nat) : nat :=
  match retry with
  | O => O
  | S retry =>
      match ps i with
      | Err _ => 1
      | Ok out => if decide (out = EmptyString) then 1 else S (docker_polls ps retry (S i))
      end
  end.

Definition docker_postExec (ps : nat -> result string) (ctx : nilable Context)
    : comp (nat * option error * nilable Context) :=
  ctx ← ExitContext ctx;
  Ret (docker_polls ps 10 0, None, ctx).

(** ** The cgroup hook: killing what is left of a run *)

Inductive killing : Type :=
| SendKill (pid : Z)
| Sleep (d : Z).

Definition cannot_kill : error := "Unable to kill all child tasks".

(** The loop of [killAll], [n] rounds being left; [readTaskList i] is what round [i] reads. *)
Fixpoint kill_rounds (readTaskList : nat -> result (list Z)) (n i : nat) : option error * list killing :=
  match n with
  | O => (None, [])
  | S n =>
      if decide (i = 3%nat) then (Some cannot_kill, [])
      else
        match readTaskList i with
        | Err e => (Some e, [])
        | Ok [] => (None, [])
        | Ok taskList =>
            let '(err, acts) := kill_rounds readTaskList n (S i) in
            (err, (SendKill <$> taskList) ++ [Sleep (Z.of_nat i * second + 10000000)] ++ acts)
        end
  end.

(** [made]: the control group of the run exists. *)
Definition killAll (made : bool) (readTaskList : nat -> result (list Z)) : option error * list killing :=
  if made then kill_rounds readTaskList 4 0 else (None, []).

(** [postExec]: a failure to kill is only logged; that to delete the group is reported. *)
Definition cgroup_postExec (made : bool) (readTaskList : nat -> result (list Z)) (deleteErr : option error)
    : option error * list killing :=
  let '(_, acts) := killAll made readTaskList in (deleteErr, acts).

(** ** The commands run after a sync *)

(** [h.Do()]: the command line and what it finds in its environment besides the worker's. *)
Definition exec_Do (execOn : Z) (h_command : list string) (name workingDir upstream logDir logFile : string)
    : result (list string * gmap string string) :=
  let exitStatus := if decide (execOn = execOnSuccess) then "success" else "failure" in
  let env : gmap string string :=
    list_to_map [("TUNASYNC_MIRROR_NAME", name); ("TUNASYNC_WORKING_DIR", workingDir);
      ("TUNASYNC_UPSTREAM_URL", upstream); ("TUNASYNC_LOG_DIR", logDir);
      ("TUNASYNC_LOG_FILE", logFile); ("TUNASYNC_JOB_EXIT_STATUS", exitStatus)] in
  match h_command with
  | [] => Err "Invalid Command"
  | _ => Ok (h_command, env)
  end.

(** Which of the two post hooks runs it. *)
Definition exec_runs (execOn : Z) (success : bool) : bool :=
  if success then bool_decide (execOn = execOnSuccess) else bool_decide (execOn = execOnFailure).

(** ** The file system hooks *)

(** [zfsHook.preJob]: [stat] is a missing working directory, [mountpoint] the answer of the
    command. *)
Definition zfs_preJob (stat mountpoint : option error) : option error :=
  match stat with Some e => Some e | None => mountpoint end.

Inductive btrfs_op : Type :=
| CreateSubVolume (path : string)
| DeleteSubVolume (path : string)
| SnapshotSubVolume (from to : string).

(** [isSubVolume] and the error of each operation are answers of the btrfs library. *)
Definition btrfs_preJob (path : string) (missing : bool) (createErr : option error) (isSubVolume : result bool)
    : option error * list btrfs_op :=
  if missing then (createErr, [CreateSubVolume path])
  else match isSubVolume with
       | Err e => (Some e, [])
       | Ok false => (Some ("path " +:+ path +:+ " exists but isn't a Btrfs subvolume"), [])
       | Ok true => (None, [])
       end.

Definition btrfs_postSuccess (snapshotPath workingDir : string) (missing : bool) (isSubVolume : result bool)
    (deleteErr snapshotErr : option error) : option error * list btrfs_op :=
  let '(err, ops) :=
    if missing then (None, [])
    else match isSubVolume with
         | Err e => (Some e, [])
         | Ok false => (Some ("path " +:+ snapshotPath +:+ " exists and isn't a Btrfs snapshot"), [])
         | Ok true => (deleteErr, [DeleteSubVolume snapshotPath])
         end in
  match err with
  | Some e => (Some e, ops)
  | None => (snapshotErr, ops ++ [SnapshotSubVolume workingDir snapshotPath])
  end.

(** ** The log limiter keeps the newest logs *)

Section loglimit_properties.
Context {FS : FileSort}.

(** The directory entries of files that can be looked at. *)
Definition present (f : file) : dirEntry := MkEntry f.(f_name) (Some f.(f_mtime)).

(** The files whose name starts with the mirror's. *)
Definition named_logs (name : string) (files : list file) : list file :=
  filter (fun f => has_prefix f.(f_name) name = true) files.

Lemma matchedFiles_present name files : matchedFiles name (present <$> files) = Ret (named_logs name files).
Proof.
  unfold matchedFiles. assert (mapM info (filter (fun e => has_prefix (de_name e) name = true) (present <$> files))
    = Some (named_logs name files)) as ->; [|done].
  apply mapM_Some. unfold named_logs. induction files as [|f files IH]; [constructor|].
  cbn [fmap list_fmap]. rewrite !filter_cons. cbn [present de_name].
  destruct (decide (has_prefix (f_name f) name = true)); [|done]. constructor; [by destruct f|done].
Qed.

Lemma old_logs_split files :
  let kept := take 9 (sort_files files) in
  kept ++ old_logs files ≡ₚ files
  /\ length kept = Nat.min 9 (length files)
  /\ forall k r, k ∈ kept -> r ∈ old_logs files -> r.(f_mtime) <= k.(f_mtime).
Proof.
  intros kept. pose proof (sort_files_perm files) as Hp.
  pose proof (sort_files_sorted files) as Hs. unfold kept, old_logs.
  set (l := sort_files _) in *. split_and!.
  - by rewrite take_drop.
  - by rewrite length_take, Hp.
  - intros k r Hk Hr. rewrite <- (take_drop 9 l) in Hs.
    exact (StronglySorted_app_1_elem_of _ _ _ k r Hs Hk Hr).
Qed.

(** A file older than nine of the logs that count as the mirror's is removed. *)
Lemma old_log_removed files f :
  f ∈ files -> (9 <= length (filter (fun g => (f.(f_mtime) < g.(f_mtime))%Z) files))%nat ->
  f ∈ old_logs files.
Proof.
  intros Hf Hn. destruct (old_logs_split files) as (Hp & Hl & Hs).
  set (kept := take 9 _) in *. rewrite <- Hp, elem_of_app in Hf. destruct Hf as [Hf|Hf]; [exfalso|done].
  rewrite <- Hp, filter_app in Hn.
  assert (Hold : filter (fun g => f_mtime f < f_mtime g) (old_logs files) = []).
  { apply filter_none. intros r Hr Hlt. pose proof (Hs f r Hf Hr). lia. }
  rewrite Hold, app_nil_r in Hn.
  assert (Hlt : (length (filter (fun g => (f_mtime f < f_mtime g)%Z) kept) < length kept)%nat).
  { apply (length_filter_lt _ _ f); [done|lia]. }
  lia.
Qed.

(** C35: what the log limiter removes. Of the files that start with the mirror's name it keeps
    nine, or all when there are no more, none of them older than one it removes; it removes
    the others and, besides them, only the link to the latest log, and the run that follows
    logs to the new file, with the directories of the mirror unchanged. *)
Theorem log_limit name stamp files latest ctx logDir logFile :
  Context.LogDir ctx ⇓ logDir -> LogFile ctx ⇓ logFile -> logFile <> "/dev/null" ->
  let logs := named_logs name files in
  exists ops ctx' kept,
    log_preExec name stamp (DirFiles (present <$> files)) latest ctx ⇓ (None, ops, ctx')
    /\ kept ++ old_logs logs ≡ₚ logs
    /\ length kept = Nat.min 9 (length logs)
    /\ (forall k r, k ∈ kept -> r ∈ old_logs logs -> r.(f_mtime) <= k.(f_mtime))
    /\ (forall path, RemoveFile path ∈ ops <->
          (exists f, f ∈ old_logs logs /\ path = Join [logDir; f.(f_name)])
          \/ (latest = true /\ path = Join [logDir; "latest"]))
    /\ LogFile ctx' ⇓ Join [logDir; name +:+ "_" +:+ stamp +:+ ".log"]
    /\ Context.LogDir ctx' ⇓ logDir /\ ExitContext ctx' ⇓ ctx.
Proof.
  intros Hd Hf Hnull logs. unfold log_preExec. rewrite Hf. simpl. rewrite decide_False by done. rewrite Hd. simpl.
  rewrite matchedFiles_present. cbn [mbind comp_bind]. fold logs.
  destruct (old_logs_split logs) as (Hp & Hl & Hs). eexists _, _, _. split; [done|].
  split; [exact Hp|]. split; [exact Hl|]. split; [exact Hs|]. split_and!.
  - intros path. simpl. rewrite !elem_of_app, list_elem_of_fmap, list_elem_of_singleton.
    destruct latest; rewrite ?list_elem_of_singleton, ?elem_of_nil.
    + split; [intros [(f & [= ->] & Hin)|[[= ->]|?]]; [left; eauto|by right|done]|].
      intros [(f & Hin & ->)|[_ ->]]; [left; by exists f|by right; left].
    + split; [intros [(f & [= ->] & Hin)|[[]|?]]; [left; eauto|done]|].
      intros [(f & Hin & ->)|[? _]]; [left; by exists f|done].
  - destruct ctx as [c|]; [|done].
    unfold LogFile, ctx_get. cbn [EnterContext fmap option_fmap option_map].
    change (MkContext (Some c) ∅) with (Enter c). by rewrite Get_Set.
  - destruct ctx as [c|]; [|done]. unfold Context.LogDir, ctx_get in *.
    cbn [EnterContext fmap option_fmap option_map].
    change (MkContext (Some c) ∅) with (Enter c). by rewrite Get_Set, Get_Enter.
  - by destruct ctx.
Qed.

(** Neighbours lose their logs. A log of a mirror whose name continues another's counts as
    a log of the other: when the two share a directory and it is older than nine files that
    count, a run of the other mirror removes it. *)
Theorem neighbour_logs_removed name more rest stamp files latest ctx logDir logFile f :
  Context.LogDir ctx ⇓ logDir -> LogFile ctx ⇓ logFile -> logFile <> "/dev/null" ->
  f ∈ files -> f.(f_name) = (name +:+ more) +:+ "_" +:+ rest ->
  (9 <= length (filter (fun g => (f.(f_mtime) < g.(f_mtime))%Z) (named_logs name files)))%nat ->
  exists ops ctx', log_preExec name stamp (DirFiles (present <$> files)) latest ctx ⇓ (None, ops, ctx')
    /\ RemoveFile (Join [logDir; f.(f_name)]) ∈ ops.
Proof.
  intros Hd Hf Hnull Hin Hn Hold.
  assert (Hm : f ∈ named_logs name files).
  { apply list_elem_of_filter. split; [|done]. rewrite Hn, <- string_app_assoc. apply prefix_app. }
  pose proof (old_log_removed _ f Hm Hold) as Hr.
  unfold log_preExec. rewrite Hf. simpl. rewrite decide_False by done. rewrite Hd. simpl.
  rewrite matchedFiles_present. cbn [mbind comp_bind]. eexists _, _. split; [done|]. simpl. apply elem_of_app. left.
  by apply (list_elem_of_fmap_2 (fun f => RemoveFile (Join [logDir; f_name f]))).
Qed.

(** A log that vanishes between the listing of the directory and the look at the file, as
    when another mirror's run removes it, makes the worker panic as soon as there is another
    log of the mirror. *)
Theorem vanished_log_panics name stamp l1 l2 e other latest ctx logDir logFile :
  Context.LogDir ctx ⇓ logDir -> LogFile ctx ⇓ logFile -> logFile <> "/dev/null" ->
  e.(de_info) = None -> has_prefix e.(de_name) name = true ->
  other ∈ l1 ++ l2 -> has_prefix other.(de_name) name = true ->
  exists m, log_preExec name stamp (DirFiles (l1 ++ e :: l2)) latest ctx ↯ m.
Proof.
  intros Hd Hf Hnull He Hp Ho Hop. unfold log_preExec. rewrite Hf. simpl. rewrite decide_False by done.
  rewrite Hd. simpl. exists nil_file. unfold matchedFiles. rewrite filter_app, filter_cons.
  rewrite (decide_True (P := has_prefix (de_name e) name = true)) by done.
  assert (mapM info (filter (fun e => has_prefix (de_name e) name = true) l1
    ++ e :: filter (fun e => has_prefix (de_name e) name = true) l2) = None) as ->.
  { apply mapM_None. apply Exists_app. right. left. unfold info. by rewrite He. }
  destruct (decide (length _ <= 1)%nat) as [Hle|]; [exfalso|done].
  rewrite length_app in Hle. simpl in Hle. rewrite elem_of_app in Ho.
  assert (Hone : forall l, other ∈ l -> (1 <= length (filter (fun e => has_prefix (de_name e) name = true) l))%nat).
  { intros l Hl. assert (Hx : other ∈ filter (fun e => has_prefix (de_name e) name = true) l)
      by by apply list_elem_of_filter.
    destruct (filter _ l); [by apply elem_of_nil in Hx|simpl; lia]. }
  destruct Ho as [Ho|Ho]; apply Hone in Ho; lia.
Qed.
End loglimit_properties.

(** ** A run through the hooks that change the context *)

(** One call of a computation that is known to return. *)
Ltac run H := rewrite H; cbn [mbind comp_bind].

Lemma set_entered key v c : Set_ key v <$> EnterContext (Some c) = Some (Set_ key v (Enter c)).
Proof. done. Qed.

Lemma exit_entered key v c : ExitContext (Some (Set_ key v (Enter c))) ⇓ Some c.
Proof. done. Qed.

(** What a provider answers from a context. *)
Definition settings (ctx : nilable Context) (logDir logFile workingDir : string) : Prop :=
  Context.LogDir ctx ⇓ logDir /\ LogFile ctx ⇓ logFile /\ WorkingDir ctx ⇓ workingDir.

Lemma settings_log_entered c logDir logFile workingDir path :
  settings (Some c) logDir logFile workingDir ->
  settings (Some (Set_ _LogFileKey (VStr path) (Enter c))) logDir path workingDir.
Proof.
  unfold settings, Context.LogDir, LogFile, WorkingDir, ctx_get. intros (Hd & _ & Hw).
  by rewrite !Get_Set, !Get_Enter.
Qed.

Section hooks.
Context {FS : FileSort}.

(** The directory can be read, and the logs of the mirror looked at. *)
Definition dir_ok (name : string) (dir : readDir) : Prop :=
  match dir with
  | DirFiles l => exists files, matchedFiles name l = Ret files
  | DirMissing => True
  | DirError _ => False
  end.

Lemma log_preExec_settings name stamp dir latest c logDir logFile workingDir :
  settings (Some c) logDir logFile workingDir -> logFile <> "/dev/null" -> dir_ok name dir ->
  exists ops, log_preExec name stamp dir latest (Some c)
    ⇓ (None, ops, Some (Set_ _LogFileKey (VStr (Join [logDir; name +:+ "_" +:+ stamp +:+ ".log"])) (Enter c))).
Proof.
  intros (Hd & Hf & _) Hnull Hdir. unfold log_preExec. run Hf. rewrite decide_False by done.
  run Hd. destruct dir as [l| |e]; [|by eexists|done].
  destruct Hdir as [files Hl]. rewrite Hl. by eexists.
Qed.

(** *** The hooks of a provider in the run of its job

    The world of a run is the context of the provider, or the panic that ended the program,
    how many hooks were called so far, and what the provider saw each time it ran.  What the
    system answers to the hooks is any function of the number of the call. *)
Record world : Type := MkWorld {
  wo_ctx : comp (nilable Context);
  wo_calls : nat;
  wo_seen : list (comp (nilable Context))
}.

Record answers : Type := MkAnswers {
  an_stamp : nat -> string;
  an_dir : nat -> readDir;
  an_latest : nat -> bool;
  an_missing : nat -> bool;
  an_mkdir : nat -> option error;
  an_ps : nat -> nat -> result string;
  (** the verdict of a hook that leaves the context alone *)
  an_other : nat -> option error
}.

(** A hook called in a world that is still there. *)
Definition act (f : nat -> nilable Context -> comp (option error * nilable Context)) (w : world)
    : world * option error :=
  match w.(wo_ctx) with
  | Panic _ => (w, None)
  | Ret ctx =>
      match f w.(wo_calls) ctx with
      | Ret (err, ctx) => (MkWorld (Ret ctx) (S w.(wo_calls)) w.(wo_seen), err)
      | Panic m => (MkWorld (Panic m) (S w.(wo_calls)) w.(wo_seen), None)
      end
  end.

(** The hooks of a provider called [name], as [runJobWrapper] calls them. *)
Definition job_hook (name : string) (an : answers) (h : hook) : jobHook world :=
  let other := act (fun i ctx => Ret (an.(an_other) i, ctx)) in
  match h with
  | LogLimiter =>
      MkHook nothing
        (act (fun i ctx =>
           '(err, _, ctx) ← log_preExec name (an.(an_stamp) i) (an.(an_dir) i) (an.(an_latest) i) ctx;
           Ret (err, ctx)))
        nothing
        (act (fun _ ctx => ctx ← log_postSuccess ctx; Ret (None, ctx)))
        (act (fun _ ctx => '(_, ctx) ← log_postFail ctx; Ret (None, ctx)))
  | DockerHook _ =>
      MkHook nothing
        (act (fun i ctx => docker_preExec (an.(an_missing) i) (an.(an_mkdir) i) ctx))
        (act (fun i ctx => '(_, err, ctx) ← docker_postExec (an.(an_ps) i) ctx; Ret (err, ctx)))
        nothing nothing
  | ZfsHook _ => MkHook other nothing nothing nothing nothing
  | BtrfsHook _ => MkHook other nothing nothing other nothing
  | CgroupHook _ => MkHook nothing other other nothing nothing
  | ExecPostHook execOn _ =>
      MkHook nothing nothing nothing (if exec_runs execOn true then other else nothing)
        (if exec_runs execOn false then other else nothing)
  end.

(** The provider runs in the context of that moment. *)
Definition observe (w : world) : world := MkWorld w.(wo_ctx) w.(wo_calls) (w.(wo_seen) ++ [w.(wo_ctx)]).

Section one_run.
Context (name : string) (an : answers).

(** No hook fails. *)
Definition answers_ok : Prop :=
  forall i, dir_ok name (an.(an_dir) i) /\ (an.(an_missing) i = true -> an.(an_mkdir) i = None)
    /\ an.(an_other) i = None.

Definition inert (h : hook) : Prop :=
  match h with LogLimiter | DockerHook _ => False | _ => True end.

Definition same (w w' : world) : Prop := w'.(wo_ctx) = w.(wo_ctx) /\ w'.(wo_seen) = w.(wo_seen).

Lemma other_same w : same w (act (fun i ctx => Ret (an.(an_other) i, ctx)) w).1.
Proof. unfold act, same. by destruct (wo_ctx w) eqn:E. Qed.

Lemma inert_same h w : inert h ->
  same w (preJob (job_hook name an h) w).1 /\ same w (preExec (job_hook name an h) w).1
  /\ same w (postExec (job_hook name an h) w).1 /\ same w (postSuccess (job_hook name an h) w).1
  /\ same w (postFail (job_hook name an h) w).1.
Proof.
  intros Hi. pose proof (other_same w) as Ho. assert (Hn : same w w) by done.
  destruct h as [| | | | |execOn c]; try done; simpl; split_and!; try done; by case_match.
Qed.

Lemma run_all_same (action : jobHook world -> world -> world * option error) hs w :
  (forall h w, h ∈ hs -> same w (action (job_hook name an h) w).1) ->
  same w (run_all (job_hook name an <$> hs) action w).
Proof.
  revert w. induction hs as [|h hs IH]; intros w Ha; [done|].
  change (same w (run_all (job_hook name an <$> hs) action (action (job_hook name an h) w).1)).
  destruct (Ha h w ltac:(by left)) as [H1 H2].
  destruct (IH (action (job_hook name an h) w).1) as [H3 H4]; [intros h' w' Hh; apply Ha; by right|].
  unfold same. by rewrite H3, H4.
Qed.

Lemma fmap_rev {A B} (f : A -> B) l : f <$> rev l = rev (f <$> l).
Proof. induction l as [|x l IH]; [done|]. simpl. by rewrite fmap_app, IH. Qed.

Lemma run_all_app (action : jobHook world -> world -> world * option error) hs1 hs2 w :
  run_all (job_hook name an <$> hs1 ++ hs2) action w
  = run_all (job_hook name an <$> hs2) action (run_all (job_hook name an <$> hs1) action w).
Proof. unfold run_all. by rewrite fmap_app, foldl_app. Qed.

Lemma act_ret f w ctx ctx' err : w.(wo_ctx) = Ret ctx -> (forall i, f i ctx = Ret (err i, ctx' i)) ->
  (act f w).1.(wo_ctx) = Ret (ctx' w.(wo_calls)) /\ (act f w).1.(wo_seen) = w.(wo_seen).
Proof. intros Hw Hf. unfold act. by rewrite Hw, Hf. Qed.

Context (Hok : answers_ok).

Lemma answers_never_fail h : never_fails (job_hook name an h).
Proof.
  assert (Hact : forall f, (forall i ctx err ctx', f i ctx = Ret (err, ctx') -> err = None) ->
    forall w, (act f w).2 = None).
  { intros f Hf w. unfold act. destruct (wo_ctx w) as [ctx|m]; [|done].
    destruct (f (wo_calls w) ctx) as [[err ctx']|m] eqn:E; [|done]. simpl. by eapply Hf. }
  assert (Hother : forall w, (act (fun i ctx => Ret (an.(an_other) i, ctx)) w).2 = None).
  { apply Hact. intros i ctx err ctx' [= <- _]. apply Hok. }
  intros w. destruct h as [| | |d| |execOn c]; simpl; split_and!; try done; try apply Hother; try (apply Hact; intros i ctx err ctx').
  - unfold log_preExec. destruct (LogFile ctx) as [f|]; [|done]. cbn [mbind comp_bind].
    case_decide; [by intros [= <- _]|]. destruct (Context.LogDir ctx) as [dd|]; [|done]. cbn [mbind comp_bind].
    destruct (Hok i) as (Hd & _). destruct (an_dir an i) as [l| |e]; [| |done].
    + destruct (matchedFiles name l); [|done]. by intros [= <- _].
    + by intros [= <- _].
  - destruct (log_postSuccess ctx); [|done]. by intros [= <- _].
  - destruct (log_postFail ctx) as [[ops c]|]; [|done]. by intros [= <- _].
  - unfold docker_preExec. destruct (Context.LogDir ctx); [|done]. cbn [mbind comp_bind].
    destruct (LogFile ctx); [|done]. cbn [mbind comp_bind]. destruct (WorkingDir ctx); [|done]. cbn [mbind comp_bind].
    destruct (Hok i) as (_ & Hm & _). destruct (an_missing an i); [rewrite Hm by done|]; by intros [= <- _].
  - unfold docker_postExec. destruct (ExitContext ctx); [|done]. by intros [= <- _].
  - by case_bool_decide.
  - by case_bool_decide.
Qed.

(** The shape of a provider's hooks: the log limiter, and at most one container among the
    others, in any place. *)
Definition hooks_shape (hs : list hook) (d : option dockerHook) : Prop :=
  exists l1 l2, Forall inert l1 /\ Forall inert l2
    /\ hs = LogLimiter :: l1 ++ ((fun d => DockerHook d) <$> option_list d) ++ l2.

Context (c : Context) (logDir logFile workingDir : string).
Context (Hset : settings (Some c) logDir logFile workingDir) (Hnull : logFile <> "/dev/null").

Definition newLog (stamp : string) : string := Join [logDir; name +:+ "_" +:+ stamp +:+ ".log"].

(** What the provider is to see in an attempt. *)
Definition sees (d : option dockerHook) (seen : comp (nilable Context)) : Prop :=
  exists c2 i, seen = Ret (Some c2) /\ settings (Some c2) logDir (newLog (an.(an_stamp) i)) workingDir
    /\ forall dk, d = Some dk -> Volumes dk c2 ⇓ dk.(dk_volumes)
         ++ [mount logDir; mount (newLog (an.(an_stamp) i)); mount workingDir].

Definition run_inv (d : option dockerHook) (w : world) : Prop :=
  w.(wo_ctx) = Ret (Some c) /\ Forall (sees d) w.(wo_seen).

Lemma rest_same (action : jobHook world -> world -> world * option error) l w :
  Forall inert l -> (forall h w, inert h -> same w (action (job_hook name an h) w).1) ->
  same w (run_all (job_hook name an <$> l) action w).
Proof. intros Hl Ha. apply run_all_same. intros h w' Hh. apply Ha. rewrite Forall_forall in Hl. by apply Hl. Qed.

(** Before the attempt, after it, and at its end. *)
Lemma pre_world hs d w : hooks_shape hs d -> w.(wo_ctx) = Ret (Some c) ->
  let w' := run_all (job_hook name an <$> hs) preExec w in
  let c1 := Set_ _LogFileKey (VStr (newLog (an.(an_stamp) w.(wo_calls)))) (Enter c) in
  w'.(wo_seen) = w.(wo_seen) /\ sees d w'.(wo_ctx)
  /\ w'.(wo_ctx) = Ret (Some match d with
       | Some _ => Set_ "volumes" (VStrs [mount logDir; mount (newLog (an.(an_stamp) w.(wo_calls))); mount workingDir]) (Enter c1)
       | None => c1
       end).
Proof.
  intros (l1 & l2 & H1 & H2 & ->) Hw w' c1. unfold w'.
  change (LogLimiter :: l1 ++ _ ++ l2) with ([LogLimiter] ++ l1 ++ ((fun d => DockerHook d) <$> option_list d) ++ l2).
  rewrite !run_all_app. set (w1 := run_all (job_hook name an <$> [LogLimiter]) preExec w).
  assert (Hw1 : w1.(wo_ctx) = Ret (Some c1) /\ w1.(wo_seen) = w.(wo_seen)).
  { unfold w1, run_all. simpl. destruct (log_preExec_settings name (an_stamp an (wo_calls w)) (an_dir an (wo_calls w))
      (an_latest an (wo_calls w)) c logDir logFile workingDir Hset Hnull ltac:(apply Hok)) as [ops Hl].
    unfold act. rewrite Hw, Hl. done. }
  destruct Hw1 as [Hc1 Hs1].
  pose proof (settings_log_entered c logDir logFile workingDir (newLog (an_stamp an (wo_calls w))) Hset) as Hset1. fold c1 in Hset1.
  set (w2 := run_all (job_hook name an <$> l1) preExec w1).
  destruct (rest_same preExec l1 w1 H1 (fun h w Hi => proj1 (proj2 (inert_same h w Hi)))) as [Hc2 Hs2]. fold w2 in Hc2, Hs2.
  set (w3 := run_all (job_hook name an <$> ((fun d => DockerHook d) <$> option_list d)) preExec w2).
  destruct (rest_same preExec l2 w3 H2 (fun h w Hi => proj1 (proj2 (inert_same h w Hi)))) as [Hc4 Hs4].
  rewrite Hc4, Hs4. destruct d as [dk|].
  - pose proof Hset1 as (Hd & Hf & Hwd).
    assert (Hw3 : w3.(wo_ctx) = Ret (Some (Set_ "volumes" (VStrs [mount logDir; mount (newLog (an_stamp an (wo_calls w)));
        mount workingDir]) (Enter c1))) /\ w3.(wo_seen) = w2.(wo_seen)).
    { unfold w3, run_all. cbn [fmap list_fmap foldl option_list]. simpl. unfold act. rewrite Hc2, Hc1. unfold docker_preExec.
      rewrite Hd. cbn [mbind comp_bind]. rewrite Hf. cbn [mbind comp_bind]. rewrite Hwd. cbn [mbind comp_bind].
      destruct (Hok (wo_calls w2)) as (_ & Hm & _). destruct (an_missing an (wo_calls w2)); [rewrite Hm by done|]; done. }
    destruct Hw3 as [-> ->]. split_and!; [congruence| |done]. eexists _, _. split_and!; [done| |].
    + unfold settings, Context.LogDir, LogFile, WorkingDir, ctx_get in *. rewrite !Get_Set, !Get_Enter. done.
    + intros dk' [= <-]. unfold Volumes. by rewrite Get_Set.
  - change w3 with w2. rewrite Hc2, Hs2, Hc1, Hs1. split_and!; [done| |done]. by eexists _, _.
Qed.

Lemma post_world hs d w : hooks_shape hs d -> sees d w.(wo_ctx) -> forall c1 v,
  w.(wo_ctx) = Ret (Some match d with Some _ => Set_ "volumes" v (Enter c1) | None => c1 end) ->
  let w' := run_all (rev (job_hook name an <$> hs)) postExec w in
  w'.(wo_seen) = w.(wo_seen) /\ w'.(wo_ctx) = Ret (Some c1).
Proof.
  intros (l1 & l2 & H1 & H2 & ->) _ c1 v Hw w'. unfold w'. rewrite <- fmap_rev.
  change (LogLimiter :: l1 ++ _ ++ l2) with ([LogLimiter] ++ l1 ++ ((fun d => DockerHook d) <$> option_list d) ++ l2).
  rewrite !rev_app_distr, !run_all_app.
  assert (Hlog : forall w, run_all (job_hook name an <$> rev [LogLimiter]) postExec w = w) by done.
  rewrite Hlog. assert (Hrev : forall l, Forall inert l -> Forall inert (rev l)) by (intros l; apply List.Forall_rev).
  set (w1 := run_all (job_hook name an <$> rev l2) postExec w).
  destruct (rest_same postExec (rev l2) w (Hrev _ H2) (fun h w Hi => proj1 (proj2 (proj2 (inert_same h w Hi))))) as [Hc1 Hs1].
  fold w1 in Hc1, Hs1. set (w2 := run_all (job_hook name an <$> rev ((fun d => DockerHook d) <$> option_list d)) postExec w1).
  destruct (rest_same postExec (rev l1) w2 (Hrev _ H1) (fun h w Hi => proj1 (proj2 (proj2 (inert_same h w Hi))))) as [Hc3 Hs3].
  rewrite Hc3, Hs3. destruct d as [dk|].
  - assert (Hw2 : w2.(wo_ctx) = Ret (Some c1) /\ w2.(wo_seen) = w1.(wo_seen)).
    { unfold w2, run_all. cbn [fmap list_fmap foldl option_list rev app]. simpl. unfold act. rewrite Hc1, Hw. done. }
    destruct Hw2 as [-> ->]. by split.
  - change w2 with w1. rewrite Hc1, Hs1, Hw. by split.
Qed.

Lemma end_world hs d w c1 (ok : bool) : hooks_shape hs d -> (exists p, c1 = Set_ _LogFileKey (VStr p) (Enter c)) ->
  settings (Some c1) logDir (match Get c1 _LogFileKey with Some (VStr p) => p | _ => EmptyString end) workingDir ->
  w.(wo_ctx) = Ret (Some c1) ->
  let w' := run_all (rev (job_hook name an <$> hs)) (if ok then postSuccess else postFail) w in
  w'.(wo_seen) = w.(wo_seen) /\ w'.(wo_ctx) = Ret (Some c).
Proof.
  intros (l1 & l2 & H1 & H2 & ->) (p & ->) Hs Hw w'. unfold w'. rewrite <- fmap_rev.
  change (LogLimiter :: l1 ++ _ ++ l2) with ([LogLimiter] ++ (l1 ++ ((fun d => DockerHook d) <$> option_list d) ++ l2)).
  rewrite rev_app_distr, run_all_app. set (act_ := if ok then _ else _).
  set (l := rev (l1 ++ _ ++ l2)). set (w1 := run_all (job_hook name an <$> l) act_ w).
  assert (Hw1 : same w w1).
  { apply run_all_same. intros h w0 Hh. unfold l in Hh. rewrite list_elem_of_In, <- In_rev, <- list_elem_of_In in Hh.
    rewrite !elem_of_app in Hh. rewrite Forall_forall in H1, H2.
    destruct Hh as [Hh|[Hh|Hh]]; [apply H1 in Hh| |apply H2 in Hh].
    - destruct (inert_same h w0 Hh) as (_ & _ & _ & ? & ?). unfold act_. by destruct ok.
    - apply list_elem_of_fmap in Hh as (dk & -> & _). unfold act_. by destruct ok.
    - destruct (inert_same h w0 Hh) as (_ & _ & _ & ? & ?). unfold act_. by destruct ok. }
  destruct Hw1 as [Hc1 Hs1]. unfold run_all. cbn [rev app fmap list_fmap foldl]. destruct Hs as (Hd & Hf & _).
  destruct ok; unfold act_; simpl; unfold act; rewrite Hc1, Hw.
  - done.
  - unfold log_postFail. rewrite Hf. cbn [mbind comp_bind]. rewrite Hd. done.
Qed.

Lemma attempt_inv (p : jobProvider world) hs d (a : attempt world) w : hooks_shape hs d ->
  p.(p_Hooks) = job_hook name an <$> hs -> a.(at_effect) = observe ->
  run_inv d w -> run_inv d (attempt_world p a w)
    /\ (attempt_world p a w).(wo_seen) <> [].
Proof.
  intros Hh Hp Ha [Hw Hseen]. unfold attempt_world. rewrite Hp, Ha.
  destruct (pre_world hs d w Hh Hw) as (Hs1 & Hsees & Hc1). set (w1 := run_all _ preExec w) in *.
  set (c1 := Set_ _LogFileKey _ _) in *.
  destruct (post_world hs d (observe w1) Hh Hsees c1 _ Hc1) as [Hs2 Hc2]. set (w2 := run_all _ postExec (observe w1)) in *.
  assert (Hend : forall ok : bool, let w' := run_all (rev (job_hook name an <$> hs)) (if ok then postSuccess else postFail) w2 in
    w'.(wo_seen) = w2.(wo_seen) /\ w'.(wo_ctx) = Ret (Some c)).
  { intros ok. apply (end_world hs d w2 c1 ok Hh); [by eexists| |done].
    unfold c1 at 2. rewrite Get_Set, decide_True by done. by apply settings_log_entered with logFile. }
  assert (Hfin : forall w', w'.(wo_seen) = w2.(wo_seen) /\ w'.(wo_ctx) = Ret (Some c) -> run_inv d w' /\ w'.(wo_seen) <> []).
  { intros w' [Es Ec]. split; [split; [done|]|]; rewrite Es, Hs2; simpl.
    - apply Forall_app. split; [by rewrite Hs1|]. by constructor.
    - by destruct (wo_seen w1). }
  destruct ((verdict p a).1); [apply (Hfin _ (Hend false))|apply (Hfin _ (Hend true))].
Qed.

Lemma attempts_inv (p : jobProvider world) hs d env n : hooks_shape hs d ->
  p.(p_Hooks) = job_hook name an <$> hs -> (forall i, (env i).(at_effect) = observe) ->
  forall retry w, run_inv d w -> run_inv d (attempts_world p env n retry w)
    /\ ((0 < n)%nat -> (attempts_world p env n retry w).(wo_seen) <> []).
Proof.
  intros Hh Hp He. induction n as [|n IH]; intros retry w Hw; cbn [attempts_world]; [split; [done|lia]|].
  destruct (attempt_inv p hs d (env retry) w Hh Hp (He retry) Hw) as [H1 H2].
  set (w1 := attempt_world p (env retry) w) in *.
  destruct (verdict p (env retry)) as [[e|] killed]; [destruct killed|]; try by split.
  destruct n as [|n']; [by split|]. destruct (IH (retry + 1) w1 H1) as [H3 H4]. split; [done|]. intros _. apply H4. lia.
Qed.
End one_run.


(** A hook that fails leaves the layers of those before it. When the docker hook cannot
    make the working directory, the attempt ends there and no post hook runs: the layer of
    the log limiter stays, one more for each such attempt, and the provider answers the
    log file of the attempt that failed until it is entered again. *)
Theorem hook_error_leaks_layer name stamp dir latest e c logDir logFile workingDir :
  settings (Some c) logDir logFile workingDir -> logFile <> "/dev/null" -> dir_ok name dir ->
  exists ops c1 msg,
    log_preExec name stamp dir latest (Some c) ⇓ (None, ops, Some c1)
    /\ docker_preExec true (Some e) (Some c1) ⇓ (Some msg, Some c1)
    /\ depth c1 = S (depth c)
    /\ LogFile (Some c1) ⇓ Join [logDir; name +:+ "_" +:+ stamp +:+ ".log"].
Proof.
  intros Hset Hnull Hdir.
  destruct (log_preExec_settings name stamp dir latest c logDir logFile workingDir Hset Hnull Hdir) as [ops Hlog].
  set (newLog := Join _) in *.
  pose proof (settings_log_entered c logDir logFile workingDir newLog Hset) as (Hd & Hf & Hw).
  eexists ops, _, _. split_and!; [exact Hlog| |done|done].
  unfold docker_preExec. run Hd. run Hf. rewrite Hw. done.
Qed.
End hooks.

(** ** The context stays well typed

    The readers of a context assert the types of what they find, and panic on anything
    else. *)

(** A context that answers the three settings with strings and the volumes with a list. *)
Definition readable (c : Context) : Prop :=
  (exists logDir logFile workingDir, settings (Some c) logDir logFile workingDir)
  /\ (forall s, Get c "volumes" <> Some (VStr s)).

(** [n] layers over a readable bottom, each readable. *)
Inductive well_typed : nat -> Context -> Prop :=
| wt_bottom c : readable c -> well_typed 0 c
| wt_layer n p s : well_typed n p -> readable (MkContext (Some p) s) -> well_typed (S n) (MkContext (Some p) s).

Lemma well_typed_readable n c : well_typed n c -> readable c.
Proof. by destruct 1. Qed.

Lemma readable_set_string c key v : key <> "volumes" -> readable c -> readable (Set_ key (VStr v) (Enter c)).
Proof.
  intros Hk [(d & f & w & Hd & Hf & Hw) Hv]. split.
  - unfold settings, Context.LogDir, LogFile, WorkingDir, ctx_get in *. rewrite !Get_Set, !Get_Enter.
    exists (if decide (key = _LogDirKey) then v else d), (if decide (key = _LogFileKey) then v else f),
      (if decide (key = _WorkingDirKey) then v else w).
    destruct (decide (key = _LogDirKey)), (decide (key = _LogFileKey)), (decide (key = _WorkingDirKey)); done.
  - intros s. rewrite Get_Set, Get_Enter, decide_False by done. apply Hv.
Qed.

Lemma readable_set_volumes c vs : readable c -> readable (Set_ "volumes" (VStrs vs) (Enter c)).
Proof.
  intros [(d & f & w & Hd & Hf & Hw) _]. split.
  - unfold settings, Context.LogDir, LogFile, WorkingDir, ctx_get in *. rewrite !Get_Set, !Get_Enter.
    by exists d, f, w.
  - intros s. by rewrite Get_Set, decide_True.
Qed.

(** What the hooks of a run do to the context, [n] being the number of layers entered so
    far; a layer is left only when one was entered. *)
Inductive hook_step {FS : FileSort} : nat * nilable Context -> nat * nilable Context -> Prop :=
| hs_log_pre name stamp dir latest n c err ops c' :
    log_preExec name stamp dir latest (Some c) ⇓ (err, ops, Some c') ->
    hook_step (n, Some c) ((n + (depth c' - depth c))%nat, Some c')
| hs_docker_pre missing e n c err c' :
    docker_preExec missing e (Some c) ⇓ (err, Some c') ->
    hook_step (n, Some c) ((n + (depth c' - depth c))%nat, Some c')
| hs_log_success n c c' : log_postSuccess c ⇓ c' -> hook_step (S n, c) (n, c')
| hs_log_fail n c ops c' : log_postFail c ⇓ (ops, c') -> hook_step (S n, c) (n, c')
| hs_docker_post ps n c polls err c' : docker_postExec ps c ⇓ (polls, err, c') -> hook_step (S n, c) (n, c').

Lemma entered_depth c key v : (depth (Set_ key v (Enter c)) - depth c)%nat = 1%nat.
Proof. unfold depth. simpl. lia. Qed.

Lemma well_typed_step {FS : FileSort} st st' : hook_step st st' ->
  forall c, st.2 = Some c -> well_typed st.1 c -> exists c', st'.2 = Some c' /\ well_typed st'.1 c'.
Proof.
  assert (Hexit : forall n c, well_typed (S n) c -> exists c', ExitContext (Some c) = Ret (Some c') /\ well_typed n c').
  { intros n c Hc. inversion Hc; subst. by eexists. }
  assert (Henter : forall n c c', c' = c \/ (exists key v, c' = Set_ key v (Enter c) /\ readable c') ->
    well_typed n c -> well_typed (n + (depth c' - depth c)) c').
  { intros n c c' [->|(key & v & -> & Hr)] Hc.
    - by replace (n + (depth c - depth c))%nat with n by lia.
    - rewrite entered_depth, Nat.add_comm. by apply wt_layer. }
  destruct 1 as [name stamp dir latest n c err ops c' Hpre|missing e n c err c' Hpre|n c c' Hp|n c ops c' Hp|ps n c polls err c' Hp];
    cbn [fst snd]; intros c0 [= ->] Hc; pose proof (well_typed_readable _ _ Hc) as Hr; pose proof Hr as [(d & f & w & Hd & Hf & Hw) _].
  - exists c'. split; [done|]. apply Henter; [|done]. unfold log_preExec in Hpre. rewrite Hf in Hpre. cbn [mbind comp_bind] in Hpre.
    case_decide; [injection Hpre as _ _ <-; by left|]. rewrite Hd in Hpre. cbn [mbind comp_bind] in Hpre.
    destruct dir as [l| |e]; [| |injection Hpre as _ _ <-; by left];
      (destruct (matchedFiles name _) as [files|]; [|done]); cbn [mbind comp_bind] in Hpre;
      injection Hpre as _ _ <-; right; eexists _, _; (split; [done|]); by apply readable_set_string.
  - exists c'. split; [done|]. apply Henter; [|done]. unfold docker_preExec in Hpre.
    rewrite Hd in Hpre. cbn [mbind comp_bind] in Hpre. rewrite Hf in Hpre. cbn [mbind comp_bind] in Hpre.
    rewrite Hw in Hpre. cbn [mbind comp_bind] in Hpre.
    destruct (if missing then e else None); injection Hpre as _ <-; [by left|].
    right. eexists _, _. split; [done|]. by apply readable_set_volumes.
  - destruct (Hexit n c0 Hc) as (c1 & He & H1). unfold log_postSuccess in Hp. rewrite He in Hp. injection Hp as <-. eauto.
  - destruct (Hexit n c0 Hc) as (c1 & He & H1). unfold log_postFail in Hp. rewrite Hf in Hp. cbn [mbind comp_bind] in Hp.
    rewrite Hd in Hp. cbn [mbind comp_bind] in Hp. rewrite He in Hp. injection Hp as _ <-. eauto.
  - destruct (Hexit n c0 Hc) as (c1 & He & H1). unfold docker_postExec in Hp. rewrite He in Hp. injection Hp as _ _ <-. eauto.
Qed.

(** C33: the assertions on the context hold. From the context a provider is built with, whatever
    the log limiter and the docker hook do in whatever order, as long as a layer is left
    only after one was entered, the context stays well typed: the readers of the working
    directory, of the log directory, of the log file and of the volumes return, and none
    of the type assertions panics. *)
Theorem context_well_typed {FS : FileSort} workingDir logDir logFile n ctx d :
  rtc hook_step (0%nat, Some (provider_context workingDir logDir logFile)) (n, ctx) ->
  exists c, ctx = Some c /\ well_typed n c
  /\ (exists x, WorkingDir ctx ⇓ x) /\ (exists x, Context.LogDir ctx ⇓ x) /\ (exists x, LogFile ctx ⇓ x)
  /\ exists vs, Volumes d c ⇓ vs.
Proof.
  intros Hr. assert (H0 : well_typed 0 (provider_context workingDir logDir logFile)).
  { apply wt_bottom. split; [exists logDir, logFile, workingDir; by split_and!|]. by intros s. }
  assert (Hc : exists c, (n, ctx).2 = Some c /\ well_typed (n, ctx).1 c).
  { revert Hr H0. generalize (n, ctx) as st'. generalize (provider_context workingDir logDir logFile) as c0.
    generalize 0%nat as m. intros m c0 st' Hr H0.
    assert (Hs : exists c, (m, Some c0).2 = Some c /\ well_typed (m, Some c0).1 c) by by exists c0.
    clear H0. revert Hs. induction Hr as [|s1 s2 s3 H12 _ IH]; [done|]. intros (c & Hc & Hw).
    apply IH. by eapply well_typed_step. }
  destruct Hc as (c & Hc & Hw). simpl in Hc, Hw. subst ctx. exists c. split; [done|]. split; [done|].
  destruct (well_typed_readable _ _ Hw) as [(dd & f & w & Hd & Hf & Hwd) Hv].
  split_and!; [by exists w|by exists dd|by exists f|].
  unfold Volumes. destruct (Get c "volumes") as [[s|vs]|] eqn:E; [by destruct (Hv s)|by eexists|by eexists].
Qed.

(** The log limiter with no log. It enters no layer, and leaves one all the same: after the
    run the provider has no context and panics when it is asked anything. *)
Theorem null_log_loses_context {FS : FileSort} name stamp dir latest c :
  depth c = 1%nat -> LogFile (Some c) ⇓ "/dev/null" ->
  log_preExec name stamp dir latest (Some c) ⇓ (None, [], Some c)
  /\ log_postSuccess (Some c) ⇓ None /\ (exists m, LogFile None ↯ m).
Proof.
  intros Hd Hf. split_and!; [| |by eexists].
  - unfold log_preExec. by rewrite Hf.
  - unfold log_postSuccess, ExitContext, Exit. destruct c as [[p|] s]; [|done].
    unfold depth in Hd. cbn [layers length] in Hd. destruct p as [[p'|] s']; simpl in Hd; lia.
Qed.

(** ** Killing what is left *)

(** The time spent asleep. *)
Definition slept (acts : list killing) : Z :=
  foldr (fun a z => match a with Sleep d => d + z | SendKill _ => z end) 0 acts.

Lemma slept_kills pids acts : slept ((SendKill <$> pids) ++ acts) = slept acts.
Proof. induction pids as [|p pids IH]; [done|]. exact IH. Qed.

Lemma slept_sleep d acts : slept ([Sleep d] ++ acts) = d + slept acts.
Proof. done. Qed.

Lemma kill_in pid (l : list Z) : pid ∈ l -> SendKill pid ∈ SendKill <$> l.
Proof. apply (list_elem_of_fmap_2 SendKill). Qed.

(** Round [i] finds tasks. *)
Definition busy (readTaskList : nat -> result (list Z)) (i : nat) : Prop :=
  exists p l, readTaskList i = Ok (p :: l).

(** The three rounds, and what is known of those before. *)
Ltac round i Hb :=
  destruct i as [|[|[|i]]]; [| | |lia];
  try (let p := fresh in let l := fresh in let H := fresh in destruct (Hb 0%nat ltac:(lia)) as (p & l & H));
  try (let p := fresh in let l := fresh in let H := fresh in destruct (Hb 1%nat ltac:(lia)) as (p & l & H)).

(** C34: [killAll] gives up after three rounds. It reports success exactly when one of the
    first three reads finds no task and those before found some, having sent SIGKILL to
    every task it read; it always ends, after at most 3.03 seconds of sleep. *)
Theorem killAll_verdict readTaskList :
  let '(err, acts) := killAll true readTaskList in
  (err = None <-> exists i, (i < 3)%nat /\ readTaskList i = Ok []
     /\ forall j, (j < i)%nat -> busy readTaskList j)
  /\ (forall i l pid, (i < 3)%nat -> (forall j, (j < i)%nat -> busy readTaskList j) ->
        readTaskList i = Ok l -> pid ∈ l -> SendKill pid ∈ acts)
  /\ 0 <= slept acts <= 3030000000.
Proof.
  unfold killAll. cbn [kill_rounds].
  rewrite !decide_False by lia. rewrite decide_True by done.
  destruct (readTaskList 0%nat) as [[|p0 l0]|e0] eqn:E0;
    [|destruct (readTaskList 1%nat) as [[|p1 l1]|e1] eqn:E1;
      [|destruct (readTaskList 2%nat) as [[|p2 l2]|e2] eqn:E2|]|].
  all: split_and!; [split| |repeat (rewrite slept_kills || rewrite slept_sleep); simpl; unfold second; lia..].
  all: try done.
  all: try (intros (i & Hi & Hr & Hb); round i Hb; congruence).
  all: try (intros i l pid Hi Hb Hr Hp; round i Hb; try congruence;
    match goal with E : ?f ?n = Ok _, H : ?f ?n = Ok l |- _ => rewrite E in H; injection H as <- end;
    first [by apply elem_of_nil in Hp | rewrite !elem_of_app; auto 8 using kill_in]).
  all: intros _.
  - exists 0%nat. split_and!; [lia|done|lia].
  - exists 1%nat. split_and!; [lia|done|]. intros j Hj. replace j with 0%nat by lia. by exists p0, l0.
  - exists 2%nat. split_and!; [lia|done|]. intros [|[|j]] Hj; [by exists p0, l0|by exists p1, l1|lia].
Qed.

(** ** Snapshots *)

(** After a success the hook deletes nothing but an old snapshot at its own path, a
    subvolume, and only when that worked is a new one made from the working directory; it
    reports success only when both worked. *)
Theorem btrfs_replaces_snapshot snapshotPath workingDir missing isSubVolume deleteErr snapshotErr :
  let '(err, ops) := btrfs_postSuccess snapshotPath workingDir missing isSubVolume deleteErr snapshotErr in
  (forall path, DeleteSubVolume path ∈ ops -> path = snapshotPath /\ missing = false /\ isSubVolume = Ok true)
  /\ (forall from to, SnapshotSubVolume from to ∈ ops -> from = workingDir /\ to = snapshotPath
        /\ (missing = false -> isSubVolume = Ok true /\ deleteErr = None))
  /\ (err = None <-> SnapshotSubVolume workingDir snapshotPath ∈ ops /\ snapshotErr = None).
Proof.
  unfold btrfs_postSuccess.
  destruct missing, isSubVolume as [[]|e], deleteErr as [de|]; simpl;
    (split; [|split; [|destruct snapshotErr; split]]); set_solver.
Qed.

(** *** Witnesses *)

Definition newer (a b : file) : Prop := b.(f_mtime) <= a.(f_mtime).

#[export] Instance newer_dec : RelDecision newer.
Proof. intros a b. unfold newer. apply _. Defined.
#[export] Instance newer_total : Total newer.
Proof. intros a b. unfold newer. lia. Qed.
#[export] Instance newer_trans : Transitive newer.
Proof. intros a b c. unfold newer. lia. Qed.

#[export] Program Instance merge_sort_files : FileSort := {| sort_files := merge_sort newer |}.
Next Obligation. intros l. apply merge_sort_Permutation. Qed.
Next Obligation. intros l. apply (StronglySorted_merge_sort newer). Qed.

Definition ex_ctx : Context := provider_context "/srv/debian" "/log" "/log/latest.log".

Lemma ex_ctx_settings : settings (Some ex_ctx) "/log" "/log/latest.log" "/srv/debian".
Proof. split_and!; reflexivity. Qed.

(** Nine logs of debian and an older one of debian-security. *)
Definition ex_neighbour : file := MkFile "debian-security_2020-01-01_00_00.log" 0.
Definition ex_logs : list file :=
  ex_neighbour :: ((fun i => MkFile ("debian_2021-01-0" +:+ pretty (Z.of_nat i) +:+ "_00_00.log") (Z.of_nat i)) <$> seq 1 9).
Definition ex_dir : readDir := DirFiles (present <$> ex_logs).

Lemma ex_dir_ok : dir_ok "debian" ex_dir.
Proof. eexists. apply matchedFiles_present. Qed.

Lemma log_limit_witness :
  exists ops ctx' (kept : list file),
    log_preExec "debian" "2021-02-01_00_00" ex_dir true (Some ex_ctx) = Ret (None, ops, ctx')
    /\ length kept = 9%nat /\ LogFile ctx' = Ret "/log/debian_2021-02-01_00_00.log".
Proof.
  destruct ex_ctx_settings as (Hd & Hf & _).
  destruct (log_limit "debian" "2021-02-01_00_00" ex_logs true (Some ex_ctx) "/log" "/log/latest.log" Hd Hf
    ltac:(discriminate)) as (ops & ctx' & kept & H & _ & Hl & _ & _ & Hf' & _).
  exists ops, ctx', kept. split; [exact H|]. split; [rewrite Hl; vm_compute; reflexivity|exact Hf'].
Defined.

Lemma neighbour_logs_removed_witness :
  exists ops ctx', log_preExec "debian" "2021-02-01_00_00" ex_dir true (Some ex_ctx) = Ret (None, ops, ctx')
    /\ RemoveFile "/log/debian-security_2020-01-01_00_00.log" ∈ ops.
Proof.
  destruct ex_ctx_settings as (Hd & Hf & _).
  apply (neighbour_logs_removed "debian" "-security" "2020-01-01_00_00.log" "2021-02-01_00_00" ex_logs true
    (Some ex_ctx) "/log" "/log/latest.log" ex_neighbour Hd Hf); [discriminate|by left|reflexivity|].
  vm_compute. lia.
Defined.

Lemma vanished_log_panics_witness :
  exists m, log_preExec "debian" "2021-02-01_00_00"
    (DirFiles [MkEntry "debian_1.log" None; MkEntry "debian_2.log" (Some 2)]) true (Some ex_ctx) ↯ m.
Proof.
  destruct ex_ctx_settings as (Hd & Hf & _).
  apply (vanished_log_panics "debian" "2021-02-01_00_00" [] [MkEntry "debian_2.log" (Some 2)]
    (MkEntry "debian_1.log" None) (MkEntry "debian_2.log" (Some 2)) true (Some ex_ctx) "/log" "/log/latest.log" Hd Hf);
    [discriminate|reflexivity|reflexivity|by left|reflexivity].
Defined.

(** A mirror in a container with a command to run after a failure, whose first attempt times
    out and whose second succeeds. *)
Definition ex_docker : dockerHook := MkDockerHook "debian:12" ["/etc:/etc:ro"] [] 0.
Definition ex_hooks : list hook := [LogLimiter; ZfsHook "pool"; DockerHook ex_docker; ExecPostHook execOnFailure ["mail"]].
Definition ex_answers : answers :=
  MkAnswers (fun i => "stamp" +:+ pretty (Z.of_nat i)) (fun _ => ex_dir) (fun _ => true) (fun _ => true) (fun _ => None)
    (fun _ _ => Ok EmptyString) (fun _ => None).
Definition ex_job : jobProvider world :=
  MkJobProvider "debian" (job_hook "debian" ex_answers <$> ex_hooks) 2 (fun _ => "1G") "debian timeout after 1s".
Definition ex_attempts (i : Z) : attempt world :=
  MkAttempt StartedFirst (if decide (i = 0) then TimedOut None else SyncDone None) observe stateReady.


Lemma hook_error_leaks_layer_witness :
  exists ops c1 msg,
    log_preExec "debian" "2021-02-01_00_00" ex_dir true (Some ex_ctx) = Ret (None, ops, Some c1)
    /\ docker_preExec true (Some "permission denied") (Some c1) = Ret (Some msg, Some c1) /\ depth c1 = 2%nat.
Proof.
  destruct (hook_error_leaks_layer "debian" "2021-02-01_00_00" ex_dir true "permission denied" ex_ctx
    _ _ _ ex_ctx_settings) as (ops & c1 & msg & H1 & H2 & H3 & _); [discriminate|exact ex_dir_ok|].
  exists ops, c1, msg. split; [exact H1|]. split; [exact H2|exact H3].
Defined.

Lemma context_well_typed_witness :
  exists n ctx, rtc hook_step (0%nat, Some ex_ctx) (n, ctx) /\ n = 1%nat /\ exists x, LogFile ctx = Ret x.
Proof.
  destruct (log_preExec_settings "debian" "2021-02-01_00_00" ex_dir true ex_ctx "/log" "/log/latest.log"
    "/srv/debian" ex_ctx_settings ltac:(discriminate) ex_dir_ok) as [ops Hlog].
  pose proof (rtc_once _ _ (hs_log_pre _ _ _ _ 0 _ _ _ _ Hlog)) as Hr.
  destruct (context_well_typed "/srv/debian" "/log" "/log/latest.log" _ _ (MkDockerHook "debian:12" [] [] 0) Hr)
    as (c & Hc & _ & _ & _ & Hf & _).
  eexists _, _. split; [exact Hr|]. split; [reflexivity|exact Hf].
Defined.

Lemma null_log_loses_context_witness :
  log_postSuccess (Some (provider_context "/srv/debian" "/log" "/dev/null")) = Ret None.
Proof.
  apply (null_log_loses_context "debian" EmptyString DirMissing false
    (provider_context "/srv/debian" "/log" "/dev/null")); reflexivity.
Defined.
