(* ===== verification/Lifecycle.v ===== *)
(** * base_provider.go and the Run methods: one run of a provider

    The provider's own state during a run (whether it is running, the open log file, the
    size it reports) and the log file on disk, through [Start], [Wait] and [Run] of the three
    kinds of providers.  A log file is opened without truncating it, so what a run writes
    replaces the beginning of what was there. *)

From S2P Require Import Prelude Context Config Provider Runner RsyncLog.

Local Open Scope string_scope.
Local Open Scope list_scope.
Local Open Scope Z_scope.

(** ** State *)

(** An open log: the contents it was opened on and what was written since. *)
Record logFd : Type := MkFd { fd_append : bool; fd_base : string; fd_data : string }.

(** The contents of the file. *)
Definition fd_content (f : logFd) : string :=
  if f.(fd_append) then f.(fd_base) +:+ f.(fd_data)
  else f.(fd_data) +:+ str_drop (String.length f.(fd_data)) f.(fd_base).

(** [r_log] is the file the provider logs to, nothing when it is missing; [r_opened] and
    [r_closed] count the descriptors opened on it and closed: one that is dropped while open
    is closed by the garbage collector some day. *)
Record prun : Type := MkRun {
  r_isRunning : bool;
  r_logFileFd : option logFd;
  r_log : option string;
  r_dataSize : string;
  r_commands : list (list string);
  r_opened : Z;
  r_closed : Z
}.

Definition set_running (x : bool) (r : prun) : prun :=
  MkRun x r.(r_logFileFd) r.(r_log) r.(r_dataSize) r.(r_commands) r.(r_opened) r.(r_closed).
Definition set_size (x : string) (r : prun) : prun :=
  MkRun r.(r_isRunning) r.(r_logFileFd) r.(r_log) x r.(r_commands) r.(r_opened) r.(r_closed).
Definition add_command (x : list string) (r : prun) : prun :=
  MkRun r.(r_isRunning) r.(r_logFileFd) r.(r_log) r.(r_dataSize) (r.(r_commands) ++ [x]) r.(r_opened) r.(r_closed).

(** Output that reaches the log, if it is open. *)
Definition write_log (data : string) (r : prun) : prun :=
  match r.(r_logFileFd) with
  | None => r
  | Some f =>
      let f := MkFd f.(fd_append) f.(fd_base) (f.(fd_data) +:+ data) in
      MkRun r.(r_isRunning) (Some f) (Some (fd_content f)) r.(r_dataSize) r.(r_commands) r.(r_opened) r.(r_closed)
  end.

(** What the outside answers to a run of one process. *)
Record outside : Type := MkOutside {
  o_open : option error;
  o_start : option error;
  o_output : string;
  o_end : ending
}.

Section lifecycle.
Context (p : baseProvider) (logFile : string).

(** The descriptor of before, if any, is overwritten. *)
Definition prepareLogFile (app : bool) (open : option error) (r : prun) : option error * prun :=
  if decide (logFile = "/dev/null") then (None, r)
  else
    match open with
    | Some e => (Some e, r)
    | None =>
        let f := MkFd app (default EmptyString r.(r_log)) EmptyString in
        (None, MkRun r.(r_isRunning) (Some f) (Some (fd_content f)) r.(r_dataSize) r.(r_commands)
                 (r.(r_opened) + 1) r.(r_closed))
    end.

Definition closeLogFile (r : prun) : prun :=
  MkRun r.(r_isRunning) None r.(r_log) r.(r_dataSize) r.(r_commands) r.(r_opened)
    (r.(r_closed) + match r.(r_logFileFd) with Some _ => 1 | None => 0 end).

Definition already_running : error := "provider is currently running".

(** [Start] of cmdProvider and rsyncProvider, once the command is built. *)
Definition Start (command : list string) (o : outside) (r : prun) : option error * prun :=
  if r.(r_isRunning) then (Some already_running, r)
  else
    match prepareLogFile false o.(o_open) r with
    | (Some e, r) => (Some e, r)
    | (None, r) =>
        match o.(o_start) with
        | Some e => (Some e, r)
        | None => (None, set_running true (add_command command r))
        end
    end.

(** What the [Run]s of cmdProvider and rsyncProvider share: [finish] waits for the process and
    makes of the log the size, the error and a last line for the log. *)
Definition run_process (command : list string) (o : outside)
    (finish : option string -> comp (string * option error * option string)) (r : prun) : comp (option error * prun) :=
  let r := set_size EmptyString r in
  match Start command o r with
  | (Some e, r) => Ret (Some e, closeLogFile r)
  | (None, r) =>
      let r := write_log o.(o_output) r in
      '(size, err, line) ← finish r.(r_log);
      let r := set_running false r in
      let r := match line with Some msg => write_log (msg +:+ String newline EmptyString) r | None => r end in
      Ret (err, closeLogFile (set_size size r))
  end.

Definition rsync_provider_Run (command : list string) (o : outside) : prun -> comp (option error * prun) :=
  run_process command o (rsync_Run p logFile None o.(o_end)).

Definition cmd_provider_Run {R} (find_all : R -> string -> list (list string)) (failOnMatch sizePattern : nilable R)
    (command : list string) (o : outside) : prun -> comp (option error * prun) :=
  run_process command o (fun log =>
    '(wait, _) ← Wait p o.(o_end) (MkCmdJob false None);
    '(size, err) ← cmd_Run find_all failOnMatch sizePattern logFile None wait log;
    Ret (size, err, None)).

(** The stages of [twoStageRsyncProvider.Run]: the command of each, what the outside answers
    to it. *)
Fixpoint stages_loop (stages : list (Z * result (list string) * outside)) (r : prun) : comp (option error * prun) :=
  match stages with
  | [] => Ret (None, set_size (ExtractSizeFromRsyncLog logFile r.(r_log)) r)
  | (stage, command, o) :: stages =>
      match command with
      | Err e => Ret (Some e, r)
      | Ok command =>
          match prepareLogFile (1 <? stage) o.(o_open) r with
          | (Some e, r) => Ret (Some e, r)
          | (None, r) =>
              match o.(o_start) with
              | Some e => Ret (Some e, r)
              | None =>
                  let r := write_log o.(o_output) (set_running true (add_command command r)) in
                  '(wait, _) ← Wait p o.(o_end) (MkCmdJob false None);
                  let r := set_running false r in
                  match wait with
                  | Some err =>
                      let '(code, msg) := TranslateRsyncErrorCode o.(o_end) in
                      Ret (Some err, if decide (code = 0) then r
                                     else write_log (msg +:+ String newline EmptyString) r)
                  | None => stages_loop stages r
                  end
              end
          end
      end
  end.

Definition two_stage_Run (command1 command2 : result (list string)) (o1 o2 : outside) (r : prun)
    : comp (option error * prun) :=
  if r.(r_isRunning) then Ret (Some already_running, r)
  else
    '(err, r) ← stages_loop [(1, command1, o1); (2, command2, o2)] (set_size EmptyString r);
    Ret (err, closeLogFile r).
End lifecycle.

(** ** Properties *)

(** The verdict on how a process ended, when waiting for it works. *)
Definition verdict (p : baseProvider) (e : ending) : option error :=
  match e with
  | ExitError code err => if decide (code ∈ GetSuccessExitCodes p) then None else Some err
  | _ => None
  end.

Definition waited (e : ending) : Prop := forall err, e <> OtherError err.

Lemma Wait_verdict p e : waited e -> exists c, Wait p e (MkCmdJob false None) ⇓ (verdict p e, c).
Proof.
  intros He. destruct e as [|code err|err]; [by eexists|by eexists|by destruct (He err)].
Qed.

(** The descriptors still open, the provider's own among them. *)
Definition left_open (r : prun) : Z := r.(r_opened) - r.(r_closed).
Definition is_open (r : prun) : Z := match r.(r_logFileFd) with Some _ => 1 | None => 0 end.

Lemma write_log_keeps data r : r_isRunning (write_log data r) = r_isRunning r
  /\ r_commands (write_log data r) = r_commands r /\ r_dataSize (write_log data r) = r_dataSize r.
Proof. unfold write_log. by destruct (r_logFileFd r). Qed.

Lemma write_log_fds data r : r_opened (write_log data r) = r_opened r /\ r_closed (write_log data r) = r_closed r
  /\ is_open (write_log data r) = is_open r.
Proof. unfold write_log, is_open. destruct (r_logFileFd r) eqn:E; simpl; by rewrite ?E. Qed.

Section properties.
Context (p : baseProvider) (logFile : string).

Lemma prepareLogFile_keeps app open r : let '(_, r') := prepareLogFile logFile app open r in
  r_isRunning r' = r_isRunning r /\ r_commands r' = r_commands r.
Proof. unfold prepareLogFile. case_decide; [done|]. by destruct open. Qed.

(** What opening the log does to the descriptors. *)
Lemma prepareLogFile_fds app open r : let '(_, r') := prepareLogFile logFile app open r in
  r_closed r' = r_closed r /\ (r_opened r' = r_opened r /\ is_open r' = is_open r
                              \/ r_opened r' = r_opened r + 1 /\ is_open r' = 1).
Proof. unfold prepareLogFile. case_decide; [by auto|]. destruct open; by auto. Qed.

Lemma Start_spec command o r : let '(err, r') := Start logFile command o r in
  if r.(r_isRunning) then err = Some already_running /\ r' = r
  else r_isRunning r' = bool_decide (err = None)
       /\ r_commands r' = r_commands r ++ (if decide (err = None) then [command] else [])
       /\ r_closed r' = r_closed r /\ (r_opened r' = r_opened r /\ is_open r' = is_open r
                                      \/ r_opened r' = r_opened r + 1 /\ is_open r' = 1).
Proof.
  unfold Start. destruct (r_isRunning r) eqn:Er; [done|].
  pose proof (prepareLogFile_keeps false o.(o_open) r) as Hk.
  pose proof (prepareLogFile_fds false o.(o_open) r) as Hfd.
  destruct (prepareLogFile logFile false (o_open o) r) as [[e|] r1]; destruct Hk as [Hr Hc].
  - rewrite bool_decide_false, decide_False, app_nil_r by done. split_and!; [congruence..|apply Hfd|apply Hfd].
  - destruct (o_start o) as [e|].
    + rewrite bool_decide_false, decide_False, app_nil_r by done. split_and!; [congruence..|apply Hfd|apply Hfd].
    + simpl. rewrite Hc. split_and!; [done|done|apply Hfd|apply Hfd].
Qed.

(** A run that was refused, and then has closed the log of the run in progress; or one that
    started at most [c], is over, and has closed one of the descriptors it opened. *)
Definition run_over (cs : list (list string)) (r r' : prun) (err : option error) : Prop :=
  r'.(r_logFileFd) = None /\ r'.(r_isRunning) = r.(r_isRunning)
  /\ (if r.(r_isRunning)
      then err = Some already_running /\ r'.(r_commands) = r.(r_commands)
           /\ r'.(r_opened) = r.(r_opened) /\ r'.(r_closed) = r.(r_closed) + is_open r
      else (exists started, r'.(r_commands) = r.(r_commands) ++ started /\ started `prefix_of` cs)
           /\ let opened := r'.(r_opened) - r.(r_opened) in
              0 <= opened <= Z.of_nat (length cs)
              /\ left_open r' = left_open r + Z.max 0 (opened - 1)).

Lemma run_process_over command o finish r err r' : (r.(r_isRunning) = false -> r.(r_logFileFd) = None) ->
  run_process logFile command o finish r ⇓ (err, r') -> run_over [command] r r' err.
Proof.
  unfold run_process, run_over, left_open. intros Hidle. pose proof (Start_spec command o (set_size EmptyString r)) as Hs.
  destruct (Start logFile command o (set_size EmptyString r)) as [[e|] r1]; cbn [r_isRunning set_size r_commands r_opened r_closed] in Hs;
    change (is_open (set_size EmptyString r)) with (is_open r) in Hs.
  - intros [= <- <-]. split; [done|]. cbn [closeLogFile r_isRunning r_commands r_opened r_closed].
    destruct (r_isRunning r) eqn:Er.
    + destruct Hs as [[= ->] ->]. done.
    + rewrite bool_decide_false, decide_False in Hs by done. destruct Hs as (Hs1 & Hs2 & Hs3 & Hs4).
      unfold is_open in Hs4. rewrite (Hidle eq_refl) in Hs4. split; [done|]. split; [|simpl; lia].
      exists []. split; [done|]. by exists [command].
  - destruct (r_isRunning r); [by destruct Hs|]. destruct Hs as (_ & Hc & Hs3 & Hs4).
    unfold is_open in Hs4 at 2. rewrite (Hidle eq_refl) in Hs4.
    destruct (finish _) as [[[sz er] line]|]; [|done]. cbn [mbind comp_bind]. intros [= <- <-].
    set (r2 := set_running false (write_log (o_output o) r1)).
    assert (Hr2 : r_isRunning r2 = false /\ r_commands r2 = r_commands r ++ [command] /\ r_opened r2 = r_opened r1
      /\ r_closed r2 = r_closed r1 /\ is_open r2 = is_open r1).
    { unfold r2. cbn [set_running r_isRunning r_commands r_opened r_closed].
      destruct (write_log_keeps (o_output o) r1) as (_ & -> & _).
      destruct (write_log_fds (o_output o) r1) as (-> & -> & <-). done. }
    set (r3 := match line with Some msg => write_log (msg +:+ String newline EmptyString) r2 | None => r2 end).
    assert (Hr3 : r_isRunning r3 = false /\ r_commands r3 = r_commands r ++ [command] /\ r_opened r3 = r_opened r1
      /\ r_closed r3 = r_closed r1 /\ is_open r3 = is_open r1).
    { unfold r3. destruct line as [msg|]; [|done].
      destruct (write_log_keeps (msg +:+ String newline EmptyString) r2) as (-> & -> & _).
      by destruct (write_log_fds (msg +:+ String newline EmptyString) r2) as (-> & -> & ->). }
    destruct Hr3 as (H1 & H2 & H3 & H4 & H5). unfold is_open in H5, Hs4.
    cbn [closeLogFile set_size r_isRunning r_commands r_logFileFd r_opened r_closed].
    split_and!; [done|done|exists [command]; by rewrite H2|..]; simpl; lia.
Qed.

(** The commands of stages that have options. *)
Definition stage_commands (stages : list (Z * result (list string) * outside)) : list (list string) :=
  omap (fun s => match s.1.2 with Ok c => Some c | Err _ => None end) stages.

(** What the stages leave: at most their commands started, in their order, and all the logs
    they opened still open, the last in the provider. *)
Definition stages_left (cs : list (list string)) (r r' : prun) : Prop :=
  r'.(r_isRunning) = false
  /\ (exists started, r'.(r_commands) = r.(r_commands) ++ started /\ started `prefix_of` cs)
  /\ r'.(r_closed) = r.(r_closed)
  /\ (r'.(r_opened) = r.(r_opened) /\ is_open r' = is_open r
      \/ r.(r_opened) < r'.(r_opened) <= r.(r_opened) + Z.of_nat (length cs) /\ is_open r' = 1).

Lemma stages_left_none cs r r0 : r_isRunning r0 = false -> r_commands r0 = r_commands r -> r_closed r0 = r_closed r ->
  (r_opened r0 = r_opened r /\ is_open r0 = is_open r
   \/ r_opened r < r_opened r0 <= r_opened r + Z.of_nat (length cs) /\ is_open r0 = 1) -> stages_left cs r r0.
Proof.
  intros H0 Hc Hcl Ho. split_and!; [done| |done|done]. exists []. rewrite app_nil_r. split; [done|]. apply prefix_nil.
Qed.

Lemma stages_over stages r err r' : r.(r_isRunning) = false -> stages_loop p logFile stages r ⇓ (err, r') ->
  stages_left (stage_commands stages) r r'.
Proof.
  revert r. induction stages as [|[[stage command] o] stages IH]; intros r Hr; cbn [stages_loop].
  { intros [= <- <-]. apply stages_left_none; try done. by left. }
  destruct command as [command|e]; [|intros [= <- <-]; apply stages_left_none; try done; by left].
  change (stage_commands ((stage, Ok command, o) :: stages)) with (command :: stage_commands stages).
  pose proof (prepareLogFile_keeps (1 <? stage) o.(o_open) r) as Hk.
  pose proof (prepareLogFile_fds (1 <? stage) o.(o_open) r) as Hfd.
  destruct (prepareLogFile _ _ _ _) as [[e|] r1]; destruct Hk as [Hr1 Hc1]; destruct Hfd as [Hcl Hfd].
  { intros [= <- <-]. apply stages_left_none; [congruence|done|done|]. cbn [length]. lia. }
  destruct (o_start o) as [e|].
  { intros [= <- <-]. apply stages_left_none; [congruence|done|done|]. cbn [length]. lia. }
  set (r2 := write_log (o_output o) (set_running true (add_command command r1))).
  assert (Hr2 : r_commands r2 = r_commands r ++ [command] /\ r_opened r2 = r_opened r1 /\ r_closed r2 = r_closed r
    /\ is_open r2 = is_open r1).
  { unfold r2. rewrite (proj1 (proj2 (write_log_keeps _ _))).
    destruct (write_log_fds (o_output o) (set_running true (add_command command r1))) as (-> & -> & ->).
    simpl. by rewrite Hc1. }
  destruct Hr2 as (Hc2 & Ho2 & Hcl2 & Hi2).
  destruct (Wait _ _ _) as [[[w|] cj]|]; [| |done]; cbn [mbind comp_bind].
  - destruct (TranslateRsyncErrorCode _) as [code msg]. intros [= <- <-].
    set (r3 := if decide (code = 0) then _ else _).
    assert (H3 : r_isRunning r3 = false /\ r_commands r3 = r_commands r2 /\ r_opened r3 = r_opened r2
      /\ r_closed r3 = r_closed r2 /\ is_open r3 = is_open r2).
    { unfold r3. case_decide; [done|].
      destruct (write_log_keeps (msg +:+ String newline EmptyString) (set_running false r2)) as (-> & -> & _).
      by destruct (write_log_fds (msg +:+ String newline EmptyString) (set_running false r2)) as (-> & -> & ->). }
    destruct H3 as (H31 & H32 & H33 & H34 & H35).
    split_and!; [done| |congruence|cbn [length]; lia]. exists [command]. rewrite H32. split; [done|]. by apply prefix_cons, prefix_nil.
  - intros (Hi & (started & Hst & Hpre) & Hcl3 & Ho3)%IH; [|done].
    cbn [set_running r_commands r_closed r_opened] in Hst, Hcl3, Ho3.
    change (is_open (set_running false r2)) with (is_open r2) in Ho3.
    split_and!; [done| |congruence|cbn [length]; lia]. exists (command :: started).
    rewrite Hst, Hc2, <- app_assoc. split; [done|]. by apply prefix_cons.
Qed.

(** C23: a run leaves its provider ready for the next one, and what it leaves open. Whatever the
    outside answers, a run that returns leaves the provider without a log and as running as
    it found it: an idle one is idle again and has started at most its own command, or its
    stages in order; one that was already running is refused and starts nothing, but unless
    it has two stages the refused run closes the log of the one in progress. Of the
    descriptors a run opened it closes exactly one: the run of one process leaves none open,
    that of two stages leaves the first one open when it opened both. *)
Theorem run_ends_idle {R} (find_all : R -> string -> list (list string)) fail size c c1 c2 o o1 o2 r err r' :
  (r.(r_isRunning) = false -> r.(r_logFileFd) = None) ->
  (rsync_provider_Run p logFile c o r ⇓ (err, r') -> run_over [c] r r' err)
  /\ (cmd_provider_Run p logFile find_all fail size c o r ⇓ (err, r') -> run_over [c] r r' err)
  /\ (r.(r_isRunning) = false -> two_stage_Run p logFile c1 c2 o1 o2 r ⇓ (err, r') ->
      run_over (stage_commands [(1, c1, o1); (2, c2, o2)]) r r' err)
  /\ (r.(r_isRunning) = true -> two_stage_Run p logFile c1 c2 o1 o2 r ⇓ (Some already_running, r)).
Proof.
  intros Hidle. split_and!; [by apply run_process_over..| |].
  - intros Hr. unfold two_stage_Run, run_over, left_open. rewrite Hr.
    destruct (stages_loop _ _ _ _) as [[e r1]|] eqn:E; [|done]. cbn [mbind comp_bind]. intros [= <- <-].
    apply stages_over in E as (Hi & Hst & Hcl & Ho); [|done].
    change (is_open (set_size EmptyString r)) with (is_open r) in Ho. unfold is_open in Ho. rewrite (Hidle Hr) in Ho.
    cbn [set_size r_closed r_opened] in Hcl, Ho. split; [done|]. split; [done|]. split; [exact Hst|].
    cbn [closeLogFile r_opened r_closed]. lia.
  - intros Hr. unfold two_stage_Run. by rewrite Hr.
Qed.

(** The two stages. When the system lets both start, the second starts exactly when the
    first succeeded or ended with a forgiven code, and then the descriptor of the first is
    left open; the run succeeds exactly when both did,
    and then its log is the output of the first, over what the file held before, followed
    by the output of the second, and its size is the last one there. *)
Theorem two_stage_order c1 c2 out1 out2 e1 e2 r :
  r.(r_isRunning) = false -> r.(r_logFileFd) = None -> logFile <> "/dev/null" -> waited e1 -> waited e2 ->
  exists err r', two_stage_Run p logFile (Ok c1) (Ok c2) (MkOutside None None out1 e1) (MkOutside None None out2 e2) r
    ⇓ (err, r')
  /\ left_open r' = left_open r + (if decide (verdict p e1 = None) then 1 else 0)
  /\ r'.(r_commands) = r.(r_commands) ++ (if decide (verdict p e1 = None) then [c1; c2] else [c1])
  /\ (err = None <-> verdict p e1 = None /\ verdict p e2 = None)
  /\ (err = None ->
      let log := fd_content (MkFd false (default EmptyString r.(r_log)) out1) +:+ out2 in
      r'.(r_log) = Some log /\ r'.(r_dataSize) = ExtractSizeFromRsyncLog logFile (Some log)).
Proof.
  intros Hr Hfd Hf H1 H2. unfold two_stage_Run, left_open. rewrite Hr. cbn [stages_loop o_open o_start o_output o_end].
  unfold prepareLogFile. rewrite !decide_False by done. cbn [Z.ltb Z.compare Pos.compare Pos.compare_cont].
  destruct (Wait_verdict p e1 H1) as [j1 Hw1]. rewrite Hw1. cbn [mbind comp_bind].
  destruct (verdict p e1) as [v1|] eqn:Hv1.
  - destruct (TranslateRsyncErrorCode e1) as [code msg]. eexists _, _. split; [done|].
    destruct (decide (code = 0)); simpl; split_and!; try lia; try done; (split; [done|by intros [? _]]).
  - destruct (Wait_verdict p e2 H2) as [j2 Hw2]. rewrite Hw2. cbn [mbind comp_bind].
    destruct (verdict p e2) as [v2|] eqn:Hv2.
    + destruct (TranslateRsyncErrorCode e2) as [code msg]. eexists _, _. split; [done|].
      destruct (decide (code = 0)); simpl; rewrite <- app_assoc; split_and!; try lia; try done; (split; [done|by intros [_ ?]]).
    + eexists _, _. split; [done|]. simpl. rewrite <- app_assoc. split_and!; [lia|done|done|]. intros _.
      rewrite !string_app_nil_l. done.
Qed.

(** A log is not truncated. An rsync run logs over what its file held before: what the run
    did not overwrite stays, and a run that prints nothing reports the size printed by the
    run before. *)
Theorem stale_log_is_read command out e r old :
  r.(r_isRunning) = false -> logFile <> "/dev/null" -> waited e -> verdict p e = None -> r.(r_log) = Some old ->
  exists r', rsync_provider_Run p logFile command (MkOutside None None out e) r ⇓ (None, r')
  /\ r'.(r_log) = Some (out +:+ str_drop (String.length out) old)
  /\ r'.(r_dataSize) = ExtractSizeFromRsyncLog logFile r'.(r_log)
  /\ (out = EmptyString -> r'.(r_dataSize) = ExtractSizeFromRsyncLog logFile (Some old)).
Proof.
  intros Hr Hf He Hv Ho. unfold rsync_provider_Run, run_process, Start, prepareLogFile.
  cbn [set_size r_isRunning o_open o_start o_output o_end]. rewrite Hr, decide_False by done.
  cbn [set_running add_command write_log r_logFileFd r_log]. unfold rsync_Run.
  destruct (Wait_verdict p e He) as [j ->]. rewrite Hv. cbn [mbind comp_bind].
  eexists. split; [done|]. cbn [closeLogFile set_size set_running r_log r_dataSize].
  unfold fd_content. cbn [fd_append fd_base fd_data]. rewrite Ho. cbn [default].
  rewrite string_app_nil_l. split; [done|]. split; [done|]. by intros ->.
Qed.
End properties.

(** *** Witnesses *)

Definition ex_idle (log : option string) : prun := MkRun false None log EmptyString [] 0 0.

Lemma run_ends_idle_witness :
  exists r', cmd_provider_Run ex_plain "/log/latest.log" ex_find None (Some "size ") ["mirror.sh"]
      (MkOutside None None "size 12G" Exited) (ex_idle None) = Ret (None, r')
    /\ run_over [["mirror.sh"]] (ex_idle None) r' None.
Proof.
  eexists. split; [reflexivity|].
  apply (proj1 (proj2 (run_ends_idle ex_plain "/log/latest.log" ex_find None (Some "size ") ["mirror.sh"]
    (Err EmptyString) (Err EmptyString) (MkOutside None None "size 12G" Exited) (MkOutside None None EmptyString Exited)
    (MkOutside None None EmptyString Exited) (ex_idle None) None _ (fun _ => eq_refl)))).
  reflexivity.
Defined.

Lemma two_stage_order_witness :
  exists err r', two_stage_Run ex_base "/log/latest.log" (Ok ["rsync"; "1"]) (Ok ["rsync"; "2"])
      (MkOutside None None ex_log (ExitError 24 "exit status 24")) (MkOutside None None ex_log Exited) (ex_idle None)
    = Ret (err, r')
    /\ err = None /\ r_commands r' = [["rsync"; "1"]; ["rsync"; "2"]].
Proof.
  destruct (two_stage_order ex_base "/log/latest.log" ["rsync"; "1"] ["rsync"; "2"] ex_log ex_log
    (ExitError 24 "exit status 24") Exited (ex_idle None) eq_refl eq_refl ltac:(discriminate)
    ltac:(intros err; discriminate) ltac:(intros err; discriminate)) as (err & r' & He & _ & Hc & Herr & _).
  exists err, r'. split; [exact He|]. split.
  - apply Herr. split; reflexivity.
  - rewrite Hc. reflexivity.
Defined.

(** A log left by the run before. *)
Lemma stale_log_is_read_witness :
  exists r', rsync_provider_Run ex_base "/log/latest.log" ["rsync"]
      (MkOutside None None EmptyString (ExitError 24 "exit status 24")) (ex_idle (Some ex_log)) = Ret (None, r')
    /\ r_dataSize r' = "1.33T".
Proof.
  destruct (stale_log_is_read ex_base "/log/latest.log" ["rsync"] EmptyString (ExitError 24 "exit status 24")
    (ex_idle (Some ex_log)) ex_log eq_refl ltac:(discriminate) ltac:(intros err; discriminate) eq_refl eq_refl)
    as (r' & He & _ & _ & Hs).
  exists r'. split; [exact He|]. rewrite (Hs eq_refl). reflexivity.
Defined.
