(* ===== verification/Cgroup.v ===== *)
(** * worker/cgroup.go and cmdJob.Start: control groups

    How the worker prepares the control group its jobs live under ([initCgroup]), and how
    the process of a job gets into its own group before the program of the job runs: the
    worker starts itself as a helper that waits on a pipe ([waitExec]), [Start] moves the
    helper into the group and then writes the word that lets it go on. *)

From S2P Require Import Prelude Context Config Provider Runner.

Local Open Scope string_scope.
Local Open Scope list_scope.
Local Open Scope Z_scope.

(** ** Preparing the hierarchy

    The cgroup libraries over the state [G] of the hierarchies: one list of processes per
    subsystem, the unified hierarchy of version 2 being one subsystem. *)

Inductive added (G : Type) : Type :=
| Added (g : G)
(** ESRCH *)
| Vanished (g : G)
| AddFailed (e : error) (g : G).
Arguments Added {G} g.
Arguments Vanished {G} g.
Arguments AddFailed {G} e g.

Record cgroup_lib (G : Type) : Type := MkLib {
  isUnified : bool;
  NestedGroupPath : result string;
  NestedPath : string -> result string;
  Load2 : string -> option error;
  Load1 : (string -> result string) -> option error;
  Subsystems : list string;
  NewChild : string -> G -> G * option error;
  DeleteChild : string -> G -> G * option error;
  Procs : string -> G -> result (list Z);
  AddProc : string -> Z -> G -> added G
}.
Arguments isUnified {G}. Arguments NestedGroupPath {G}. Arguments NestedPath {G}. Arguments Load2 {G}.
Arguments Load1 {G}. Arguments Subsystems {G}. Arguments NewChild {G}. Arguments DeleteChild {G}.
Arguments Procs {G}. Arguments AddProc {G}.

Definition ErrControllerNotActive : error := "cgroups: controller is not supported".

Section init.
Context {G : Type} (lib : cgroup_lib G).

(** Moving the processes of one read; the first real error ends it. *)
Fixpoint move (procs : list Z) (g : G) : G * option error :=
  match procs with
  | [] => (g, None)
  | p :: procs =>
      match lib.(AddProc) "__worker" p g with
      | Added g | Vanished g => move procs g
      | AddFailed e g => (g, Some e)
      end
  end.

(** How a loop over the processes of a subsystem ends: it breaks, or [initCgroup] returns,
    with an error or without one. *)
Inductive drained : Type := Emptied | Returns (err : option error).

(** The loop that reads and moves until nothing is left; nothing when [fuel] rounds do not
    suffice.  [on_read] is what is returned for an error of a read. *)
Fixpoint drain (on_read : error -> option error) (subsys : string) (fuel : nat) (g : G) : option (G * drained) :=
  match fuel with
  | O => None
  | S fuel =>
      match lib.(Procs) subsys g with
      | Err e => Some (g, Returns (on_read e))
      | Ok [] => Some (g, Emptied)
      | Ok procs =>
          match move procs g with
          | (g, None) => drain on_read subsys fuel g
          | (g, Some e) => Some (g, Returns (Some e))
          end
      end
  end.

(** What version 1 returns for an error of a read: [p, err := pather(...)] declares another
    [err], so that it is the error of the path, and none when the path can be told. *)
Definition read_error (pather : string -> result string) (subsys : string) (_ : error) : option error :=
  get_err (pather subsys).

Definition drained_err (d : drained) : option error := match d with Emptied => None | Returns err => err end.

Fixpoint drain_all (pather : string -> result string) (subs : list string) (fuel : nat) (g : G)
    : option (G * drained) :=
  match subs with
  | [] => Some (g, Emptied)
  | subsys :: subs =>
      match drain (read_error pather subsys) subsys fuel g with
      | Some (g, Emptied) => drain_all pather subs fuel g
      | stopped => stopped
      end
  end.

(** Whether a configured group is free of processes, subsystem by subsystem. *)
Fixpoint check_all (pather : string -> result string) (subs : list string) (g : G) : option error :=
  match subs with
  | [] => None
  | subsys :: subs =>
      match lib.(Procs) subsys g with
      | Err e => read_error pather subsys e
      | Ok [] => check_all pather subs g
      | Ok _ => Some match pather subsys with
                     | Err e => e
                     | Ok p => "There are remaining processes in cgroup " +:+ p +:+ " of subsystem " +:+ subsys
                     end
      end
  end.

(** A sub group made and deleted, to see that it can be. *)
Definition try_child (g : G) : G * option error :=
  match lib.(NewChild) "__test" g with
  | (g, Some e) => (g, Some e)
  | (g, None) => lib.(DeleteChild) "__test" g
  end.

(** The pather of version 1. *)
Definition pather1 (baseGroup subsys : string) : result string :=
  if decide (baseGroup <> EmptyString) then Ok baseGroup
  else
    path ← lib.(NestedPath) subsys;
    if decide (path = "/") then Err ErrControllerNotActive else Ok path.

Definition first_error (subs : list string) (pather : string -> result string) : option error :=
  head (omap (fun s => get_err (pather s)) subs).

(** [initCgroup]; the one "subsystem" of version 2 is named by the empty string. *)
Definition initCgroup (group : string) (fuel : nat) (g : G) : option (G * option error) :=
  let baseGroup := if decide (group <> EmptyString) then Join ["/"; group] else EmptyString in
  if lib.(isUnified) then
    match (if decide (baseGroup = EmptyString) then lib.(NestedGroupPath) else Ok baseGroup) with
    | Err e => Some (g, Some e)
    | Ok path =>
        match lib.(Load2) path with
        | Some e => Some (g, Some e)
        | None =>
            if decide (baseGroup = EmptyString) then
              match lib.(NewChild) "__worker" g with
              | (g, Some e) => Some (g, Some e)
              | (g, None) => prod_map Datatypes.id drained_err <$> drain Some EmptyString fuel g
              end
            else
              match try_child g with
              | (g, Some e) => Some (g, Some e)
              | (g, None) =>
                  Some (g, match lib.(Procs) EmptyString g with
                           | Err e => Some e
                           | Ok [] => None
                           | Ok _ => Some ("There are remaining processes in cgroup " +:+ baseGroup)
                           end)
              end
        end
    end
  else
    let pather := pather1 baseGroup in
    match lib.(Load1) pather with
    | Some e => Some (g, Some e)
    | None =>
        match first_error lib.(Subsystems) pather with
        | Some e => Some (g, Some e)
        | None =>
            if decide (baseGroup = EmptyString) then
              match lib.(NewChild) "__worker" g with
              | (g, Some e) => Some (g, Some e)
              | (g, None) => prod_map Datatypes.id drained_err <$> drain_all pather lib.(Subsystems) fuel g
              end
            else
              match try_child g with
              | (g, Some e) => Some (g, Some e)
              | (g, None) => Some (g, check_all pather lib.(Subsystems) g)
              end
        end
    end.
End init.

(** ** When nothing forks *)

Section init_properties.
Context {G : Type} (lib : cgroup_lib G).

(** The subsystems read. *)
Definition read_subsystems : list string := if lib.(isUnified) then [EmptyString] else lib.(Subsystems).

(** Moving a process takes it out of every subsystem of the group, and nothing else comes
    or goes meanwhile; a failed move changes nothing here. *)
Definition nothing_forks : Prop :=
  forall s p g,
    match lib.(AddProc) "__worker" p g with
    | Added g' | Vanished g' =>
        lib.(Procs) s g' = (l ← lib.(Procs) s g; Ok (filter (fun q => q <> p) l))
    | AddFailed e g' => lib.(Procs) s g' = lib.(Procs) s g
    end.

Context (Hfork : nothing_forks).

(** What a series of moves leaves. *)
Lemma move_spec s ps g l : lib.(Procs) s g = Ok l ->
  match move lib ps g with
  | (g', None) => lib.(Procs) s g' = Ok (filter (fun q => q ∉ ps) l)
  | (g', Some _) => exists l', lib.(Procs) s g' = Ok l' /\ l' ⊆ l
  end.
Proof.
  revert g l. induction ps as [|p ps IH]; intros g l Hl; simpl.
  { rewrite Hl. f_equal. symmetry. apply filter_all. intros q _. apply not_elem_of_nil. }
  pose proof (Hfork s p g) as Hp.
  assert (Hnext : forall g', lib.(Procs) s g' = (l ← lib.(Procs) s g; Ok (filter (fun q => q <> p) l)) ->
    match move lib ps g' with
    | (g'', None) => lib.(Procs) s g'' = Ok (filter (fun q => q ∉ p :: ps) l)
    | (g'', Some _) => exists l', lib.(Procs) s g'' = Ok l' /\ l' ⊆ l
    end).
  { intros g' Hg'. rewrite Hl in Hg'. simpl in Hg'. specialize (IH g' _ Hg').
    destruct (move lib ps g') as [g'' [e|]].
    - destruct IH as (l' & Hl' & Hs). exists l'. split; [done|]. intros x Hx%Hs. by apply list_elem_of_filter in Hx as [_ Hx].
    - rewrite IH, list_filter_filter. f_equal. apply list_filter_iff. intros q. rewrite not_elem_of_cons. tauto. }
  destruct (AddProc lib "__worker" p g) as [g'|g'|e g']; [by apply Hnext..|].
  exists l. split; [congruence|done].
Qed.

(** A subsystem that is empty stays so. *)
Lemma move_empty s ps g : lib.(Procs) s g = Ok [] -> lib.(Procs) s (move lib ps g).1 = Ok [].
Proof.
  intros Hs. pose proof (move_spec s ps g [] Hs) as H. destruct (move lib ps g) as [g' [e|]]; simpl; [|done].
  destruct H as (l' & Hl' & Hsub). rewrite Hl'. f_equal. destruct l' as [|x l']; [done|].
  by destruct (proj1 (elem_of_nil x) (Hsub x ltac:(by left))).
Qed.

Lemma drain_keeps s on_read subsys fuel g g' d : lib.(Procs) s g = Ok [] ->
  drain lib on_read subsys fuel g = Some (g', d) -> lib.(Procs) s g' = Ok [].
Proof.
  revert g. induction fuel as [|fuel IH]; intros g Hs; simpl; [done|].
  destruct (Procs lib subsys g) as [[|p l]|e]; [by intros [= <- _]| |by intros [= <- _]].
  pose proof (move_empty s (p :: l) g Hs) as Hm.
  destruct (move lib (p :: l) g) as [g1 [e|]]; simpl in Hm; [by intros [= <- _]|by apply IH].
Qed.

(** Two rounds are enough: one that moves, one that finds nothing.  An end without an error
    is that of an empty group, or hides a read that failed. *)
Lemma drain_done on_read subsys fuel g : (2 <= fuel)%nat ->
  exists g' d, drain lib on_read subsys fuel g = Some (g', d)
  /\ match d with
     | Emptied => lib.(Procs) subsys g' = Ok []
     | Returns None => exists e, lib.(Procs) subsys g' = Err e /\ on_read e = None
     | Returns (Some _) => True
     end.
Proof.
  intros Hf. destruct fuel as [|[|fuel]]; [lia|lia|]. cbn [drain].
  destruct (Procs lib subsys g) as [[|p l]|e] eqn:Hp; [by exists g, Emptied| |].
  2: { exists g, (Returns (on_read e)). split; [done|]. destruct (on_read e) eqn:E; [done|]. by exists e. }
  pose proof (move_spec subsys (p :: l) g _ Hp) as Hm.
  destruct (move lib (p :: l) g) as [g1 [e|]]; [by exists g1, (Returns (Some e))|].
  rewrite filter_none in Hm by (intros q Hq Hnq; by apply Hnq).
  rewrite Hm. by exists g1, Emptied.
Qed.

Lemma drain_all_done pather subs fuel g : (2 <= fuel)%nat ->
  exists g' d, drain_all lib pather subs fuel g = Some (g', d)
  /\ match d with
     | Emptied => (forall s, s ∈ subs -> lib.(Procs) s g' = Ok [])
                  /\ (forall s, lib.(Procs) s g = Ok [] -> lib.(Procs) s g' = Ok [])
     | Returns None => exists s e, s ∈ subs /\ lib.(Procs) s g' = Err e
     | Returns (Some _) => True
     end.
Proof.
  intros Hf. revert g. induction subs as [|subsys subs IH]; intros g; simpl.
  { exists g, Emptied. split; [done|]. split; [by intros s ?%elem_of_nil|done]. }
  destruct (drain_done (read_error pather subsys) subsys fuel g Hf) as (g1 & d & Hd & He). rewrite Hd.
  destruct d as [|[e|]]; [|by exists g1, (Returns (Some e))|].
  2: { destruct He as (e & He & _). exists g1, (Returns None). split; [done|]. exists subsys, e. split; [by left|done]. }
  destruct (IH g1) as (g' & d & -> & Hok). exists g', d. split; [done|].
  destruct d as [|[e|]]; [|done|].
  - destruct Hok as [Hall Hkeep]. split.
    + intros s [->|Hs]%elem_of_cons; [by apply Hkeep, He|by apply Hall].
    + intros s Hs. apply Hkeep. by eapply drain_keeps.
  - destruct Hok as (s & e & Hs & Hr). exists s, e. split; [by right|done].
Qed.

Lemma check_all_spec pather subs g : check_all lib pather subs g = None ->
  (forall s, s ∈ subs -> lib.(Procs) s g = Ok []) \/ exists s e, s ∈ subs /\ lib.(Procs) s g = Err e.
Proof.
  induction subs as [|subsys subs IH]; simpl; [left; by intros s ?%elem_of_nil|].
  destruct (Procs lib subsys g) as [[|p l]|e] eqn:E; [|done|].
  - intros [Hall|(s & e & Hs & He)]%IH; [left|right].
    + intros s [->|Hs]%elem_of_cons; [done|by apply Hall].
    + exists s, e. split; [by right|done].
  - intros _. right. exists subsys, e. split; [by left|done].
Qed.

(** What [initCgroup] without an error says of the group. *)
Definition ready (g : G) : Prop :=
  (forall s, s ∈ read_subsystems -> lib.(Procs) s g = Ok [])
  \/ lib.(isUnified) = false /\ exists s e, s ∈ lib.(Subsystems) /\ lib.(Procs) s g = Err e.


(** With version 1 a read that fails is reported as success: the configured group, whose
    processes cannot be read. *)
Theorem unreadable_is_ready group fuel g g1 s e : lib.(isUnified) = false -> group <> EmptyString ->
  lib.(Load1) (pather1 lib (Join ["/"; group])) = None ->
  try_child lib g = (g1, None) -> head lib.(Subsystems) = Some s -> lib.(Procs) s g1 = Err e ->
  Join ["/"; group] <> EmptyString ->
  initCgroup lib group fuel g = Some (g1, None).
Proof.
  intros Hu Hg Hl Ht Hh Hp Hj. unfold initCgroup. rewrite Hu, decide_True by done. rewrite Hl.
  assert (Hf : forall subs, first_error subs (pather1 lib (Join ["/"; group])) = None).
  { intros subs. unfold first_error. induction subs as [|s' subs IH]; [done|].
    cbn [omap list_omap]. unfold pather1 at 1. rewrite decide_True by done. done. }
  rewrite Hf, decide_False by done. rewrite Ht. destruct (Subsystems lib) as [|s' subs]; [done|].
  injection Hh as ->. cbn [check_all]. rewrite Hp. unfold read_error, pather1. by rewrite decide_True by done.
Qed.
End init_properties.

(** ** The group of one run *)

(** [preExec]: the group it makes, with the limit of memory when there is one, and whether the
    hook has a group afterwards. *)
Definition cgroup_preExec (name : string) (memLimit : Z) (answer : option error)
    : (string * option Z) * (option error * bool) :=
  let resSet := if decide (memLimit <> 0) then Some memLimit else None in
  ((name, resSet), match answer with Some e => (Some e, false) | None => (None, true) end).

(** ** Starting a process in its group

    [Start] with a control group and the helper it starts, [waitExec], run side by side; the
    helper reads the pipe to its end, so it goes on only once [Start] has returned and the
    write end is closed. *)

Definition cmdCont : string := "cont".
Definition cmdAbrt : string := "abrt".

(** Where [Start] is, between its calls. *)
Inductive start_pc : Type :=
| Creating
| Forked
| ReadEndClosed
| Grouped
| Written
| StartReturned (err : option error).

Inductive helper : Type :=
| NotForked
| Waiting
(** the program of the job has replaced the helper *)
| Program
| Gone.

Record handover : Type := MkHandover {
  h_start : start_pc;
  h_helper : helper;
  (** the process is a member of the group *)
  h_member : bool;
  h_pipe : string
}.

Definition handover_init : handover := MkHandover Creating NotForked false EmptyString.

(** The error of a call ends [Start]; the deferred calls close the pipe. *)
Inductive start_step : handover -> handover -> Prop :=
| start_fails c k m p e : (forall err, c <> StartReturned err) -> c <> Written ->
    start_step (MkHandover c k m p) (MkHandover (StartReturned (Some e)) k m p)
| start_forks m p : start_step (MkHandover Creating NotForked m p) (MkHandover Forked Waiting m p)
| start_closes k m p : start_step (MkHandover Forked k m p) (MkHandover ReadEndClosed k m p)
| start_adds k m p : k <> Gone ->
    start_step (MkHandover ReadEndClosed k m p) (MkHandover Grouped k true p)
(** ESRCH: the process is no more *)
| start_vanished m p : start_step (MkHandover ReadEndClosed Gone m p) (MkHandover Grouped Gone m p)
| start_writes k m p : start_step (MkHandover Grouped k m p) (MkHandover Written k m (p +:+ cmdCont))
| start_returns k m p : start_step (MkHandover Written k m p) (MkHandover (StartReturned None) k m p)
(** the helper finds no program, or is killed *)
| helper_dies c m p : start_step (MkHandover c Waiting m p) (MkHandover c Gone m p)
| helper_goes err m : start_step (MkHandover (StartReturned err) Waiting m cmdCont)
    (MkHandover (StartReturned err) Program m cmdCont)
| helper_aborts err m p : p <> cmdCont ->
    start_step (MkHandover (StartReturned err) Waiting m p) (MkHandover (StartReturned err) Gone m p)
| program_ends c m p : start_step (MkHandover c Program m p) (MkHandover c Gone m p).

(** What holds at each point. *)
Definition handover_inv (h : handover) : Prop :=
  match h.(h_start) with
  | Creating => h.(h_helper) = NotForked /\ h.(h_pipe) = EmptyString
  | Forked | ReadEndClosed => (h.(h_helper) = Waiting \/ h.(h_helper) = Gone) /\ h.(h_pipe) = EmptyString
  | Grouped => (h.(h_helper) = Waiting \/ h.(h_helper) = Gone) /\ h.(h_pipe) = EmptyString
               /\ (h.(h_helper) = Waiting -> h.(h_member) = true)
  | Written => (h.(h_helper) = Waiting \/ h.(h_helper) = Gone) /\ h.(h_pipe) = cmdCont
               /\ (h.(h_helper) = Waiting -> h.(h_member) = true)
  | StartReturned None => h.(h_pipe) = cmdCont /\ h.(h_helper) <> NotForked
               /\ (h.(h_helper) <> Gone -> h.(h_member) = true)
  | StartReturned (Some _) => h.(h_pipe) = EmptyString /\ h.(h_helper) <> Program
  end.

Lemma handover_step_inv h h' : start_step h h' -> handover_inv h -> handover_inv h'.
Proof.
  intros Hs Hi. destruct Hs; unfold handover_inv in *; simpl in *;
    repeat match goal with
    | c : start_pc |- _ => destruct c as [| | | | |[]]
    | err : option error |- _ => destruct err
    end; try done; unfold cmdCont in *; try naive_solver.
  all: match goal with H : forall err, StartReturned ?x <> _ |- _ => by destruct (H x) end.
Qed.

Lemma handover_reachable h : rtc start_step handover_init h -> handover_inv h.
Proof.
  intros Hr. assert (Hi : handover_inv handover_init) by done. revert Hi.
  induction Hr as [|h1 h2 h3 H12 _ IH]; [done|]. intros Hi. apply IH. by eapply handover_step_inv.
Qed.

(** An error of [Start] is final. *)
Lemma handover_error_stays h h' e : rtc start_step h h' -> h.(h_start) = StartReturned (Some e) ->
  h'.(h_start) = StartReturned (Some e).
Proof.
  induction 1 as [|h1 h2 h3 H12 _ IH]; [done|]. intros He. apply IH.
  destruct H12; simpl in *; try done. subst. by exfalso; eapply H.
Qed.

(** C21: a program runs only inside its group. Whatever happens to the two processes, the
    program of a job never runs outside the control group of the job; when [Start] reports
    an error it never runs at all; and when [Start] succeeds a helper still waiting goes on
    to the program unless it dies. *)
Theorem program_runs_in_group h :
  rtc start_step handover_init h ->
  (h.(h_helper) = Program -> h.(h_member) = true /\ h.(h_start) = StartReturned None)
  /\ (forall e h', h.(h_start) = StartReturned (Some e) -> rtc start_step h h' -> h'.(h_helper) <> Program)
  /\ (h.(h_start) = StartReturned None -> h.(h_helper) = Waiting ->
      exists h', start_step h h' /\ h'.(h_helper) = Program
      /\ forall h'', start_step h h'' -> h''.(h_helper) = Program \/ h''.(h_helper) = Gone).
Proof.
  intros Hr. pose proof (handover_reachable h Hr) as Hi. split_and!.
  - intros Hp. unfold handover_inv in Hi. rewrite Hp in Hi.
    destruct (h_start h) as [| | | | |[]]; naive_solver.
  - intros e h' He Hr'. pose proof (handover_error_stays h h' e Hr' He) as He'.
    assert (Hi' : handover_inv h') by (apply handover_reachable; by etrans).
    unfold handover_inv in Hi'. rewrite He' in Hi'. tauto.
  - intros Hs Hw. destruct h as [s k m p]. simpl in *. subst. destruct Hi as (Hp & _ & _). simpl in Hp. subst p.
    eexists. split; [apply helper_goes|]. split; [done|]. intros h'' Hst. inversion Hst; subst; simpl; auto;
      exfalso; naive_solver.
Qed.

(** *** Witnesses *)

(** The unified hierarchy, a list of processes in the group. *)
Definition ex_lib : cgroup_lib (list Z) :=
  MkLib (list Z) true (Ok "/system.slice/tunasync.service") (fun _ => Err "v2") (fun _ => None) (fun _ => None) []
    (fun _ g => (g, None)) (fun _ g => (g, None)) (fun _ g => Ok g)
    (fun _ p g => if decide (p ∈ g) then Added (filter (fun q => q <> p) g) else Vanished g).

Lemma ex_lib_forks : nothing_forks ex_lib.
Proof.
  intros s p g. simpl. destruct (decide (p ∈ g)) as [Hp|Hp]; simpl; [done|]. f_equal. symmetry.
  apply filter_all. intros q Hq ->. by apply Hp.
Qed.


Lemma program_runs_in_group_witness :
  exists h, rtc start_step handover_init h /\ h_helper h = Program /\ h_member h = true.
Proof.
  assert (Hr : rtc start_step handover_init (MkHandover (StartReturned None) Program true cmdCont)).
  { eapply rtc_l; [apply start_forks|]. eapply rtc_l; [apply start_closes|].
    eapply rtc_l; [by apply start_adds|]. eapply rtc_l; [apply start_writes|].
    eapply rtc_l; [apply start_returns|]. apply rtc_once. apply helper_goes. }
  eexists. split; [exact Hr|]. split; [reflexivity|].
  exact (proj1 (proj1 (program_runs_in_group _ Hr) eq_refl)).
Defined.
