(* ===== verification/Daemon.v ===== *)
(** * cmd/tunasync/tunasync.go: the daemons

    Starting the manager and the worker from the command line, with what ends them early,
    and the life of a running worker: the commands, messages, ticks and signals it handles
    one after the other.  A reload makes its providers with the configuration the worker
    was started with; only the list of mirrors is that of the new file. *)

From S2P Require Import Prelude Logger Json Msg Http Job Schedule Config ConfigDiff Provider Worker.
From S2P Require ManagerConfig.

Local Open Scope string_scope.
Local Open Scope list_scope.
Local Open Scope Z_scope.

(** The daemon exits with a status, or runs on what it has set up. *)
Inductive launch (A : Type) : Type :=
| Exit (code : Z)
| Runs (a : A).
Arguments Exit {A} code.
Arguments Runs {A} a.

(** The flags both daemons have. *)
Record daemon_flags : Type := MkDaemonFlags {
  df_config : string;
  df_verbose : bool;
  df_debug : bool;
  df_with_systemd : bool
}.

(** ** The manager *)

(** [startManager]: the handler of its log, what it opens, and the address it listens on.
    [fl] are the flags [LoadConfig] looks at. *)
Definition startManager (read : string -> result ManagerConfig.config_file)
    (answer : ManagerConfig.opening -> option error) (d : daemon_flags) (fl : ManagerConfig.flags)
    : lineHandler * list ManagerConfig.opening * launch (string * bool) :=
  let h := InitLogger d.(df_verbose) d.(df_debug) d.(df_with_systemd) in
  match ManagerConfig.LoadConfig read d.(df_config) (Some fl) with
  | Err _ => (h, [], Exit 1)
  | Ok cfg =>
      match ManagerConfig.GetTUNASyncManager answer cfg with
      | (asked, None) => (h, asked, Exit 1)
      | (asked, Some _) => (h, asked, Runs (ManagerConfig.Run_listens cfg))
      end
  end.

(** ** The worker *)

(** Lines 33 to 35. *)
Definition with_retry (cfg : Config) : Config :=
  let g := cfg.(Global) in
  if decide (g.(g_Retry) = 0) then
    MkConfig
      (MkGlobalConfig g.(g_Name) g.(g_LogDir) g.(g_MirrorDir) g.(g_Concurrent) g.(g_Interval) defaultMaxRetry
         g.(g_Timeout) g.(g_RsyncOptions) g.(g_ExecOnSuccess) g.(g_ExecOnFailure) g.(g_SuccessExitCodes)
         g.(g_RsyncSuccessExitCodes))
      cfg.(Manager) cfg.(Server) cfg.(Cgroup) cfg.(ZFS) cfg.(BtrfsSnapshot) cfg.(Docker)
      cfg.(IncludeMirrors) cfg.(MirrorsConf) cfg.(Mirrors)
  else cfg.

Inductive signal : Type := SIGHUP | SIGINT | SIGTERM.

Section daemon.
Context {P L : Type} {WP : WorkerProvider P} {SL : SkipList string L} {MS : MirrorSort} {RO : RangeOrder}.
Context {TT : TimeText}.
(** [newMirrorProvider]. *)
Context (make_provider : Config -> mirrorConfig -> comp P).

(** [NewTUNASyncWorker]: nothing when a client or the control groups cannot be set up.
    The configuration it returns is the worker's own. *)
Definition NewTUNASyncWorker (new_client : string -> option error) (init_cgroup : cgroupConfig -> option error)
    (cfg : Config) : comp (option (Config * Worker P L)) :=
  let cfg := with_retry cfg in
  let failed :=
    match (if decide (cfg.(Manager).(m_CACert) <> EmptyString) then new_client cfg.(Manager).(m_CACert) else None) with
    | Some err => Some err
    | None => if cg_Enable cfg.(Cgroup) then init_cgroup cfg.(Cgroup) else None
    end in
  match failed with
  | Some _ => Ret None
  | None => w ← initJobs (make_provider cfg) (newWorker (default [] cfg.(Mirrors))); Ret (Some (cfg, w))
  end.

(** [Run], up to the loop of [runSchedule]. *)
Definition Run (post : string -> nat -> bool) (client : transport) (clock : nat -> Z) (cfg : Config)
    (w : Worker P L) : comp (Worker P L) :=
  let name := cfg.(Global).(g_Name) in
  let roots := APIBaseList cfg.(Manager) in
  let w := registerWorker name roots (URL cfg.(Server)) post w in
  mirrorList ← fetchJobStatus client name roots;
  let w := init_schedule clock (default [] mirrorList) w in
  Ret (updateSchedInfo name roots (GetJobs id w.(w_schedule)) w).

(** [startWorker], up to the same point; [is_dir] answers [os.Stat] on the path for
    profiles. *)
Definition startWorker (load : result Config) (new_client : string -> option error)
    (init_cgroup : cgroupConfig -> option error) (is_dir : string -> bool) (profPath : string)
    (post : string -> nat -> bool) (client : transport) (clock : nat -> Z) : comp (launch (Config * Worker P L)) :=
  match load with
  | Err _ => Ret (Exit 1)
  | Ok cfg =>
      r ← NewTUNASyncWorker new_client init_cgroup cfg;
      match r with
      | None => Ret (Exit 1)
      | Some (cfg, w) =>
          if decide (profPath <> EmptyString /\ is_dir profPath = false) then Ret (Exit 1)
          else w ← Run post client clock cfg w; Ret (Runs (cfg, w))
      end
  end.

(** ** A running worker *)

(** The worker, and whether [w.exit] is closed. *)
Record daemon : Type := MkDaemon { d_worker : Worker P L; d_exit : bool }.

(** What the daemon handles.  [Signal] carries what [worker.LoadConfig] returns when the
    signal is SIGHUP, and the clocks of the reload; [Loop] is a step of the loop of a job that
    runs; [Leave] is the receive from [w.exit], with the messages left in the channel. *)
Inductive event : Type :=
| Command (doc : json)
| Message (now : Z) (m : jobMessage)
| Tick (now : Z)
| Loop (n : string) (x : Z) (size : string)
| Signal (s : signal) (load : result Config) (clock1 clock2 : nat -> Z)
| Leave (pending : list jobMessage).

Context (cfg : Config).

Definition loop_step (n : string) (x : Z) (size : string) (w : Worker P L) : Worker P L :=
  match w.(w_jobs) !! n with
  | Some j =>
      if j.(mj_running) && bool_decide (x <> stateDisabled)
      then put_job n (MkMirrorJob j.(mj_provider) x size true) w else w
  | None => w
  end.

(** The goroutine of the signals, lines 89 to 102.  Closing a closed channel panics. *)
Definition on_signal (s : signal) (load : result Config) (clock1 clock2 : nat -> Z) (d : daemon) : comp daemon :=
  match s with
  | SIGHUP =>
      match load with
      | Err _ => Ret d
      | Ok newCfg =>
          w ← ReloadMirrorConfig (make_provider cfg) clock1 clock2 (default [] newCfg.(Mirrors)) d.(d_worker);
          Ret (MkDaemon w d.(d_exit))
      end
  | SIGINT | SIGTERM =>
      let w := Halt d.(d_worker) in
      if d.(d_exit) then Panic "close of closed channel" else Ret (MkDaemon w true)
  end.

Definition on_event (e : event) (d : daemon) : comp daemon :=
  let name := cfg.(Global).(g_Name) in
  let roots := APIBaseList cfg.(Manager) in
  let keep w := Ret (MkDaemon w d.(d_exit)) in
  match e with
  | Command doc => keep (handle_command doc d.(d_worker)).1
  | Message now m => keep (on_job_message name roots now m d.(d_worker))
  | Tick now => keep (on_tick now d.(d_worker))
  | Loop n x size => keep (loop_step n x size d.(d_worker))
  | Signal s load clock1 clock2 => on_signal s load clock1 clock2 d
  | Leave pending => keep (if d.(d_exit) then on_exit name roots pending d.(d_worker) else d.(d_worker))
  end.

Fixpoint on_events (es : list event) (d : daemon) : comp daemon :=
  match es with
  | [] => Ret d
  | e :: es => d ← on_event e d; on_events es d
  end.
End daemon.

(** ** The providers of the jobs

    What a step other than a reload leaves alone: the configured mirrors, and which
    provider runs under which name. *)
Section providers.
Context {P L : Type} {WP : WorkerProvider P} {SL : SkipList string L} {MS : MirrorSort} {RO : RangeOrder}.
Implicit Type w : Worker P L.

Definition providers w : list mirrorConfig * gmap string P := (w.(w_mirrors), mj_provider <$> w.(w_jobs)).

Lemma put_providers n j j' w : w.(w_jobs) !! n = Some j -> j'.(mj_provider) = j.(mj_provider) ->
  providers (put_job n j' w) = providers w.
Proof.
  intros Hn Hp. unfold providers. simpl. f_equal. rewrite fmap_insert, Hp. apply insert_id. by rewrite lookup_fmap, Hn.
Qed.

Lemma start_providers n j j' w : w.(w_jobs) !! n = Some j -> j'.(mj_provider) = j.(mj_provider) ->
  providers (start_job n j' w) = providers w.
Proof. intros Hn Hp. by rewrite <- (put_providers n j (set_mj_running true j') w). Qed.

Lemma disable_providers n j w : w.(w_jobs) !! n = Some j -> providers (disableJob n j w) = providers w.
Proof.
  intros Hn. unfold disableJob. case_decide; [|done].
  by rewrite (put_providers n j).
Qed.

(** A job started with nothing else changed is still there. *)
Lemma started_providers (b : bool) n j w : w.(w_jobs) !! n = Some j ->
  let '(j', w') := if b then (set_mj_running true j, start_job n j w) else (j, w) in
  providers w' = providers w /\ w'.(w_jobs) !! n = Some j'.
Proof.
  intros Hn. destruct b; [|done]. split; [by apply (start_providers n j)|]. simpl. by rewrite lookup_insert_eq.
Qed.

Lemma command_providers cmd w : providers (job_command cmd w).1 = providers w.
Proof.
  unfold job_command. set (n := wc_MirrorID cmd).
  destruct (w_jobs w !! n) as [j|] eqn:Hn; [|done].
  pose proof (started_providers (starts (wc_Cmd cmd) && bool_decide (mj_state j = stateDisabled)) n j
    (unschedule n w) Hn) as Hs.
  destruct (if _ && _ then _ else _) as [j' w1]. destruct Hs as [Hs Hj].
  change (providers (unschedule n w)) with (providers w) in Hs. rewrite <- Hs.
  repeat case_decide; cbn [fst]; try done. by apply (disable_providers n j').
Qed.

Lemma handle_providers doc w : providers (handle_command doc w).1 = providers w.
Proof.
  unfold handle_command. destruct (unmarshal_WorkerCmd doc _) as [cmd [e|]]; [done|].
  repeat case_decide; try done; by rewrite command_providers.
Qed.

Lemma posts_providers (f : string -> action) rs w : providers (foldl (fun w r => Worker.log (f r) w) w rs) = providers w.
Proof. by rewrite posts_log. Qed.

Lemma message_providers name roots now m w : providers (on_job_message name roots now m w) = providers w.
Proof.
  unfold on_job_message. destruct (w_jobs w !! jm_name m) as [j|]; [|done]. case_decide; [done|].
  unfold report_message, updateSchedInfo. rewrite posts_providers.
  assert (Hu : providers (updateStatus name roots j m w) = providers w) by apply posts_providers.
  by destruct (jm_schedule m).
Qed.

Lemma tick_providers now w : providers (on_tick now w) = providers w.
Proof.
  unfold on_tick. destruct (Pop _ _ _) as [[n|] q]; [|done]. simpl. by destruct (w_jobs w !! n).
Qed.

Lemma exit_providers name roots pending w : providers (on_exit name roots pending w) = providers w.
Proof.
  revert w. induction pending as [|m pending IH]; intros w; [done|]. simpl.
  destruct (w_jobs w !! jm_name m); [|done]. case_decide; [|done].
  rewrite IH. unfold updateStatus. apply posts_providers.
Qed.

(** [Halt] sends to the jobs that are not disabled, and changes nothing else. *)
Lemma Halt_spec w : exists acts, Halt w = MkWorker w.(w_mirrors) w.(w_jobs) w.(w_schedule) (w.(w_log) ++ acts)
  /\ forall a, a ∈ acts <-> exists n j, w.(w_jobs) !! n = Some j /\ j.(mj_state) <> stateDisabled
       /\ a = SendCtrl n jobHalt j.(mj_running).
Proof.
  unfold Halt. assert (Hl : forall (l : list (string * mirrorJob)) w1, exists acts,
    foldl (fun w nj => if decide ((nj : string * mirrorJob).2.(mj_state) <> stateDisabled)
      then send_ctrl nj.1 nj.2 jobHalt w else w) w1 l
    = MkWorker w1.(w_mirrors) w1.(w_jobs) w1.(w_schedule) (w1.(w_log) ++ acts)
    /\ forall a, a ∈ acts <-> exists n j, (n, j) ∈ l /\ j.(mj_state) <> stateDisabled
         /\ a = SendCtrl n jobHalt j.(mj_running)).
  { induction l as [|[n j] l IH]; intros w1.
    - exists []. rewrite app_nil_r. split; [by destruct w1|]. set_solver.
    - cbn [foldl fst snd]. case_decide as Hd.
      + destruct (IH (send_ctrl n j jobHalt w1)) as (acts & -> & Ha).
        exists (SendCtrl n jobHalt j.(mj_running) :: acts). simpl. rewrite <- app_assoc. split; [done|].
        intros a. rewrite elem_of_cons, Ha. split.
        * intros [->|(n' & j' & ? & ? & ->)]; [exists n, j|exists n', j']; (split_and!; [|done|done]); set_solver.
        * intros (n' & j' & [[= -> ->]|Hx]%elem_of_cons & Hs & ->); [by left|right; eauto].
      + destruct (IH w1) as (acts & -> & Ha). exists acts. split; [done|]. intros a. rewrite Ha. split.
        * intros (n' & j' & ? & ? & ->). exists n', j'. split_and!; [|done|done]. set_solver.
        * intros (n' & j' & [[= -> ->]|Hx]%elem_of_cons & Hs & ->); [done|eauto 6]. }
  destruct (Hl (range_list (w_jobs w)) w) as (acts & -> & Ha). exists acts. split; [done|].
  intros a. rewrite Ha. by setoid_rewrite elem_of_range.
Qed.

Lemma init_one_providers m j w : w.(w_jobs) !! m.(ms_Name) = Some j -> providers (init_one m j w) = providers w.
Proof.
  intros Hn. unfold init_one. case_decide; [by apply (put_providers _ j)|].
  case_decide; [by apply (start_providers _ j)|]. by apply (start_providers _ j).
Qed.

Lemma init_schedule_providers clock l w : providers (init_schedule clock l w) = providers w.
Proof.
  unfold init_schedule.
  assert (Hk : forall l U w, providers (init_known l U w).2 = providers w).
  { clear. induction l as [|m l IH]; intros U w; [done|]. simpl.
    destruct (w_jobs w !! ms_Name m) as [j|] eqn:Hn; [|done]. rewrite IH. by apply init_one_providers. }
  assert (Hu : forall ns w, providers (init_unset clock ns w) = providers w).
  { clear. induction ns as [|n ns IH]; intros w; [done|]. simpl.
    destruct (w_jobs w !! n) as [j|] eqn:Hn; [|done]. rewrite IH.
    by rewrite <- (start_providers n j (set_mj_state stateNone j) w). }
  specialize (Hk l ((fun _ => true) <$> w_jobs w) w). destruct (init_known _ _ w) as [U w1].
  by rewrite Hu, <- Hk.
Qed.

(** Registering only posts. *)
Lemma register_keeps name roots url post w : exists acts,
  registerWorker name roots url post w = MkWorker w.(w_mirrors) w.(w_jobs) w.(w_schedule) (w.(w_log) ++ acts).
Proof.
  unfold registerWorker. revert w. induction roots as [|root roots IH]; intros w; cbn [foldl].
  { exists []. rewrite app_nil_r. by destruct w. }
  assert (Hr : exists acts, register_root name url post root 10 w
    = MkWorker w.(w_mirrors) w.(w_jobs) w.(w_schedule) (w.(w_log) ++ acts)).
  { clear IH. generalize 10%nat. intros k. revert w. induction k as [|k IHk]; intros w.
    - exists []. rewrite app_nil_r. by destruct w.
    - simpl. destruct (post _ _); [by eexists|].
      edestruct IHk as (acts & ->). simpl. rewrite <- app_assoc. by eexists. }
  destruct Hr as (acts & ->). edestruct IH as (acts' & ->). simpl. rewrite <- app_assoc. by eexists.
Qed.
End providers.

(** ** Jobs follow the configuration *)
Section follow.
Context {P L : Type} {WP : WorkerProvider P} {SL : SkipList string L} {MS : MirrorSort} {RO : RangeOrder}.
Context {TT : TimeText}.
Context (make_provider : Config -> mirrorConfig -> comp P).
Context (provider_named : forall cfg m p, make_provider cfg m = Ret p -> wp_Name p = mc_Name m).
Context (provider_of : mirrorConfig -> P).
Implicit Type w : Worker P L.

(** One job per configured mirror, with the provider of its entry. *)
Definition configured w : Prop := mj_provider <$> w.(w_jobs) = provider_of <$> by_name w.(w_mirrors).

(** A list of mirrors a worker of configuration [cfg] can be given. *)
Record acceptable (cfg : Config) (ms : list mirrorConfig) : Prop := {
  acc_names : distinct_names ms;
  acc_plain : forall m, m ∈ ms -> plain (mc_Name m) = true;
  acc_built : forall m, m ∈ ms -> make_provider cfg m = Ret (provider_of m)
}.

Lemma providers_configured w w' : providers w' = providers w -> configured w -> configured w' /\ w'.(w_mirrors) = w.(w_mirrors).
Proof. unfold providers, configured. by intros [= -> ->]. Qed.

Lemma initJobs_configured cfg ms : acceptable cfg ms ->
  returns (initJobs (make_provider cfg) (newWorker ms : Worker P L)) (fun w => configured w /\ w.(w_mirrors) = ms).
Proof.
  intros [Hnd _ Hb]. unfold initJobs. cbn [w_mirrors newWorker].
  assert (Hl : forall l w, (forall m, m ∈ l -> make_provider cfg m = Ret (provider_of m)) ->
    returns (initJobs_loop (make_provider cfg) l w) (fun w' => w'.(w_mirrors) = w.(w_mirrors)
      /\ (distinct_names l -> mj_provider <$> w'.(w_jobs) = (provider_of <$> by_name l) ∪ (mj_provider <$> w.(w_jobs))))).
  { induction l as [|m l IH]; intros w Hw; simpl.
    - apply returns_ret. split; [done|]. intros _. unfold by_name. simpl. by rewrite fmap_empty, (left_id_L ∅ (∪)).
    - rewrite (Hw m) by (by left). cbn [mbind comp_bind].
      eapply returns_mono; [apply IH; intros m' Hm; apply Hw; by right|].
      intros w' [-> Hd]. split; [done|]. intros [Hn Hnd']%NoDup_cons. rewrite Hd by done. simpl.
      rewrite (provider_named cfg m) by (by apply Hw; left). unfold by_name. simpl.
      rewrite !fmap_insert. simpl. rewrite <- insert_union_r, insert_union_l; [done|].
      rewrite lookup_fmap. apply fmap_None, by_name_none. intros m' Hm' He. apply Hn. rewrite <- He.
      by apply (list_elem_of_fmap_2 (fun m => mc_Name m)). }
  eapply returns_mono; [by apply Hl|]. intros w [Hm Hd]. split; [|done]. unfold configured. rewrite Hm, Hd by done.
  simpl. by rewrite fmap_empty, (right_id_L ∅ (∪)).
Qed.

Lemma reload_configured cfg clock1 clock2 new w :
  configured w -> acceptable cfg w.(w_mirrors) -> acceptable cfg new ->
  returns (ReloadMirrorConfig (make_provider cfg) clock1 clock2 new w)
    (fun w' => configured w' /\ w'.(w_mirrors) = new).
Proof.
  intros Hc [Ho1 Ho2 _] [Hn1 Hn2 Hn3].
  destruct (reload_jobs (make_provider cfg) (provider_named cfg) provider_of clock1 clock2 new w)
    as (w' & -> & Hm & Hj); [done|done|by intros m [?|?]; auto|done|].
  apply returns_ret. split; [|done]. unfold configured in *. rewrite Hm. apply map_eq. intros n.
  apply (f_equal (.!! n)) in Hc. rewrite !lookup_fmap in Hc |- *. rewrite Hj.
  destruct (by_name (w_mirrors w) !! n) as [m0|], (by_name new !! n) as [m1|]; simpl; try done.
  case_decide as He; [by rewrite Hc, He|]. rewrite <- option_fmap_compose.
  destruct (w_jobs w !! n) as [j|]; [|done]. simpl. f_equal. unfold modified. by case_decide.
Qed.

(** The mirrors in force after some events: those of the last file that could be loaded. *)
Definition in_force (ms : list mirrorConfig) (es : list event) : list mirrorConfig :=
  foldl (fun ms e => match e with Signal SIGHUP (Ok c) _ _ => default [] c.(Mirrors) | _ => ms end) ms es.

Definition is_interrupt (e : event) : bool :=
  match e with Signal SIGINT _ _ _ | Signal SIGTERM _ _ _ => true | _ => false end.

Definition interrupts (es : list event) : nat := length (List.filter is_interrupt es).

(** Every file a signal finds has mirrors the worker can be given. *)
Definition loads_ok (cfg : Config) (es : list event) : Prop :=
  Forall (fun e => match e with Signal SIGHUP (Ok c) _ _ => acceptable cfg (default [] c.(Mirrors)) | _ => True end) es.

(** What the events keep. *)
Definition kept (cfg : Config) (d : daemon) : Prop :=
  configured d.(d_worker) /\ acceptable cfg d.(d_worker).(w_mirrors)
  /\ (d.(d_exit) = false -> sound d.(d_worker)).

Lemma loop_step_spec n x size w :
  providers (loop_step n x size w) = providers w /\ (sound w -> sound (loop_step n x size w)).
Proof.
  unfold loop_step. destruct (w_jobs w !! n) as [j|] eqn:Hn; [|done].
  destruct (mj_running j && _) eqn:Hr; [|done]. split; [by apply (put_providers n j)|].
  intros Hs. by apply good_put.
Qed.

(** A step that is no reload and no interrupt. *)
Lemma kept_step cfg d w' : kept cfg d -> providers w' = providers d.(d_worker) ->
  (d.(d_exit) = false -> sound d.(d_worker) -> sound w') -> kept cfg (MkDaemon w' d.(d_exit)) /\ w'.(w_mirrors) = d.(d_worker).(w_mirrors).
Proof.
  intros (Hc & Ha & Hs) Hp Hs'. apply providers_configured in Hp as [Hp Hm]; [|done].
  split; [|done]. unfold kept. simpl. rewrite Hm. auto.
Qed.

Lemma on_event_kept cfg e d : kept cfg d -> loads_ok cfg [e] -> (d.(d_exit) && is_interrupt e = false) ->
  returns (on_event make_provider cfg e d) (fun d' => kept cfg d'
    /\ d'.(d_worker).(w_mirrors) = in_force d.(d_worker).(w_mirrors) [e]
    /\ d'.(d_exit) = d.(d_exit) || is_interrupt e).
Proof.
  intros Hk Hl Hi. unfold loads_ok in Hl. rewrite Forall_singleton in Hl.
  assert (Hstep : forall w', providers w' = providers d.(d_worker) ->
    (d.(d_exit) = false -> sound d.(d_worker) -> sound w') ->
    returns (Ret (MkDaemon w' d.(d_exit))) (fun d' => kept cfg d'
      /\ d'.(d_worker).(w_mirrors) = d.(d_worker).(w_mirrors) /\ d'.(d_exit) = d.(d_exit) || false)).
  { intros w' Hp Hs. apply returns_ret. rewrite orb_false_r. by destruct (kept_step cfg d w'). }
  assert (Hhalt : d.(d_exit) = false -> kept cfg (MkDaemon (Halt d.(d_worker)) true)
    /\ (Halt d.(d_worker)).(w_mirrors) = d.(d_worker).(w_mirrors)).
  { intros Hx. destruct (Halt_spec (d_worker d)) as (acts & -> & _). destruct Hk as (Hc & Ha & _). done. }
  destruct e as [doc|now m|now|n x size|s load clock1 clock2|pending]; cbn -[kept in_force].
  - apply Hstep; [apply handle_providers|intros _; apply good_handle].
  - apply Hstep; [apply message_providers|]. intros _ Hs. by apply good_message.
  - apply Hstep; [apply tick_providers|]. intros _ Hs. by apply good_tick.
  - apply Hstep; [|intros _]; by apply loop_step_spec.
  - destruct s; cbn -[kept in_force] in *.
    2,3: rewrite andb_true_r in Hi; rewrite Hi, orb_true_r; apply returns_ret; by destruct (Hhalt Hi).
    destruct load as [c|err]; [|by apply returns_ret; rewrite orb_false_r].
    destruct Hk as (Hc & Ha & Hs).
    destruct (reload_configured cfg clock1 clock2 (default [] (Mirrors c)) (d_worker d)) as (w' & Hw & Hc' & Hm); [done..|].
    rewrite Hw. cbn [mbind comp_bind]. apply returns_ret. rewrite orb_false_r. split_and!; [|done|done].
    unfold kept. simpl. rewrite Hm. split_and!; [done|done|]. intros Hx. eapply good_reload in Hw; [apply Hw|by auto].
  - apply Hstep; destruct (d_exit d); try done. apply exit_providers.
Qed.

Lemma on_events_kept cfg es d : kept cfg d -> loads_ok cfg es ->
  (interrupts es + (if d.(d_exit) then 1 else 0) <= 1)%nat ->
  returns (on_events make_provider cfg es d) (fun d' => kept cfg d'
    /\ d'.(d_worker).(w_mirrors) = in_force d.(d_worker).(w_mirrors) es
    /\ (interrupts es = 0%nat -> d'.(d_exit) = d.(d_exit))).
Proof.
  revert d. induction es as [|e es IH]; intros d Hk Hl Hi; [by apply returns_ret|].
  apply Forall_cons in Hl as [He Hl]. cbn [on_events].
  assert (Hi' : interrupts (e :: es) = ((if is_interrupt e then 1 else 0) + interrupts es)%nat).
  { unfold interrupts. simpl. by destruct (is_interrupt e). }
  rewrite Hi' in Hi. eapply returns_bind.
  - apply (on_event_kept cfg e); [done|by apply Forall_singleton|].
    destruct (d_exit d), (is_interrupt e); simpl in *; try done; lia.
  - intros d' (Hk' & Hm & Hx). eapply returns_mono; [apply IH; [done|done|]|].
    + rewrite Hx. destruct (d_exit d), (is_interrupt e); simpl in *; lia.
    + cbn -[kept interrupts]. rewrite Hi', Hx. intros d'' (? & Hm'' & Hx''). rewrite Hm'', Hm. split_and!; [done|done|].
      intros Hz. rewrite Hx'' by lia. destruct (is_interrupt e); [lia|]. apply orb_false_r.
Qed.

(** The worker [startWorker] sets up. *)
Lemma startWorker_spec load new_client init_cgroup is_dir profPath post client clock cfg w :
  startWorker make_provider load new_client init_cgroup is_dir profPath post client clock ⇓ Runs (cfg, w) ->
  exists cfg0, load = Ok cfg0 /\ cfg = with_retry cfg0
    /\ (acceptable cfg (default [] cfg.(Mirrors)) -> kept cfg (MkDaemon w false)
         /\ w.(w_mirrors) = default [] cfg.(Mirrors)).
Proof.
  unfold startWorker. destruct load as [cfg0|]; [|done]. unfold NewTUNASyncWorker.
  destruct (match (if decide _ then _ else _) with Some _ => _ | None => _ end); [done|].
  destruct (initJobs _ _) as [w1|] eqn:H1; [|done]. simpl. case_decide; [done|].
  unfold Run. destruct (fetchJobStatus client _ _) as [ms|]; [|done]. simpl. intros [= <- <-].
  exists cfg0. split_and!; [done..|]. intros Ha.
  destruct (initJobs_configured _ _ Ha) as (w1' & H1' & Hc & Hm). rewrite H1' in H1. injection H1 as ->.
  apply initJobs_loop_parts in H1' as [Hq _].
  match goal with |- context [registerWorker ?n ?r ?u ?p w1] => destruct (register_keeps n r u p w1) as (acts & ->) end.
  set (w2 := MkWorker _ _ _ _). set (w3 := init_schedule _ _ w2). set (w4 := updateSchedInfo _ _ _ w3).
  assert (Hp : providers w4 = providers w1).
  { unfold w4, updateSchedInfo. rewrite posts_providers. unfold w3. by rewrite init_schedule_providers. }
  assert (Hs : sound w4).
  { apply good_updateSchedInfo. eapply init_schedule_good; simpl; rewrite Hq; [apply new_wf|apply new_view]. }
  apply providers_configured in Hp as [Hp Hm']; [|done]. unfold kept. cbn [d_worker d_exit]. by rewrite Hm', Hm.
Qed.


(** An interrupt tells every job that is not disabled to halt, whatever else it is doing,
    and changes neither jobs nor schedule; another one, handled while the worker is still
    leaving, closes the exit channel a second time and panics. *)
Theorem interrupt_halts_once cfg s load c1 c2 w : s <> SIGHUP ->
  exists acts, on_event make_provider cfg (Signal s load c1 c2) (MkDaemon w false)
      ⇓ MkDaemon (MkWorker w.(w_mirrors) w.(w_jobs) w.(w_schedule) (w.(w_log) ++ acts)) true
    /\ (forall a, a ∈ acts <-> exists n j, w.(w_jobs) !! n = Some j /\ j.(mj_state) <> stateDisabled
         /\ a = SendCtrl n jobHalt j.(mj_running))
    /\ forall w', on_event make_provider cfg (Signal s load c1 c2) (MkDaemon w' true) ↯ "close of closed channel".
Proof.
  intros Hs. destruct (Halt_spec w) as (acts & He & Ha). exists acts. split_and!; [|done|].
  - destruct s; [done|simpl; by rewrite He..].
  - intros w'. by destruct s.
Qed.
End follow.

(** *** Witnesses *)

#[local] Existing Instance assoc_skiplist.
#[local] Existing Instance sorted_range.
#[local] Existing Instance decimal_time_text.

Definition ex_make_provider (cfg : Config) (m : mirrorConfig) : comp (mirrorProvider (R := string)) :=
  newMirrorProvider ex_shlex ex_compile ex_template (fields m) cfg.

Definition ex_with (ms : list mirrorConfig) : Config := set_Mirrors (Some ms) ex_cfg.

(** A manager that knows nothing. *)
Definition ex_silent : transport := fun _ => Err "connection refused".

Definition ex_events : list event :=
  [Signal SIGHUP (Ok (ex_with ex_new)) (fun _ => 1) (fun _ => 2);
   Command (marshal_WorkerCmd (ex_command CmdDisable "debian"));
   Signal SIGHUP (Err "no such file") (fun _ => 3) (fun _ => 4);
   Signal SIGINT (Err EmptyString) (fun _ => 5) (fun _ => 6)].

Definition ex_started : Config * Worker.Worker (mirrorProvider (R := string)) (assoc_list (J := string)) :=
  match startWorker ex_make_provider (Ok (ex_with ex_old)) (fun _ => None) (fun _ => None) (fun _ => true) EmptyString
          (fun _ _ => true) ex_silent (fun _ => 0) with
  | Ret (Runs r) => r
  | _ => (ex_cfg, newWorker [])
  end.

Definition ex_made (m : mirrorConfig) : mirrorProvider (R := string) :=
  match ex_make_provider (with_retry (ex_with ex_old)) m with Ret p => p | Panic _ => ex_provider end.

Lemma ex_acceptable ms : ms = ex_old \/ ms = ex_new ->
  acceptable ex_make_provider ex_made (with_retry (ex_with ex_old)) ms.
Proof.
  intros Hms. split.
  - apply (bool_decide_unpack _). destruct Hms; subst; vm_compute; exact I.
  - apply Forall_forall. destruct Hms; subst; repeat constructor.
  - intros m Hm. unfold ex_made. destruct (ex_make_provider _ m) eqn:E; [reflexivity|].
    destruct Hms; subst; unfold ex_old, ex_new in Hm; rewrite !elem_of_cons, !elem_of_nil in Hm;
      destruct_or! Hm; try done; subst m; vm_compute in E; discriminate E.
Qed.


Lemma interrupt_halts_once_witness :
  exists acts, on_event ex_make_provider ex_cfg (Signal SIGTERM (Err EmptyString) (fun _ => 0) (fun _ => 0))
      (MkDaemon (ex_one stateReady) false)
    = Ret (MkDaemon (MkWorker [] (ex_one stateReady).(w_jobs) newScheduleQueue ([] ++ acts)) true)
    /\ SendCtrl "ubuntu" jobHalt true ∈ acts.
Proof.
  destruct (interrupt_halts_once ex_make_provider ex_cfg SIGTERM (Err EmptyString) (fun _ => 0) (fun _ => 0)
    (ex_one stateReady)) as (acts & He & Ha & _); [discriminate|].
  exists acts. split; [exact He|]. apply Ha. exists "ubuntu". eexists. split_and!; [reflexivity|discriminate|reflexivity].
Defined.
