(* ===== verification/System.v ===== *)
(** * The programs together

    A manager with its store and a worker, exchanging their messages as JSON documents
    over HTTP: what the manager writes is rendered as gin sends it, its routes are matched
    as gin matches them, the commands it posts are decoded by the worker, the reports of
    the worker by the manager, and the listings by the client.  Each request is handled as
    one step. *)

From S2P Require Import Prelude Json Msg Web Http Kv Db Manager.
From S2P Require Import Schedule Config ConfigDiff Job Provider Worker Ctl.

Local Open Scope string_scope.
Local Open Scope list_scope.
Local Open Scope Z_scope.

(** ** What gin sends *)

Section render.
Context {TT : TimeText} {ST : StampText}.

(** A slice built by [append] is nil, and null on the wire, when nothing was added. *)
Definition encode_list {A} (enc : A -> result json) (l : list A) : result json :=
  match l with
  | [] => Ok JNull
  | _ => js ← mapM enc l; Ok (JArr js)
  end.

(** The document of one [c.JSON]; none for a bare status. *)
Definition encode_body (b : body) : option (result json) :=
  match b with
  | BNone => None
  | BEmpty => Some (Ok (JObj []))
  | BError msg => Some (Ok (JObj [("error", JStr msg)]))
  | BInfo msg => Some (Ok (JObj [("message", JStr msg)]))
  | BWorker w => Some (marshal_WorkerStatus w)
  | BWorkers ws => Some (encode_list marshal_WorkerStatus ws)
  | BJob m => Some (marshal_MirrorStatus m)
  | BJobs ms => Some (encode_list marshal_MirrorStatus ms)
  | BWebJobs ms => Some (js ← mapM marshal_WebMirrorStatus ms; Ok (JArr js))
  end.

(** The answer on the wire: the first status, and the documents one after the other, which
    is a document only when there is exactly one that could be encoded. *)
Definition render (r : response) : answer :=
  MkAnswer (default 200 (status_code r))
    (Ok match omap (fun cb => encode_body cb.2) r with
        | [Ok doc] => doc
        | _ => JInvalid
        end).

Lemma render_one c b : render [(c, b)]
  = MkAnswer c (Ok match encode_body b with Some (Ok doc) => doc | _ => JInvalid end).
Proof. unfold render. simpl. by destruct (encode_body b) as [[]|]. Qed.

Lemma render_code r c : status_code r = Some c -> a_StatusCode (render r) = c.
Proof. unfold render. simpl. by intros ->. Qed.
End render.

(** ** Routes

    gin matches the path of a request; a parameter is one segment.  What is relied on: a
    path built from the address of the manager and names of plain characters gets to the
    handler registered for it. *)
Definition plain_char (c : Ascii.ascii) : bool :=
  let n := Ascii.nat_of_ascii c in
  ((48 <=? n) && (n <=? 57))%nat || ((65 <=? n) && (n <=? 90))%nat || ((97 <=? n) && (n <=? 122))%nat
  || existsb (Nat.eqb n) [45; 46; 95; 126]%nat.

Fixpoint all_plain (s : string) : bool :=
  match s with EmptyString => true | String c s' => plain_char c && all_plain s' end.

(** A name made of letters, digits, "-", ".", "_" and "~". *)
Definition plain (s : string) : Prop := s <> EmptyString /\ all_plain s = true.

Class Router := {
  route : string -> http -> option request;
  route_list_all base : route base (GET (base +:+ "/jobs")) = Some ListAllJobs;
  route_flush base : route base (DELETE (base +:+ "/jobs/disabled")) = Some FlushDisabled;
  route_workers base : route base (GET (base +:+ "/workers")) = Some ListWorkers;
  route_register base doc : route base (POST (base +:+ "/workers") doc) = Some (RegisterWorker doc);
  route_delete base id : plain id -> route base (DELETE (base +:+ "/workers/" +:+ id)) = Some (DeleteWorker id);
  route_jobs base id : plain id ->
    route base (GET (base +:+ "/workers/" +:+ id +:+ "/jobs")) = Some (ListJobs id);
  route_job base id job doc : plain id -> plain job ->
    route base (POST (base +:+ "/workers/" +:+ id +:+ "/jobs/" +:+ job) doc) = Some (UpdateJob id job doc);
  route_size base id job doc : plain id -> plain job ->
    route base (POST (base +:+ "/workers/" +:+ id +:+ "/jobs/" +:+ job +:+ "/size") doc) = Some (UpdateSize id job doc);
  route_schedules base id doc : plain id ->
    route base (POST (base +:+ "/workers/" +:+ id +:+ "/schedules") doc) = Some (UpdateSchedules id doc);
  route_cmd base doc : route base (POST (base +:+ "/cmd") doc) = Some (Manager.Cmd doc)
}.

(** ** The system *)

Section system.
Context {S : Type} `{DbLaws S} {TT : TimeText} {ST : StampText} {RT : Router}.
Context {P L : Type} {WP : WorkerProvider P} {SL : SkipList string L} {MS : MirrorSort}.

Record system : Type := MkSystem {
  sy_store : S;
  sy_worker : Worker P L
}.

Lemma system_eta sy : MkSystem sy.(sy_store) sy.(sy_worker) = sy.
Proof. by destruct sy. Qed.

(** The address of the manager, and the name and the address of the worker. *)
Context (base worker_name worker_url : string).

(** [PostJSON] to the worker: an answer of any status is no error. *)
Definition reachable (url : string) (cmd : WorkerCmd) : option error :=
  if decide (url = worker_url) then None else Some "connection refused".

(** The worker handles the commands posted to it. *)
Definition deliver (posts : list (string * WorkerCmd)) (w : Worker P L) : Worker P L :=
  foldl (fun w p => if decide (p.1 = worker_url) then (handle_command (marshal_WorkerCmd p.2) w).1 else w) w posts.

(** A request to the manager; [clock] gives the readings of its clock. *)
Definition exchange (clock : nat -> Z) (req : http) (sy : system) : comp (system * answer) :=
  match route base req with
  | None => Ret (sy, MkAnswer 404 (Ok JInvalid))
  | Some (Manager.Cmd doc) =>
      '(s, out, posts) ← handleClientCmd reachable doc sy.(sy_store);
      Ret (MkSystem s (deliver posts sy.(sy_worker)), render out)
  | Some r =>
      '(s, out) ← serve reachable clock r sy.(sy_store);
      Ret (MkSystem s sy.(sy_worker), render out)
  end.

(** What a client sees of it; gin answers a panic with 500. *)
Definition client_of (clock : nat -> Z) (sy : system) : transport := fun req =>
  match exchange clock req sy with
  | Ret (_, a) => Ok a
  | Panic _ => Ok (MkAnswer 500 (Ok JInvalid))
  end.

(** A command of the client that sends one request: what it prints, and the system after. *)
Definition run_client {A} (clock : nat -> Z) (command : transport -> outcome A) (sy : system)
    : comp (system * result A) :=
  let '(reqs, out) := command (client_of clock sy) in
  match reqs with
  | [req] => '(sy', _) ← exchange clock req sy; Ret (sy', out)
  | _ => Ret (sy, out)
  end.

(** ** Commands *)

Section commands.
Context (clock : nat -> Z) (show : json -> string) (sy : system).
Context (Hinv : db_inv sy.(sy_store)) (Hre : reads_exact S).
(** The worker is registered under its address, and its record can be read. *)
Context (wst : WorkerStatus) (Hname : worker_name <> EmptyString).
Context (Hreg : db_workers sy.(sy_store) !! worker_name = Some wst) (Hurl : wst.(ws_URL) = worker_url).
Context (Hread : forall e, db_GetWorker worker_name sy.(sy_store) <> Ret (WorkerStatus_zero, Some e)).

(** What the client sends for [verb] on [mid]. *)
Definition sent (verb : CmdVerb) (force : bool) (mid : string) : WorkerCmd :=
  MkWorkerCmd verb mid None (Some (if force then {["force" := true]} else ∅)).

(** A command sent by the client reaches the worker, is answered as a success whatever the
    worker makes of it, and changes the store as [handleClientCmd] does. *)
Lemma command_passes verb force mid : CmdVerb_String verb <> EmptyString ->
  returns (run_client clock (fun c => cmdJob c base show verb worker_name force [mid]) sy) (fun '(sy', out) =>
    out = Ok "Successfully send the command"
    /\ sy'.(sy_worker) = (handle_command (marshal_WorkerCmd (sent verb force mid)) sy.(sy_worker)).1
    /\ recorded verb worker_name mid sy.(sy_store) sy'.(sy_store)).
Proof.
  intros Hv. set (c := MkClientCmd verb mid worker_name None (Some (if force then {["force" := true]} else ∅))).
  destruct (handleClientCmd_exact reachable Hre sy.(sy_store) (marshal_ClientCmd c) c wst Hinv)
    as ([[s' out] posts] & Hh & Hp & Hst & Hcode); [by apply unmarshal_marshal_ClientCmd|done..|].
  assert (He : exchange clock (POST (base +:+ cmdPath) (marshal_ClientCmd c)) sy
               = Ret (MkSystem s' (deliver posts sy.(sy_worker)), render out)).
  { unfold exchange. change cmdPath with "/cmd". rewrite route_cmd, Hh. done. }
  assert (Hok : status_code out = Some StatusOK).
  { apply Hcode. unfold reachable. by rewrite decide_True. }
  exists (MkSystem s' (deliver posts sy.(sy_worker)), Ok "Successfully send the command"). split.
  - unfold run_client, cmdJob. fold c. unfold post_cmd, PostJSON, client_of. cbv beta iota zeta. rewrite He.
    cbn [mbind comp_bind]. cbn [plain_answer a_StatusCode render]. rewrite Hok. done.
  - split; [done|]. split; [|done]. cbn [sy_worker]. rewrite Hp. simpl.
    by rewrite decide_True by done.
Qed.

(** C6: a command reaches the job. When the client sends start, stop, disable, restart or ping
    for a mirror of a registered worker, the worker's job does exactly what the command
    means (forced when the client forces it), its schedule forgets the job, the manager
    asks the store for exactly the status of a stop or a disable and has recorded it when
    the store reports no error, and the client reports success. *)
Theorem command_reaches_job verb force mid job :
  CmdVerb_String verb <> EmptyString -> mid <> EmptyString ->
  sound sy.(sy_worker) -> sy.(sy_worker).(w_jobs) !! mid = Some job ->
  returns (run_client clock (fun c => cmdJob c base show verb worker_name force [mid]) sy) (fun '(sy', out) =>
    let '(acts, job', _) := command_spec (sent verb force mid) job in
    out = Ok "Successfully send the command"
    /\ sy'.(sy_worker).(w_log) = sy.(sy_worker).(w_log) ++ acts
    /\ sy'.(sy_worker).(w_jobs) = <[mid := job']> sy.(sy_worker).(w_jobs)
    /\ view Datatypes.id sy'.(sy_worker).(w_schedule) = delete mid (view Datatypes.id sy.(sy_worker).(w_schedule))
    /\ recorded verb worker_name mid sy.(sy_store) sy'.(sy_store)).
Proof.
  intros Hv Hmid Hs Hjob. eapply returns_mono; [by apply command_passes|].
  intros [sy' out] (-> & Hw & Hst).
  pose proof (job_command_exact (sent verb force mid) _ job Hs Hjob) as Hj.
  destruct (command_spec _ _) as [[acts job'] code]. rewrite Hw. unfold handle_command.
  rewrite unmarshal_marshal_WorkerCmd by done. cbn [wc_MirrorID sent] in *. rewrite decide_False by done.
  destruct (job_command _ _) as [w' [code' msg]]. destruct Hj as (_ & Hl & Hj & Hq). done.
Qed.

(** A refused command is reported as done. A command for a mirror the worker does not
    have is answered 404 by the worker, and the manager ignores it: the client reports
    success, the worker does not change, and a stop or a disable leaves in the store a
    status for a mirror that does not exist. *)
Theorem refused_command_reported_done verb force mid :
  CmdVerb_String verb <> EmptyString -> mid <> EmptyString ->
  sy.(sy_worker).(w_jobs) !! mid = None -> db_statuses sy.(sy_store) !! status_id worker_name mid = None ->
  (handle_command (marshal_WorkerCmd (sent verb force mid)) sy.(sy_worker)).2.1 = StatusNotFound
  /\ returns (run_client clock (fun c => cmdJob c base show verb worker_name force [mid]) sy) (fun '(sy', out) =>
    out = Ok "Successfully send the command" /\ sy'.(sy_worker) = sy.(sy_worker)
    /\ recorded verb worker_name mid sy.(sy_store) sy'.(sy_store)
    /\ (verb = CmdDisable -> db_statuses sy'.(sy_store) !! status_id worker_name mid
          = Some (set_ms_Status Status.Disabled MirrorStatus_zero)
          \/ db_statuses sy'.(sy_store) = db_statuses sy.(sy_store))).
Proof.
  intros Hv Hmid Hjob Hnone.
  assert (Hh : handle_command (marshal_WorkerCmd (sent verb force mid)) sy.(sy_worker)
    = (sy.(sy_worker), (StatusNotFound, "Mirror ``" +:+ mid +:+ "'' not found"))).
  { unfold handle_command. rewrite unmarshal_marshal_WorkerCmd by done. cbn [wc_MirrorID sent].
    rewrite decide_False by done. unfold job_command. cbn [wc_MirrorID sent]. by rewrite Hjob. }
  rewrite Hh. split; [done|]. eapply returns_mono; [by apply command_passes|].
  intros [sy' out] (-> & Hw & Hst). rewrite Hh in Hw. split_and!; [done|done|done|].
  intros Hd. destruct (proj1 Hst Hd) as (e & _ & Hs). destruct e; [by right|left].
  by rewrite Hs, lookup_insert_eq, Hnone.
Qed.
End commands.

(** ** Reports *)

(** The request an action of the worker makes; nothing when its message cannot be encoded. *)
Definition report_of (a : action) : option http :=
  match a with
  | PostRegister url w =>
      match marshal_WorkerStatus w with Ok doc => Some (POST url doc) | Err _ => None end
  | PostStatus url m =>
      match marshal_MirrorStatus m with Ok doc => Some (POST url doc) | Err _ => None end
  | PostSchedules url s =>
      match marshal_MirrorSchedules (MkMirrorSchedules s) with Ok doc => Some (POST url doc) | Err _ => None end
  | _ => None
  end.

Section reports.
Context (clock : nat -> Z) (sy : system).
Context (Hinv : db_inv sy.(sy_store)) (Hre : reads_exact S) (Hname : plain worker_name).
(** The worker is registered and its record can be read. *)
Context (Hreg : exists w, db_GetWorker worker_name sy.(sy_store) = Ret (w, None)).

Lemma registered_passes h : validated worker_name h sy.(sy_store) = h sy.(sy_store).
Proof. destruct Hreg as [w Hw]. unfold validated, workerIDValidator. by rewrite Hw. Qed.

Lemma exchange_served r req : route base req = Some r -> (forall doc, r <> Manager.Cmd doc) ->
  exchange clock req sy
  = ('(s, out) ← serve reachable clock r sy.(sy_store); Ret (MkSystem s sy.(sy_worker), render out)).
Proof. intros Hr Hc. unfold exchange. rewrite Hr. destruct r; try done. by destruct (Hc doc). Qed.

Lemma marshal_schedules_ok s :
  (forall sc, sc ∈ default [] s -> sc.(sc_MirrorName) <> EmptyString /\ time_in_range sc.(sc_NextSchedule) = true) ->
  exists doc, marshal_MirrorSchedules (MkMirrorSchedules s) = Ok doc.
Proof.
  destruct s as [l|]; simpl; [|by eexists]. intros Hl. unfold marshal_MirrorSchedules. simpl.
  assert (exists js, mapM marshal_MirrorSchedule l = Ok js) as [js ->]; [|by eexists].
  induction l as [|sc l IH]; [by eexists|]. destruct IH as [js Hjs]; [intros; apply Hl; by right|].
  destruct (Hl sc) as [_ Ht]; [by left|]. simpl. rewrite Hjs. unfold marshal_MirrorSchedule, encode_time.
  rewrite Ht. by eexists.
Qed.

Lemma status_message_ok job m : 0 <= m.(jm_status) <= 6 ->
  exists doc, marshal_MirrorStatus (status_message worker_name job m) = Ok doc.
Proof.
  intros Hst. assert (Hok : is_ok (marshal_MirrorStatus (status_message worker_name job m)) = true).
  { apply marshal_MirrorStatus_ok. split; [done|]. repeat constructor. }
  destruct (marshal_MirrorStatus _) as [doc|]; [by exists doc|done].
Qed.

(** C7: a report reaches the store. When a job that is ready or halting sends a message with
    one of the seven statuses, what the worker posts to the manager is answered 200 and the
    status of that mirror and worker becomes the report completed from the stored one, no
    other status changing; when the store refuses the write the answer is 500 and nothing
    changes. *)
Theorem report_reaches_store now m job w :
  wf Datatypes.id w.(w_schedule) -> w.(w_jobs) !! m.(jm_name) = Some job ->
  (job.(mj_state) = stateReady \/ job.(mj_state) = stateHalting) ->
  plain m.(jm_name) -> 0 <= m.(jm_status) <= 6 ->
  let id := status_id worker_name m.(jm_name) in
  let cur := default MirrorStatus_zero (db_statuses sy.(sy_store) !! id) in
  exists post rest req smsg new,
    (on_job_message worker_name [base] now m w).(w_log) = w.(w_log) ++ post :: rest
    /\ report_of post = Some req
    /\ (smsg.(ms_Name), smsg.(ms_Worker), smsg.(ms_Status), smsg.(ms_ErrorMsg))
       = (m.(jm_name), worker_name, m.(jm_status), m.(jm_msg))
    /\ (smsg.(ms_IsMaster), smsg.(ms_Upstream), smsg.(ms_Size))
       = (wp_IsMaster job.(mj_provider), wp_Upstream job.(mj_provider),
          if decide (job.(mj_size) = EmptyString) then "unknown" else job.(mj_size))
    /\ completed (clock 1%nat) cur smsg new
    /\ returns (exchange clock req sy) (fun '(sy', ans) =>
         sy'.(sy_worker) = sy.(sy_worker)
         /\ ((ans.(a_StatusCode) = 200 /\ db_statuses sy'.(sy_store) = <[id := new]> (db_statuses sy.(sy_store)))
             \/ (ans.(a_StatusCode) = 500 /\ db_statuses sy'.(sy_store) = db_statuses sy.(sy_store)))).
Proof.
  intros Hq Hjob Hst Hplain Hs id cur. set (smsg := status_message worker_name job m).
  destruct (report_message_exact worker_name [base] now m job w Hq) as (_ & _ & _ & _ & Hlog).
  destruct (status_message_ok job m Hs) as [doc Hdoc].
  eexists _, _, (POST (base +:+ "/workers/" +:+ worker_name +:+ "/jobs/" +:+ m.(jm_name)) doc), smsg, _.
  split_and!; [| |done|done|apply merge_completed|].
  - unfold on_job_message. rewrite Hjob, decide_False by tauto. rewrite Hlog. done.
  - unfold status_message in Hdoc. cbn [report_of]. by rewrite Hdoc.
  - rewrite (exchange_served (UpdateJob worker_name m.(jm_name) doc)) by (by apply route_job || done).
    simpl. rewrite registered_passes.
    destruct (updateJob_exact Hre sy.(sy_store) worker_name doc smsg (clock 0%nat) (clock 1%nat) Hinv
      (unmarshal_marshal_MirrorStatus _ _ _ Hdoc) (proj1 Hplain)) as ([s' out] & -> & Hout).
    apply returns_ret. split; [done|]. simpl.
    destruct Hout as [[-> Hst']|[Hc Hst']]; [left|right]; (split; [|exact Hst']); [done|by rewrite Hc].
Qed.

(** Two mirrors of one worker have their own records. *)
Lemma status_id_inj wid mid mid' : status_id wid mid = status_id wid mid' -> mid = mid'.
Proof.
  unfold status_id. revert mid'. induction mid as [|c mid IH]; intros [|c' mid'] He; [done| | |].
  3: { rewrite !str_app_cons in He. injection He as -> He. f_equal. by apply IH. }
  all: exfalso; apply (f_equal String.length) in He; rewrite !str_length_app in He;
    cbn [String.length] in He; lia.
Qed.

(** Each mirror takes the instant listed for it. *)
Lemma rescheduled_lookup wid l stats mid : NoDup (sc_MirrorName <$> l) ->
  rescheduled wid l stats !! status_id wid mid
  = match list_find (fun sc => sc.(sc_MirrorName) = mid) l with
    | Some (_, sc) => set_ms_Scheduled sc.(sc_NextSchedule) <$> stats !! status_id wid mid
    | None => stats !! status_id wid mid
    end.
Proof.
  revert stats. induction l as [|sc l IH]; intros stats Hnd; [done|].
  rewrite fmap_cons in Hnd. apply NoDup_cons in Hnd as [Hn Hnd].
  unfold rescheduled in *. cbn [foldl list_find]. rewrite IH by done. case_decide as Hm.
  - subst mid. rewrite lookup_alter_eq.
    destruct (list_find _ l) as [[i sc']|] eqn:E; [|done].
    apply list_find_Some in E as (Hi & He & _). destruct Hn. apply list_elem_of_fmap.
    exists sc'. split; [done|]. by eapply list_elem_of_lookup_2.
  - rewrite lookup_alter_ne by (by intros ?%status_id_inj).
    destruct (list_find _ l) as [[i sc']|] eqn:E; done.
Qed.

(** The schedule reaches the store. After a worker posts its schedule, each mirror in it
    that has a status at the manager carries exactly the instant at which the worker will
    start it, and every other status is as before; when the store refuses a write the
    answer is 500. *)
Theorem schedule_reaches_store (q : scheduleQueue (L := L)) :
  wf Datatypes.id q ->
  (forall n t, view Datatypes.id q !! n = Some t -> n <> EmptyString /\ time_in_range t = true) ->
  let post := PostSchedules (base +:+ "/workers/" +:+ worker_name +:+ "/schedules")
                (schedule_message (GetJobs Datatypes.id q)) in
  exists req, report_of post = Some req
  /\ returns (exchange clock req sy) (fun '(sy', ans) =>
       sy'.(sy_worker) = sy.(sy_worker)
       /\ (ans.(a_StatusCode) = 500 \/
           (ans.(a_StatusCode) = 200 /\ forall mid,
              db_statuses sy'.(sy_store) !! status_id worker_name mid
              = match view Datatypes.id q !! mid with
                | Some t => set_ms_Scheduled t <$> db_statuses sy.(sy_store) !! status_id worker_name mid
                | None => db_statuses sy.(sy_store) !! status_id worker_name mid
                end))).
Proof.
  intros Hq Hin post.
  set (l := (fun i => MkMirrorSchedule i.(jobName) i.(nextScheduled)) <$> GetJobs Datatypes.id q).
  assert (Hmsg : default [] (schedule_message (GetJobs Datatypes.id q)) = l).
  { unfold schedule_message. fold l. by destruct l. }
  assert (Hview : forall sc, sc ∈ l <-> view Datatypes.id q !! sc.(sc_MirrorName) = Some sc.(sc_NextSchedule)).
  { intros [n t]. unfold l. rewrite list_elem_of_fmap. simpl. rewrite <- (GetJobs_view Datatypes.id) by done. split.
    - by intros ([n' t'] & [= -> ->] & ?).
    - intros ?. by exists (MkInfo n t). }
  assert (Hnd : NoDup (sc_MirrorName <$> l)).
  { unfold l. rewrite <- list_fmap_compose. exact (GetJobs_names Datatypes.id q Hq). }
  destruct (marshal_schedules_ok (schedule_message (GetJobs Datatypes.id q))) as [doc Hdoc].
  { rewrite Hmsg. intros sc Hsc. apply Hview in Hsc. by eapply Hin. }
  exists (POST (base +:+ "/workers/" +:+ worker_name +:+ "/schedules") doc). split.
  { cbn [report_of post]. by rewrite Hdoc. }
  rewrite (exchange_served (UpdateSchedules worker_name doc)) by (by apply route_schedules || done).
  simpl. rewrite registered_passes. unfold updateSchedulesOfWorker.
  rewrite (BindJSON_ok _ _ _ _ (unmarshal_marshal_MirrorSchedules _ _ Hdoc)). cbn [Schedules]. rewrite Hmsg.
  destruct (updateSchedules_loop_exact Hre clock worker_name l sy.(sy_store) [] Hinv) as ([s' out] & -> & _ & Hr).
  apply returns_ret. split; [done|]. cbn [fst snd] in Hr.
  assert (Hnl : forall l', (forall sc, sc ∈ l' -> sc ∈ l) -> nameless l' = []).
  { intros l' Hl'. unfold nameless. induction l' as [|sc l' IH]; [done|]. rewrite fmap_cons. cbn [concat].
    rewrite IH by (intros; apply Hl'; by right). rewrite decide_False; [done|].
    eapply Hin, Hview, Hl'. by left. }
  destruct Hr as [[Hst ->]|(l1 & sc & l2 & e & Hl & _ & ->)].
  - right. cbn [sy_store]. rewrite (Hnl l) by done. split; [done|]. intros mid.
    rewrite Hst, rescheduled_lookup by done.
    destruct (list_find _ l) as [[i sc]|] eqn:Ef.
    + apply list_find_Some in Ef as (Hi & <- & _). apply list_elem_of_lookup_2, Hview in Hi. by rewrite Hi.
    + destruct (view Datatypes.id q !! mid) as [t|] eqn:Hm; [|done]. exfalso.
      apply list_find_None in Ef. rewrite Forall_forall in Ef.
      apply (Ef (MkMirrorSchedule mid t)); [|done]. by apply Hview.
  - left. rewrite (Hnl (l1 ++ [sc])); [done|]. intros sc' Hsc. rewrite Hl. set_solver.
Qed.

(** ** Listings *)

Lemma encode_list_ok {A} (enc : A -> result json) l : (forall a, a ∈ l -> is_ok (enc a) = true) ->
  exists js, mapM enc l = Ok js.
Proof.
  induction l as [|a l IH]; intros Hl; [by eexists|]. destruct IH as [js Hjs]; [intros; apply Hl; by right|].
  specialize (Hl a ltac:(by left)). simpl. destruct (enc a) as [j|]; [|done]. simpl. rewrite Hjs. by eexists.
Qed.

(** What [GetJSON] gets from the list of jobs of the worker. *)
Lemma jobs_listed ms : db_ListMirrorStatus worker_name sy.(sy_store) = Ret (ms, None) ->
  (forall m, m ∈ ms -> is_ok (marshal_MirrorStatus m) = true) ->
  GetJSON (client_of clock sy) (decode_slice unmarshal_MirrorStatus MirrorStatus_zero)
    (base +:+ "/workers/" +:+ worker_name +:+ "/jobs") None
  = (match ms with [] => None | _ => Some ms end, None).
Proof.
  intros Hms Hok. destruct (encode_list_ok marshal_MirrorStatus ms Hok) as [js Hjs].
  assert (He : exchange clock (GET (base +:+ "/workers/" +:+ worker_name +:+ "/jobs")) sy
    = Ret (sy, MkAnswer 200 (Ok match ms with [] => JNull | _ => JArr js end))).
  { rewrite (exchange_served (ListJobs worker_name)) by (by apply route_jobs || done).
    simpl. rewrite registered_passes. unfold listJobsOfWorker. rewrite Hms. cbn [mbind comp_bind].
    rewrite system_eta, render_one. do 3 f_equal. unfold encode_body, encode_list. destruct ms; [done|]. by rewrite Hjs. }
  rewrite (GetJSON_ok _ _ _ _ (match ms with [] => JNull | _ => JArr js end)).
  - destruct ms as [|m ms']; [done|]. cbn [decode_slice].
    by rewrite (decode_elems_encoded _ marshal_MirrorStatus _ (m :: ms')) by
      (done || intros; by apply unmarshal_marshal_MirrorStatus).
  - unfold client_of. by rewrite He.
Qed.

(** C28: what a restarted worker learns. When the names in the store contain no slash and the
    manager can list the worker's jobs, [fetchJobStatus] gives exactly the statuses stored
    for the worker, each mirror's once and as it is stored, in some order. *)
Theorem restart_learns_store :
  slash_free (db_statuses sy.(sy_store)) ->
  (forall m e, db_ListMirrorStatus worker_name sy.(sy_store) <> Ret (m, Some e)) ->
  (forall k m, db_statuses sy.(sy_store) !! k = Some m -> is_ok (marshal_MirrorStatus m) = true) ->
  returns (fetchJobStatus (client_of clock sy) worker_name [base]) (fun l =>
    exists named : list (string * MirrorStatus), default [] l = named.*2 /\ NoDup named.*1
      /\ forall mid m, (mid, m) ∈ named <->
           contains_char slash mid = false /\ db_statuses sy.(sy_store) !! status_id worker_name mid = Some m).
Proof.
  intros Hfree Hne Hok. destruct (db_list_spec sy.(sy_store) worker_name Hinv) as (ms & e & Hms & Hp).
  destruct e as [e|]; [by destruct (Hne ms e)|]. specialize (Hp eq_refl).
  apply returns_ret. rewrite (jobs_listed ms Hms).
  - cbn [fst]. assert (default [] (match ms with [] => None | _ => Some ms end) = ms) as -> by by destruct ms.
    by apply listed_by_mirror.
  - intros m. rewrite Hp. intros ([k m'] & -> & Hin)%list_elem_of_fmap.
    apply list_elem_of_filter in Hin as [_ Hin]. apply elem_of_map_to_list in Hin. by eapply Hok.
Qed.

(** A worker without jobs cannot be listed. The manager answers null for it, and the
    client takes null for a failure. *)
Theorem jobless_worker_not_listed :
  db_ListMirrorStatus worker_name sy.(sy_store) = Ret ([], None) ->
  Ctl.listJobs (client_of clock sy) base [worker_name]
  = ([GET (base +:+ "/workers/" +:+ worker_name +:+ "/jobs")],
     Err "Failed to correctly get information of jobs from at least one manager").
Proof.
  intros Hms. unfold Ctl.listJobs. rewrite decide_False by done. f_equal. simpl.
  unfold jobs_of, jobs_url. rewrite (jobs_listed [] Hms); [done|]. by intros m ?%elem_of_nil.
Qed.

(** ** Sizes *)

(** Setting a size. For a mirror the manager has a status of, the client reports success
    exactly when the store has taken the size, under that mirror and with nothing else
    changed, whatever the size is. *)
Theorem set_size_verified show mid size m :
  plain mid -> db_statuses sy.(sy_store) !! status_id worker_name mid = Some m ->
  is_ok (marshal_MirrorStatus m) = true ->
  returns (run_client clock (fun c => Ctl.updateMirrorSize c base show worker_name [mid; size]) sy) (fun '(sy', out) =>
    sy'.(sy_worker) = sy.(sy_worker) /\
    match out with
    | Ok _ => db_statuses sy'.(sy_store)
              = <[status_id worker_name mid := set_ms_Size size m]> (db_statuses sy.(sy_store))
    | Err _ => db_statuses sy'.(sy_store) = db_statuses sy.(sy_store)
    end).
Proof.
  intros Hmid Hm Hok. set (req := POST (size_url base worker_name mid) (marshal_SizeMsg (MkSizeMsg mid size))).
  destruct (updateMirrorSize_exact Hre sy.(sy_store) worker_name (marshal_SizeMsg (MkSizeMsg mid size))
    (MkSizeMsg mid size) (clock 0%nat) m Hinv (unmarshal_marshal_SizeMsg _) Hm) as ([s' out] & Hu & Hout).
  assert (He : exchange clock req sy = Ret (MkSystem s' sy.(sy_worker), render out)).
  { rewrite (exchange_served (UpdateSize worker_name mid (marshal_SizeMsg (MkSizeMsg mid size)))) by
      (by apply route_size || done).
    simpl. rewrite registered_passes, Hu. done. }
  unfold run_client, Ctl.updateMirrorSize. fold req. unfold PostJSON, client_of. fold req. rewrite He.
  cbn [mbind comp_bind]. eexists. split; [done|]. split; [done|]. cbn [sz_Name sz_Size] in Hout.
  destruct Hout as [[-> Hst]|[Hc Hst]].
  - rewrite render_one. cbn [a_StatusCode a_Body encode_body]. rewrite decide_False by (intros Hx; by apply Hx).
    assert (Hok' : is_ok (marshal_MirrorStatus (set_ms_Size size m)) = true).
    { apply marshal_MirrorStatus_ok. apply marshal_MirrorStatus_ok in Hok. by destruct m. }
    destruct (marshal_MirrorStatus (set_ms_Size size m)) as [doc|] eqn:Hdoc; [|done].
    rewrite (unmarshal_marshal_MirrorStatus _ _ _ Hdoc). by rewrite decide_False by (destruct m; simpl; tauto).
  - rewrite (render_code _ _ Hc). rewrite decide_True by done. done.
Qed.
End reports.

(** ** Registration *)

(** A worker becomes reachable. Once one of the posts of [registerWorker] is answered 200,
    the manager holds the worker's address under its name, with the two instants of the
    registration and no token, and every other worker and all statuses as before. *)
Theorem registration_reaches_store clock sy :
  db_inv sy.(sy_store) ->
  let w := MkWorkerStatus worker_name worker_url EmptyString time_zero time_zero in
  exists req, report_of (PostRegister (base +:+ "/workers") w) = Some req
  /\ returns (exchange clock req sy) (fun '(sy', ans) =>
       sy'.(sy_worker) = sy.(sy_worker)
       /\ db_statuses sy'.(sy_store) = db_statuses sy.(sy_store)
       /\ if decide (ans.(a_StatusCode) = 200)
          then db_workers sy'.(sy_store)
               = <[worker_name := MkWorkerStatus worker_name worker_url EmptyString (clock 0%nat) (clock 1%nat)]>
                   (db_workers sy.(sy_store))
          else db_workers sy'.(sy_store) = db_workers sy.(sy_store)).
Proof.
  intros Hi w. destruct (marshal_WorkerStatus w) as [doc|] eqn:Hdoc; [|done].
  exists (POST (base +:+ "/workers") doc). split; [cbn [report_of]; by rewrite Hdoc|].
  unfold exchange. rewrite route_register. cbn [serve]. unfold Manager.registerWorker.
  rewrite (BindJSON_ok _ _ _ _ (unmarshal_marshal_WorkerStatus _ _ WorkerStatus_zero Hdoc)).
  match goal with |- context [db_CreateWorker ?x _] =>
    destruct (db_create_worker_spec sy.(sy_store) x Hi) as (s' & e & -> & _ & Hst & Hw) end.
  apply returns_bind with (R := fun r => r.1 = s' /\ status_code r.2 = Some (match e with None => 200 | Some _ => 500 end)).
  - destruct e; apply returns_ret; done.
  - intros [s out] [Hs Hc]. simpl in Hs, Hc. subst s. apply returns_ret. split; [done|]. split; [done|].
    rewrite (render_code _ _ Hc). by destruct e.
Qed.
End system.

(** ** Concrete routes *)

(** The segments of the path of a URL under [base]. *)
Definition segments (base url : string) : list string :=
  if has_prefix url base then split_char slash (str_drop (String.length base) url) else [].

Definition plain_route (base : string) (req : http) : option request :=
  match req with
  | GET url =>
      match segments base url with
      | [_; a] => if decide (a = "ping") then Some Ping
                  else if decide (a = "jobs") then Some ListAllJobs
                  else if decide (a = "workers") then Some ListWorkers else None
      | [_; a; id; b] => if decide (a = "workers" /\ b = "jobs") then Some (ListJobs id) else None
      | _ => None
      end
  | DELETE url =>
      match segments base url with
      | [_; a; b] => if decide (a = "jobs" /\ b = "disabled") then Some FlushDisabled
                     else if decide (a = "workers") then Some (DeleteWorker b) else None
      | _ => None
      end
  | POST url doc =>
      match segments base url with
      | [_; a] => if decide (a = "workers") then Some (RegisterWorker doc)
                  else if decide (a = "cmd") then Some (Manager.Cmd doc) else None
      | [_; a; id; b] => if decide (a = "workers" /\ b = "schedules") then Some (UpdateSchedules id doc) else None
      | [_; a; id; b; job] => if decide (a = "workers" /\ b = "jobs") then Some (UpdateJob id job doc) else None
      | [_; a; id; b; job; c] =>
          if decide (a = "workers" /\ b = "jobs" /\ c = "size") then Some (UpdateSize id job doc) else None
      | _ => None
      end
  end.

Lemma segments_app base path : segments base (base +:+ path) = split_char slash path.
Proof. unfold segments, has_prefix. by rewrite prefix_app, str_drop_app. Qed.

Lemma plain_no_slash s : plain s -> contains_char slash s = false.
Proof.
  intros [_ Hs]. induction s as [|c s IH]; [done|]. simpl in *. apply andb_true_iff in Hs as [Hc Hs].
  rewrite IH by done. rewrite orb_false_r. apply bool_decide_eq_false. by intros ->.
Qed.

(** One segment of a path. *)
Lemma split_segment s path : contains_char slash s = false ->
  split_char slash (s +:+ "/" +:+ path) = s :: split_char slash path.
Proof. apply split_char_app. Qed.

(** The segments of the path of a worker. *)
Lemma worker_path id rest : plain id ->
  split_char slash ("/workers/" +:+ id +:+ "/" +:+ rest) = EmptyString :: "workers" :: id :: split_char slash rest.
Proof.
  intros Hid. change ("/workers/" +:+ id +:+ "/" +:+ rest)
    with (EmptyString +:+ "/" +:+ ("workers" +:+ "/" +:+ (id +:+ "/" +:+ rest))).
  rewrite !split_segment by (done || by apply plain_no_slash). done.
Qed.

#[export] Program Instance plain_router : Router := {| route := plain_route |}.
Next Obligation. intros. unfold plain_route. by rewrite segments_app. Qed.
Next Obligation. intros. unfold plain_route. by rewrite segments_app. Qed.
Next Obligation. intros. unfold plain_route. by rewrite segments_app. Qed.
Next Obligation. intros. unfold plain_route. by rewrite segments_app. Qed.
Next Obligation.
  intros base id Hid. unfold plain_route. rewrite segments_app.
  change ("/workers/" +:+ id) with (EmptyString +:+ "/" +:+ ("workers" +:+ "/" +:+ id)).
  rewrite !split_segment by done. by rewrite split_char_no_sep by by apply plain_no_slash.
Qed.
Next Obligation.
  intros base id Hid. unfold plain_route. rewrite segments_app. change "/jobs" with ("/" +:+ "jobs").
  by rewrite worker_path by done.
Qed.
Next Obligation.
  intros base id job doc Hid Hjob. unfold plain_route. rewrite segments_app.
  change ("/jobs/" +:+ job) with ("/" +:+ ("jobs" +:+ "/" +:+ job)).
  rewrite worker_path, split_segment by done.
  by rewrite split_char_no_sep by by apply plain_no_slash.
Qed.
Next Obligation.
  intros base id job doc Hid Hjob. unfold plain_route.
  rewrite segments_app. change ("/jobs/" +:+ job +:+ "/size") with ("/" +:+ ("jobs" +:+ "/" +:+ (job +:+ "/" +:+ "size"))).
  rewrite worker_path by done. rewrite !split_segment by (done || by apply plain_no_slash). done.
Qed.
Next Obligation.
  intros base id doc Hid. unfold plain_route. rewrite segments_app.
  change "/schedules" with ("/" +:+ "schedules"). by rewrite worker_path by done.
Qed.
Next Obligation. intros. unfold plain_route. by rewrite segments_app. Qed.

(** *** Witnesses: a manager that knows worker w1 and its mirror debian, and a worker w1 with
    the job ubuntu *)

Import Mem.

#[local] Existing Instance assoc_skiplist.
#[local] Existing Instance decimal_stamp_text.

Definition ex_system (st : Z) : system := MkSystem Manager.ex_store (Worker.ex_one st).

Abbreviation ex_base := "http://m:14242" (only parsing).
Abbreviation ex_url := "http://w1:6000/" (only parsing).

Definition ex_show (_ : json) : string := EmptyString.

Lemma ex_readable e : db_GetWorker "w1" Manager.ex_store <> Ret (WorkerStatus_zero, Some e).
Proof. vm_compute. discriminate. Qed.

Lemma ex_registered : exists w, db_GetWorker "w1" Manager.ex_store = Ret (w, None).
Proof. eexists. vm_compute. reflexivity. Qed.

Lemma ex_plain s : negb (bool_decide (s = EmptyString)) && all_plain s = true -> plain s.
Proof. intros [Hn Ha]%andb_true_iff. split; [|exact Ha]. by apply negb_true_iff, bool_decide_eq_false in Hn. Qed.

Lemma command_reaches_job_witness :
  exists sy' out,
    run_client ex_base ex_url (fun _ => 6) (fun c => cmdJob c ex_base ex_show CmdStart "w1" true ["ubuntu"]) (ex_system stateReady)
      = Ret (sy', out)
    /\ out = Ok "Successfully send the command"
    /\ w_log (sy_worker sy') = [SendCtrl "ubuntu" jobForceStart true].
Proof.
  destruct (command_reaches_job ex_base "w1" ex_url (fun _ => 6) ex_show (ex_system stateReady)
    (proj1 Manager.ex_store_ok) mem_reads_exact _ ltac:(discriminate) Manager.ex_store_workers eq_refl ex_readable
    CmdStart true "ubuntu" _ ltac:(discriminate) ltac:(discriminate) (ex_one_sound _) (lookup_singleton_eq _ _))
    as ([sy' out] & He & Hq).
  exists sy', out. split; [exact He|]. destruct Hq as (Ho & Hl & _). split; [exact Ho|exact Hl].
Defined.

Lemma refused_command_reported_done_witness :
  exists sy' out,
    run_client ex_base ex_url (fun _ => 6) (fun c => cmdJob c ex_base ex_show CmdDisable "w1" false ["arch"]) (ex_system stateReady)
      = Ret (sy', out)
    /\ out = Ok "Successfully send the command" /\ sy_worker sy' = Worker.ex_one stateReady.
Proof.
  destruct (refused_command_reported_done ex_base "w1" ex_url (fun _ => 6) ex_show (ex_system stateReady)
    (proj1 Manager.ex_store_ok) mem_reads_exact _ ltac:(discriminate) Manager.ex_store_workers eq_refl ex_readable
    CmdDisable false "arch" ltac:(discriminate) ltac:(discriminate) eq_refl
    ltac:(vm_compute; reflexivity)) as [_ ([sy' out] & He & Ho & Hw & _)].
  exists sy', out. split; [exact He|]. split; [exact Ho|exact Hw].
Defined.

Lemma report_reaches_store_witness :
  exists post rest req,
    w_log (on_job_message "w1" [ex_base] 7 Worker.ex_message (Worker.ex_one stateReady)) = post :: rest
    /\ report_of post = Some req
    /\ exists sy' ans, exchange ex_base ex_url (fun _ => 6) req (ex_system stateReady) = Ret (sy', ans).
Proof.
  destruct (report_reaches_store ex_base "w1" ex_url (fun _ => 6) (ex_system stateReady)
    (proj1 Manager.ex_store_ok) mem_reads_exact (ex_plain "w1" eq_refl) ex_registered
    7 Worker.ex_message _ (Worker.ex_one stateReady) (so_queue _ (ex_one_sound stateReady)) (lookup_singleton_eq _ _)
    (or_introl eq_refl) (ex_plain "ubuntu" eq_refl) ltac:(vm_compute; split; discriminate))
    as (post & rest & req & smsg & new & Hl & Hp & _ & _ & _ & [sy' ans] & He & _).
  exists post, rest, req. split; [exact Hl|]. split; [exact Hp|]. exists sy', ans. exact He.
Defined.

(** The queue with debian due at the instant 100. *)
Definition ex_queue : scheduleQueue (L := assoc_list) := AddJob Datatypes.id 100 "debian" newScheduleQueue.

Lemma ex_queue_spec : wf Datatypes.id ex_queue /\ view Datatypes.id ex_queue = {["debian" := 100]}.
Proof.
  destruct (AddJob_spec Datatypes.id 100 "debian" newScheduleQueue (new_wf Datatypes.id)) as (Hq & Hv & _).
  split; [exact Hq|]. unfold ex_queue. rewrite Hv, new_view. reflexivity.
Qed.

Lemma schedule_reaches_store_witness :
  exists req sy' ans,
    exchange ex_base ex_url (fun _ => 6) req (ex_system stateReady) = Ret (sy', ans)
    /\ (a_StatusCode ans = 500 \/
        db_statuses (sy_store sy') !! status_id "w1" "debian" = Some (set_ms_Scheduled 100 Manager.ex_stored)).
Proof.
  destruct ex_queue_spec as [Hq Hv].
  destruct (schedule_reaches_store ex_base "w1" ex_url (fun _ => 6) (ex_system stateReady)
    (proj1 Manager.ex_store_ok) mem_reads_exact (ex_plain "w1" eq_refl) ex_registered ex_queue Hq)
    as (req & _ & [sy' ans] & He & _ & Hr).
  - intros n t Ht. rewrite Hv in Ht. apply lookup_singleton_Some in Ht as [<- <-]. split; [discriminate|reflexivity].
  - exists req, sy', ans. split; [exact He|]. destruct Hr as [Hc|[_ Hr]]; [left; exact Hc|right].
    rewrite (Hr "debian"), Hv, lookup_singleton_eq. cbn [ex_system sy_store].
    rewrite Manager.ex_store_statuses. reflexivity.
Defined.

Lemma ex_store_encodable k m : db_statuses Manager.ex_store !! k = Some m -> is_ok (marshal_MirrorStatus m) = true.
Proof.
  intros Hk. apply elem_of_map_to_list in Hk. vm_compute in Hk.
  apply list_elem_of_singleton in Hk. injection Hk as _ ->. reflexivity.
Qed.

Lemma ex_store_slash_free : slash_free (db_statuses Manager.ex_store).
Proof.
  intros k m Hk. apply elem_of_map_to_list in Hk. vm_compute in Hk.
  apply list_elem_of_singleton in Hk. injection Hk as -> ->. by exists "w1", "debian".
Qed.

Lemma restart_learns_store_witness :
  exists l, fetchJobStatus (client_of ex_base ex_url (fun _ => 6) (ex_system stateReady)) "w1" [ex_base] = Ret l
    /\ Manager.ex_stored ∈ default [] l.
Proof.
  destruct (restart_learns_store ex_base "w1" ex_url (fun _ => 6) (ex_system stateReady)
    (proj1 Manager.ex_store_ok) (ex_plain "w1" eq_refl) ex_registered ex_store_slash_free
    ltac:(intros m e; vm_compute; discriminate) ex_store_encodable) as (l & Hl & named & Hn & _ & Hin).
  exists l. split; [exact Hl|]. rewrite Hn. apply (list_elem_of_fmap_2 snd _ ("debian", Manager.ex_stored)).
  apply Hin. split; [reflexivity|]. cbn [ex_system sy_store]. by rewrite Manager.ex_store_statuses.
Defined.

(** A manager with a worker and no job. *)
Definition ex_jobless : Mem.store :=
  match serve_all Manager.no_post 5 [RegisterWorker Manager.ex_register] Mem.empty with
  | Ret s => s
  | Panic _ => Mem.empty
  end.

Lemma jobless_worker_not_listed_witness :
  (Ctl.listJobs (client_of ex_base ex_url (fun _ => 6) (MkSystem ex_jobless (Worker.ex_one stateReady))) ex_base ["w1"]).2
  = Err "Failed to correctly get information of jobs from at least one manager".
Proof.
  rewrite (jobless_worker_not_listed ex_base "w1" ex_url (fun _ => 6) (MkSystem ex_jobless (Worker.ex_one stateReady))
    (ex_plain "w1" eq_refl)); [reflexivity| |].
  - eexists. vm_compute. reflexivity.
  - vm_compute. reflexivity.
Defined.

Lemma set_size_verified_witness :
  exists sy' out,
    run_client ex_base ex_url (fun _ => 6) (fun c => Ctl.updateMirrorSize c ex_base ex_show "w1" ["debian"; "3T"])
      (ex_system stateReady) = Ret (sy', out)
    /\ sy_worker sy' = Worker.ex_one stateReady.
Proof.
  destruct (set_size_verified ex_base "w1" ex_url (fun _ => 6) (ex_system stateReady)
    (proj1 Manager.ex_store_ok) mem_reads_exact (ex_plain "w1" eq_refl) ex_registered ex_show "debian" "3T"
    Manager.ex_stored (ex_plain "debian" eq_refl) Manager.ex_store_statuses ltac:(vm_compute; reflexivity))
    as ([sy' out] & He & Hw & _).
  exists sy', out. split; [exact He|exact Hw].
Defined.

Lemma registration_reaches_store_witness :
  exists req sy' ans,
    exchange ex_base ex_url (fun i => Z.of_nat i) req (MkSystem Mem.empty (Worker.ex_one stateReady)) = Ret (sy', ans)
    /\ sy_worker sy' = Worker.ex_one stateReady.
Proof.
  destruct (registration_reaches_store ex_base "w1" ex_url (fun i => Z.of_nat i)
    (MkSystem Mem.empty (Worker.ex_one stateReady)) Mem.empty_inv) as (req & _ & [sy' ans] & He & Hw & _).
  exists req, sy', ans. split; [exact He|exact Hw].
Defined.
