(* ===== verification/Cli.v ===== *)
(** * The command lines of tunasync and tunasynctl

    The [main] of src/cmd/tunasynctl and of src/cmd/tunasync: which commands there are, the
    flags each declares and the action it runs, with the set-up of the client and the
    display of its listings around the commands of [Ctl], and the flags handed to the
    starts of [Daemon].  urfave/cli reads the command line: an action is given what it
    makes of it, a [context], and what is relied on is [parsed]. *)

From S2P Require Import Prelude Json Msg Web Http Logger Manager.
From S2P Require Import Schedule Config ConfigDiff Provider Worker.
From S2P Require Ctl Daemon System ManagerConfig.

Local Open Scope string_scope.
Local Open Scope list_scope.
Local Open Scope Z_scope.

(** ** Flags and commands *)

Inductive flag : Type :=
| StringFlag (name : string) (aliases : list string) (value : string)
| IntFlag (name : string) (aliases : list string)
| BoolFlag (name : string) (aliases : list string).

#[export] Instance flag_eq_dec : EqDecision flag.
Proof. solve_decision. Defined.

Definition flag_names (f : flag) : list string :=
  match f with
  | StringFlag n al _ => n :: al
  | IntFlag n al => n :: al
  | BoolFlag n al => n :: al
  end.

(** What an action reads of the command line: [c.String], [c.Bool], [c.Int], [c.Args]. *)
Record context : Type := MkContext {
  cx_String : string -> string;
  cx_Bool : string -> bool;
  cx_Int : string -> Z;
  cx_Args : list string
}.

(** A name that no flag of the command has, in the type asked for, gives the zero value. *)
Record parsed (flags : list flag) (c : context) : Prop := {
  parsed_String : forall n, c.(cx_String) n <> EmptyString ->
    exists m al v, StringFlag m al v ∈ flags /\ n ∈ m :: al;
  parsed_Bool : forall n, c.(cx_Bool) n = true -> exists m al, BoolFlag m al ∈ flags /\ n ∈ m :: al;
  parsed_Int : forall n, c.(cx_Int) n <> 0 -> exists m al, IntFlag m al ∈ flags /\ n ∈ m :: al
}.

Record command (A : Type) : Type := MkCommand {
  cmd_Name : string;
  cmd_Aliases : list string;
  cmd_Flags : list flag;
  cmd_Action : A
}.
Arguments MkCommand {A}.
Arguments cmd_Name {A}.
Arguments cmd_Aliases {A}.
Arguments cmd_Flags {A}.
Arguments cmd_Action {A}.

(** ** The version *)

Definition digit (c : Ascii.ascii) : option Z :=
  let n := Z.of_nat (Ascii.nat_of_ascii c) in
  if decide (48 <= n <= 57) then Some (n - 48) else None.

Fixpoint read_digits (s : string) (acc : Z) : option Z :=
  match s with
  | EmptyString => Some acc
  | String c s => d ← digit c; read_digits s (10 * acc + d)
  end.

(** [strconv.Atoi]: a sign, digits, and a value of 64 bits. *)
Definition Atoi (s : string) : option Z :=
  let read (s : string) := if decide (s = EmptyString) then None else read_digits s 0 in
  z ← match s with
      | String c s' =>
          if decide (c = Ascii.ascii_of_nat 45) then Z.opp <$> read s'
          else if decide (c = Ascii.ascii_of_nat 43) then read s'
          else read s
      | EmptyString => None
      end;
  if decide (- max_int64 - 1 <= z <= max_int64) then Some z else None.

(** [tunasync.Version], the [app.Version] of both programs. *)
Definition Version : string := "0.10.0".

(** What both print; [date] is the text of an instant in seconds, [githash] and [buildstamp]
    are what the build stamps the program with. *)
Definition version_text (date : Z -> string) (version githash buildstamp : string) : string :=
  let none := "No build date provided" in
  let builddate :=
    if decide (buildstamp = EmptyString) then none
    else match Atoi buildstamp with None => none | Some ts => date ts end in
  "Version: " +:+ version +:+ newline +:+ "Git Hash: " +:+ githash +:+ newline
  +:+ "Build Date: " +:+ builddate +:+ newline.

(** [cli.VersionPrinter] of tunasynctl. *)
Definition ctl_VersionPrinter (date : Z -> string) (githash buildstamp : string) : string :=
  version_text date Version githash buildstamp.

(** [cli.VersionPrinter] of tunasync. *)
Definition daemon_VersionPrinter (date : Z -> string) (githash buildstamp : string) : string :=
  version_text date Version githash buildstamp.

(** ** tunasynctl *)

Definition commonFlags : list flag :=
  [StringFlag "config" ["c"] EmptyString;
   StringFlag "manager" ["m"] EmptyString;
   IntFlag "port" ["p"];
   StringFlag "ca-cert" [] EmptyString;
   BoolFlag "verbose" ["v"];
   BoolFlag "debug" []].

Definition cmdFlags : list flag := [StringFlag "worker" ["w"] EmptyString].

Definition forceStartFlag : flag := BoolFlag "force" ["f"].

Section client.
Context {TT : TimeText} {ST : StampText}.
(** The files of the configuration, as in [Ctl.initialize]. *)
Context (stat : string -> bool) (read : string -> result Ctl.config_file) (userCfgFile : string).
(** The set-up of the client, and what its requests are answered. *)
Context (ReadFile : string -> result string) (AppendCertsFromPEM : string -> bool).
Context (net : http_client -> transport).
(** The text of a body; the text [json.MarshalIndent] makes of a document. *)
Context (show indent : json -> string).

(** What a listing shows. *)
Inductive listing : Type :=
| WebJobs (jobs : nilable (list WebMirrorStatus))
| Jobs (jobs : nilable (list MirrorStatus)).

Inductive row : Type := WebRow (job : WebMirrorStatus) | JobRow (job : MirrorStatus).

(** text/template: [Parse], and [Execute] with what it has written when it fails. *)
Context {template : Type} (Parse : string -> result template) (Execute : template -> row -> string * option error).

(** The order in which the goroutines of [listJobs] answer. *)
Context (arrival : list string -> list string).

(** A command that ended: the requests it sent, what it wrote besides the log, and the
    message of [cli.Exit(msg, 1)]. *)
Record run : Type := MkRun {
  r_sent : list http;
  r_out : string;
  r_err : option error
}.

Definition action : Type := transport -> string -> context -> run.

(** [initialize]: the handler of the log, and the client with [baseURL]. *)
Definition initialize (c : context) : lineHandler * result (transport * string) :=
  (InitLogger (c.(cx_Bool) "verbose") (c.(cx_Bool) "debug") false,
   '(cfg, baseURL) ← Ctl.initialize stat read userCfgFile
      (Ctl.MkFlags (c.(cx_String) "config") (c.(cx_String) "manager") (c.(cx_Int) "port") (c.(cx_String) "ca-cert"));
   match CreateHTTPClient ReadFile AppendCertsFromPEM cfg.(Ctl.CACert) with
   | Err e => Err ("error initializing HTTP client: " +:+ e)
   | Ok client => Ok (net client, baseURL)
   end).

Definition initializeWrapper (handler : action) : context -> run := fun c =>
  match (initialize c).2 with
  | Err e => MkRun [] EmptyString (Some e)
  | Ok (client, baseURL) => handler client baseURL c
  end.

(** [fmt.Println] of what the command prints. *)
Definition println (o : Ctl.outcome string) : run :=
  match o.2 with
  | Ok s => MkRun o.1 (s +:+ newline) None
  | Err e => MkRun o.1 EmptyString (Some e)
  end.

(** *** Listings *)

Definition encode_listing {A} (enc : A -> result json) (l : nilable (list A)) : result json :=
  match l with
  | None => Ok JNull
  | Some l => js ← mapM enc l; Ok (JArr js)
  end.

Definition rows (l : listing) : list row :=
  match l with
  | WebJobs jobs => WebRow <$> default [] jobs
  | Jobs jobs => JobRow <$> default [] jobs
  end.

Definition encode_rows (l : listing) : result json :=
  match l with
  | WebJobs jobs => encode_listing marshal_WebMirrorStatus jobs
  | Jobs jobs => encode_listing marshal_MirrorStatus jobs
  end.

(** The loops over the jobs: an error ends them in the middle of the output. *)
Fixpoint execute_all (tpl : template) (l : list row) : string * option error :=
  match l with
  | [] => (EmptyString, None)
  | r :: l =>
      let '(text, err) := Execute tpl r in
      match err with
      | Some e => (text, Some ("Error printing out information: " +:+ e))
      | None => let '(rest, err) := execute_all tpl l in (text +:+ newline +:+ rest, err)
      end
  end.

Definition display (format : string) (l : listing) : string * option error :=
  if decide (format <> EmptyString) then
    match Parse format with
    | Err e => (EmptyString, Some ("Error parsing format template: " +:+ e))
    | Ok tpl => execute_all tpl (rows l)
    end
  else
    match encode_rows l with
    | Err e => (EmptyString, Some ("Error printing out information: " +:+ e))
    | Ok doc => (indent doc +:+ newline, None)
    end.

Definition listJobs : action := fun client baseURL c =>
  let '(sent, jobs) :=
    if c.(cx_Bool) "all"
    then let '(sent, jobs) := Ctl.listJobs_all client baseURL (c.(cx_String) "status") in (sent, l ← jobs; Ok (WebJobs l))
    else let '(sent, jobs) := Ctl.listJobs client baseURL (arrival c.(cx_Args)) in (sent, l ← jobs; Ok (Jobs l)) in
  match jobs with
  | Err e => MkRun sent EmptyString (Some e)
  | Ok l => let '(out, err) := display (c.(cx_String) "format") l in MkRun sent out err
  end.

Definition listWorkers : action := fun client baseURL _ =>
  let '(sent, workers) := Ctl.listWorkers client baseURL in
  match workers with
  | Err e => MkRun sent EmptyString (Some e)
  | Ok l =>
      match encode_listing marshal_WorkerStatus l with
      | Err e => MkRun sent EmptyString (Some ("Error printing out informations: " +:+ e))
      | Ok doc => MkRun sent (indent doc +:+ newline) None
      end
  end.

(** *** The other commands *)

Definition flushDisabledJobs : action := fun client baseURL _ =>
  println (Ctl.flushDisabledJobs client baseURL show).

Definition removeWorker : action := fun client baseURL c =>
  println (Ctl.removeWorker client baseURL show (c.(cx_String) "worker") c.(cx_Args)).

Definition updateMirrorSize : action := fun client baseURL c =>
  println (Ctl.updateMirrorSize client baseURL show (c.(cx_String) "worker") c.(cx_Args)).

Definition cmdJob (cmd : CmdVerb) : action := fun client baseURL c =>
  println (Ctl.cmdJob client baseURL show cmd (c.(cx_String) "worker") (c.(cx_Bool) "force") c.(cx_Args)).

Definition cmdWorker (cmd : CmdVerb) : action := fun client baseURL c =>
  println (Ctl.cmdWorker client baseURL show cmd (c.(cx_String) "worker")).

(** [app.Commands] *)
Definition ctl_commands : list (command (context -> run)) :=
  [MkCommand "list" [] (commonFlags ++ [BoolFlag "all" ["a"]; StringFlag "status" ["s"] EmptyString;
     StringFlag "format" ["f"] EmptyString]) (initializeWrapper listJobs);
   MkCommand "flush" [] commonFlags (initializeWrapper flushDisabledJobs);
   MkCommand "workers" [] commonFlags (initializeWrapper listWorkers);
   MkCommand "rm-worker" [] (commonFlags ++ [StringFlag "worker" ["w"] EmptyString]) (initializeWrapper removeWorker);
   MkCommand "set-size" [] (commonFlags ++ [StringFlag "worker" ["w"] EmptyString]) (initializeWrapper updateMirrorSize);
   MkCommand "start" [] ((commonFlags ++ cmdFlags) ++ [forceStartFlag]) (initializeWrapper (cmdJob CmdStart));
   MkCommand "stop" [] (commonFlags ++ cmdFlags) (initializeWrapper (cmdJob CmdStop));
   MkCommand "disable" [] (commonFlags ++ cmdFlags) (initializeWrapper (cmdJob CmdDisable));
   MkCommand "restart" [] (commonFlags ++ cmdFlags) (initializeWrapper (cmdJob CmdRestart));
   MkCommand "reload" [] (commonFlags ++ cmdFlags) (initializeWrapper (cmdWorker CmdReload));
   MkCommand "ping" [] (commonFlags ++ cmdFlags) (initializeWrapper (cmdJob CmdPing))].
End client.
Arguments MkRun _ _ _.

(** ** tunasync *)

Definition manager_flags : list flag :=
  [StringFlag "config" ["c"] EmptyString;
   StringFlag "addr" [] EmptyString;
   IntFlag "port" [];
   StringFlag "cert" [] EmptyString;
   StringFlag "key" [] EmptyString;
   StringFlag "db-file" [] EmptyString;
   StringFlag "db-type" [] EmptyString;
   BoolFlag "verbose" ["v"];
   BoolFlag "debug" [];
   BoolFlag "with-systemd" [];
   StringFlag "pidfile" [] "/run/tunasync/tunasync.manager.pid"].

Definition worker_flags : list flag :=
  [StringFlag "config" ["c"] EmptyString;
   BoolFlag "verbose" ["v"];
   BoolFlag "debug" [];
   BoolFlag "with-systemd" [];
   StringFlag "pidfile" [] "/run/tunasync/tunasync.worker.pid";
   StringFlag "prof-path" [] EmptyString].

(** The flags both starts look at. *)
Definition start_flags (c : context) : Daemon.daemon_flags :=
  Daemon.MkDaemonFlags (c.(cx_String) "config") (c.(cx_Bool) "verbose") (c.(cx_Bool) "debug") (c.(cx_Bool) "with-systemd").

(** The flags [manager.LoadConfig] looks at. *)
Definition load_flags (c : context) : ManagerConfig.flags :=
  ManagerConfig.MkFlags (c.(cx_String) "addr") (c.(cx_Int) "port") (c.(cx_String) "cert") (c.(cx_String) "key")
    (c.(cx_String) "status-file") (c.(cx_String) "db-file") (c.(cx_String) "db-type").

Section daemons.
Context {P L : Type} {WP : WorkerProvider P} {SL : SkipList string L} {MS : MirrorSort} {RO : RangeOrder}.
Context {TT : TimeText}.
(** What each daemon asks of the outside, as in [Daemon]. *)
Context (read_manager : string -> result ManagerConfig.config_file) (answer : ManagerConfig.opening -> option error).
Context (make_provider : Config -> mirrorConfig -> comp P).
Context (load_worker : string -> result Config) (ReadFile : string -> result string) (AppendCertsFromPEM : string -> bool).
Context (init_cgroup : cgroupConfig -> option error) (is_dir : string -> bool).
Context (post : string -> nat -> bool) (client : transport) (clock : nat -> Z).

(** A daemon started: its log handler and what becomes of it. *)
Inductive daemon_run : Type :=
| ManagerRun (h : lineHandler) (asked : list ManagerConfig.opening) (l : Daemon.launch (string * bool))
| WorkerRun (h : lineHandler) (r : comp (Daemon.launch (Config * Worker P L))).

Definition startManager (c : context) : daemon_run :=
  let '(h, asked, l) := Daemon.startManager read_manager answer (start_flags c) (load_flags c) in
  ManagerRun h asked l.

Definition startWorker (c : context) : daemon_run :=
  let d := start_flags c in
  WorkerRun (InitLogger d.(Daemon.df_verbose) d.(Daemon.df_debug) d.(Daemon.df_with_systemd))
    (Daemon.startWorker make_provider (load_worker d.(Daemon.df_config))
       (fun ca => get_err (CreateHTTPClient ReadFile AppendCertsFromPEM ca)) init_cgroup is_dir
       (c.(cx_String) "prof-path") post client clock).

(** [app.Commands] *)
Definition daemon_commands : list (command (context -> daemon_run)) :=
  [MkCommand "manager" ["m"] manager_flags startManager;
   MkCommand "worker" ["w"] worker_flags startWorker].
End daemons.

(** ** Numbers *)

Lemma digit_char (x : N) : (x < 10)%N -> digit (pretty_N_char x) = Some (Z.of_N x).
Proof.
  intros Hx. assert (x ∈ [0; 1; 2; 3; 4; 5; 6; 7; 8; 9]%N) as Hin by (rewrite !elem_of_cons; lia).
  rewrite !elem_of_cons, elem_of_nil in Hin. destruct_or! Hin; by subst.
Qed.

Lemma read_digits_go (x : N) s : read_digits (pretty_N_go x s) 0 = read_digits s (Z.of_N x).
Proof.
  revert s. induction (N.lt_wf_0 x) as [x _ IH]. intros s.
  destruct (decide (x = 0)%N) as [->|Hx]; [done|].
  rewrite pretty_N_go_step by lia. rewrite IH by (apply N.div_lt; lia). cbn [read_digits].
  rewrite digit_char by (by apply N.mod_lt). cbn [mbind option_bind]. f_equal.
  rewrite (N.div_mod x 10) at 3 by done. lia.
Qed.

Lemma read_digits_pretty (x : N) : read_digits (pretty x) 0 = Some (Z.of_N x).
Proof. unfold pretty, pretty_N. case_decide as Hx; [by subst|]. apply read_digits_go. Qed.

Lemma pretty_N_head (x : N) : exists c s, pretty x = String c s /\ is_Some (digit c).
Proof.
  pose proof (read_digits_pretty x) as H. destruct (pretty x) as [|c s] eqn:E.
  - exfalso. unfold pretty, pretty_N in E. case_decide; [done|].
    assert (Hl : forall x s, s <> EmptyString -> pretty_N_go x s <> EmptyString).
    { clear. intros x. induction (N.lt_wf_0 x) as [x _ IH]. intros s Hs.
      destruct (decide (x = 0)%N) as [->|Hx]; [done|]. rewrite pretty_N_go_step by lia.
      apply IH; [apply N.div_lt; lia|done]. }
    rewrite pretty_N_go_step in E by lia. by eapply Hl in E.
  - exists c, s. split; [done|]. cbn in H. destruct (digit c); [by eexists|done].
Qed.

(** [Atoi] reads back what [Itoa] writes of the integers of 64 bits, and no other. *)
Lemma Atoi_pretty (z : Z) : Atoi (pretty z) = if decide (- max_int64 - 1 <= z <= max_int64) then Some z else None.
Proof.
  unfold Atoi. destruct z as [|p|p].
  - done.
  - change (pretty (Z.pos p)) with (pretty (N.pos p)). destruct (pretty_N_head (N.pos p)) as (c & s & Hp & Hd).
    pose proof (read_digits_pretty (N.pos p)) as Hr. rewrite Hp in Hr |- *.
    destruct (decide (c = Ascii.ascii_of_nat 45)) as [->|_]; [by destruct Hd|].
    destruct (decide (c = Ascii.ascii_of_nat 43)) as [->|_]; [by destruct Hd|].
    destruct (decide (String c s = EmptyString)); [done|]. by rewrite Hr.
  - change (pretty (Z.neg p)) with (String (Ascii.ascii_of_nat 45) (pretty (N.pos p))).
    destruct (decide (Ascii.ascii_of_nat 45 = Ascii.ascii_of_nat 45)) as [_|?]; [|done].
    destruct (decide (pretty (N.pos p) = EmptyString)) as [He|_]; [|by rewrite read_digits_pretty].
    destruct (pretty_N_head (N.pos p)) as (c & s & Hp & _). by rewrite He in Hp.
Qed.

(** What the release build is stamped with, the seconds since the epoch in digits, is shown
    as a date. *)
Lemma stamped_version date version githash (t : Z) : 0 <= t <= max_int64 ->
  version_text date version githash (pretty t)
  = "Version: " +:+ version +:+ newline +:+ "Git Hash: " +:+ githash +:+ newline
    +:+ "Build Date: " +:+ date t +:+ newline.
Proof.
  intros Ht. unfold version_text. rewrite Atoi_pretty. rewrite (decide_True (P := _ <= t <= _)) by lia.
  destruct (decide (pretty t = EmptyString)) as [He|_]; [|done].
  pose proof (Atoi_pretty t) as Hr. rewrite He in Hr. rewrite decide_True in Hr by lia. done.
Qed.

(** ** What the commands ask

    A request as the manager understands it, and what each command asks. *)
Inductive wish : Type :=
| WListAll
| WListOf (worker : string)
| WFlush
| WWorkers
| WRemove (worker : string)
| WSize (worker : string) (size : SizeMsg)
| WCommand (cmd : ClientCmd).

(** A document the manager cannot decode asks nothing. *)
Definition understood `{TimeText} (r : request) : option wish :=
  match r with
  | ListAllJobs => Some WListAll
  | ListJobs id => Some (WListOf id)
  | FlushDisabled => Some WFlush
  | ListWorkers => Some WWorkers
  | DeleteWorker id => Some (WRemove id)
  | UpdateSize id _ doc =>
      match unmarshal_SizeMsg doc SizeMsg_zero with (m, None) => Some (WSize id m) | _ => None end
  | Manager.Cmd doc =>
      match unmarshal_ClientCmd doc ClientCmd_zero with (c, None) => Some (WCommand c) | _ => None end
  | _ => None
  end.

Definition verb_of (name : string) : option CmdVerb :=
  match name with
  | "start" => Some CmdStart
  | "stop" => Some CmdStop
  | "disable" => Some CmdDisable
  | "restart" => Some CmdRestart
  | "ping" => Some CmdPing
  | _ => None
  end.

(** The arguments MIRROR and, optionally, the comma-separated arguments of the command. *)
Definition on_mirror (verb : CmdVerb) (worker : string) (force : bool) (args : list string) : list wish :=
  let options : gmap string bool := if force then {["force" := true]} else ∅ in
  match args with
  | [m] => [WCommand (MkClientCmd verb m worker None (Some options))]
  | [m; l] => [WCommand (MkClientCmd verb m worker (Some (Ctl.split_args l)) (Some options))]
  | _ => []
  end.

Definition asked (name : string) (c : context) : list wish :=
  let worker := c.(cx_String) "worker" in
  let args := c.(cx_Args) in
  match name with
  | "list" => if c.(cx_Bool) "all" then [WListAll] else WListOf <$> args
  | "flush" => [WFlush]
  | "workers" => [WWorkers]
  | "rm-worker" => if decide (args = [] /\ worker <> EmptyString) then [WRemove worker] else []
  | "set-size" => match args with [m; s] => [WSize worker (MkSizeMsg m s)] | _ => [] end
  | "reload" =>
      if decide (worker <> EmptyString) then [WCommand (MkClientCmd CmdReload EmptyString worker None None)] else []
  | _ =>
      match verb_of name with
      | Some verb => on_mirror verb worker (bool_decide (name = "start") && c.(cx_Bool) "force") args
      | None => []
      end
  end.

(** The names that become segments of a path. *)
Definition path_names (name : string) (c : context) : list string :=
  let worker := c.(cx_String) "worker" in
  match name with
  | "list" => if c.(cx_Bool) "all" then [] else c.(cx_Args)
  | "rm-worker" => if decide (worker <> EmptyString) then [worker] else []
  | "set-size" => match c.(cx_Args) with [m; _] => [worker; m] | _ => [] end
  | _ => []
  end.

(** A name that no flag of the type has. *)
Definition no_bool (n : string) (f : flag) : bool :=
  match f with BoolFlag m al => bool_decide (n ∉ m :: al) | _ => true end.

Definition no_string (n : string) (f : flag) : bool :=
  match f with StringFlag m al _ => bool_decide (n ∉ m :: al) | _ => true end.

Lemma parsed_no_bool flags c n : parsed flags c -> forallb (no_bool n) flags = true -> c.(cx_Bool) n = false.
Proof.
  intros Hp Hf. destruct (cx_Bool c n) eqn:Hb; [|done]. exfalso.
  apply (parsed_Bool _ _ Hp) in Hb as (m & al & Hin & Hn). rewrite forallb_forall in Hf.
  apply list_elem_of_In, Hf, bool_decide_eq_true in Hin. done.
Qed.

Lemma parsed_no_string flags c n : parsed flags c -> forallb (no_string n) flags = true -> c.(cx_String) n = EmptyString.
Proof.
  intros Hp Hf. destruct (decide (cx_String c n = EmptyString)) as [|Hb]; [done|exfalso].
  apply (parsed_String _ _ Hp) in Hb as (m & al & v & Hin & Hn). rewrite forallb_forall in Hf.
  apply list_elem_of_In, Hf, bool_decide_eq_true in Hin. done.
Qed.

(** ** Flags and names *)

(** No command has two flags of one name, the library's help included; nor has a program two
    commands of one name. The library refuses the first at run time. *)
Definition unambiguous {A} (cmds : list (command A)) : Prop :=
  Forall (fun cmd => NoDup (["help"; "h"] ++ concat (flag_names <$> cmd.(cmd_Flags)))) cmds
  /\ NoDup (["help"; "h"] ++ concat ((fun cmd => cmd.(cmd_Name) :: cmd.(cmd_Aliases)) <$> cmds)).

Section understanding.
Context {TT : TimeText} {ST : StampText} {RT : System.Router}.
Context (stat : string -> bool) (read : string -> result Ctl.config_file) (userCfgFile : string).
Context (ReadFile : string -> result string) (AppendCertsFromPEM : string -> bool).
Context (net : http_client -> transport) (show indent : json -> string).
Context {template : Type} (Parse : string -> result template) (Execute : template -> row -> string * option error).
Context (arrival : list string -> list string) (arrival_all : forall l, arrival l ≡ₚ l).

Local Abbreviation initialize := (initialize stat read userCfgFile ReadFile AppendCertsFromPEM net).
Local Abbreviation wrapped := (initializeWrapper stat read userCfgFile ReadFile AppendCertsFromPEM net).
Local Abbreviation commands :=
  (ctl_commands stat read userCfgFile ReadFile AppendCertsFromPEM net show indent Parse Execute arrival).

(** The wish behind each request of a run. *)
Definition wishes (baseURL : string) (sent : list http) : list (option wish) :=
  (fun req => r ← System.route baseURL req; understood r) <$> sent.

(** What a command does once the client is set up. *)
Definition asks (name : string) (handler : action) (c : context) : Prop :=
  forall client baseURL, Forall System.plain (path_names name c) ->
    wishes baseURL (handler client baseURL c).(r_sent) ≡ₚ Some <$> asked name c.

Lemma println_sent o : (println o).(r_sent) = o.1.
Proof. unfold println. by destruct o as [? []]. Qed.

Lemma post_understood base client cmd : CmdVerb_String cmd.(cc_Cmd) <> EmptyString ->
  wishes base (Ctl.post_cmd client base show cmd).1 = [Some (WCommand cmd)].
Proof.
  intros Hv. unfold wishes, Ctl.post_cmd. cbn [fst fmap list_fmap]. change Ctl.cmdPath with "/cmd".
  rewrite System.route_cmd. cbn [mbind option_bind understood]. by rewrite Ctl.unmarshal_marshal_ClientCmd.
Qed.

Lemma cmdJob_asks verb c client base : CmdVerb_String verb <> EmptyString ->
  wishes base (cmdJob show verb client base c).(r_sent)
  = Some <$> on_mirror verb (c.(cx_String) "worker") (c.(cx_Bool) "force") c.(cx_Args).
Proof.
  intros Hv. unfold cmdJob. rewrite println_sent. unfold Ctl.cmdJob, on_mirror.
  destruct (cx_Args c) as [|m [|l [|? ?]]]; try done; by rewrite post_understood.
Qed.

Lemma cmdWorker_asks verb c client base : CmdVerb_String verb <> EmptyString ->
  wishes base (cmdWorker show verb client base c).(r_sent)
  = if decide (c.(cx_String) "worker" <> EmptyString)
    then [Some (WCommand (MkClientCmd verb EmptyString (c.(cx_String) "worker") None None))] else [].
Proof.
  intros Hv. unfold cmdWorker. rewrite println_sent. unfold Ctl.cmdWorker.
  destruct (decide (cx_String c "worker" = EmptyString)) as [He|He].
  - by rewrite (decide_False (P := cx_String c "worker" <> EmptyString)) by (intros H; by apply H).
  - by rewrite post_understood, decide_True.
Qed.

Lemma show_sent sent (jobs : result listing) format :
  (match jobs with
   | Err e => MkRun sent EmptyString (Some e)
   | Ok l => let '(out, err) := display indent Parse Execute format l in MkRun sent out err
   end).(r_sent) = sent.
Proof. destruct jobs; [|done]. by destruct (display _ _ _ _ _). Qed.

Lemma listJobs_asks c : asks "list" (listJobs indent Parse Execute arrival) c.
Proof.
  intros client base Hp. unfold listJobs, asked, path_names in *. destruct (cx_Bool c "all").
  - destruct (Ctl.listJobs_all _ _ _) as [sent jobs] eqn:E. rewrite show_sent.
    unfold Ctl.listJobs_all in E. injection E as <- _. unfold wishes. cbn [fmap list_fmap].
    change Ctl.listJobsPath with "/jobs". by rewrite System.route_list_all.
  - destruct (Ctl.listJobs _ _ _) as [sent jobs] eqn:E. rewrite show_sent.
    assert (sent = (fun w => GET (Ctl.jobs_url base w)) <$> arrival (cx_Args c)) as ->.
    { unfold Ctl.listJobs in E. case_decide as He; injection E as <- _; [by rewrite He|done]. }
    unfold wishes. rewrite (arrival_all (cx_Args c)). rewrite <- !list_fmap_compose. apply Permutation_refl', Forall_fmap_ext.
    eapply Forall_impl; [exact Hp|]. intros w Hw. unfold compose, Ctl.jobs_url. by rewrite System.route_jobs.
Qed.

Lemma plain_asks name handler c : path_names name c = [] ->
  (forall client base, wishes base (handler client base c).(r_sent) = Some <$> asked name c) -> asks name handler c.
Proof. intros _ H client base _. by rewrite H. Qed.

Lemma flush_asks c : asks "flush" (flushDisabledJobs show) c.
Proof.
  apply plain_asks; [done|]. intros client base. unfold flushDisabledJobs. rewrite println_sent. unfold wishes.
  cbn [Ctl.flushDisabledJobs fst fmap list_fmap]. change Ctl.flushDisabledPath with "/jobs/disabled".
  by rewrite System.route_flush.
Qed.

Lemma workers_asks c : asks "workers" (listWorkers indent) c.
Proof.
  apply plain_asks; [done|]. intros client base. unfold listWorkers.
  destruct (Ctl.listWorkers client base) as [sent workers] eqn:E. unfold Ctl.listWorkers in E. injection E as <- _.
  assert (forall r, r = MkRun [GET (base +:+ Ctl.listWorkersPath)] (r_out r) (r_err r) ->
    wishes base (r_sent r) = [Some WWorkers]) as H.
  { intros r ->. unfold wishes. cbn [r_sent fmap list_fmap]. change Ctl.listWorkersPath with "/workers".
    by rewrite System.route_workers. }
  apply H. destruct workers as [l|]; [|done]. by destruct (encode_listing _ l).
Qed.

Lemma remove_asks c : asks "rm-worker" (removeWorker show) c.
Proof.
  intros client base Hp. unfold removeWorker. rewrite println_sent. unfold Ctl.removeWorker, asked, path_names in *.
  destruct (decide (cx_Args c = [])) as [Ha|Ha].
  - rewrite (decide_False (P := cx_Args c <> [])) by (intros H; by apply H).
    destruct (decide (cx_String c "worker" = EmptyString)) as [Hw|Hw].
    + rewrite decide_False by (intros [_ H]; by apply H). done.
    + rewrite decide_True by done. rewrite decide_True in Hp by done. rewrite Forall_singleton in Hp.
      unfold wishes. cbn [fst fmap list_fmap]. by rewrite System.route_delete.
  - rewrite (decide_True (P := cx_Args c <> [])) by done. rewrite decide_False by (by intros [? _]). done.
Qed.

Lemma set_size_asks c : asks "set-size" (updateMirrorSize show) c.
Proof.
  intros client base Hp. unfold updateMirrorSize. rewrite println_sent. unfold Ctl.updateMirrorSize, asked, path_names in *.
  destruct (cx_Args c) as [|m [|s [|? ?]]]; try done. rewrite !Forall_cons in Hp. destruct Hp as (Hw & Hm & _).
  unfold wishes, Ctl.size_url. cbn [fst fmap list_fmap]. rewrite System.route_size by done.
  cbn [mbind option_bind understood]. by rewrite Ctl.unmarshal_marshal_SizeMsg.
Qed.

Lemma job_asks name verb c : name ∈ ["start"; "stop"; "disable"; "restart"; "ping"] -> verb_of name = Some verb ->
  (name <> "start" -> c.(cx_Bool) "force" = false) -> asks name (cmdJob show verb) c.
Proof.
  intros Hn Hv Hf.
  assert (Hs : CmdVerb_String verb <> EmptyString).
  { rewrite !elem_of_cons, elem_of_nil in Hn. destruct_or! Hn; subst; injection Hv as <-; done. }
  assert (Hw : forall b, b = bool_decide (name = "start") && c.(cx_Bool) "force" -> b = c.(cx_Bool) "force").
  { intros b ->. case_bool_decide; [done|]. by rewrite Hf. }
  rewrite !elem_of_cons, elem_of_nil in Hn.
  apply plain_asks.
  - destruct_or! Hn; by subst.
  - intros client base. rewrite cmdJob_asks by done. rewrite <- (Hw _ eq_refl).
    destruct_or! Hn; subst; injection Hv as <-; done.
Qed.

Lemma reload_asks c : asks "reload" (cmdWorker show CmdReload) c.
Proof.
  apply plain_asks; [done|]. intros client base. rewrite cmdWorker_asks by done. unfold asked. by case_decide.
Qed.

(** C8: what the commands of the client ask the manager. When its configuration or its client cannot
    be set up a command ends with that error and sends nothing. Otherwise the manager routes
    every request to the handler the command means and reads from it, decoded, exactly what
    the command line says: the worker, the mirror, the size, the verb with its arguments, and
    the option force only from start. *)
Theorem command_line_understood cmd c : cmd ∈ commands -> parsed cmd.(cmd_Flags) c ->
  match (initialize c).2 with
  | Err e => cmd.(cmd_Action) c = MkRun [] EmptyString (Some e)
  | Ok (_, baseURL) => Forall System.plain (path_names cmd.(cmd_Name) c) ->
      wishes baseURL (cmd.(cmd_Action) c).(r_sent) ≡ₚ Some <$> asked cmd.(cmd_Name) c
  end.
Proof.
  intros Hin Hp.
  assert (Hw : forall handler, asks (cmd_Name cmd) handler c -> cmd_Action cmd = wrapped handler ->
    match (initialize c).2 with
    | Err e => cmd_Action cmd c = MkRun [] EmptyString (Some e)
    | Ok (_, baseURL) => Forall System.plain (path_names (cmd_Name cmd) c) ->
        wishes baseURL (cmd_Action cmd c).(r_sent) ≡ₚ Some <$> asked (cmd_Name cmd) c
    end).
  { intros handler Ha ->. unfold initializeWrapper. destruct ((initialize c).2) as [[client base]|e]; [apply Ha|done]. }
  unfold ctl_commands in Hin. rewrite !elem_of_cons, elem_of_nil in Hin. destruct_or! Hin; subst cmd; cbn [cmd_Name cmd_Flags] in *.
  all: (eapply Hw; [|reflexivity]).
  - apply listJobs_asks.
  - apply flush_asks.
  - apply workers_asks.
  - apply remove_asks.
  - apply set_size_asks.
  - apply job_asks; [by apply (bool_decide_unpack _)|done|done].
  - apply job_asks; [by apply (bool_decide_unpack _)|done|]. intros _. by apply (parsed_no_bool _ _ _ Hp).
  - apply job_asks; [by apply (bool_decide_unpack _)|done|]. intros _. by apply (parsed_no_bool _ _ _ Hp).
  - apply job_asks; [by apply (bool_decide_unpack _)|done|]. intros _. by apply (parsed_no_bool _ _ _ Hp).
  - apply reload_asks.
  - apply job_asks; [by apply (bool_decide_unpack _)|done|]. intros _. by apply (parsed_no_bool _ _ _ Hp).
Qed.

Lemma client_flags_unambiguous : unambiguous commands.
Proof.
  split; [|by apply (bool_decide_unpack _)]. repeat constructor; by apply (bool_decide_unpack _).
Qed.
End understanding.

(** ** Listings *)

Section displays.
Context {ST : StampText} {TT : TimeText} {template : Type} (Execute : template -> row -> string * option error).

(** With a template each job is written on its own, in order, up to the first that fails;
    what was written before the failure stays written. *)
Lemma execute_all_spec tpl l :
  match execute_all Execute tpl l with
  | (out, None) => Forall (fun r => (Execute tpl r).2 = None) l
      /\ out = String.concat EmptyString ((fun r => (Execute tpl r).1 +:+ newline) <$> l)
  | (out, Some e) => exists l1 r l2 e', l = l1 ++ r :: l2 /\ Forall (fun r => (Execute tpl r).2 = None) l1
      /\ (Execute tpl r).2 = Some e' /\ e = "Error printing out information: " +:+ e'
      /\ out = String.concat EmptyString (((fun r => (Execute tpl r).1 +:+ newline) <$> l1) ++ [(Execute tpl r).1])
  end.
Proof.
  assert (Hc : forall s (l : list string), String.concat EmptyString (s :: l) = s +:+ String.concat EmptyString l).
  { intros s [|? ?]; [|done]. simpl. by rewrite string_app_nil_r. }
  induction l as [|r l IH]; [done|]. cbn [execute_all]. destruct (Execute tpl r) as [text err] eqn:Hr.
  destruct err as [e|].
  - exists [], r, l, e. by rewrite Hr.
  - destruct (execute_all Execute tpl l) as [out [e|]].
    + destruct IH as (l1 & r' & l2 & e' & -> & Hl1 & He & -> & ->). exists (r :: l1), r', l2, e'.
      split_and!; [done|constructor; [by rewrite Hr|done]|done|done|].
      rewrite fmap_cons, Hr. cbn [app fst]. by rewrite Hc, !string_app_assoc.
    + destruct IH as [Hl ->]. split; [constructor; [by rewrite Hr|done]|].
      by rewrite fmap_cons, Hr, Hc, !string_app_assoc.
Qed.
End displays.

(** ** Flags *)

Definition set_String (n s : string) (c : context) : context :=
  MkContext (fun m => if decide (m = n) then s else c.(cx_String) m) c.(cx_Bool) c.(cx_Int) c.(cx_Args).

Section flags.
Context {P L : Type} {WP : WorkerProvider P} {SL : SkipList string L} {MS : MirrorSort} {RO : RangeOrder}.
Context {TT : TimeText}.
Context (read_manager : string -> result ManagerConfig.config_file) (answer : ManagerConfig.opening -> option error).
Context (make_provider : Config -> mirrorConfig -> comp P).
Context (load_worker : string -> result Config) (ReadFile : string -> result string) (AppendCertsFromPEM : string -> bool).
Context (init_cgroup : cgroupConfig -> option error) (is_dir : string -> bool).
Context (post : string -> nat -> bool) (client : transport) (clock : nat -> Z).

Local Abbreviation daemons := (daemon_commands read_manager answer make_provider load_worker ReadFile
  AppendCertsFromPEM init_cgroup is_dir post client clock).

Lemma daemon_flags_unambiguous : unambiguous daemons.
Proof.
  split; [|by apply (bool_decide_unpack _)]. repeat constructor; by apply (bool_decide_unpack _).
Qed.

(** The pid file is declared by both daemons and used by neither. *)
Theorem pidfile_ignored cmd c file : cmd ∈ daemons ->
  StringFlag "pidfile" [] ("/run/tunasync/tunasync." +:+ cmd.(cmd_Name) +:+ ".pid") ∈ cmd.(cmd_Flags)
  /\ cmd.(cmd_Action) (set_String "pidfile" file c) = cmd.(cmd_Action) c.
Proof.
  unfold daemon_commands. rewrite !elem_of_cons, elem_of_nil. intros [->|[->| []]];
    (split; [by apply (bool_decide_unpack _)|reflexivity]).
Qed.

(** The manager never gets a status file from its command line. *)
Lemma no_status_file c : parsed manager_flags c -> (load_flags c).(ManagerConfig.fl_status_file) = EmptyString.
Proof.
  intros Hp. by apply (parsed_no_string _ _ _ Hp).
Qed.
End flags.

(** *** Witnesses *)

(** [tunasynctl restart -w w1 debian "delete, verbose"], with the flag --force that restart
    does not have. *)
Definition ex_context : context :=
  MkContext (fun n => if decide (n = "worker" \/ n = "w") then "w1" else EmptyString) (fun _ => false) (fun _ => 0)
    ["debian"; "delete, verbose"].

Definition ex_commands : list (command (context -> run)) :=
  ctl_commands (TT := decimal_time_text) (ST := decimal_stamp_text) (fun _ => false) Ctl.ex_read "/root/ctl.conf"
    (fun _ => Err "no such file") (fun _ => true) (fun _ => Ctl.ex_client) (fun _ => EmptyString) (fun _ => EmptyString)
    (template := unit) (fun _ => Ok tt) (fun _ _ => (EmptyString, None)) (fun l => l).

Definition ex_restart : command (context -> run) :=
  default (MkCommand EmptyString [] [] (fun _ => MkRun [] EmptyString None)) (ex_commands !! 8%nat).

Lemma ex_context_parsed : parsed ex_restart.(cmd_Flags) ex_context.
Proof.
  split; simpl; [|done|done]. intros n. case_decide as Hn; [|done]. intros _.
  exists "worker", ["w"], EmptyString. split; [by apply (bool_decide_unpack _)|].
  rewrite !elem_of_cons. tauto.
Qed.

Lemma command_line_understood_witness :
  wishes (TT := decimal_time_text) (RT := System.plain_router) "http://localhost:14242" (ex_restart.(cmd_Action) ex_context).(r_sent)
  ≡ₚ [Some (WCommand (MkClientCmd CmdRestart "debian" "w1" (Some ["delete"; "verbose"]) (Some ∅)))].
Proof.
  pose proof (command_line_understood (TT := decimal_time_text) (ST := decimal_stamp_text) (RT := System.plain_router)
    (fun _ => false) Ctl.ex_read "/root/ctl.conf" (fun _ => Err "no such file") (fun _ => true)
    (fun _ => Ctl.ex_client) (fun _ => EmptyString) (fun _ => EmptyString)
    (template := unit) (fun _ => Ok tt) (fun _ _ => (EmptyString, None)) (fun l => l) (fun l => Permutation_refl l)
    ex_restart ex_context) as H.
  exact (H ltac:(unfold ctl_commands; do 8 right; left) ex_context_parsed (Forall_nil_2 _)).
Defined.
